(* ===== verification/_CoqProject ===== *)
-Q . S2P
Prelude.v
Bytes.v
Types.v
Codec.v
Payload.v
UseCases.v
Crypto.v
Frames.v
Replay.v
Agent.v
Ledger.v
Broker.v
Transport.v
Link.v
Handshake.v
Policy.v
CaStore.v
CaConfig.v
Reconnect.v
BrokerDaemon.v
BrokerProgress.v
Keygen.v
Persist.v
Durable.v
CaEngine.v
EndToEnd.v
AgentApps.v
AgentRuns.v
AgentStreams.v
EmbassySensor.v
LinkSession.v
LinkSystem.v
LinkProgress.v
LinkStreams.v
CaService.v
ServiceSpec.v
Deployment.v
DeploymentService.v
SubscriberEnd.v
PublisherEnd.v
Ends.v
