(* ===== verification/Prelude.v ===== *)
(** * SecurePubSub: a verification development

    SecurePubSub is an attribute-based publish-subscribe system: agents seal signed,
    encrypted requests for a certificate authority (CA); the CA decides, from stored
    environments, subscriptions and a policy, who receives a publication, and seals a
    delivery for each; a broker that cannot read anything moves frames between the agents
    and the CA. This library models the Rust workspace src/implementations/rust (the
    paths below are relative to it) and proves that its parts do what they promise.

    ** How the code is read

    A Rust computation is a [result]: a value, an error, or a panic; a method on
    [&mut self] is a function in the monad [M S E], which returns the state on every
    outcome, so that what was mutated before an early return stays mutated. Buffers are
    lists of bytes that are written in place; fixed arrays are vectors; integers are [N]
    or [Z] with their width where it can be exceeded ([as u32] truncates, additions are
    checked or saturate as in the source). A [BTreeMap] or [HashMap] is a [gmap]; what
    iterates in key order sorts. An [async] step is a step of a sequence; where tasks
    interleave, the sequence is arbitrary.

    ** Parts, files and source

    - Prelude, Bytes: outcomes, the monad, its equations (the rewrite database [rust]);
      bytes, slices, big-endian integers, and buffers as concatenations of segments.
    - Types, Codec, Payload (crates/protocol-core: types.rs, codec.rs, payload.rs): the
      constants; the envelope parser and header encoder; the payload writer, cursor,
      operation parser, environment lookup and predicate evaluator.
    - Crypto, Frames (protocol-core: crypto.rs): sealing and opening, over a class of
      primitives; encoding and sealing into one buffer.
    - Replay (protocol-core: traits.rs; agent-core; ca-core): the replay interface and its
      two implementations.
    - Agent (crates/agent-core): requests, reception, the subscription flows.
    - Broker (crates/broker-core; the tasks of apps/brokerd/src/main.rs): router, offline
      queues, and the system of router and agent tasks under arbitrary events. Routing a
      delivery is two of them, as the code drops its lock before it stores a frame offline:
      anything may happen between. Ledger: the account of an agent's deliveries, which is
      not part of the program: which were accepted, where each is, and which were dropped
      or stored too late.
    - Transport (crates/transport, crates/embassy-transport): framing over two stacks.
    - BrokerDaemon (apps/brokerd/src/main.rs): settings, the accept loop with its bound on
      handshakes, and the task of every agent connection over its framed stream.
    - Link, Handshake, LinkSession, LinkSystem (crates/infrastructure-link; the sessions of
      brokerd and cad): frames of the link, its authentication, retransmission and
      deduplication, the reaction of either daemon to each event, and both over
      connections that break, as a system of frames on the way. LinkProgress: that system
      when a connection stays up. LinkStreams: [run_ca_session] and the loop of cad over
      the byte streams of their connections, which that system simulates.
    - Policy, CaStore, CaEngine (crates/ca-core/src/lib.rs): environment policies, the
      storage interface and the memory store, [CertificateAuthority::process].
    - Persist, Durable (ca-core): the snapshot codec, its commit protocol on a disk whose
      every system call may fail or be the last, and the store over it. What was not synced
      may be gone after the machine stops: of a file its contents, of the directory the
      renames since it was synced.
    - CaConfig, CaService (apps/cad/src/main.rs): the configuration, the policy and the
      directory built from it; start-up, reload, and the engine behind the link.
      ServiceSpec: what cad promises, as a transition system over the abstract store
      ([service_run]) whose labels are the requests, with their answers, and the
      configurations that take effect; cad implements it over requests, reloads and
      restarts, with exactly the labels that these are.
    - Keygen (apps/cad/src/keygen.rs): the generator of key files.
    - UseCases (crates/usecase-models), AgentApps, AgentRuns, AgentStreams, EmbassySensor
      (apps/*-agent): the typed models, the bundled agents with their loops, and what they
      put on their connections.
    - Reconnect (crates/app-common; [maintain_ca_link] of brokerd): connections that are
      made again, and their delays.
    - EndToEnd: agent, CA and agent composed. Deployment: brokerd, its agent sockets and its
      link on the one router they share, and cad. DeploymentService: the deployment as a
      run of the abstract service. BrokerProgress: brokerd while a connection stays up.
      SubscriberEnd, PublisherEnd, Ends: the programs of the bundled agents at the other
      ends of the connections of that deployment.

    A component promises its laws through a class, and its clients are proved against the
    class: [ReplayLaws] (both caches), [CaStoreLaws] (memory store, persistent store, and
    the persistent store of given limits), [EnvironmentPolicyLaws] (three policies),
    [OfflineQueueLaws] (memory queues), [RequestHandlerLaws] (the engine as the handler of
    link requests; [ResponsiveHandler]: it keeps answering, with deliveries a broker takes),
    [AsyncTransport] (both transports), [DeliveryRouter] (the router, alone and within
    brokerd; [AcceptingRouter]: while it has room it accepts well-formed deliveries of the
    CA).

    ** What the theorems show

    - Formats: what is sealed opens, and what opens was signed; parsers accept exactly the
      encodings, so formats are canonical; snapshot, link and transport frames round-trip.
    - The engine: [process] refines a relation on an abstract view of the store; a request
      changes only what it may; errors change nothing but claimed one-shot subscriptions;
      a replay is refused; what is stored stays well formed.
    - Stores: when the process is killed and started again, the persistent store finds every
      acknowledged change and no half of one. When the machine stops it finds the same, or
      an earlier state if the last sync of the directory failed, which the code ignores:
      [acknowledged_commit_lost]. A snapshot is replaced as a whole.
    - Broker: every delivery accepted for an agent is, once, written, held for the
      connection, or stored offline, or it was dropped when a connection ended and the
      offline queue was full; and they are in the order they were accepted, but for those
      that were stored when the agent had connected since they were looked up. The daemon
      puts them on the agent's sockets whole and within its bounds, and writes all it holds
      for a connection while that stays up.
    - The link: both sides authenticate by the shared key; whatever connections break, no
      request is processed twice, and none that was taken is lost, nor is a delivery, but
      for requests that are dropped before, when they do not fit a frame or no identifier
      can be drawn; when a connection stays up and the broker's queues have room, everything taken is processed and delivered within a bounded number of
      reads. The daemons over byte streams refine this system, and [CaService] states the
      result for them as they are started, with the queue sizes [main] checks. [Deployment]
      adds the agents: from requests on their sockets to deliveries on their sockets.
    - The service: cad, killed and started again at will, answers as the abstract service
      does, from what its configuration says and no other, and the file is always what its
      state is; a restart opens no window for replays. The deployment is such a service
      too, step by step, and every delivery an agent gets was made in a step in which the
      CA, with the keys, the policy and the store of that moment, found the publication
      authentic and authorised the pair of agents, for a subscription that the agent asked
      for. What a bundled subscriber then reports is what such a publication holds, and a
      bundled publisher's are made of its lines.
    - Configuration: it takes effect as a whole or not at all, and what it says is enforced.
    - Agents: reception is fail-closed and at most once; environments and predicates of the
      use cases are well typed and keep to their boundary, and the bundled agents reach
      exactly the agents they are meant for; frames sent on demand, by publishers and by
      the coordinator arrive in order, and the firmware's sensor writes exactly the frames
      of the protocol.
    - Keys: the generated files are private where they must be, and load as the keys.

    ** Third-party code

    Code outside the repository is a class with, where something is relied on, documented
    laws, and a concrete instance that shows the laws can hold: [Crypto] (x25519, ed25519,
    HKDF, ChaCha20-Poly1305 and the random generator), with [Toy.crypto]; [Sha256]; [Hex]
    and [HexEncode]; [Mpsc] (bounded channels), with [list_mpsc]; [EmbassyIo] (byte
    streams), with the stream of the crate's tests; [TokioFramed] (the length-delimited
    codec; [LinkCodecLaws] for the larger frames of the link; [FrameCodecLaws] where both
    ends of a connection are modelled). Cryptographic laws are
    functional correctness only: nothing here is about an attacker's computation. The
    network between the daemons is a hypothesis on runs, [network_run]: what an end has
    read, the other end has written before, in order; between agents and brokerd it is one
    on what the streams that are connected bring ([reaches], [connections_of]).

    ** Bounds and fuel

    The limits are the constants of the code ([MAX_FRAME_LEN], [MAX_PLAINTEXT_LEN], ...).
    Recursion follows the data or a measure that is proved enough: the unread part of the
    input for the payload loops, [drain_fuel] (the frames a registration can hold) for the
    requeue, the missing bytes for [read_exact] (every round reads one or ends:
    [read_exact_terminates]), the attempts to
    connect for a send, the whole text for [trim]. The loops that never end in the code
    (sessions, subscribers) take the number of rounds, over which the theorems quantify.

    ** Not modelled

    - Sockets, timers, spawning and cancellation of tasks: an operation has an outcome, and
      a timeout is an error; tokio's [select!] is the order of events.
    - serde, clap and the file system beyond the snapshot and key files; log messages,
      [Display] and [Debug].
    - [KeyStore], [Storage] and [Transport] of protocol-core's traits.rs, which nothing
      implements or calls.
    - A restart of a daemon within a run of the link: its state is in memory and starts
      empty, so the exactly-once statement is for the time both run; restarts of cad are
      in [ServiceSpec], where the sessions that are recorded on the disk take over.

    ** Plan

    Left for later: restarts of both daemons within a run of the deployment, and bounds on
    the steps from a request on one socket to the deliveries on others, of which the link
    ([LinkProgress]) and brokerd ([BrokerProgress]) have their parts. *)

From stdpp Require Export prelude gmap list sorting vector.
From Stdlib Require Export Lia.

(** ** Outcomes of Rust computations *)

(** A Rust computation returns a value, returns an error value, or panics
    (out-of-range indexing, failed [copy_from_slice], ...). *)
Inductive result (E A : Type) : Type :=
| Ok (a : A)
| Err (e : E)
| Panic.

Arguments Ok {E A} a.
Arguments Err {E A} e.
Arguments Panic {E A}.

#[export] Instance result_ret {E} : MRet (result E) := fun _ a => Ok a.
#[export] Instance result_bind {E} : MBind (result E) := fun _ _ f r =>
  match r with
  | Ok a => f a
  | Err e => Err e
  | Panic => Panic
  end.

Section result.
Context {E : Type}.

(** [Option::ok_or] *)
Definition ok_or {A} (o : option A) (e : E) : result E A :=
  match o with Some a => Ok a | None => Err e end.

(** [Result::map_err] *)
Definition map_err {E' A} (f : E -> E') (r : result E A) : result E' A :=
  match r with
  | Ok a => Ok a
  | Err e => Err (f e)
  | Panic => Panic
  end.

(** [Result::ok], on computations that do not panic. *)
Definition result_ok {A} (r : result E A) : option A :=
  match r with Ok a => Some a | _ => None end.

Definition is_ok {A} (r : result E A) : bool :=
  match r with Ok _ => true | _ => false end.
End result.

Lemma Ok_inj {E A} (a b : A) : Ok (E:=E) a = Ok b -> a = b.
Proof. by intros [= ->]. Qed.

Lemma is_ok_run {E A S} (r : result E A * S) :
  is_ok r.1 = true -> exists a s, r = (Ok a, s).
Proof. destruct r as [[a|e|] s]; [by exists a, s|done..]. Qed.

#[export] Instance result_eq_dec {E A} `{EqDecision E, EqDecision A} :
  EqDecision (result E A).
Proof. solve_decision. Defined.

(** ** The state-and-error monad

    [M S E A] is a method taking [&mut self] (or a shared store behind a lock)
    of state [S] and returning [Result<A, E>].  The state is returned on every
    outcome: what was mutated before an early return stays mutated. *)

Definition M (S E A : Type) : Type := S -> result E A * S.

#[export] Instance M_ret {S E} : MRet (M S E) := fun _ a s => (Ok a, s).
#[export] Instance M_bind {S E} : MBind (M S E) := fun _ _ f m s =>
  match m s with
  | (Ok a, s') => f a s'
  | (Err e, s') => (Err e, s')
  | (Panic, s') => (Panic, s')
  end.

Section monad.
Context {S E : Type}.

Definition fail {A} (e : E) : M S E A := fun s => (Err e, s).
Definition lift {A} (r : result E A) : M S E A := fun s => (r, s).
Definition gets {A} (f : S -> A) : M S E A := fun s => (Ok (f s), s).
Definition modify (f : S -> S) : M S E unit := fun s => (Ok tt, f s).

(** [e?] with a [From] conversion of the error. *)
Definition map_errM {E' A} (f : E' -> E) (m : M S E' A) : M S E A := fun s =>
  let '(r, s') := m s in (map_err f r, s').

(** Running a method of a component of the state, by a lens. *)
Definition zoom {T A} (view : S -> T) (set : T -> S -> S) (m : M T E A) : M S E A :=
  fun s => let '(r, t) := m (view s) in (r, set t s).

Lemma M_bind_run {A B} (m : M S E A) (f : A -> M S E B) s :
  (m ≫= f) s = match m s with
               | (Ok a, s') => f a s'
               | (Err e, s') => (Err e, s')
               | (Panic, s') => (Panic, s')
               end.
Proof. reflexivity. Qed.

Lemma M_bind_ok {A B} (m : M S E A) (f : A -> M S E B) s b s'' :
  (m ≫= f) s = (Ok b, s'') ->
  exists a s', m s = (Ok a, s') /\ f a s' = (Ok b, s'').
Proof. rewrite M_bind_run. destruct (m s) as [[a|e|] s'] eqn:Hm; naive_solver. Qed.

(** One step of a computation whose first action is known. *)
Lemma bind_run {A B} (m : M S E A) (f : A -> M S E B) s a s' :
  m s = (Ok a, s') -> (m ≫= f) s = f a s'.
Proof. rewrite M_bind_run. by intros ->. Qed.

Lemma bind_run_err {A B} (m : M S E A) (f : A -> M S E B) s e s' :
  m s = (Err e, s') -> (m ≫= f) s = (Err e, s').
Proof. rewrite M_bind_run. by intros ->. Qed.

Lemma bind_mret {A B} (a : A) (f : A -> M S E B) s : (mret a ≫= f) s = f a s.
Proof. reflexivity. Qed.
Lemma bind_fail {A B} (e : E) (f : A -> M S E B) s :
  (fail e ≫= f) s = (Err e, s).
Proof. reflexivity. Qed.
Lemma bind_lift_ok {A B} (a : A) (f : A -> M S E B) s : (lift (Ok a) ≫= f) s = f a s.
Proof. reflexivity. Qed.
Lemma bind_lift_err {A B} (e : E) (f : A -> M S E B) s :
  (lift (Err e) ≫= f) s = (Err e, s).
Proof. reflexivity. Qed.
Lemma bind_gets {A B} (g : S -> A) (f : A -> M S E B) s :
  (gets g ≫= f) s = f (g s) s.
Proof. reflexivity. Qed.
Lemma bind_modify {B} (g : S -> S) (f : unit -> M S E B) s :
  (modify g ≫= f) s = f tt (g s).
Proof. reflexivity. Qed.
Lemma bind_assoc {A B C} (m : M S E A) (f : A -> M S E B) (g : B -> M S E C) s :
  ((m ≫= f) ≫= g) s = (m ≫= (fun a => f a ≫= g)) s.
Proof. rewrite !M_bind_run. by destruct (m s) as [[a|e|] s']. Qed.
End monad.

(** The equations that run a monadic program step by step. *)
Create Rewrite HintDb rust.
#[export] Hint Rewrite @bind_mret @bind_fail @bind_lift_ok @bind_lift_err
  @bind_gets @bind_modify @bind_assoc : rust.

(** ** Inverting successful computations *)

Lemma guard_Ok {E A} (b : bool) (e : E) (k : result E A) a :
  (if b then Err e else k) = Ok a <-> b = false /\ k = Ok a.
Proof. destruct b; naive_solver. Qed.

Lemma result_bind_Ok {E A B} (r : result E A) (f : A -> result E B) b :
  r ≫= f = Ok b <-> exists a, r = Ok a /\ f a = Ok b.
Proof. destruct r; cbn; naive_solver. Qed.

Lemma bind_Ok {E A B} (a : A) (f : A -> result E B) : Ok a ≫= f = f a.
Proof. reflexivity. Qed.

Lemma ok_or_Ok {E A} (o : option A) (e : E) a : ok_or o e = Ok a <-> o = Some a.
Proof. destruct o; cbn; naive_solver. Qed.

Lemma map_err_Ok {E E' A} (f : E -> E') (r : result E A) a :
  map_err f r = Ok a <-> r = Ok a.
Proof. destruct r; cbn; naive_solver. Qed.

(** An element for every index below the length. *)
Lemma list_choice {A} (P : nat -> A -> Prop) k : (forall n, n < k -> exists a, P n a) ->
  exists l, length l = k /\ forall n a, l !! n = Some a -> P n a.
Proof.
  induction k as [|k IH]; intros Hall; [by exists []|].
  destruct IH as (l & <- & Hl); [by auto with lia|]. destruct (Hall (length l)) as [a Ha]; [lia|].
  exists (l ++ [a]). rewrite length_app, Nat.add_comm. split; [done|].
  intros n b [?|[Hn Hb]]%lookup_app_Some; [by apply Hl|].
  apply list_lookup_singleton_Some in Hb as [Hz <-]. by replace n with (length l) by lia.
Qed.

(** Boolean tests of the code as the propositions they decide. *)
Create Rewrite HintDb bool_prop.
#[export] Hint Rewrite negb_false_iff negb_true_iff orb_false_iff orb_true_iff
  andb_true_iff andb_false_iff bool_decide_eq_true bool_decide_eq_false
  N.eqb_eq N.eqb_neq N.ltb_lt N.ltb_ge N.leb_le N.leb_gt
  Nat.eqb_eq Nat.eqb_neq Nat.ltb_lt Nat.ltb_ge Nat.leb_le Nat.leb_gt : bool_prop.

(** Peels guards and binds off [H : r = Ok a]. *)
Ltac res_inv H :=
  repeat first
    [ let Hg := fresh "Hg" in
      apply guard_Ok in H as [Hg H]; autorewrite with bool_prop in Hg
    | let a := fresh "a" in let Ha := fresh "Ha" in
      apply result_bind_Ok in H as (a & Ha & H); try apply ok_or_Ok in Ha
    | progress cbn beta iota in H ];
  simplify_eq.
