(* ===== verification/Bytes.v ===== *)
(** Bytes, fixed-size arrays, slices and big-endian integers: the part of
    [core] (slice indexing, [to_be_bytes], [try_into]) the crates rely on. *)

From Stdlib Require Export Strings.Byte NArith ZArith.
From S2P Require Export Prelude.

(** ** Bytes *)

Abbreviation byte := Byte.byte.

#[export] Instance byte_eq_dec : EqDecision byte := Byte.byte_eq_dec.

(** The value of a [u8]. *)
Definition byte_val (b : byte) : N := Byte.to_N b.

(** [x as u8]: truncation modulo 256. *)
Definition byte_of (x : N) : byte :=
  default Byte.x00 (Byte.of_N (x mod 256)).

Lemma byte_val_lt b : (byte_val b < 256)%N.
Proof. pose proof (Byte.to_N_bounded b). unfold byte_val. lia. Qed.

Lemma byte_val_of x : byte_val (byte_of x) = (x mod 256)%N.
Proof.
  unfold byte_val, byte_of.
  pose proof (N.mod_upper_bound x 256 ltac:(lia)) as Hlt.
  destruct (Byte.of_N (x mod 256)) as [b|] eqn:Hb; simpl.
  - by apply Byte.to_of_N.
  - apply Byte.of_N_None_iff in Hb. lia.
Qed.

Lemma byte_of_val b : byte_of (byte_val b) = b.
Proof.
  unfold byte_of. rewrite N.mod_small by apply byte_val_lt.
  unfold byte_val. by rewrite Byte.of_to_N.
Qed.

#[export] Instance byte_val_inj : Inj (=) (=) byte_val.
Proof. intros b1 b2 Heq. by rewrite <-(byte_of_val b1), <-(byte_of_val b2), Heq. Qed.

#[export] Instance byte_countable : Countable byte.
Proof. apply (inj_countable' byte_val byte_of), byte_of_val. Defined.

(** ** Big-endian integers *)

(** [uN::to_be_bytes] for an [n]-byte integer. *)
Fixpoint to_be (n : nat) (x : N) : list byte :=
  match n with
  | O => []
  | S n' => byte_of (x / 256 ^ N.of_nat n') :: to_be n' x
  end.

(** [uN::from_be_bytes] *)
Definition from_be (l : list byte) : N :=
  foldl (fun acc b => acc * 256 + byte_val b)%N 0%N l.

Lemma length_to_be n x : length (to_be n x) = n.
Proof. induction n; simpl; congruence. Qed.

Lemma from_be_acc l acc :
  foldl (fun acc b => acc * 256 + byte_val b)%N acc l
  = (acc * 256 ^ N.of_nat (length l) + from_be l)%N.
Proof.
  unfold from_be. revert acc. induction l as [|b l IH]; intros acc; cbn [foldl length].
  - cbn. lia.
  - rewrite IH, (IH (0 * 256 + byte_val b)%N).
    rewrite Nat2N.inj_succ, N.pow_succ_r'. lia.
Qed.

Lemma from_be_cons b l :
  from_be (b :: l) = (byte_val b * 256 ^ N.of_nat (length l) + from_be l)%N.
Proof. unfold from_be at 1. cbn [foldl]. by rewrite from_be_acc. Qed.

Lemma from_be_lt l : (from_be l < 256 ^ N.of_nat (length l))%N.
Proof.
  induction l as [|b l IH]; [done|].
  rewrite from_be_cons. cbn [length]. rewrite Nat2N.inj_succ, N.pow_succ_r'.
  pose proof (byte_val_lt b). nia.
Qed.

Lemma pow256_pos n : (0 < 256 ^ N.of_nat n)%N.
Proof. apply N.neq_0_lt_0, N.pow_nonzero. lia. Qed.

Lemma from_be_to_be n x : from_be (to_be n x) = (x mod 256 ^ N.of_nat n)%N.
Proof.
  induction n as [|n IH]; cbn [to_be].
  - cbn. by rewrite N.mod_1_r.
  - rewrite from_be_cons, length_to_be, byte_val_of, IH.
    rewrite Nat2N.inj_succ, N.pow_succ_r'.
    pose proof (pow256_pos n).
    rewrite (N.mul_comm 256), N.Div0.mod_mul_r. lia.
Qed.

Lemma from_be_to_be_small n x :
  (x < 256 ^ N.of_nat n)%N -> from_be (to_be n x) = x.
Proof. intros Hx. by rewrite from_be_to_be, N.mod_small. Qed.

Lemma to_be_mod n m x :
  (n <= m)%nat -> to_be n (x mod 256 ^ N.of_nat m) = to_be n x.
Proof.
  induction n as [|n IH]; intros Hle; cbn [to_be]; [done|].
  rewrite IH by lia. f_equal.
  apply (inj byte_val). rewrite !byte_val_of.
  replace (N.of_nat m) with (N.of_nat n + (N.of_nat (m - n - 1) + 1))%N by lia.
  rewrite N.pow_add_r.
  pose proof (pow256_pos n). pose proof (pow256_pos (m - n - 1)).
  rewrite N.Div0.mod_mul_r.
  rewrite N.add_comm, N.mul_comm, N.div_add_l by lia.
  rewrite (N.div_small (x mod _)) by (apply N.mod_upper_bound; lia).
  rewrite N.add_0_r, N.add_comm, N.pow_add_r, N.pow_1_r, N.Div0.mod_mul_r.
  rewrite (N.mul_comm 256), N.Div0.mod_add, N.Div0.mod_mod. done.
Qed.

Lemma to_be_from_be l : to_be (length l) (from_be l) = l.
Proof.
  induction l as [|b l IH]; [done|].
  cbn [length to_be]. rewrite from_be_cons. f_equal.
  - pose proof (from_be_lt l). pose proof (pow256_pos (length l)).
    rewrite N.div_add_l, N.div_small by lia. rewrite N.add_0_r. apply byte_of_val.
  - rewrite <-(to_be_mod _ (length l)) by lia.
    rewrite N.add_comm, N.Div0.mod_add.
    rewrite N.mod_small by apply from_be_lt. done.
Qed.

(** *** [i64] as two's complement *)

Definition i64_min : Z := - 2 ^ 63.
Definition i64_max : Z := 2 ^ 63 - 1.
Definition i64_wf (z : Z) : Prop := (i64_min <= z <= i64_max)%Z.

(** [i64::to_be_bytes] *)
Definition i64_to_be (z : Z) : list byte := to_be 8 (Z.to_N (z mod 2 ^ 64)).

(** [i64::from_be_bytes] *)
Definition i64_from_be (l : list byte) : Z :=
  let u := Z.of_N (from_be l) in
  if (u <? 2 ^ 63)%Z then u else (u - 2 ^ 64)%Z.

Lemma length_i64_to_be z : length (i64_to_be z) = 8.
Proof. apply length_to_be. Qed.

Lemma i64_from_to_be z : i64_wf z -> i64_from_be (i64_to_be z) = z.
Proof.
  unfold i64_wf, i64_min, i64_max, i64_from_be, i64_to_be. intros Hz.
  pose proof (Z.mod_pos_bound z (2 ^ 64) ltac:(lia)).
  pose proof (Z.div_mod z (2 ^ 64) ltac:(lia)).
  rewrite from_be_to_be_small by (change (256 ^ N.of_nat 8)%N with (2 ^ 64)%N; lia).
  rewrite Z2N.id by lia. destruct (Z.ltb_spec (z mod 2 ^ 64) (2 ^ 63)); lia.
Qed.

Lemma i64_to_from_be l : length l = 8 -> i64_to_be (i64_from_be l) = l.
Proof.
  intros Hl. pose proof (from_be_lt l) as Hlt. rewrite Hl in Hlt.
  change (256 ^ N.of_nat 8)%N with (2 ^ 64)%N in Hlt.
  unfold i64_to_be, i64_from_be.
  replace (Z.to_N _) with (from_be l); [rewrite <-Hl; apply to_be_from_be|].
  destruct (Z.ltb_spec (Z.of_N (from_be l)) (2 ^ 63)).
  - rewrite Z.mod_small by lia. by rewrite N2Z.id.
  - replace ((Z.of_N (from_be l) - 2 ^ 64) mod 2 ^ 64)%Z with (Z.of_N (from_be l));
      [by rewrite N2Z.id|].
    apply (Z.mod_unique _ _ (-1)); lia.
Qed.

Lemma i64_from_be_wf l : length l = 8 -> i64_wf (i64_from_be l).
Proof.
  intros Hl. pose proof (from_be_lt l) as Hlt. rewrite Hl in Hlt.
  change (256 ^ N.of_nat 8)%N with (2 ^ 64)%N in Hlt.
  unfold i64_wf, i64_min, i64_max, i64_from_be.
  destruct (Z.ltb_spec (Z.of_N (from_be l)) (2 ^ 63)); lia.
Qed.

(** ** Machine words and [usize] arithmetic *)

Definition u8_max : N := 255.
Definition u16_max : N := 65535.
Definition u32_max : N := 4294967295.
Definition u64_max : N := 18446744073709551615.

(** [usize::checked_add] on a 64-bit target; positions and lengths are kept as
    [nat], so the overflow test is made in [N]. *)
Definition checked_add (a b : nat) : option nat :=
  if (N.of_nat a + N.of_nat b <=? u64_max)%N then Some (a + b) else None.

(** [uN::try_from(usize)]. *)
Definition try_from_usize (max : N) (x : nat) : option N :=
  if (N.of_nat x <=? max)%N then Some (N.of_nat x) else None.

(** [u64::saturating_add] *)
Definition saturating_add (a b : N) : N := N.min (a + b) u64_max.

Lemma checked_add_Some a b c :
  checked_add a b = Some c <-> c = a + b /\ (N.of_nat a + N.of_nat b <= u64_max)%N.
Proof.
  unfold checked_add. destruct (N.leb_spec (N.of_nat a + N.of_nat b) u64_max); split.
  - intros [= <-]. done.
  - intros [-> _]. done.
  - done.
  - intros [_ ?]. lia.
Qed.

(** ** Arrays [[u8; N]] *)

Abbreviation array n := (vec byte n).

(** [<&[u8]>::try_into::<[u8; N]>]: succeeds exactly on the right length. *)
Fixpoint to_array (n : nat) (l : list byte) : option (array n) :=
  match n, l with
  | O, [] => Some [#]
  | S n', b :: l' => vcons b <$> to_array n' l'
  | _, _ => None
  end.

Lemma to_array_to_list {n} (v : array n) : to_array n (vec_to_list v) = Some v.
Proof. induction v as [|b n v IH]; simpl; [done|]. by rewrite IH. Qed.

#[export] Instance array_countable n : Countable (array n) :=
  inj_countable vec_to_list (to_array n) to_array_to_list.

Lemma to_array_Some n l v : to_array n l = Some v <-> l = vec_to_list v.
Proof.
  split; [|intros ->; apply to_array_to_list].
  revert l v. induction n as [|n IH]; intros [|b l] v; simpl; try done.
  - intros [= <-]. done.
  - intros (w & ->%IH & ->)%fmap_Some. done.
Qed.

Lemma to_array_length n l : is_Some (to_array n l) <-> length l = n.
Proof.
  split.
  - intros [v ->%to_array_Some]. apply length_vec_to_list.
  - revert l. induction n as [|n IH]; intros [|b l]; simpl; intros Hl; try done; try (by eexists).
    destruct (IH l) as [v ->]; [congruence|]. by eexists.
Qed.

(** ** Slices *)

(** [s.get(a..b)] *)
Definition get_range {A} (s : list A) (a b : nat) : option (list A) :=
  if (a <=? b) && (b <=? length s) then Some (take (b - a) (drop a s)) else None.

Section slices.
Context {E A : Type}.
Implicit Types s src : list A.

(** [s[i]] *)
Definition index s (i : nat) : result E A :=
  match s !! i with Some x => Ok x | None => Panic end.

(** [&s[a..b]] *)
Definition slice s (a b : nat) : result E (list A) :=
  match get_range s a b with Some t => Ok t | None => Panic end.

(** [s[a..b].copy_from_slice(src)]: the new contents of [s]. *)
Definition write_range s (a b : nat) (src : list A) : result E (list A) :=
  if (a <=? b) && (b <=? length s) && (length src =? b - a)
  then Ok (take a s ++ src ++ drop b s) else Panic.

(** [s[i] = x] *)
Definition write_index s (i : nat) (x : A) : result E (list A) :=
  if i <? length s then Ok (<[i := x]> s) else Panic.

Lemma get_range_Some s a b t :
  get_range s a b = Some t <-> a <= b /\ b <= length s /\ t = take (b - a) (drop a s).
Proof.
  unfold get_range.
  destruct (Nat.leb_spec a b), (Nat.leb_spec b (length s)); simpl; split;
    try (intros [= <-]); try (intros (? & ? & ->)); done || lia.
Qed.

Lemma get_range_None s a b : get_range s a b = None <-> b < a \/ length s < b.
Proof.
  unfold get_range.
  destruct (Nat.leb_spec a b), (Nat.leb_spec b (length s)); simpl; split;
    try done; try lia.
Qed.

Lemma slice_eq s a b :
  a <= b -> b <= length s -> slice s a b = Ok (take (b - a) (drop a s)).
Proof.
  intros. unfold slice, get_range.
  by rewrite (proj2 (Nat.leb_le a b)), (proj2 (Nat.leb_le b (length s))) by done.
Qed.

Lemma write_range_eq s a b src :
  a <= b -> b <= length s -> length src = b - a ->
  write_range s a b src = Ok (take a s ++ src ++ drop b s).
Proof.
  intros. unfold write_range.
  rewrite (proj2 (Nat.leb_le a b)), (proj2 (Nat.leb_le b (length s))) by done.
  by rewrite (proj2 (Nat.eqb_eq _ _)).
Qed.

Lemma index_eq s i x : s !! i = Some x -> index s i = Ok x.
Proof. unfold index. by intros ->. Qed.

Lemma write_index_eq s i x :
  i < length s -> write_index s i x = Ok (<[i := x]> s).
Proof. intros. unfold write_index. by rewrite (proj2 (Nat.ltb_lt _ _)). Qed.
End slices.

(** The slice starting at [length pre] of a buffer laid out as [pre ++ s ++ post]. *)
Lemma slice_app {E A} (pre s post : list A) a b :
  a = length pre -> b = length pre + length s ->
  slice (E:=E) (pre ++ s ++ post) a b = Ok s.
Proof.
  intros -> ->. rewrite slice_eq by (rewrite ?length_app; lia).
  rewrite drop_app_length. by rewrite take_app_length' by lia.
Qed.

(** Lexicographic order on byte strings, [<[u8] as Ord>::cmp]. *)
Fixpoint bytes_compare (l k : list byte) : comparison :=
  match l, k with
  | [], [] => Eq
  | [], _ => Lt
  | _, [] => Gt
  | b :: l', c :: k' =>
      match (byte_val b ?= byte_val c)%N with
      | Eq => bytes_compare l' k'
      | o => o
      end
  end.

Lemma bytes_compare_eq l k : bytes_compare l k = Eq <-> l = k.
Proof.
  revert k. induction l as [|b l IH]; intros [|c k]; simpl; try done.
  destruct (byte_val b ?= byte_val c)%N eqn:Hc; rewrite ?IH.
  - apply N.compare_eq in Hc. apply (inj byte_val) in Hc as ->.
    split; [by intros ->|by intros [= ->]].
  - split; [done|]. intros [= -> ->]. by rewrite N.compare_refl in Hc.
  - split; [done|]. intros [= -> ->]. by rewrite N.compare_refl in Hc.
Qed.

Lemma bytes_compare_antisym l k : bytes_compare k l = CompOpp (bytes_compare l k).
Proof.
  revert k. induction l as [|b l IH]; intros [|c k]; simpl; try done.
  rewrite (N.compare_antisym (byte_val b)), IH. by destruct (byte_val b ?= byte_val c)%N.
Qed.

(** The order is transitive: [o] is what two steps of the order compose to. *)
Lemma bytes_compare_le_trans l k m :
  bytes_compare l k <> Gt -> bytes_compare k m <> Gt -> bytes_compare l m <> Gt.
Proof.
  revert k m. induction l as [|b l IH]; intros [|c k] [|d m]; simpl; try done.
  destruct (N.compare_spec (byte_val b) (byte_val c)) as [->|Hbc|Hbc]; [|intros _|done].
  - destruct (byte_val c ?= byte_val d)%N; [apply IH|done|done].
  - destruct (N.compare_spec (byte_val c) (byte_val d)) as [<-|Hcd|Hcd]; [| |done]; intros _.
    + by rewrite (proj2 (N.compare_lt_iff _ _) Hbc).
    + by rewrite (proj2 (N.compare_lt_iff (byte_val b) (byte_val d))) by lia.
Qed.

(** ** Buffers updated in place *)

Section buffers.
Context {E : Type}.

(** [output[a..b].copy_from_slice(src)] on the buffer that is the state. *)
Definition put_range {A} (a b : nat) (src : list A) : M (list A) E unit := fun s =>
  match write_range (E:=E) s a b src with
  | Ok s' => (Ok tt, s')
  | Err e => (Err e, s)
  | Panic => (Panic, s)
  end.

(** [output[i] = x] *)
Definition put_index {A} (i : nat) (x : A) : M (list A) E unit := fun s =>
  match write_index (E:=E) s i x with
  | Ok s' => (Ok tt, s')
  | Err e => (Err e, s)
  | Panic => (Panic, s)
  end.

(** Runs [m] on the sub-slice [&mut output[a..b]]. *)
Definition on_range {A B} (a b : nat) (m : M (list A) E B) : M (list A) E B := fun s =>
  match get_range s a b with
  | None => (Panic, s)
  | Some sub => let '(r, sub') := m sub in (r, take a s ++ sub' ++ drop b s)
  end.
End buffers.

(** ** Byte strings laid out as a sequence of segments

    A wire format is a concatenation of fields; reading or writing at the
    constant offsets of a field is reading or writing that segment. *)

Section segments.
Context {E A : Type}.
Implicit Types (segs : list (list A)) (s : list A).

Definition seg_offset (k : nat) segs : nat := length (concat (take k segs)).

Lemma concat_split k segs s :
  segs !! k = Some s ->
  concat segs = concat (take k segs) ++ s ++ concat (drop (S k) segs).
Proof.
  intros Hk. rewrite <-(take_drop_middle segs k s Hk) at 1.
  by rewrite concat_app.
Qed.

Lemma slice_concat segs k s i j :
  segs !! k = Some s -> i = seg_offset k segs -> j = i + length s ->
  slice (E:=E) (concat segs) i j = Ok s.
Proof. intros Hk -> ->. rewrite (concat_split k segs s) by done. by apply slice_app. Qed.

Lemma index_concat segs k x i :
  segs !! k = Some [x] -> i = seg_offset k segs ->
  index (E:=E) (concat segs) i = Ok x.
Proof.
  intros Hk ->. apply index_eq. rewrite (concat_split k segs [x]) by done.
  rewrite lookup_app_r by done. unfold seg_offset. by rewrite Nat.sub_diag.
Qed.

Lemma put_range_concat segs k s src i j :
  segs !! k = Some s -> i = seg_offset k segs -> j = i + length s ->
  length src = length s ->
  put_range (E:=E) i j src (concat segs) = (Ok tt, concat (<[k := src]> segs)).
Proof.
  intros Hk -> -> Hsrc. pose proof (lookup_lt_Some _ _ _ Hk).
  unfold put_range.
  rewrite (concat_split k segs s) at 1 by done.
  rewrite write_range_eq by (unfold seg_offset; rewrite ?length_app; lia).
  rewrite (concat_split k (<[k:=src]> segs) src) by (by apply list_lookup_insert_eq).
  rewrite take_insert_ge, drop_insert_lt by lia.
  unfold seg_offset. rewrite take_app_length.
  f_equal. f_equal. f_equal.
  by rewrite app_assoc, drop_app_length' by (by rewrite length_app).
Qed.

Lemma put_index_concat segs k x y i :
  segs !! k = Some [x] -> i = seg_offset k segs ->
  put_index (E:=E) i y (concat segs) = (Ok tt, concat (<[k := [y]]> segs)).
Proof.
  intros Hk ->. pose proof (lookup_lt_Some _ _ _ Hk).
  unfold put_index. rewrite (concat_split k segs [x]) at 1 by done.
  rewrite write_index_eq by (unfold seg_offset; rewrite !length_app; simpl; lia).
  rewrite (concat_split k (<[k:=[y]]> segs) [y]) by (by apply list_lookup_insert_eq).
  rewrite take_insert_ge, drop_insert_lt by lia.
  unfold seg_offset. by rewrite insert_app_r_alt, Nat.sub_diag by done.
Qed.
End segments.

Lemma get_range_concat {A} (segs : list (list A)) k s i j :
  segs !! k = Some s -> i = seg_offset k segs -> j = i + length s ->
  get_range (concat segs) i j = Some s.
Proof.
  intros Hk Hi Hj. pose proof (slice_concat (E:=unit) segs k s i j Hk Hi Hj) as Hs.
  unfold slice in Hs. destruct (get_range (concat segs) i j); naive_solver.
Qed.

(** Cutting a long enough list into segments of given widths. *)
Lemma segments_exist {A} (widths : list nat) (l : list A) :
  sum_list widths <= length l ->
  exists segs rest, l = concat segs ++ rest /\ length <$> segs = widths.
Proof.
  revert l. induction widths as [|w ws IH]; intros l Hl; simpl in *.
  - by exists [], l.
  - destruct (IH (drop w l)) as (segs & rest & Heq & Hws);
      [rewrite length_drop; lia|].
    exists (take w l :: segs), rest. split; simpl.
    + by rewrite <-app_assoc, <-Heq, take_drop.
    + f_equal; [rewrite length_take; lia|done].
Qed.

(** Lengths of concatenated fields. *)
Ltac seg_len :=
  unfold seg_offset; cbn [concat take drop];
  repeat (rewrite ?length_app, ?length_vec_to_list, ?length_to_be; cbn [length]); lia.

(** Runs the next write of a monadic program into segment [k]. *)
Ltac put_step k :=
  erewrite bind_run by
    (first [ eapply (put_range_concat _ k); [reflexivity|seg_len..]
           | eapply (put_index_concat _ k); [reflexivity|seg_len] ]);
  cbn [insert list_insert].

(** Resolves a read [slice segs i j] or [index segs i] of segment [k]. *)
Ltac get_step i k :=
  first [ erewrite (slice_concat _ k _ i) by first [reflexivity | seg_len]
        | erewrite (index_concat _ k _ i) by first [reflexivity | seg_len] ].

(** Cuts [segs : list _] with known segment lengths [Hw : length <$> segs = _]
    into its segments. *)
Ltac cut_segments segs Hw :=
  lazymatch type of Hw with
  | _ = _ :: _ =>
      let s := fresh "seg" in
      destruct segs as [|s segs]; [discriminate Hw|];
      apply (f_equal tail) in Hw as Htl; apply (f_equal head) in Hw;
      injection Hw as Hw; let Hs := fresh "Hlen" in rename Hw into Hs;
      rename Htl into Hw; cbn [tail fmap list_fmap] in Hw; cut_segments segs Hw
  | _ = [] => destruct segs as [|? ?]; [clear Hw|discriminate Hw]
  end.

Lemma take_concat_prefix {A} k (segs : list (list A)) n :
  n = length (concat (take k segs)) -> take n (concat segs) = concat (take k segs).
Proof.
  intros ->. rewrite <-(take_drop k segs) at 2. rewrite concat_app.
  by rewrite take_app_length.
Qed.
