(* ===== verification/Types.v ===== *)
(** protocol-core/src/types.rs: protocol constants, identifiers, message types,
    operators and errors. *)

From S2P Require Export Bytes.

(** ** Constants *)

(** [b"SPUBSUB\0"] *)
Definition MAGIC : array 8 := [# x53; x50; x55; x42; x53; x55; x42; x00].
(** [b"SecurePubSub/v1"] *)
Definition PROTOCOL_ID : list byte :=
  [x53; x65; x63; x75; x72; x65; x50; x75; x62; x53; x75; x62; x2f; x76; x31].
Definition VERSION : byte := x01.
Definition HEADER_LEN : nat := 148.
Definition TAG_LEN : nat := 16.
Definition SIGNATURE_LEN : nat := 64.
Definition MAX_PLAINTEXT_LEN : nat := 4096.
Definition MAX_FRAME_LEN : nat := HEADER_LEN + MAX_PLAINTEXT_LEN + TAG_LEN + SIGNATURE_LEN.
Definition MAX_ATTRIBUTES : nat := 16.
Definition MAX_CLAUSES : nat := 8.
Definition MAX_ATTRIBUTE_BYTES : nat := 64.
Definition MAX_VALUE_BYTES : nat := 3072.

(** ** Identifiers *)

Record AgentId := mkAgentId { agent_bytes : array 16 }.
Record SessionId := mkSessionId { session_bytes : array 16 }.
Record HandlerId := mkHandlerId { handler_bytes : array 16 }.
(** [TypeId(pub u32)] and [AttributeId(pub u16)]: the integer, with the width
    of the field as a well-formedness condition. *)
Record TypeId := mkTypeId { type_raw : N }.
Record AttributeId := mkAttributeId { attribute_raw : N }.

Definition type_wf (t : TypeId) : Prop := (type_raw t <= u32_max)%N.
Definition attribute_wf (a : AttributeId) : Prop := (attribute_raw a <= u16_max)%N.

#[export] Instance AgentId_eq_dec : EqDecision AgentId.
Proof. solve_decision. Defined.
#[export] Instance SessionId_eq_dec : EqDecision SessionId.
Proof. solve_decision. Defined.
#[export] Instance HandlerId_eq_dec : EqDecision HandlerId.
Proof. solve_decision. Defined.
#[export] Instance TypeId_eq_dec : EqDecision TypeId.
Proof. solve_decision. Defined.
#[export] Instance AttributeId_eq_dec : EqDecision AttributeId.
Proof. solve_decision. Defined.

#[export] Instance AgentId_countable : Countable AgentId.
Proof. by apply (inj_countable' agent_bytes mkAgentId); intros []. Defined.
#[export] Instance SessionId_countable : Countable SessionId.
Proof. by apply (inj_countable' session_bytes mkSessionId); intros []. Defined.
#[export] Instance HandlerId_countable : Countable HandlerId.
Proof. by apply (inj_countable' handler_bytes mkHandlerId); intros []. Defined.
#[export] Instance TypeId_countable : Countable TypeId.
Proof. by apply (inj_countable' type_raw mkTypeId); intros []. Defined.
#[export] Instance AttributeId_countable : Countable AttributeId.
Proof. by apply (inj_countable' attribute_raw mkAttributeId); intros []. Defined.

(** [AgentId::CA], the reserved identity of the CA. *)
Definition AgentId_CA : AgentId := mkAgentId (vreplicate 16 x00).
(** [HandlerId::NONE] *)
Definition HandlerId_NONE : HandlerId := mkHandlerId (vreplicate 16 x00).

(** ** Message types *)

Module MessageType.
Inductive t :=
| SetEnvironment
| SubscribePermanent
| Publish
| PublicationResponse
| Subscribe.

#[global] Instance eq_dec : EqDecision t.
Proof. solve_decision. Defined.
End MessageType.
Abbreviation MessageType := MessageType.t.

(** [message_type as u8] *)
Definition message_type_u8 (m : MessageType) : byte :=
  match m with
  | MessageType.SetEnvironment => x01
  | MessageType.SubscribePermanent => x02
  | MessageType.Publish => x03
  | MessageType.PublicationResponse => x04
  | MessageType.Subscribe => x05
  end.

(** [MessageType::from_u8] *)
Definition message_type_from_u8 (value : byte) : option MessageType :=
  match value with
  | x01 => Some MessageType.SetEnvironment
  | x02 => Some MessageType.SubscribePermanent
  | x03 => Some MessageType.Publish
  | x04 => Some MessageType.PublicationResponse
  | x05 => Some MessageType.Subscribe
  | _ => None
  end.

(** [MessageType::direction] *)
Definition direction (m : MessageType) : byte :=
  match m with MessageType.PublicationResponse => x02 | _ => x01 end.

(** [MessageType::domain]: [b"env"], [b"subscription"],
    [b"subscription-one-shot"], [b"publication-request"],
    [b"publication-response"]. *)
Definition domain (m : MessageType) : list byte :=
  match m with
  | MessageType.SetEnvironment => [x65; x6e; x76]
  | MessageType.SubscribePermanent =>
      [x73; x75; x62; x73; x63; x72; x69; x70; x74; x69; x6f; x6e]
  | MessageType.Subscribe =>
      [x73; x75; x62; x73; x63; x72; x69; x70; x74; x69; x6f; x6e;
       x2d; x6f; x6e; x65; x2d; x73; x68; x6f; x74]
  | MessageType.Publish =>
      [x70; x75; x62; x6c; x69; x63; x61; x74; x69; x6f; x6e;
       x2d; x72; x65; x71; x75; x65; x73; x74]
  | MessageType.PublicationResponse =>
      [x70; x75; x62; x6c; x69; x63; x61; x74; x69; x6f; x6e;
       x2d; x72; x65; x73; x70; x6f; x6e; x73; x65]
  end.

(** ** Comparison operators *)

Module Operator.
Inductive t := Eq | Ne | Lt | Le | Gt | Ge.

#[global] Instance eq_dec : EqDecision t.
Proof. solve_decision. Defined.
End Operator.
Abbreviation Operator := Operator.t.

(** [operator as u8] *)
Definition operator_u8 (o : Operator) : byte :=
  match o with
  | Operator.Eq => x01 | Operator.Ne => x02 | Operator.Lt => x03
  | Operator.Le => x04 | Operator.Gt => x05 | Operator.Ge => x06
  end.

(** [Operator::from_u8] *)
Definition operator_from_u8 (value : byte) : option Operator :=
  match value with
  | x01 => Some Operator.Eq
  | x02 => Some Operator.Ne
  | x03 => Some Operator.Lt
  | x04 => Some Operator.Le
  | x05 => Some Operator.Gt
  | x06 => Some Operator.Ge
  | _ => None
  end.

(** ** Errors *)

Module Error.
Inductive t :=
| Malformed
| UnsupportedVersion
| Oversized
| BadSignature
| Replay
| CryptoFailure
| WrongRecipient
| WrongMessageType
| WrongHandler
| RandomFailure
| Capacity
| UnauthorizedEnvironment.

#[global] Instance eq_dec : EqDecision t.
Proof. solve_decision. Defined.
End Error.
Abbreviation Error := Error.t.

(** [Result<A, protocol_core::Error>] *)
Abbreviation Res := (result Error).

(** ** Codes round-trip *)

Lemma message_type_u8_roundtrip m :
  message_type_from_u8 (message_type_u8 m) = Some m.
Proof. by destruct m. Qed.

Lemma message_type_from_u8_Some b m :
  message_type_from_u8 b = Some m -> b = message_type_u8 m.
Proof. destruct b; simpl; intros [= <-]; done. Qed.

Lemma operator_u8_roundtrip o : operator_from_u8 (operator_u8 o) = Some o.
Proof. by destruct o. Qed.

Lemma operator_from_u8_Some b o : operator_from_u8 b = Some o -> b = operator_u8 o.
Proof. destruct b; simpl; intros [= <-]; done. Qed.
