(* ===== verification/Codec.v ===== *)
(** protocol-core/src/codec.rs: the fixed envelope header and the zero-copy
    envelope parser. *)

From S2P Require Export Types.

(** ** Data *)

(** [EnvelopeRef]: a parsed view of a complete envelope. *)
Record EnvelopeRef := mkEnvelope {
  env_message_type : MessageType;
  env_sender : AgentId;
  env_recipient : AgentId;
  env_handler : HandlerId;
  env_session_id : SessionId;
  env_ephemeral_public : array 32;
  env_salt : array 32;
  env_ciphertext : list byte;
  env_tag : array 16;
  env_signature : array 64;
  env_header : list byte;
  env_signed_bytes : list byte;
}.

(** ** Operations *)

(** [array_copy], [array_ref]: checked conversion to a fixed-size array. *)
Definition array_copy (n : nat) (bytes : list byte) : Res (array n) :=
  ok_or (to_array n bytes) Error.Malformed.

(** [read_u32] *)
Definition read_u32 (bytes : list byte) : Res N :=
  a ← array_copy 4 bytes; Ok (from_be (vec_to_list a)).

(** [encode_header]: writes the fixed header into the caller's buffer and
    returns the complete envelope length. *)
Definition encode_header (message_type : MessageType) (sender recipient : AgentId)
    (handler : HandlerId) (session_id : SessionId) (ephemeral_public salt : array 32)
    (ciphertext_len : nat) : M (list byte) Error nat :=
  if MAX_PLAINTEXT_LEN <? ciphertext_len then fail Error.Oversized else
  total_len ← lift (ok_or (v ← checked_add HEADER_LEN ciphertext_len;
                           checked_add v (TAG_LEN + SIGNATURE_LEN)) Error.Oversized);
  output_len ← gets length;
  if (output_len <? HEADER_LEN) || (MAX_FRAME_LEN <? total_len)
  then fail Error.Oversized else
  total_u32 ← lift (ok_or (try_from_usize u32_max total_len) Error.Oversized);
  cipher_u32 ← lift (ok_or (try_from_usize u32_max ciphertext_len) Error.Oversized);
  put_range 0 8 (vec_to_list MAGIC);;
  put_index 8 VERSION;;
  put_index 9 (message_type_u8 message_type);;
  put_range 10 12 (to_be 2 0);;
  put_range 12 16 (to_be 4 total_u32);;
  put_range 16 32 (vec_to_list (agent_bytes sender));;
  put_range 32 48 (vec_to_list (agent_bytes recipient));;
  put_range 48 64 (vec_to_list (handler_bytes handler));;
  put_range 64 80 (vec_to_list (session_bytes session_id));;
  put_range 80 112 (vec_to_list ephemeral_public);;
  put_range 112 144 (vec_to_list salt);;
  put_range 144 148 (to_be 4 cipher_u32);;
  mret total_len.

(** [parse_envelope] *)
Definition parse_envelope (input : list byte) : Res EnvelopeRef :=
  if length input <? HEADER_LEN + TAG_LEN + SIGNATURE_LEN then Err Error.Malformed else
  if MAX_FRAME_LEN <? length input then Err Error.Oversized else
  if negb (bool_decide (get_range input 0 8 = Some (vec_to_list MAGIC)))
  then Err Error.Malformed else
  version ← index input 8;
  if negb (bool_decide (version = VERSION)) then Err Error.UnsupportedVersion else
  kind ← index input 9;
  message_type ← ok_or (message_type_from_u8 kind) Error.Malformed;
  reserved ← slice input 10 12;
  if negb (bool_decide (reserved = [x00; x00])) then Err Error.Malformed else
  total ← slice input 12 16;
  total_len ← read_u32 total;
  if negb (total_len =? N.of_nat (length input))%N then Err Error.Malformed else
  cipher ← slice input 144 148;
  ciphertext_u32 ← read_u32 cipher;
  if (N.of_nat MAX_PLAINTEXT_LEN <? ciphertext_u32)%N then Err Error.Oversized else
  let ciphertext_len := N.to_nat ciphertext_u32 in
  expected ← ok_or (v ← checked_add HEADER_LEN ciphertext_len;
                    checked_add v (TAG_LEN + SIGNATURE_LEN)) Error.Oversized;
  if negb (N.of_nat expected =? total_len)%N then Err Error.Malformed else
  let ciphertext_end := HEADER_LEN + ciphertext_len in
  let tag_end := ciphertext_end + TAG_LEN in
  ephemeral_public ← slice input 80 112 ≫= array_copy 32;
  salt ← slice input 112 144 ≫= array_copy 32;
  tag ← slice input ciphertext_end tag_end ≫= array_copy 16;
  signature ← slice input tag_end (length input) ≫= array_copy 64;
  sender ← slice input 16 32 ≫= array_copy 16;
  recipient ← slice input 32 48 ≫= array_copy 16;
  handler ← slice input 48 64 ≫= array_copy 16;
  session_id ← slice input 64 80 ≫= array_copy 16;
  ciphertext ← slice input HEADER_LEN ciphertext_end;
  header ← slice input 0 HEADER_LEN;
  signed_bytes ← slice input 0 tag_end;
  Ok {| env_message_type := message_type;
        env_sender := mkAgentId sender;
        env_recipient := mkAgentId recipient;
        env_handler := mkHandlerId handler;
        env_session_id := mkSessionId session_id;
        env_ephemeral_public := ephemeral_public;
        env_salt := salt;
        env_ciphertext := ciphertext;
        env_tag := tag;
        env_signature := signature;
        env_header := header;
        env_signed_bytes := signed_bytes |}.

(** ** Specification: the wire layout *)

(** The fixed header as a sequence of fields. *)
Definition header_segments (message_type : MessageType) (sender recipient : AgentId)
    (handler : HandlerId) (session_id : SessionId) (ephemeral_public salt : array 32)
    (ciphertext_len : nat) : list (list byte) :=
  [ vec_to_list MAGIC; [VERSION]; [message_type_u8 message_type]; to_be 2 0;
    to_be 4 (N.of_nat (HEADER_LEN + ciphertext_len + (TAG_LEN + SIGNATURE_LEN)));
    vec_to_list (agent_bytes sender); vec_to_list (agent_bytes recipient);
    vec_to_list (handler_bytes handler); vec_to_list (session_bytes session_id);
    vec_to_list ephemeral_public; vec_to_list salt;
    to_be 4 (N.of_nat ciphertext_len) ].

Definition header_bytes message_type sender recipient handler session_id
    ephemeral_public salt ciphertext_len : list byte :=
  concat (header_segments message_type sender recipient handler session_id
            ephemeral_public salt ciphertext_len).

(** The header an envelope view stands for. *)
Definition envelope_header (e : EnvelopeRef) : list byte :=
  header_bytes (env_message_type e) (env_sender e) (env_recipient e) (env_handler e)
    (env_session_id e) (env_ephemeral_public e) (env_salt e) (length (env_ciphertext e)).

(** The unique frame an envelope view stands for. *)
Definition envelope_wire (e : EnvelopeRef) : list byte :=
  envelope_header e ++ env_ciphertext e ++ vec_to_list (env_tag e)
    ++ vec_to_list (env_signature e).

(** The view is bounded and its two derived slices are the ones of its frame. *)
Definition envelope_wf (e : EnvelopeRef) : Prop :=
  length (env_ciphertext e) <= MAX_PLAINTEXT_LEN /\
  env_header e = envelope_header e /\
  env_signed_bytes e =
    envelope_header e ++ env_ciphertext e ++ vec_to_list (env_tag e).

Lemma length_header_bytes mt s r h si ep sa c :
  length (header_bytes mt s r h si ep sa c) = HEADER_LEN.
Proof.
  unfold header_bytes, header_segments. cbn [concat].
  rewrite !length_app, !length_vec_to_list, !length_to_be. reflexivity.
Qed.

Lemma checked_frame_len c :
  c <= MAX_PLAINTEXT_LEN ->
  (v ← checked_add HEADER_LEN c; checked_add v (TAG_LEN + SIGNATURE_LEN))
  = Some (HEADER_LEN + c + (TAG_LEN + SIGNATURE_LEN)).
Proof.
  intros Hc. unfold MAX_PLAINTEXT_LEN in Hc.
  rewrite (proj2 (checked_add_Some HEADER_LEN c (HEADER_LEN + c)))
    by (unfold HEADER_LEN, u64_max; lia). simpl.
  apply checked_add_Some. unfold HEADER_LEN, TAG_LEN, SIGNATURE_LEN, u64_max. lia.
Qed.

(** ** The header encoder *)

Lemma encode_header_run mt s r h si ep sa c buf :
  c <= MAX_PLAINTEXT_LEN -> HEADER_LEN <= length buf ->
  encode_header mt s r h si ep sa c buf
  = (Ok (HEADER_LEN + c + (TAG_LEN + SIGNATURE_LEN)),
     header_bytes mt s r h si ep sa c ++ drop HEADER_LEN buf).
Proof.
  intros Hc Hbuf. unfold encode_header.
  rewrite (proj2 (Nat.ltb_ge _ _)) by done.
  rewrite checked_frame_len by done.
  cbn [ok_or]. autorewrite with rust.
  unfold MAX_PLAINTEXT_LEN, HEADER_LEN in Hc, Hbuf.
  rewrite (proj2 (Nat.ltb_ge (length buf) HEADER_LEN)) by (unfold HEADER_LEN; lia).
  rewrite (proj2 (Nat.ltb_ge MAX_FRAME_LEN _))
    by (unfold MAX_FRAME_LEN, MAX_PLAINTEXT_LEN, HEADER_LEN, TAG_LEN, SIGNATURE_LEN; lia).
  unfold try_from_usize.
  rewrite !(proj2 (N.leb_le _ u32_max)) by (unfold HEADER_LEN, TAG_LEN, SIGNATURE_LEN, u32_max; lia).
  cbn [orb ok_or]. autorewrite with rust.
  destruct (segments_exist [8;1;1;2;4;16;16;16;16;32;32;4] buf) as (segs & rest & -> & Hw);
    [simpl; lia|].
  do 12 (destruct segs as [|? segs]; [done|]). destruct segs; [|done].
  simpl in Hw. simplify_eq.
  destruct l0 as [|v [|]], l1 as [|ty [|]]; try done. clear H0 H1.
  replace (drop HEADER_LEN _) with rest; cycle 1.
  { symmetry. apply drop_app_length'. unfold HEADER_LEN. seg_len. }
  replace (concat _ ++ rest) with (concat [l; [v]; [ty]; l2; l3; l4; l5; l6; l7; l8; l9; l10; rest])
    by (cbn [concat]; by rewrite <-!app_assoc, ?app_nil_r).
  put_step 0. put_step 1. put_step 2. put_step 3. put_step 4. put_step 5. put_step 6.
  put_step 7. put_step 8. put_step 9. put_step 10. put_step 11.
  unfold header_bytes, header_segments. cbn [concat].
  rewrite <-!app_assoc, ?app_nil_r. reflexivity.
Qed.

(** ** The parser on a frame cut into fields *)

Lemma array_copy_list {n} (v : array n) : array_copy n (vec_to_list v) = Ok v.
Proof. unfold array_copy. by rewrite to_array_to_list. Qed.

Lemma array_copy_Ok n l v : array_copy n l = Ok v <-> l = vec_to_list v.
Proof.
  unfold array_copy. rewrite <-to_array_Some. destruct (to_array n l); naive_solver.
Qed.

Lemma read_u32_eq l : length l = 4 -> read_u32 l = Ok (from_be l).
Proof.
  intros [v Hv]%to_array_length. unfold read_u32, array_copy. rewrite Hv.
  apply to_array_Some in Hv as ->. done.
Qed.

Lemma array_of_length n (l : list byte) : length l = n -> exists v : array n, l = vec_to_list v.
Proof. intros [v Hv]%to_array_length. exists v. by apply to_array_Some. Qed.

Section parse.
Variables (m r tl cl ct : list byte) (v t : byte) (s rc h si : array 16)
  (ep sa : array 32) (tg : array 16) (sg : array 64).
Hypotheses (Hm : length m = 8) (Hr : length r = 2) (Htl : length tl = 4)
  (Hcl : length cl = 4) (Hct : length ct <= MAX_PLAINTEXT_LEN).

Let segs := [m; [v]; [t]; r; tl; vec_to_list s; vec_to_list rc; vec_to_list h; vec_to_list si;
             vec_to_list ep; vec_to_list sa; cl; ct; vec_to_list tg; vec_to_list sg].

Lemma parse_envelope_segments :
  parse_envelope (concat segs) =
  if negb (bool_decide (m = vec_to_list MAGIC)) then Err Error.Malformed else
  if negb (bool_decide (v = VERSION)) then Err Error.UnsupportedVersion else
  mt ← ok_or (message_type_from_u8 t) Error.Malformed;
  if negb (bool_decide (r = [x00; x00])) then Err Error.Malformed else
  if negb (from_be tl =? N.of_nat (228 + length ct))%N then Err Error.Malformed else
  if (4096 <? from_be cl)%N then Err Error.Oversized else
  if negb (N.of_nat (228 + N.to_nat (from_be cl)) =? from_be tl)%N then Err Error.Malformed else
  Ok {| env_message_type := mt; env_sender := mkAgentId s; env_recipient := mkAgentId rc;
        env_handler := mkHandlerId h; env_session_id := mkSessionId si;
        env_ephemeral_public := ep; env_salt := sa; env_ciphertext := ct;
        env_tag := tg; env_signature := sg;
        env_header := concat (take 12 segs); env_signed_bytes := concat (take 14 segs) |}.
Proof.
  unfold MAX_PLAINTEXT_LEN in Hct.
  assert (Hlen : length (concat segs) = 228 + length ct) by (subst segs; seg_len).
  unfold parse_envelope. rewrite Hlen.
  rewrite (proj2 (Nat.ltb_ge _ (_ + _))) by (unfold HEADER_LEN, TAG_LEN, SIGNATURE_LEN; lia).
  rewrite (proj2 (Nat.ltb_ge MAX_FRAME_LEN _))
    by (unfold MAX_FRAME_LEN, MAX_PLAINTEXT_LEN, HEADER_LEN, TAG_LEN, SIGNATURE_LEN; lia).
  subst segs.
  erewrite (get_range_concat _ 0) by first [reflexivity|seg_len].
  rewrite (bool_decide_ext (Some m = _) (m = vec_to_list MAGIC)) by naive_solver.
  destruct (negb _); [done|].
  get_step 8 1. get_step 9 2. get_step 10 3. get_step 12 4. get_step 144 11.
  get_step 80 9. get_step 112 10. get_step 16 5. get_step 32 6. get_step 48 7. get_step 64 8.
  cbn [mbind result_bind]. destruct (negb _); [done|].
  destruct (message_type_from_u8 t) as [mt|]; cbn [ok_or mbind result_bind]; [|done].
  destruct (negb _); [done|].
  rewrite !read_u32_eq by done. cbn [ok_or mbind result_bind].
  destruct (N.eqb_spec (from_be tl) (N.of_nat (228 + length ct))) as [Htot|]; [|done].
  cbn [negb]. change (N.of_nat MAX_PLAINTEXT_LEN) with 4096%N.
  destruct (N.ltb_spec 4096 (from_be cl)) as [|Hle]; [done|].
  rewrite checked_frame_len by (unfold MAX_PLAINTEXT_LEN; lia). cbn [ok_or mbind result_bind].
  replace (HEADER_LEN + N.to_nat (from_be cl) + (TAG_LEN + SIGNATURE_LEN))
    with (228 + N.to_nat (from_be cl)) by (unfold HEADER_LEN, TAG_LEN, SIGNATURE_LEN; lia).
  destruct (N.eqb_spec (N.of_nat (228 + N.to_nat (from_be cl))) (from_be tl)) as [Hexp|]; [|done].
  cbn [negb]. rewrite !array_copy_list. cbn [ok_or mbind result_bind].
  replace (N.to_nat (from_be cl)) with (length ct) by lia.
  unfold HEADER_LEN, TAG_LEN.
  get_step (148 + length ct) 13. get_step (148 + length ct + 16) 14. get_step 148 12.
  cbn [ok_or mbind result_bind]. rewrite !array_copy_list. cbn [ok_or mbind result_bind].
  rewrite !slice_eq by (rewrite ?Hlen; lia). cbn [mbind result_bind]. rewrite !Nat.sub_0_r, !drop_0.
  rewrite (take_concat_prefix 12), (take_concat_prefix 14) by seg_len. done.
Qed.
End parse.

(** Every frame in the accepted length range is a sequence of header fields
    followed by a ciphertext, a tag and a signature. *)
Lemma frame_segments input :
  HEADER_LEN + TAG_LEN + SIGNATURE_LEN <= length input ->
  length input <= MAX_FRAME_LEN ->
  exists m r tl cl ct v t (s rc h si : array 16) (ep sa : array 32) (tg : array 16) (sg : array 64),
    input = concat [m; [v]; [t]; r; tl; vec_to_list s; vec_to_list rc; vec_to_list h;
                    vec_to_list si; vec_to_list ep; vec_to_list sa; cl; ct;
                    vec_to_list tg; vec_to_list sg] /\
    length m = 8 /\ length r = 2 /\ length tl = 4 /\ length cl = 4 /\
    length ct <= MAX_PLAINTEXT_LEN.
Proof.
  unfold MAX_FRAME_LEN, MAX_PLAINTEXT_LEN, HEADER_LEN, TAG_LEN, SIGNATURE_LEN. intros Hge Hle.
  destruct (segments_exist [8;1;1;2;4;16;16;16;16;32;32;4;length input - 228;16;64] input)
    as (segs & rest & Heq & Hw); [simpl; lia|].
  assert (rest = []) as ->.
  { apply (f_equal length) in Heq. rewrite length_app, length_concat in Heq.
    replace (length <$> segs) with (map length segs) in Hw by done. rewrite Hw in Heq. simpl in Heq.
    apply length_zero_iff_nil. lia. }
  rewrite app_nil_r in Heq.
  cut_segments segs Hw.
  repeat match goal with
  | H : length ?l = 1 |- _ => destruct l as [|? [|]]; [discriminate H| |discriminate H]; clear H
  | H : length ?l = 16 |- _ => apply array_of_length in H as [? ->]
  | H : length ?l = 32 |- _ => apply array_of_length in H as [? ->]
  | H : length ?l = 64 |- _ => apply array_of_length in H as [? ->]
  end.
  do 15 eexists. split; [exact Heq|]. lia.
Qed.

Lemma concat_envelope_wire e :
  envelope_wire e =
  concat (header_segments (env_message_type e) (env_sender e) (env_recipient e) (env_handler e)
     (env_session_id e) (env_ephemeral_public e) (env_salt e) (length (env_ciphertext e))
     ++ [env_ciphertext e; vec_to_list (env_tag e); vec_to_list (env_signature e)]).
Proof.
  unfold envelope_wire, envelope_header, header_bytes. rewrite concat_app.
  cbn [concat]. by rewrite app_nil_r.
Qed.

Lemma parse_envelope_length input e : parse_envelope input = Ok e ->
  HEADER_LEN + TAG_LEN + SIGNATURE_LEN <= length input <= MAX_FRAME_LEN.
Proof.
  intros Hparse. unfold parse_envelope in Hparse.
  destruct (Nat.ltb_spec (length input) (HEADER_LEN + TAG_LEN + SIGNATURE_LEN)); [done|].
  destruct (Nat.ltb_spec MAX_FRAME_LEN (length input)); [done|]. done.
Qed.

Lemma parse_envelope_iff input e :
  parse_envelope input = Ok e <-> envelope_wf e /\ input = envelope_wire e.
Proof.
  split.
  - intros Hparse.
    apply parse_envelope_length in Hparse as Hlen. destruct Hlen as [Hge Hle].
    destruct (frame_segments input Hge Hle)
      as (m & r & tl & cl & ct & v & t & s & rc & h & si & ep & sa & tg & sg
          & -> & Hm & Hr & Htl & Hcl & Hct).
    rewrite parse_envelope_segments in Hparse by done.
    res_inv Hparse. rename a into mt.
    apply message_type_from_u8_Some in Ha as ->.
    assert (tl = to_be 4 (N.of_nat (HEADER_LEN + length ct + (TAG_LEN + SIGNATURE_LEN)))) as ->.
    { rewrite <-(to_be_from_be tl), Htl, Hg2. f_equal.
      unfold HEADER_LEN, TAG_LEN, SIGNATURE_LEN. lia. }
    assert (cl = to_be 4 (N.of_nat (length ct))) as ->.
    { rewrite <-(to_be_from_be cl), Hcl. f_equal. lia. }
    split.
    + split; [done|]. split; cbn [env_header env_signed_bytes];
        unfold envelope_header, header_bytes, header_segments; cbn [concat];
        by rewrite <-?app_assoc, ?app_nil_r.
    + rewrite concat_envelope_wire. done.
  - intros [(Hct & Hh & Hs) ->].
    pose proof (from_be_to_be_small 4 (N.of_nat (length (env_ciphertext e)))) as Hcl.
    pose proof (from_be_to_be_small 4
      (N.of_nat (HEADER_LEN + length (env_ciphertext e) + (TAG_LEN + SIGNATURE_LEN)))) as Htl.
    unfold MAX_PLAINTEXT_LEN in Hct.
    change (256 ^ N.of_nat 4)%N with 4294967296%N in *.
    rewrite concat_envelope_wire. unfold header_segments. cbn [app].
    rewrite parse_envelope_segments by first [done | by rewrite length_to_be].
    rewrite message_type_u8_roundtrip. cbn [ok_or mbind result_bind].
    rewrite !bool_decide_eq_true_2 by done. cbn [negb].
    rewrite Hcl, Htl by (unfold HEADER_LEN, TAG_LEN, SIGNATURE_LEN; lia).
    rewrite Nat2N.id, (proj2 (N.eqb_eq _ _)) by (unfold HEADER_LEN, TAG_LEN, SIGNATURE_LEN; lia).
    rewrite (proj2 (N.ltb_ge _ _)) by lia.
    rewrite (proj2 (N.eqb_eq _ _)) by (unfold HEADER_LEN, TAG_LEN, SIGNATURE_LEN; lia). cbn [negb].
    unfold envelope_header, header_bytes, header_segments in Hh, Hs.
    destruct e as [mt [s] [rc] [h] [si] ep sa ct tg sg hd sb].
    cbn [env_message_type env_sender env_recipient env_handler env_session_id
      env_ephemeral_public env_salt env_ciphertext env_tag env_signature env_header
      env_signed_bytes agent_bytes handler_bytes session_bytes] in *.
    rewrite Hh, Hs. cbn [concat firstn].
    by rewrite <-!app_assoc, !app_nil_r.
Qed.

Lemma parse_envelope_no_panic_segments (m r tl cl ct : list byte) (v t : byte)
    (s rc h si : array 16) (ep sa : array 32) (tg : array 16) (sg : array 64) :
  length m = 8 -> length r = 2 -> length tl = 4 -> length cl = 4 ->
  length ct <= MAX_PLAINTEXT_LEN ->
  parse_envelope (concat [m; [v]; [t]; r; tl; vec_to_list s; vec_to_list rc; vec_to_list h;
    vec_to_list si; vec_to_list ep; vec_to_list sa; cl; ct; vec_to_list tg; vec_to_list sg])
  <> Panic.
Proof.
  intros. rewrite parse_envelope_segments by done.
  destruct (message_type_from_u8 t); repeat case_match; done.
Qed.

Lemma parse_envelope_no_panic input : parse_envelope input <> Panic.
Proof.
  destruct (decide (length input < HEADER_LEN + TAG_LEN + SIGNATURE_LEN)) as [Hlt|Hge];
    [|destruct (decide (MAX_FRAME_LEN < length input)) as [Hgt|Hle]].
  - unfold parse_envelope. by rewrite (proj2 (Nat.ltb_lt _ _)) by done.
  - unfold parse_envelope. by rewrite (proj2 (Nat.ltb_ge _ _)), (proj2 (Nat.ltb_lt _ _)) by lia.
  - destruct (frame_segments input) as (m & r & tl & cl & ct & v & t & s & rc & h & si & ep & sa
      & tg & sg & -> & Hlens); [lia..|].
    destruct Hlens as (?&?&?&?&?). by apply parse_envelope_no_panic_segments.
Qed.

(** ** Properties *)

(** C27: [parse_envelope] accepts exactly the canonical frames: it returns [e]
    if and only if the input is the wire layout of [e], with a ciphertext within
    [MAX_PLAINTEXT_LEN] and the header and signed bytes the slices of that
    frame.  In particular no two inputs parse to the same envelope, no trailing
    or missing byte is accepted, and every non-zero reserved field, wrong length
    or unknown message type is rejected. *)
Theorem parse_envelope_canonical input e :
  parse_envelope input = Ok e <-> envelope_wf e /\ input = envelope_wire e.
Proof. apply parse_envelope_iff. Qed.

Lemma parse_envelope_canonical_witness :
  let frame := header_bytes MessageType.Publish (mkAgentId (vreplicate 16 x01)) AgentId_CA
                 HandlerId_NONE (mkSessionId (vreplicate 16 x02)) (vreplicate 32 x03)
                 (vreplicate 32 x04) 1 ++ [x2a] ++ replicate 80 x00 in
  (exists e, envelope_wf e /\ frame = envelope_wire e) /\
  parse_envelope (frame ++ [x00]) = Err Error.Malformed.
Proof.
  split; [|vm_compute; reflexivity].
  destruct (parse_envelope (header_bytes MessageType.Publish (mkAgentId (vreplicate 16 x01))
    AgentId_CA HandlerId_NONE (mkSessionId (vreplicate 16 x02)) (vreplicate 32 x03)
    (vreplicate 32 x04) 1 ++ [x2a] ++ replicate 80 x00)) as [e| |] eqn:He;
    [|vm_compute in He; discriminate He..].
  exists e. by apply parse_envelope_canonical.
Defined.

(** [parse_envelope] never panics: no input, of any length, makes one of its
    slice or index expressions go out of range.  A frame shorter than the fixed
    overhead is [Malformed] and one above [MAX_FRAME_LEN] is [Oversized]. *)
Theorem parse_envelope_total input :
  parse_envelope input <> Panic /\
  (length input < HEADER_LEN + TAG_LEN + SIGNATURE_LEN ->
   parse_envelope input = Err Error.Malformed) /\
  (MAX_FRAME_LEN < length input -> parse_envelope input = Err Error.Oversized).
Proof.
  split; [apply parse_envelope_no_panic|].
  assert (Hmax : HEADER_LEN + TAG_LEN + SIGNATURE_LEN <= MAX_FRAME_LEN)
    by (unfold MAX_FRAME_LEN; lia).
  unfold parse_envelope. split; intros Hlen.
  - by rewrite (proj2 (Nat.ltb_lt _ _)).
  - by rewrite (proj2 (Nat.ltb_ge _ _)), (proj2 (Nat.ltb_lt _ _)) by lia.
Qed.

(** Encoding a header and parsing the frame it heads gives back every
    field: on a buffer of exactly the announced length, [encode_header] succeeds,
    returns that length, leaves the bytes after the header untouched, and
    [parse_envelope] returns the same fields with the ciphertext, tag and
    signature found behind the header. *)
Theorem encode_header_parse mt s r h si ep sa (ct : list byte) (tg : array TAG_LEN)
    (sg : array SIGNATURE_LEN) (header : list byte) :
  length header = HEADER_LEN -> length ct <= MAX_PLAINTEXT_LEN ->
  let body := ct ++ vec_to_list tg ++ vec_to_list sg in
  let hd := header_bytes mt s r h si ep sa (length ct) in
  encode_header mt s r h si ep sa (length ct) (header ++ body)
    = (Ok (length (hd ++ body)), hd ++ body) /\
  parse_envelope (hd ++ body)
    = Ok (mkEnvelope mt s r h si ep sa ct tg sg hd (hd ++ ct ++ vec_to_list tg)).
Proof.
  intros Hh Hct body hd. split.
  - rewrite encode_header_run by (rewrite ?length_app; lia).
    rewrite drop_app_length' by done. f_equal. f_equal.
    unfold hd, body. rewrite !length_app, length_header_bytes, !length_vec_to_list.
    unfold TAG_LEN, SIGNATURE_LEN. lia.
  - apply parse_envelope_iff. done.
Qed.

Lemma encode_header_parse_witness :
  let hd := header_bytes MessageType.SetEnvironment (mkAgentId (vreplicate 16 x01)) AgentId_CA
    HandlerId_NONE (mkSessionId (vreplicate 16 x02)) (vreplicate 32 x03) (vreplicate 32 x04) 1 in
  length hd = 148 /\
  parse_envelope (hd ++ [x07] ++ replicate 80 x07)
  = Ok (mkEnvelope MessageType.SetEnvironment (mkAgentId (vreplicate 16 x01)) AgentId_CA
    HandlerId_NONE (mkSessionId (vreplicate 16 x02)) (vreplicate 32 x03) (vreplicate 32 x04)
    [x07] (vreplicate 16 x07) (vreplicate 64 x07) hd (hd ++ replicate 17 x07)).
Proof.
  split; [reflexivity|].
  refine (proj2 (encode_header_parse MessageType.SetEnvironment (mkAgentId (vreplicate 16 x01))
    AgentId_CA HandlerId_NONE (mkSessionId (vreplicate 16 x02)) (vreplicate 32 x03)
    (vreplicate 32 x04) [x07] (vreplicate 16 x07) (vreplicate 64 x07) (replicate 148 x07) _ _));
    [reflexivity|vm_compute; lia].
Defined.
