(* ===== verification/Payload.v ===== *)
(** protocol-core/src/payload.rs: the bounded application payload codec, its
    cursor and writer, and the predicate evaluator. *)

From S2P Require Export Types.

(** ** Data *)

Definition OP_ENVIRONMENT : byte := x01.
Definition OP_SUBSCRIBE_PERMANENT : byte := x02.
Definition OP_PUBLISH : byte := x03.
Definition OP_RESPONSE : byte := x04.
Definition OP_SUBSCRIBE : byte := x05.

Module ValueRef.
Inductive t :=
| Bool (b : bool)
| I64 (z : Z)
| Bytes (l : list byte).
End ValueRef.
Abbreviation ValueRef := ValueRef.t.

Record AttributeRef := mkAttribute { attr_id : AttributeId; attr_value : ValueRef }.

Record ClauseRef := mkClause {
  clause_attribute : AttributeId;
  clause_operator : Operator;
  clause_value : ValueRef;
}.

(** [EnvironmentRef] and [PredicateRef]: a validated byte range and the number
    of entries it holds. *)
Record EnvironmentRef := mkEnvironment { environment_bytes : list byte; environment_count : byte }.
Record PredicateRef := mkPredicate { predicate_bytes : list byte; predicate_count : byte }.

Module OperationRef.
Inductive t :=
| SetEnvironment (environment : EnvironmentRef)
| Subscribe (type_id : TypeId) (predicate : PredicateRef)
| SubscribePermanent (type_id : TypeId) (predicate : PredicateRef)
| Publish (type_id : TypeId) (predicate : PredicateRef) (value : list byte)
| PublicationResponse (type_id : TypeId) (publisher : AgentId) (value : list byte).
End OperationRef.
Abbreviation OperationRef := OperationRef.t.

#[export] Instance ValueRef_eq_dec : EqDecision ValueRef.
Proof. solve_decision. Defined.
#[export] Instance EnvironmentRef_eq_dec : EqDecision EnvironmentRef.
Proof. solve_decision. Defined.
#[export] Instance PredicateRef_eq_dec : EqDecision PredicateRef.
Proof. solve_decision. Defined.

(** [u8 as usize] *)
Definition byte_nat (b : byte) : nat := N.to_nat (byte_val b).

(** ** Cursor *)

Record Cursor := mkCursor { cursor_input : list byte; cursor_position : nat }.

Definition Cursor_new (input : list byte) : Cursor := mkCursor input 0.

Definition cursor_take (len : nat) : M Cursor Error (list byte) :=
  position ← gets cursor_position;
  stop ← lift (ok_or (checked_add position len) Error.Malformed);
  input ← gets cursor_input;
  bytes ← lift (ok_or (get_range input position stop) Error.Malformed);
  modify (fun c => mkCursor (cursor_input c) stop);;
  mret bytes.

Definition cursor_u8 : M Cursor Error byte :=
  bytes ← cursor_take 1; lift (ok_or (head bytes) Error.Malformed).

Definition cursor_array (n : nat) : M Cursor Error (array n) :=
  bytes ← cursor_take n; lift (ok_or (to_array n bytes) Error.Malformed).

Definition cursor_u16 : M Cursor Error N :=
  a ← cursor_array 2; mret (from_be (vec_to_list a)).

Definition cursor_u32 : M Cursor Error N :=
  a ← cursor_array 4; mret (from_be (vec_to_list a)).

Definition cursor_bytes_u16 (maximum : nat) : M Cursor Error (list byte) :=
  len ← cursor_u16;
  if (N.of_nat maximum <? len)%N then fail Error.Oversized else cursor_take (N.to_nat len).

Definition cursor_value (maximum_bytes : nat) : M Cursor Error ValueRef :=
  tag ← cursor_u8;
  match tag with
  | x01 =>
      b ← cursor_u8;
      match b with
      | x00 => mret (ValueRef.Bool false)
      | x01 => mret (ValueRef.Bool true)
      | _ => fail Error.Malformed
      end
  | x02 => a ← cursor_array 8; mret (ValueRef.I64 (i64_from_be (vec_to_list a)))
  | x03 => l ← cursor_bytes_u16 maximum_bytes; mret (ValueRef.Bytes l)
  | _ => fail Error.Malformed
  end.

(** The body of the loop of [Cursor::predicate], run [n] times. *)
Fixpoint cursor_clauses (n : nat) : M Cursor Error unit :=
  match n with
  | O => mret tt
  | S n' =>
      cursor_u16;;
      operator ← cursor_u8;
      lift (ok_or (operator_from_u8 operator) Error.Malformed);;
      cursor_value MAX_ATTRIBUTE_BYTES;;
      cursor_clauses n'
  end.

Definition cursor_predicate (complete : list byte) : M Cursor Error PredicateRef :=
  count ← cursor_u8;
  if MAX_CLAUSES <? byte_nat count then fail Error.Oversized else
  start ← gets cursor_position;
  cursor_clauses (byte_nat count);;
  stop ← gets cursor_position;
  bytes ← lift (slice complete start stop);
  mret (mkPredicate bytes count).

(** ** Writer *)

Record Writer := mkWriter { writer_output : list byte; writer_position : nat }.

Definition writer_raw (value : list byte) : M Writer Error unit :=
  position ← gets writer_position;
  stop ← lift (ok_or (checked_add position (length value)) Error.Oversized);
  output ← gets writer_output;
  lift (ok_or (get_range output position stop) Error.Oversized);;
  output' ← lift (write_range output position stop value);
  modify (fun _ => mkWriter output' stop).

Definition writer_u8 (value : byte) : M Writer Error unit := writer_raw [value].
Definition writer_u16 (value : N) : M Writer Error unit := writer_raw (to_be 2 value).
Definition writer_u32 (value : N) : M Writer Error unit := writer_raw (to_be 4 value).

Definition writer_bytes_u16 (value : list byte) (maximum : nat) : M Writer Error unit :=
  if maximum <? length value then fail Error.Oversized else
  len ← lift (ok_or (try_from_usize u16_max (length value)) Error.Oversized);
  writer_u16 len;;
  writer_raw value.

Definition writer_value (value : ValueRef) (maximum_bytes : nat) : M Writer Error unit :=
  match value with
  | ValueRef.Bool b => writer_u8 x01;; writer_u8 (if b then x01 else x00)
  | ValueRef.I64 z => writer_u8 x02;; writer_raw (i64_to_be z)
  | ValueRef.Bytes l => writer_u8 x03;; writer_bytes_u16 l maximum_bytes
  end.

Fixpoint writer_clauses (clauses : list ClauseRef) : M Writer Error unit :=
  match clauses with
  | [] => mret tt
  | clause :: clauses' =>
      writer_u16 (attribute_raw (clause_attribute clause));;
      writer_u8 (operator_u8 (clause_operator clause));;
      writer_value (clause_value clause) MAX_ATTRIBUTE_BYTES;;
      writer_clauses clauses'
  end.

Definition writer_predicate (clauses : list ClauseRef) : M Writer Error unit :=
  if MAX_CLAUSES <? length clauses then fail Error.Oversized else
  count ← lift (ok_or (try_from_usize u8_max (length clauses)) Error.Oversized);
  writer_u8 (byte_of count);;
  writer_clauses clauses.

Fixpoint writer_attributes (attributes : list AttributeRef) : M Writer Error unit :=
  match attributes with
  | [] => mret tt
  | attribute :: attributes' =>
      writer_u16 (attribute_raw (attr_id attribute));;
      writer_value (attr_value attribute) MAX_ATTRIBUTE_BYTES;;
      writer_attributes attributes'
  end.

(** [Writer::new(output)], the writes, and [Ok(writer.position())]. *)
Definition with_writer (m : M Writer Error unit) : M (list byte) Error nat := fun output =>
  let '(r, w) := (m;; gets writer_position) (mkWriter output 0) in (r, writer_output w).

(** ** Encoders *)

(** [ensure_unique_attributes]: [prior] is [attributes[..index]]. *)
Fixpoint unique_from (prior attributes : list AttributeRef) : Res unit :=
  match attributes with
  | [] => Ok tt
  | attribute :: attributes' =>
      if existsb (fun p => bool_decide (attr_id p = attr_id attribute)) prior
      then Err Error.Malformed
      else unique_from (prior ++ [attribute]) attributes'
  end.

Definition ensure_unique_attributes (attributes : list AttributeRef) : Res unit :=
  unique_from [] attributes.

Definition encode_environment (attributes : list AttributeRef) : M (list byte) Error nat :=
  if MAX_ATTRIBUTES <? length attributes then fail Error.Oversized else
  lift (ensure_unique_attributes attributes);;
  with_writer (
    writer_u8 OP_ENVIRONMENT;;
    count ← lift (ok_or (try_from_usize u8_max (length attributes)) Error.Oversized);
    writer_u8 (byte_of count);;
    writer_attributes attributes).

Definition encode_subscribe (type_id : TypeId) (clauses : list ClauseRef) : M (list byte) Error nat :=
  with_writer (
    writer_u8 OP_SUBSCRIBE;;
    writer_u32 (type_raw type_id);;
    writer_predicate clauses).

Definition encode_subscribe_permanent (type_id : TypeId) (clauses : list ClauseRef) :
    M (list byte) Error nat :=
  with_writer (
    writer_u8 OP_SUBSCRIBE_PERMANENT;;
    writer_u32 (type_raw type_id);;
    writer_predicate clauses).

Definition encode_publish (type_id : TypeId) (clauses : list ClauseRef) (value : list byte) :
    M (list byte) Error nat :=
  if MAX_VALUE_BYTES <? length value then fail Error.Oversized else
  with_writer (
    writer_u8 OP_PUBLISH;;
    writer_u32 (type_raw type_id);;
    writer_predicate clauses;;
    writer_bytes_u16 value MAX_VALUE_BYTES).

Definition encode_response (type_id : TypeId) (publisher : AgentId) (value : list byte) :
    M (list byte) Error nat :=
  if MAX_VALUE_BYTES <? length value then fail Error.Oversized else
  with_writer (
    writer_u8 OP_RESPONSE;;
    writer_u32 (type_raw type_id);;
    writer_raw (vec_to_list (agent_bytes publisher));;
    writer_bytes_u16 value MAX_VALUE_BYTES).

(** ** Parser *)

(** The loop of the [OP_ENVIRONMENT] arm, for [n] more entries: [ids] is the
    array of the identifiers seen, filled up to [index]. *)
Fixpoint parse_attributes (index n : nat) (ids : list N) : M Cursor Error unit :=
  match n with
  | O => mret tt
  | S n' =>
      id ← cursor_u16;
      seen ← lift (slice ids 0 index);
      if existsb (N.eqb id) seen then fail Error.Malformed else
      ids' ← lift (write_index ids index id);
      cursor_value MAX_ATTRIBUTE_BYTES;;
      parse_attributes (S index) n' ids'
  end.

Definition parse_body (input : list byte) (code : byte) : M Cursor Error OperationRef :=
  if bool_decide (code = OP_ENVIRONMENT) then
    count ← cursor_u8;
    if MAX_ATTRIBUTES <? byte_nat count then fail Error.Oversized else
    start ← gets cursor_position;
    parse_attributes 0 (byte_nat count) (replicate MAX_ATTRIBUTES 0%N);;
    stop ← gets cursor_position;
    bytes ← lift (slice input start stop);
    mret (OperationRef.SetEnvironment (mkEnvironment bytes count))
  else if bool_decide (code = OP_SUBSCRIBE) then
    type_id ← cursor_u32;
    predicate ← cursor_predicate input;
    mret (OperationRef.Subscribe (mkTypeId type_id) predicate)
  else if bool_decide (code = OP_SUBSCRIBE_PERMANENT) then
    type_id ← cursor_u32;
    predicate ← cursor_predicate input;
    mret (OperationRef.SubscribePermanent (mkTypeId type_id) predicate)
  else if bool_decide (code = OP_PUBLISH) then
    type_id ← cursor_u32;
    predicate ← cursor_predicate input;
    value ← cursor_bytes_u16 MAX_VALUE_BYTES;
    mret (OperationRef.Publish (mkTypeId type_id) predicate value)
  else if bool_decide (code = OP_RESPONSE) then
    type_id ← cursor_u32;
    publisher ← cursor_array 16;
    value ← cursor_bytes_u16 MAX_VALUE_BYTES;
    mret (OperationRef.PublicationResponse (mkTypeId type_id) (mkAgentId publisher) value)
  else fail Error.Malformed.

Definition parse_operation (input : list byte) : Res OperationRef :=
  fst ((code ← cursor_u8;
        operation ← parse_body input code;
        position ← gets cursor_position;
        if negb (position =? length input) then fail Error.Malformed else mret operation)
       (Cursor_new input)).

(** ** Evaluation *)

(** [compare] *)
Definition compare (lhs : ValueRef) (operator : Operator) (rhs : ValueRef) : bool :=
  let ordering :=
    match lhs, rhs with
    | ValueRef.Bool a, ValueRef.Bool b => Some (Bool.compare a b)
    | ValueRef.I64 a, ValueRef.I64 b => Some (a ?= b)%Z
    | ValueRef.Bytes a, ValueRef.Bytes b => Some (bytes_compare a b)
    | _, _ => None
    end in
  match ordering with
  | None => false
  | Some o =>
      match operator, o with
      | Operator.Eq, Eq => true
      | Operator.Ne, (Lt | Gt) => true
      | Operator.Lt, Lt => true
      | Operator.Le, (Lt | Eq) => true
      | Operator.Gt, Gt => true
      | Operator.Ge, (Gt | Eq) => true
      | _, _ => false
      end
  end.

(** The loop of [EnvironmentRef::get] over [n] more entries; [Ok None] is the
    end of the loop and an error is the [?] that makes [get] return [None]. *)
Fixpoint environment_get_loop (n : nat) (wanted : AttributeId) :
    M Cursor Error (option ValueRef) :=
  match n with
  | O => mret None
  | S n' =>
      id ← cursor_u16;
      value ← cursor_value MAX_ATTRIBUTE_BYTES;
      if bool_decide (mkAttributeId id = wanted) then mret (Some value)
      else environment_get_loop n' wanted
  end.

Definition environment_get (e : EnvironmentRef) (wanted : AttributeId) : option ValueRef :=
  match fst (environment_get_loop (byte_nat (environment_count e)) wanted
               (Cursor_new (environment_bytes e))) with
  | Ok found => found
  | _ => None
  end.

(** [EnvironmentIter] *)
Record EnvironmentIter := mkIter { iter_cursor : Cursor; iter_remaining : nat }.

Definition environment_iter (e : EnvironmentRef) : EnvironmentIter :=
  mkIter (Cursor_new (environment_bytes e)) (byte_nat (environment_count e)).

(** [EnvironmentIter::next]: a decoding error ends the iteration without
    decrementing [remaining]. *)
Definition iter_next (it : EnvironmentIter) : option AttributeRef * EnvironmentIter :=
  match iter_remaining it with
  | O => (None, it)
  | S remaining =>
      match (id ← cursor_u16; value ← cursor_value MAX_ATTRIBUTE_BYTES;
             mret (mkAttribute (mkAttributeId id) value)) (iter_cursor it) with
      | (Ok a, c) => (Some a, mkIter c remaining)
      | (_, c) => (None, mkIter c (S remaining))
      end
  end.

(** A [for] loop over the iterator, for at most [fuel] items. *)
Fixpoint iter_collect (fuel : nat) (it : EnvironmentIter) : list AttributeRef :=
  match fuel with
  | O => []
  | S fuel' =>
      match iter_next it with
      | (Some a, it') => a :: iter_collect fuel' it'
      | (None, _) => []
      end
  end.

Definition environment_items (e : EnvironmentRef) : list AttributeRef :=
  iter_collect (S (byte_nat (environment_count e))) (environment_iter e).

(** The loop of [PredicateRef::evaluate]; every early return is [false]. *)
Fixpoint evaluate_loop (n : nat) (environment : EnvironmentRef) : M Cursor Error bool :=
  match n with
  | O => mret true
  | S n' =>
      attribute ← cursor_u16;
      code ← cursor_u8;
      match operator_from_u8 code with
      | None => mret false
      | Some operator =>
          rhs ← cursor_value MAX_ATTRIBUTE_BYTES;
          match environment_get environment (mkAttributeId attribute) with
          | None => mret false
          | Some lhs =>
              if negb (compare lhs operator rhs) then mret false
              else evaluate_loop n' environment
          end
      end
  end.

Definition evaluate (p : PredicateRef) (environment : EnvironmentRef) : bool :=
  match fst (evaluate_loop (byte_nat (predicate_count p)) environment
               (Cursor_new (predicate_bytes p))) with
  | Ok b => b
  | _ => false
  end.

(** ** Specification: the wire form of an operation *)

Definition value_wire (v : ValueRef) : list byte :=
  match v with
  | ValueRef.Bool b => [x01; if b then x01 else x00]
  | ValueRef.I64 z => x02 :: i64_to_be z
  | ValueRef.Bytes l => x03 :: to_be 2 (N.of_nat (length l)) ++ l
  end.

Definition value_wf (v : ValueRef) : Prop :=
  match v with
  | ValueRef.Bool _ => True
  | ValueRef.I64 z => i64_wf z
  | ValueRef.Bytes l => length l <= MAX_ATTRIBUTE_BYTES
  end.

Definition item_wire (a : AttributeRef) : list byte :=
  to_be 2 (attribute_raw (attr_id a)) ++ value_wire (attr_value a).

Definition item_wf (a : AttributeRef) : Prop :=
  attribute_wf (attr_id a) /\ value_wf (attr_value a).

Definition clause_wire (c : ClauseRef) : list byte :=
  to_be 2 (attribute_raw (clause_attribute c)) ++ operator_u8 (clause_operator c)
    :: value_wire (clause_value c).

Definition clause_wf (c : ClauseRef) : Prop :=
  attribute_wf (clause_attribute c) /\ value_wf (clause_value c).

(** A count followed by the entries. *)
Definition counted_wire {A} (wire : A -> list byte) (l : list A) : list byte :=
  byte_of (N.of_nat (length l)) :: concat (wire <$> l).

(** An operation with its entries decoded, its wire form, and the borrowed view
    the parser returns for it. *)
Module Operation.
Inductive t :=
| SetEnvironment (attributes : list AttributeRef)
| Subscribe (type_id : TypeId) (clauses : list ClauseRef)
| SubscribePermanent (type_id : TypeId) (clauses : list ClauseRef)
| Publish (type_id : TypeId) (clauses : list ClauseRef) (value : list byte)
| PublicationResponse (type_id : TypeId) (publisher : AgentId) (value : list byte).

Definition wire (op : t) : list byte :=
  match op with
  | SetEnvironment l => OP_ENVIRONMENT :: counted_wire item_wire l
  | Subscribe ty l => OP_SUBSCRIBE :: to_be 4 (type_raw ty) ++ counted_wire clause_wire l
  | SubscribePermanent ty l =>
      OP_SUBSCRIBE_PERMANENT :: to_be 4 (type_raw ty) ++ counted_wire clause_wire l
  | Publish ty l v =>
      OP_PUBLISH :: to_be 4 (type_raw ty) ++ counted_wire clause_wire l
        ++ to_be 2 (N.of_nat (length v)) ++ v
  | PublicationResponse ty p v =>
      OP_RESPONSE :: to_be 4 (type_raw ty) ++ vec_to_list (agent_bytes p)
        ++ to_be 2 (N.of_nat (length v)) ++ v
  end.

Definition environment_wf (l : list AttributeRef) : Prop :=
  length l <= MAX_ATTRIBUTES /\ Forall item_wf l /\ NoDup (attr_id <$> l).
Definition clauses_wf (l : list ClauseRef) : Prop :=
  length l <= MAX_CLAUSES /\ Forall clause_wf l.

Definition wf (op : t) : Prop :=
  match op with
  | SetEnvironment l => environment_wf l
  | Subscribe ty l | SubscribePermanent ty l => type_wf ty /\ clauses_wf l
  | Publish ty l v => type_wf ty /\ clauses_wf l /\ length v <= MAX_VALUE_BYTES
  | PublicationResponse ty p v => type_wf ty /\ length v <= MAX_VALUE_BYTES
  end.

Definition environment_view (l : list AttributeRef) : EnvironmentRef :=
  mkEnvironment (concat (item_wire <$> l)) (byte_of (N.of_nat (length l))).
Definition predicate_view (l : list ClauseRef) : PredicateRef :=
  mkPredicate (concat (clause_wire <$> l)) (byte_of (N.of_nat (length l))).

Definition view (op : t) : OperationRef :=
  match op with
  | SetEnvironment l => OperationRef.SetEnvironment (environment_view l)
  | Subscribe ty l => OperationRef.Subscribe ty (predicate_view l)
  | SubscribePermanent ty l => OperationRef.SubscribePermanent ty (predicate_view l)
  | Publish ty l v => OperationRef.Publish ty (predicate_view l) v
  | PublicationResponse ty p v => OperationRef.PublicationResponse ty p v
  end.

(** The encoder of each operation. *)
Definition encode (op : t) : M (list byte) Error nat :=
  match op with
  | SetEnvironment l => encode_environment l
  | Subscribe ty l => encode_subscribe ty l
  | SubscribePermanent ty l => encode_subscribe_permanent ty l
  | Publish ty l v => encode_publish ty l v
  | PublicationResponse ty p v => encode_response ty p v
  end.
End Operation.
Abbreviation Operation := Operation.t.

(** A position a [usize] can hold. *)
Definition fits (n : nat) : Prop := (N.of_nat n <= u64_max)%N.

#[export] Instance fits_dec n : Decision (fits n).
Proof. unfold fits. apply _. Defined.

(** ** Reading: cursor programs as recognisers of words

    [reads m R]: wherever the cursor stands in the input, [m] consumes exactly a
    word [w] with [R a w] and returns [a]; it accepts every such word and never
    panics. *)

Section reading.
Variable input : list byte.

Definition at_pos (n : nat) : Cursor := mkCursor input n.

(** The word [w] starts at position [n]. *)
Definition spans (n : nat) (w : list byte) : Prop :=
  n <= length input /\ exists post, drop n input = w ++ post.

Lemma spans_length n w : spans n w -> n + length w <= length input.
Proof.
  intros [Hn [post Hdrop]]. apply (f_equal length) in Hdrop.
  rewrite length_drop, length_app in Hdrop. lia.
Qed.

Lemma spans_nil n : n <= length input -> spans n [].
Proof. intros. split; [done|]. by eexists. Qed.

Lemma spans_app n w1 w2 :
  spans n (w1 ++ w2) <-> spans n w1 /\ spans (n + length w1) w2.
Proof.
  split.
  - intros Hs. pose proof (spans_length _ _ Hs) as Hlen. rewrite length_app in Hlen.
    destruct Hs as [Hn [post Hdrop]]. split; split; try lia.
    + exists (w2 ++ post). by rewrite app_assoc.
    + exists post. rewrite <-drop_drop, Hdrop, <-app_assoc. by rewrite drop_app_length.
  - intros [[Hn [post1 H1]] [_ [post2 H2]]]. split; [done|]. exists post2.
    rewrite <-drop_drop, H1, drop_app_length in H2. by rewrite H1, H2, app_assoc.
Qed.

Lemma spans_take n w : spans n w <-> n + length w <= length input /\ take (length w) (drop n input) = w.
Proof.
  split.
  - intros Hs. split; [by apply spans_length|]. destruct Hs as [_ [post ->]].
    by rewrite take_app_length.
  - intros [Hlen Htake]. split; [lia|]. exists (drop (length w) (drop n input)).
    by rewrite <-Htake at 1; rewrite take_drop.
Qed.

Record reads {A} (m : M Cursor Error A) (R : A -> list byte -> Prop) : Prop := {
  reads_ok n w a :
    R a w -> spans n w -> fits (n + length w) -> m (at_pos n) = (Ok a, at_pos (n + length w));
  reads_inv n a c :
    n <= length input -> fits n -> m (at_pos n) = (Ok a, c) ->
    exists w, R a w /\ spans n w /\ fits (n + length w) /\ c = at_pos (n + length w);
  reads_total n : n <= length input -> fits n -> fst (m (at_pos n)) <> Panic;
}.

Lemma reads_ext {A} (m : M Cursor Error A) (R Q : A -> list byte -> Prop) :
  reads m R -> (forall a w, R a w <-> Q a w) -> reads m Q.
Proof.
  intros [Hok Hinv Htot] HRQ. split; [|intros ????? H|done].
  - intros. apply Hok; naive_solver.
  - apply Hinv in H as (w & ? & ?); [|done..]. exists w. naive_solver.
Qed.

Lemma reads_ret {A} (a : A) : reads (mret a) (fun b w => b = a /\ w = []).
Proof.
  split; [|intros n b c Hn Hfit [= <- <-]|done].
  - intros n w b [-> ->] _ _. by rewrite Nat.add_0_r.
  - exists []. rewrite Nat.add_0_r. split_and!; try done. by apply spans_nil.
Qed.

Lemma reads_bind {A B} (m : M Cursor Error A) R (f : A -> M Cursor Error B)
    (Q : A -> B -> list byte -> Prop) :
  reads m R -> (forall a, reads (f a) (Q a)) ->
  reads (m ≫= f) (fun b w => exists a w1 w2, w = w1 ++ w2 /\ R a w1 /\ Q a b w2).
Proof.
  intros [Hok Hinv Htot] Hf. split.
  - intros n w b (a & w1 & w2 & -> & HR & HQ) [Hs1 Hs2]%spans_app Hfit.
    rewrite length_app, Nat.add_assoc in *.
    erewrite bind_run; [|apply Hok; [done..|unfold fits in *; lia]].
    by apply (Hf a).
  - intros n b c Hn Hfit (a & s & Hm & Hk)%M_bind_ok.
    apply Hinv in Hm as (w1 & HR & Hs & Hfit' & ->); [|done..].
    apply Hf in Hk as (w2 & HQ & Hs2 & Hfit2 & ->); [|by apply spans_length|done].
    exists (w1 ++ w2). rewrite spans_app, length_app, Nat.add_assoc.
    split_and!; try done. by exists a, w1, w2.
  - intros n Hn Hfit. rewrite M_bind_run. specialize (Htot n Hn Hfit).
    destruct (m (at_pos n)) as [[a|e|] s] eqn:Hm; [|done..].
    apply Hinv in Hm as (w1 & HR & Hs & Hfit' & ->); [|done..].
    apply Hf; [by apply spans_length|done].
Qed.

Lemma reads_guard {A} (b : bool) e (m : M Cursor Error A) R :
  reads m R -> reads (if b then fail e else m) (fun a w => b = false /\ R a w).
Proof.
  intros [Hok Hinv Htot]. destruct b; split; try done.
  - naive_solver.
  - naive_solver.
  - intros n a c Hn Hfit (w & ?)%Hinv; [|done..]. exists w. naive_solver.
Qed.

Lemma reads_lift {A} (o : option A) e :
  reads (lift (ok_or o e)) (fun a w => o = Some a /\ w = []).
Proof.
  destruct o as [a|]; split; try done; try naive_solver.
  - intros n w b [[= <-] ->] _ _. by rewrite Nat.add_0_r.
  - intros n b c Hn Hfit [= <- <-]. exists []. rewrite Nat.add_0_r.
    split_and!; try done. by apply spans_nil.
Qed.

Lemma reads_fail {A} e : reads (A:=A) (fail e) (fun _ _ => False).
Proof. split; done. Qed.

Lemma reads_take n : reads (cursor_take n) (fun l w => l = w /\ length w = n).
Proof.
  split.
  - intros k w l [-> <-] [Hlen Htake]%spans_take Hfit. unfold cursor_take.
    autorewrite with rust. cbn [cursor_position at_pos].
    rewrite (proj2 (checked_add_Some _ _ (k + length w)))
      by (unfold fits in Hfit; split; [done|lia]).
    cbn [ok_or]. autorewrite with rust. cbn [cursor_input at_pos].
    rewrite (proj2 (get_range_Some _ _ _ w)); [done|].
    split_and!; [lia..|]. by rewrite Nat.add_comm, Nat.add_sub.
  - intros k l c Hk Hpre H. unfold cursor_take in H. autorewrite with rust in H.
    cbn [cursor_position at_pos] in H.
    destruct (checked_add _ _) as [stop|] eqn:Hadd; [|done].
    apply checked_add_Some in Hadd as [-> Hle]. cbn [ok_or] in H. autorewrite with rust in H.
    cbn [cursor_input at_pos] in H.
    destruct (get_range _ _ _) as [bytes|] eqn:Hget; [|done].
    cbn [ok_or] in H. autorewrite with rust in H. cbv [mret M_ret at_pos cursor_input] in H.
    injection H as <- <-. apply get_range_Some in Hget as (_ & Hlen & ->).
    rewrite Nat.add_comm, Nat.add_sub.
    assert (Hw : length (take n (drop k input)) = n) by (rewrite length_take, length_drop; lia).
    exists (take n (drop k input)). rewrite spans_take, !Hw, (Nat.add_comm n k).
    split_and!; [done..|lia|done|unfold fits; lia|done].
  - intros k _ _. unfold cursor_take. autorewrite with rust.
    destruct (checked_add _ _); cbn [ok_or]; autorewrite with rust; [|done].
    destruct (get_range _ _ _); cbn [ok_or]; by autorewrite with rust.
Qed.

Lemma reads_u8 : reads cursor_u8 (fun b w => w = [b]).
Proof.
  eapply reads_ext; [apply reads_bind; [apply reads_take|intros l; apply reads_lift]|].
  intros b w. split.
  - intros (l & w1 & w2 & -> & [-> Hlen] & Hhd & ->). destruct w1 as [|? [|]]; naive_solver.
  - intros ->. exists [b], [b], []. done.
Qed.

Lemma reads_array n : reads (cursor_array n) (fun v w => w = vec_to_list v).
Proof.
  eapply reads_ext; [apply reads_bind; [apply reads_take|intros l; apply reads_lift]|].
  intros v w. split.
  - intros (l & w1 & w2 & -> & [-> Hlen] & Hv & ->). rewrite app_nil_r. by apply to_array_Some.
  - intros ->. exists (vec_to_list v), (vec_to_list v), [].
    by rewrite app_nil_r, length_vec_to_list, to_array_to_list.
Qed.

Lemma reads_be n :
  reads (a ← cursor_array n; mret (from_be (vec_to_list a)))
    (fun x w => w = to_be n x /\ (x < 256 ^ N.of_nat n)%N).
Proof.
  eapply reads_ext; [apply reads_bind; [apply reads_array|intros l; apply reads_ret]|].
  intros x w. split.
  - intros (v & w1 & w2 & -> & -> & -> & ->). rewrite app_nil_r.
    pose proof (to_be_from_be (vec_to_list v)). pose proof (from_be_lt (vec_to_list v)).
    rewrite length_vec_to_list in *. done.
  - intros [-> Hx]. destruct (to_array_length n (to_be n x)) as [_ [v Hv]]; [apply length_to_be|].
    apply to_array_Some in Hv. exists v, (to_be n x), [].
    by rewrite app_nil_r, <-Hv, from_be_to_be_small.
Qed.

Lemma reads_u16 : reads cursor_u16 (fun x w => w = to_be 2 x /\ (x <= u16_max)%N).
Proof.
  eapply reads_ext; [apply (reads_be 2)|]. intros x w.
  change (256 ^ N.of_nat 2)%N with 65536%N. unfold u16_max. split; intros [? ?]; split; lia || done.
Qed.

Lemma reads_u32 : reads cursor_u32 (fun x w => w = to_be 4 x /\ (x <= u32_max)%N).
Proof.
  eapply reads_ext; [apply (reads_be 4)|]. intros x w.
  change (256 ^ N.of_nat 4)%N with 4294967296%N. unfold u32_max.
  split; intros [? ?]; split; lia || done.
Qed.

Lemma reads_bytes_u16 maximum :
  (N.of_nat maximum <= u16_max)%N ->
  reads (cursor_bytes_u16 maximum)
    (fun l w => length l <= maximum /\ w = to_be 2 (N.of_nat (length l)) ++ l).
Proof.
  intros Hmax.
  eapply reads_ext;
    [apply reads_bind; [apply reads_u16|intros l; apply reads_guard, reads_take]|].
  intros l w. split.
  - intros (len & w1 & w2 & -> & [-> Hlen] & Hg & -> & Hl). apply N.ltb_ge in Hg.
    split; [lia|]. f_equal. f_equal. lia.
  - intros [Hlen ->]. exists (N.of_nat (length l)), (to_be 2 (N.of_nat (length l))), l.
    rewrite N.ltb_ge, Nat2N.id. split_and!; try done; lia.
Qed.

Lemma reads_bool :
  reads (b ← cursor_u8;
         match b with
         | x00 => mret (ValueRef.Bool false)
         | x01 => mret (ValueRef.Bool true)
         | _ => fail Error.Malformed
         end)
    (fun v w => exists b : bool, v = ValueRef.Bool b /\ w = [if b then x01 else x00]).
Proof.
  eapply reads_ext.
  - apply reads_bind; [apply reads_u8|]. intros b.
    instantiate (1 := fun b v w =>
      w = [] /\ ((b = x00 /\ v = ValueRef.Bool false) \/ (b = x01 /\ v = ValueRef.Bool true))).
    destruct b; (eapply reads_ext; [first [apply reads_ret | apply reads_fail]|]);
      intros v w; intuition congruence.
  - intros v w. split.
    + intros (b & w1 & w2 & -> & -> & -> & [[-> ->]|[-> ->]]); [by exists false|by exists true].
    + intros ([] & -> & ->); eexists _, [_], []; do 3 (split; [done|]); auto.
Qed.

Lemma reads_value :
  reads (cursor_value MAX_ATTRIBUTE_BYTES) (fun v w => w = value_wire v /\ value_wf v).
Proof.
  unfold cursor_value. eapply reads_ext.
  - apply reads_bind; [apply reads_u8|]. intros tag.
    instantiate (1 := fun tag v w => tag :: w = value_wire v /\ value_wf v).
    destruct tag; try (eapply reads_ext; [apply reads_fail|];
      intros [] ?; cbn; (split; [done|intros [? _]; discriminate])).
    + eapply reads_ext; [apply reads_bool|]. intros v w. split.
      * by intros (b & -> & ->).
      * destruct v as [b| |]; cbn; intros [[= ->] _]. by exists b.
    + eapply reads_ext; [apply reads_bind; [apply reads_array|intros a; apply reads_ret]|].
      intros v w. split.
      * intros (a & w1 & w2 & -> & -> & -> & ->). cbn [value_wire value_wf].
        rewrite app_nil_r, i64_to_from_be by apply length_vec_to_list.
        split; [done|]. apply i64_from_be_wf, length_vec_to_list.
      * destruct v as [|z|]; cbn [value_wire value_wf]; intros [[= ->] Hz].
        destruct (to_array_length 8 (i64_to_be z)) as [_ [a Ha]]; [apply length_i64_to_be|].
        apply to_array_Some in Ha. exists a, (i64_to_be z), [].
        by rewrite app_nil_r, <-Ha, i64_from_to_be.
    + eapply reads_ext.
      { apply reads_bind; [apply reads_bytes_u16; done|intros l; apply reads_ret]. }
      intros v w. split.
      * intros (l & w1 & w2 & -> & [Hl ->] & -> & ->). cbn [value_wire value_wf].
        by rewrite app_nil_r.
      * destruct v as [| |l]; cbn [value_wire value_wf]; intros [[= ->] Hl].
        eexists l, _, []. by rewrite app_nil_r.
  - intros v w. split.
    + by intros (tag & w1 & w2 & -> & -> & ?).
    + intros [-> Hv]. destruct (value_wire v) as [|tag w] eqn:Hw; [by destruct v|].
      by exists tag, [tag], w.
Qed.

Lemma reads_clauses n :
  reads (cursor_clauses n)
    (fun _ w => exists l, length l = n /\ Forall clause_wf l /\ w = concat (clause_wire <$> l)).
Proof.
  induction n as [|n IH]; cbn [cursor_clauses].
  - eapply reads_ext; [apply reads_ret|]. intros [] w. split.
    + intros [_ ->]. by exists [].
    + intros ([|] & ? & ? & ->); done.
  - eapply reads_ext.
    { apply reads_bind; [apply reads_u16|]; intros id.
      apply reads_bind; [apply reads_u8|]; intros code.
      apply reads_bind; [apply reads_lift|]; intros op.
      apply reads_bind; [apply reads_value|]; intros v. apply IH. }
    intros [] w. split.
    + intros (id & ? & ? & -> & [-> Hid] & code & ? & ? & -> & -> & op & ? & ? & -> &
              [Hop ->] & v & ? & ? & -> & [-> Hv] & l & <- & Hl & ->).
      apply operator_from_u8_Some in Hop as ->.
      exists (mkClause (mkAttributeId id) op v :: l). split; [done|]. split; [by constructor|].
      reflexivity.
    + intros ([|[[id] op v] l] & [= <-] & Hl & ->); apply Forall_cons in Hl as [[Hid Hv] Hl].
      eexists id, (to_be 2 id), _. split; [reflexivity|]. split; [done|].
      eexists _, [_], _. do 2 (split; [done|]).
      eexists op, [], _. split; [done|]. split; [by rewrite operator_u8_roundtrip|].
      eexists v, (value_wire v), _. do 2 (split; [done|]). by exists l.
Qed.

(** A cursor program between two reads of the position, and the slice of the
    input between them, returns the word consumed. *)
Lemma reads_span {A B} (m : M Cursor Error A) R (f : list byte -> B) :
  reads m R ->
  reads (start ← gets cursor_position; m;; stop ← gets cursor_position;
         bytes ← lift (slice input start stop); mret (f bytes))
    (fun b w => b = f w /\ exists a, R a w).
Proof.
  intros [Hok Hinv Htot]. split.
  - intros n w b [-> [a HR]] Hs Hfit. autorewrite with rust. cbn [cursor_position at_pos].
    erewrite bind_run by (by apply Hok). autorewrite with rust. cbn [cursor_position at_pos].
    apply spans_take in Hs as [Hlen Htake].
    rewrite slice_eq by lia. autorewrite with rust.
    by rewrite Nat.add_comm, Nat.add_sub, Htake, Nat.add_comm.
  - intros n b c Hn Hfit H. autorewrite with rust in H. cbn [cursor_position at_pos] in H.
    apply M_bind_ok in H as (a & s & Hm & H).
    apply Hinv in Hm as (w & HR & Hs & Hfit' & ->); [|done..].
    autorewrite with rust in H. cbn [cursor_position at_pos] in H.
    pose proof Hs as [Hlen Htake]%spans_take.
    rewrite slice_eq in H by lia. autorewrite with rust in H.
    rewrite (Nat.add_comm n), Nat.add_sub, Htake in H. injection H as <- <-.
    exists w. rewrite (Nat.add_comm n). split_and!; try done; [by exists a|].
    by rewrite Nat.add_comm.
  - intros n Hn Hfit. autorewrite with rust. cbn [cursor_position at_pos]. rewrite M_bind_run.
    specialize (Htot n Hn Hfit). destruct (m (at_pos n)) as [[a|e|] s] eqn:Hm; [|done..].
    apply Hinv in Hm as (w & HR & Hs & Hfit' & ->); [|done..].
    autorewrite with rust. cbn [cursor_position at_pos].
    apply spans_take in Hs as [Hlen Htake]. by rewrite slice_eq by lia.
Qed.

Lemma reads_lift_Ok {A B} (a : A) (f : A -> M Cursor Error B) R :
  reads (f a) R -> reads (lift (Ok a) ≫= f) R.
Proof. exact id. Qed.

Lemma byte_nat_of n : n <= 255 -> byte_nat (byte_of (N.of_nat n)) = n.
Proof. intros. unfold byte_nat. rewrite byte_val_of, N.mod_small; lia. Qed.

Lemma byte_of_nat b : byte_of (N.of_nat (byte_nat b)) = b.
Proof. unfold byte_nat. by rewrite N2Nat.id, byte_of_val. Qed.

Lemma reads_predicate :
  reads (cursor_predicate input)
    (fun p w => exists l, Operation.clauses_wf l /\ p = Operation.predicate_view l /\
                          w = counted_wire clause_wire l).
Proof.
  unfold cursor_predicate. eapply reads_ext.
  { apply reads_bind; [apply reads_u8|]; intros count.
    apply reads_guard.
    eapply (reads_span _ _ (fun bytes => mkPredicate bytes count)), reads_clauses. }
  intros p w. split.
  - intros (count & ? & w' & -> & -> & Hg & -> & [] & l & Hlen & Hl & ->).
    apply Nat.ltb_ge in Hg. exists l. unfold Operation.predicate_view, counted_wire.
    rewrite Hlen, byte_of_nat. repeat split; [lia|done].
  - intros (l & [Hlen Hl] & -> & ->). eexists _, [_], _. do 2 (split; [reflexivity|]).
    unfold MAX_CLAUSES in *. rewrite byte_nat_of by lia.
    split; [by apply Nat.ltb_ge|]. split; [done|]. exists tt, l. done.
Qed.

Lemma existsb_elem_N id (l : list N) : existsb (N.eqb id) l = true <-> id ∈ l.
Proof.
  rewrite existsb_exists, list_elem_of_In. setoid_rewrite N.eqb_eq. naive_solver.
Qed.

(** [parse_attributes] accepts the entries whose identifiers are distinct, and
    distinct from the [index] ones already in [ids]. *)
Lemma reads_attributes n : forall index ids,
  length ids = MAX_ATTRIBUTES -> index + n <= MAX_ATTRIBUTES ->
  NoDup (take index ids) ->
  reads (parse_attributes index n ids)
    (fun _ w => exists l, length l = n /\ Forall item_wf l /\
       NoDup (take index ids ++ (attribute_raw <$> (attr_id <$> l))) /\
       w = concat (item_wire <$> l)).
Proof.
  induction n as [|n IH]; intros index ids Hids Hle Hnd; cbn [parse_attributes].
  - eapply reads_ext; [apply reads_ret|]. intros [] w. split.
    + intros [_ ->]. exists []. cbn. by rewrite app_nil_r.
    + intros ([|] & ? & ? & ? & ->); done.
  - eapply reads_ext.
    { apply reads_bind; [apply reads_u16|]; intros id.
      rewrite slice_eq by lia. apply reads_lift_Ok. rewrite Nat.sub_0_r, drop_0.
      instantiate (1 := fun id _ w => exists v l,
        value_wf v /\ length l = n /\ Forall item_wf l /\
        NoDup (take index ids ++ id :: (attribute_raw <$> (attr_id <$> l))) /\
        w = value_wire v ++ concat (item_wire <$> l)).
      cbv beta. destruct (existsb _ _) eqn:Hseen.
      - apply existsb_elem_N in Hseen. eapply reads_ext; [apply reads_fail|].
        intros ? w. split; [done|]. intros (v & l & _ & _ & _ & (_ & Hd & _)%NoDup_app & _).
        apply (Hd id); [done|]. constructor.
      - assert (Hid : id ∉ take index ids) by (rewrite <-existsb_elem_N; by rewrite Hseen).
        rewrite write_index_eq by lia. apply reads_lift_Ok.
        assert (Htake : take (S index) (<[index:=id]> ids) = take index ids ++ [id]).
        { rewrite (take_S_r _ _ id) by (apply list_lookup_insert_eq; lia).
          by rewrite take_insert_ge. }
        eapply reads_ext.
        { apply reads_bind; [apply reads_value|]; intros v0.
          apply IH; [by rewrite length_insert|lia|]. rewrite Htake.
          apply NoDup_app. split_and!; [done| |apply NoDup_singleton]. set_solver. }
        intros ? w. rewrite Htake. setoid_rewrite <-app_assoc. split.
        + intros (v & ? & ? & -> & [-> Hv] & l & Hlen & Hl & Hnd' & ->). by exists v, l.
        + intros (v & l & Hv & Hlen & Hl & Hnd' & ->).
          exists v, (value_wire v), (concat (item_wire <$> l)). do 2 (split; [done|]). by exists l. }
    intros [] w. split.
    + intros (id & ? & ? & -> & [-> Hid] & v & l & Hv & <- & Hl & Hnd' & ->).
      exists (mkAttribute (mkAttributeId id) v :: l). by repeat (split || constructor).
    + intros ([|[[id] v] l] & [= <-] & Hl & Hnd' & ->); apply Forall_cons in Hl as [[Hid Hv] Hl].
      exists id, (to_be 2 id), (value_wire v ++ concat (item_wire <$> l)).
      do 2 (split; [done|]). by exists v, l.
Qed.

Lemma attr_ids_raw (l : list AttributeRef) :
  NoDup (attribute_raw <$> (attr_id <$> l)) <-> NoDup (attr_id <$> l).
Proof.
  split; [apply NoDup_fmap_1|]. apply NoDup_fmap_2. by intros [] [] [= ->].
Qed.

Lemma reads_environment :
  reads (count ← cursor_u8;
    if MAX_ATTRIBUTES <? byte_nat count then fail Error.Oversized else
    start ← gets cursor_position;
    parse_attributes 0 (byte_nat count) (replicate MAX_ATTRIBUTES 0%N);;
    stop ← gets cursor_position;
    bytes ← lift (slice input start stop);
    mret (OperationRef.SetEnvironment (mkEnvironment bytes count)))
  (fun r w => exists l, Operation.environment_wf l /\
     r = OperationRef.SetEnvironment (Operation.environment_view l) /\
     w = counted_wire item_wire l).
Proof.
  eapply reads_ext.
  { apply reads_bind; [apply reads_u8|]; intros count.
    instantiate (1 := fun count r w => exists l, byte_nat count = length l /\
      Operation.environment_wf l /\
      r = OperationRef.SetEnvironment (mkEnvironment w count) /\
      w = concat (item_wire <$> l)). cbv beta.
    destruct (Nat.ltb_spec MAX_ATTRIBUTES (byte_nat count)) as [Hlt|Hle].
    - eapply reads_ext; [apply reads_fail|]. intros r w. split; [done|].
      intros (l & Hlen & [Hl _] & _). lia.
    - eapply reads_ext.
      { eapply (reads_span _ _ (fun bytes =>
          OperationRef.SetEnvironment (mkEnvironment bytes count))), reads_attributes;
          [done|done|constructor]. }
      intros r w. split.
      + intros (-> & [] & l & Hlen & Hl & Hnd & ->). exists l. 
        change (NoDup (attribute_raw <$> (attr_id <$> l))) in Hnd. rewrite attr_ids_raw in Hnd.
        unfold Operation.environment_wf. rewrite Hlen. done.
      + intros (l & -> & [Hlen [Hl Hnd]] & -> & ->). split; [done|]. exists tt, l.
        do 2 (split; [done|]). split; [|done].
        change (NoDup (attribute_raw <$> (attr_id <$> l))). by rewrite attr_ids_raw. }
  intros r w. split.
  - intros (count & ? & w' & -> & -> & l & Hlen & Hl & -> & ->). exists l.
    unfold Operation.environment_view, counted_wire. by rewrite <-Hlen, byte_of_nat.
  - intros (l & Hl & -> & ->). eexists _, [_], _. do 2 (split; [reflexivity|]).
    exists l. destruct Hl as [Hlen Hl]. unfold MAX_ATTRIBUTES in Hlen.
    by rewrite byte_nat_of by lia.
Qed.

Lemma reads_subscription (f : TypeId -> PredicateRef -> OperationRef) :
  reads (type_id ← cursor_u32; predicate ← cursor_predicate input;
         mret (f (mkTypeId type_id) predicate))
    (fun r w => exists ty l, type_wf ty /\ Operation.clauses_wf l /\
       r = f ty (Operation.predicate_view l) /\
       w = to_be 4 (type_raw ty) ++ counted_wire clause_wire l).
Proof.
  eapply reads_ext.
  { apply reads_bind; [apply reads_u32|]; intros ty.
    apply reads_bind; [apply reads_predicate|]; intros p. apply reads_ret. }
  intros r w. split.
  - intros (ty & ? & ? & -> & [-> Hty] & p & ? & ? & -> & (l & Hl & -> & ->) & -> & ->).
    exists (mkTypeId ty), l. by rewrite app_nil_r.
  - intros ([ty] & l & Hty & Hl & -> & ->). eexists ty, (to_be 4 ty), _. do 2 (split; [done|]).
    eexists _, (counted_wire clause_wire l), []. rewrite app_nil_r. split; [done|].
    split; [by exists l|done].
Qed.

Lemma reads_publish :
  reads (type_id ← cursor_u32; predicate ← cursor_predicate input;
         value ← cursor_bytes_u16 MAX_VALUE_BYTES;
         mret (OperationRef.Publish (mkTypeId type_id) predicate value))
    (fun r w => exists ty l v, Operation.wf (Operation.Publish ty l v) /\
       r = Operation.view (Operation.Publish ty l v) /\
       OP_PUBLISH :: w = Operation.wire (Operation.Publish ty l v)).
Proof.
  eapply reads_ext.
  { apply reads_bind; [apply reads_u32|]; intros ty.
    apply reads_bind; [apply reads_predicate|]; intros p.
    apply reads_bind; [apply reads_bytes_u16; done|]; intros v. apply reads_ret. }
  intros r w. cbn [Operation.wf Operation.view Operation.wire]. split.
  - intros (ty & ? & ? & -> & [-> Hty] & p & ? & ? & -> & (l & Hl & -> & ->)
      & v & ? & ? & -> & [Hv ->] & -> & ->).
    exists (mkTypeId ty), l, v. by rewrite app_nil_r.
  - intros ([ty] & l & v & (Hty & Hl & Hv) & -> & [= ->]).
    eexists ty, (to_be 4 ty), _. do 2 (split; [done|]).
    eexists _, (counted_wire clause_wire l), _. split; [done|]. split; [by exists l|].
    eexists v, _, []. rewrite app_nil_r. done.
Qed.

Lemma reads_response :
  reads (type_id ← cursor_u32; publisher ← cursor_array 16;
         value ← cursor_bytes_u16 MAX_VALUE_BYTES;
         mret (OperationRef.PublicationResponse (mkTypeId type_id) (mkAgentId publisher) value))
    (fun r w => exists ty p v, Operation.wf (Operation.PublicationResponse ty p v) /\
       r = Operation.view (Operation.PublicationResponse ty p v) /\
       OP_RESPONSE :: w = Operation.wire (Operation.PublicationResponse ty p v)).
Proof.
  eapply reads_ext.
  { apply reads_bind; [apply reads_u32|]; intros ty.
    apply reads_bind; [apply reads_array|]; intros p.
    apply reads_bind; [apply reads_bytes_u16; done|]; intros v. apply reads_ret. }
  intros r w. cbn [Operation.wf Operation.view Operation.wire]. split.
  - intros (ty & ? & ? & -> & [-> Hty] & p & ? & ? & -> & -> & v & ? & ? & -> & [Hv ->] & -> & ->).
    exists (mkTypeId ty), (mkAgentId p), v. by rewrite app_nil_r.
  - intros ([ty] & [p] & v & (Hty & Hv) & -> & [= ->]).
    eexists ty, (to_be 4 ty), _. do 2 (split; [done|]).
    eexists p, (vec_to_list p), _. do 2 (split; [done|]).
    eexists v, _, []. rewrite app_nil_r. done.
Qed.

Lemma reads_body code :
  reads (parse_body input code)
    (fun r w => exists op, Operation.wf op /\ r = Operation.view op /\
                           code :: w = Operation.wire op).
Proof.
  unfold parse_body. repeat case_bool_decide; subst; eapply reads_ext;
    [apply reads_environment| |apply (reads_subscription OperationRef.Subscribe)|
    |apply (reads_subscription OperationRef.SubscribePermanent)| |apply reads_publish|
    |apply reads_response| |apply reads_fail|]; intros r w; cbv beta; split.
  - intros (l & Hl & -> & ->). by exists (Operation.SetEnvironment l).
  - intros ([l| | | |] & Hl & -> & [= ->]). by exists l.
  - intros (ty & l & Hty & Hl & -> & ->). by exists (Operation.Subscribe ty l).
  - intros ([|ty l| | |] & Hl & -> & [= ->]). exists ty, l. by destruct Hl.
  - intros (ty & l & Hty & Hl & -> & ->). by exists (Operation.SubscribePermanent ty l).
  - intros ([| |ty l| |] & Hl & -> & [= ->]). exists ty, l. by destruct Hl.
  - intros (ty & l & v & ?). by exists (Operation.Publish ty l v).
  - intros ([| | |ty l v|] & Hl & -> & Hw); [discriminate Hw..| |discriminate Hw].
    by exists ty, l, v.
  - intros (ty & p & v & ?). by exists (Operation.PublicationResponse ty p v).
  - intros ([| | | |ty p v] & Hl & -> & Hw); [discriminate Hw..|]. by exists ty, p, v.
  - done.
  - intros ([] & Hl & -> & Hw); injection Hw as ? _; congruence.
Qed.

Lemma reads_operation :
  reads (code ← cursor_u8; parse_body input code)
    (fun r w => exists op, Operation.wf op /\ r = Operation.view op /\ w = Operation.wire op).
Proof.
  eapply reads_ext;
    [apply reads_bind; [apply reads_u8|intros code; apply reads_body]|].
  intros r w. split.
  - intros (code & ? & ? & -> & -> & op & Hop & -> & Hw). by exists op.
  - intros (op & Hop & -> & ->). destruct (Operation.wire op) as [|code w] eqn:Hw; [by destruct op|].
    exists code, [code], w. split_and!; try done. by exists op.
Qed.

End reading.

Abbreviation MAX_OPERATION_BYTES := 3640 (only parsing).

Lemma length_concat_le {A B} (f : A -> list B) k (l : list A) :
  Forall (fun a => length (f a) <= k) l -> length (concat (f <$> l)) <= k * length l.
Proof. induction 1 as [|a l Ha Hl IH]; cbn; [lia|]. rewrite length_app. lia. Qed.

Lemma length_value_wire v : value_wf v -> length (value_wire v) <= 67.
Proof.
  destruct v as [b|z|l]; cbn [value_wire value_wf length]; intros Hv; [lia| |].
  - rewrite length_i64_to_be. lia.
  - rewrite length_app, length_to_be. unfold MAX_ATTRIBUTE_BYTES in Hv. lia.
Qed.

Lemma length_clauses_wire l :
  Operation.clauses_wf l -> length (counted_wire clause_wire l) <= 561.
Proof.
  intros [Hlen Hl]. unfold counted_wire. cbn [length].
  unfold MAX_CLAUSES in Hlen.
  enough (Forall (fun c => length (clause_wire c) <= 70) l) as H%length_concat_le by lia.
  eapply Forall_impl; [exact Hl|]. intros c [_ Hc%length_value_wire].
  unfold clause_wire. rewrite length_app, length_to_be. cbn [length]. lia.
Qed.

(** A well-formed operation fits in one plaintext. *)
Lemma length_wire op : Operation.wf op -> length (Operation.wire op) <= MAX_OPERATION_BYTES.
Proof.
  destruct op as [l|ty l|ty l|ty l v|ty p v];
    cbn [Operation.wf Operation.wire length]; unfold MAX_VALUE_BYTES;
    rewrite ?length_app, ?length_to_be, ?length_vec_to_list.
  - intros (Hlen & Hl & _). unfold counted_wire. cbn [length].
    unfold MAX_ATTRIBUTES in Hlen.
    enough (Forall (fun a => length (item_wire a) <= 69) l) as H%length_concat_le by lia.
    eapply Forall_impl; [exact Hl|]. intros c [_ Hc%length_value_wire].
    unfold item_wire. rewrite length_app, length_to_be. lia.
  - intros (_ & Hl%length_clauses_wire). lia.
  - intros (_ & Hl%length_clauses_wire). lia.
  - intros (_ & Hl%length_clauses_wire & Hv). lia.
  - intros (_ & Hv). lia.
Qed.

Lemma fits_small n : n <= 4096 -> fits n.
Proof. unfold fits, u64_max. lia. Qed.

Lemma parse_operation_iff input r :
  parse_operation input = Ok r <->
  exists op, Operation.wf op /\ input = Operation.wire op /\ r = Operation.view op.
Proof.
  destruct (reads_operation input) as [Hok Hinv _]. unfold parse_operation.
  rewrite <-bind_assoc. rewrite M_bind_run. split.
  - destruct ((code ← cursor_u8; parse_body input code) _) as [[r'| |] c] eqn:Hrun; [|done..].
    apply Hinv in Hrun as (w & (op & Hop & -> & ->) & Hs & _ & ->); [|lia|by apply fits_small; lia].
    autorewrite with rust. cbn [cursor_position at_pos].
    destruct (Nat.eqb_spec (0 + length (Operation.wire op)) (length input)); [|done].
    cbn. intros [= <-]. exists op. split; [done|]. split; [|done].
    apply spans_take in Hs as [_ Hs]. rewrite drop_0 in Hs.
    rewrite <-Hs. by rewrite firstn_all2 by lia.
  - intros (op & Hop & -> & ->).
    change (Cursor_new (Operation.wire op)) with (at_pos (Operation.wire op) 0).
    change (cursor_u8 ≫= parse_body (Operation.wire op))
      with (code ← cursor_u8; parse_body (Operation.wire op) code).
    rewrite (Hok 0 (Operation.wire op) (Operation.view op)).
    + autorewrite with rust. cbn [cursor_position at_pos]. by rewrite Nat.eqb_refl.
    + by exists op.
    + split; [lia|]. exists []. by rewrite app_nil_r.
    + apply fits_small. pose proof (length_wire op Hop). lia.
Qed.

Lemma parse_operation_total input : parse_operation input <> Panic.
Proof.
  destruct (reads_operation input) as [_ Hinv Htot]. unfold parse_operation.
  rewrite <-bind_assoc, M_bind_run.
  specialize (Htot 0 (Nat.le_0_l _) (fits_small 0 (Nat.le_0_l _))).
  change (at_pos input 0) with (Cursor_new input) in Htot.
  destruct ((cursor_u8 ≫= parse_body input) (Cursor_new input)) as [[r'| |] c];
    [|done..].
  autorewrite with rust. by destruct (negb _).
Qed.

(** ** Writing: writer programs as producers of words

    [writes m w]: wherever the writer stands, [m] appends [w] when the buffer has
    room for it and otherwise fails with [Oversized]; it never panics and never
    changes the length of the buffer. *)

Definition room (out : list byte) (n : nat) (w : list byte) : Prop :=
  n + length w <= length out /\ fits (n + length w).

#[export] Instance room_dec out n w : Decision (room out n w).
Proof. unfold room. apply _. Defined.

(** The buffer [out] after [w] is written at position [n]. *)
Definition written (out : list byte) (n : nat) (w : list byte) : list byte :=
  take n out ++ w ++ drop (n + length w) out.

Record writes (m : M Writer Error unit) (w : list byte) : Prop := {
  writes_ok out n : n <= length out -> fits n -> room out n w ->
    m (mkWriter out n) = (Ok tt, mkWriter (written out n w) (n + length w));
  writes_full out n : n <= length out -> fits n -> ~ room out n w ->
    exists out' n', m (mkWriter out n) = (Err Error.Oversized, mkWriter out' n') /\
      length out' = length out;
}.

Lemma length_written out n w : n + length w <= length out -> length (written out n w) = length out.
Proof. intros. unfold written. rewrite !length_app, length_take, length_drop. lia. Qed.

Lemma written_app out n w1 w2 :
  n + length w1 <= length out ->
  written (written out n w1) (n + length w1) w2 = written out n (w1 ++ w2).
Proof.
  intros Hlen. unfold written at 1 3.
  replace (take (n + length w1) (written out n w1)) with (take n out ++ w1).
  - replace (drop _ (written out n w1)) with (drop (n + length (w1 ++ w2)) out).
    + by rewrite <-!app_assoc.
    + unfold written. rewrite length_app, Nat.add_assoc, app_assoc.
      rewrite <-!(drop_drop _ (length w2)). f_equal.
      rewrite drop_app_length'; [done|]. rewrite length_app, length_take. lia.
  - unfold written. rewrite app_assoc, take_app_length'; [done|].
    rewrite length_app, length_take. lia.
Qed.

Lemma writes_raw w : writes (writer_raw w) w.
Proof.
  split; intros out n Hn Hfit Hroom; unfold writer_raw; autorewrite with rust;
    cbn [writer_position].
  - destruct Hroom as [Hlen Hfit'].
    rewrite (proj2 (checked_add_Some _ _ (n + length w)))
      by (unfold fits in Hfit'; split; [done|lia]).
    cbn [ok_or]. autorewrite with rust. cbn [writer_output].
    rewrite (proj2 (get_range_Some _ _ _ _)) by (split_and!; [lia|lia|reflexivity]).
    cbn [ok_or]. autorewrite with rust. rewrite write_range_eq by lia.
    by autorewrite with rust.
  - exists out, n. split; [|done].
    destruct (checked_add _ _) as [stop|] eqn:Hadd; [|by cbn [ok_or]; autorewrite with rust].
    apply checked_add_Some in Hadd as [-> Hle].
    cbn [ok_or]. autorewrite with rust. cbn [writer_output].
    rewrite (proj2 (get_range_None _ _ _)); [by cbn [ok_or]; autorewrite with rust|].
    right. destruct (decide (n + length w <= length out)); [|lia].
    exfalso. apply Hroom. split; [done|]. unfold fits. lia.
Qed.

Lemma writes_nil : writes (mret tt) [].
Proof.
  split; intros out n Hn Hfit Hroom.
  - unfold written. cbn [length app]. by rewrite Nat.add_0_r, take_drop.
  - exfalso. apply Hroom. unfold room. cbn. by rewrite Nat.add_0_r.
Qed.

Lemma writes_seq m1 w1 m2 w2 :
  writes m1 w1 -> writes m2 w2 -> writes (m1;; m2) (w1 ++ w2).
Proof.
  intros [Hok1 Hfull1] [Hok2 Hfull2]. split; intros out n Hn Hfit Hroom;
    unfold room in Hroom; rewrite length_app, Nat.add_assoc in *.
  - destruct Hroom as [Hlen Hfit'].
    assert (room out n w1) as Hr1 by (split; [lia|unfold fits in *; lia]).
    rewrite (bind_run _ _ _ _ _ (Hok1 out n Hn Hfit Hr1)).
    destruct Hr1 as [Hl1 Hf1].
    rewrite Hok2; [by rewrite written_app| |done|]; unfold room; by rewrite length_written.
  - destruct (decide (room out n w1)) as [Hr1|Hr1].
    + rewrite (bind_run _ _ _ _ _ (Hok1 out n Hn Hfit Hr1)). destruct Hr1 as [Hl1 Hf1].
      destruct (Hfull2 (written out n w1) (n + length w1)) as (out' & n' & Hrun & Hlen');
        [by rewrite length_written|done|unfold room; by rewrite length_written|].
      exists out', n'. by rewrite Hrun, Hlen', length_written.
    + destruct (Hfull1 out n Hn Hfit Hr1) as (out' & n' & Hrun & Hlen').
      exists out', n'. by rewrite (bind_run_err _ _ _ _ _ Hrun).
Qed.

Lemma writes_cast m w w' : writes m w -> w = w' -> writes m w'.
Proof. by intros ? <-. Qed.

Lemma writes_lift_Ok {A} (a : A) f w : writes (f a) w -> writes (lift (Ok a) ≫= f) w.
Proof. exact id. Qed.

#[local] Hint Resolve writes_raw writes_nil : core.

Lemma writes_bytes_u16 l maximum :
  length l <= maximum -> (N.of_nat maximum <= u16_max)%N ->
  writes (writer_bytes_u16 l maximum) (to_be 2 (N.of_nat (length l)) ++ l).
Proof.
  intros Hl Hmax. unfold writer_bytes_u16, try_from_usize.
  rewrite (proj2 (Nat.ltb_ge _ _)), (proj2 (N.leb_le _ _)) by lia.
  apply writes_lift_Ok, writes_seq; apply writes_raw.
Qed.

Lemma writes_value v :
  value_wf v -> writes (writer_value v MAX_ATTRIBUTE_BYTES) (value_wire v).
Proof.
  destruct v as [b|z|l]; cbn [writer_value value_wf]; intros Hv.
  - by apply (writes_seq _ [x01] _ [_]); apply writes_raw.
  - by apply (writes_seq _ [x02]); apply writes_raw.
  - by apply (writes_seq _ [x03]); [apply writes_raw|apply writes_bytes_u16].
Qed.

Lemma writes_clauses l :
  Forall clause_wf l -> writes (writer_clauses l) (concat (clause_wire <$> l)).
Proof.
  induction 1 as [|c l [_ Hv] Hl IH]; cbn [writer_clauses]; [apply writes_nil|].
  eapply writes_cast.
  - repeat first [apply writes_seq | apply writes_raw | by apply writes_value | exact IH].
  - cbn [fmap list_fmap concat]. unfold clause_wire. by rewrite <-app_assoc.
Qed.

Lemma writes_attributes l :
  Forall item_wf l -> writes (writer_attributes l) (concat (item_wire <$> l)).
Proof.
  induction 1 as [|c l [_ Hv] Hl IH]; cbn [writer_attributes]; [apply writes_nil|].
  eapply writes_cast.
  - repeat first [apply writes_seq | apply writes_raw | by apply writes_value | exact IH].
  - cbn [fmap list_fmap concat]. unfold item_wire. by rewrite <-app_assoc.
Qed.

Lemma writes_predicate l :
  Operation.clauses_wf l -> writes (writer_predicate l) (counted_wire clause_wire l).
Proof.
  intros [Hlen Hl]. unfold writer_predicate, try_from_usize.
  unfold MAX_CLAUSES in *. unfold u8_max.
  rewrite (proj2 (Nat.ltb_ge _ _)), (proj2 (N.leb_le _ _)) by lia.
  apply writes_lift_Ok, (writes_seq _ [_]); [apply writes_raw|by apply writes_clauses].
Qed.

(** An encoder on a buffer: the wire form at its start, or [Oversized]. *)
Definition encodes (m : M (list byte) Error nat) (w : list byte) : Prop :=
  forall out, fits (length out) ->
    if decide (length w <= length out)
    then m out = (Ok (length w), w ++ drop (length w) out)
    else exists out', m out = (Err Error.Oversized, out') /\ length out' = length out.

Lemma with_writer_encodes m w : writes m w -> encodes (with_writer m) w.
Proof.
  intros [Hok Hfull] out Hout. unfold with_writer. case_decide as Hlen.
  - assert (room out 0 w) as Hroom by (unfold room, fits in *; lia).
    by rewrite (bind_run _ _ _ _ _ (Hok out 0 ltac:(lia) (fits_small 0 ltac:(lia)) Hroom)).
  - destruct (Hfull out 0) as (out' & n' & Hrun & Hl);
      [lia|apply fits_small; lia|by intros [? _]|].
    exists out'. by rewrite (bind_run_err _ _ _ _ _ Hrun).
Qed.

Lemma unique_from_Ok prior l :
  NoDup (attr_id <$> (prior ++ l)) -> unique_from prior l = Ok tt.
Proof.
  revert prior. induction l as [|a l IH]; intros prior Hnd; cbn [unique_from]; [done|].
  destruct (existsb _ prior) eqn:Hex.
  - apply existsb_exists in Hex as (p & Hp & Hid%bool_decide_eq_true).
    rewrite fmap_app in Hnd. apply NoDup_app in Hnd as (_ & Hd & _). exfalso.
    apply (Hd (attr_id a)); [|constructor]. rewrite <-Hid.
    apply list_elem_of_fmap_2, list_elem_of_In, Hp.
  - apply IH. by rewrite <-app_assoc.
Qed.

Lemma encode_encodes op : Operation.wf op -> encodes (Operation.encode op) (Operation.wire op).
Proof.
  destruct op as [l|ty l|ty l|ty l v|ty p v]; cbn [Operation.wf Operation.encode Operation.wire].
  - intros (Hlen & Hl & Hnd). unfold encode_environment. rewrite (proj2 (Nat.ltb_ge _ _)) by lia.
    unfold ensure_unique_attributes. rewrite unique_from_Ok by done.
    change (encodes (with_writer (writer_u8 OP_ENVIRONMENT;;
      count ← lift (ok_or (try_from_usize u8_max (length l)) Error.Oversized);
      writer_u8 (byte_of count);; writer_attributes l)) (OP_ENVIRONMENT :: counted_wire item_wire l)).
    apply with_writer_encodes, (writes_seq _ [_]); [apply writes_raw|].
    unfold try_from_usize, u8_max, MAX_ATTRIBUTES in *. rewrite (proj2 (N.leb_le _ _)) by lia.
    apply writes_lift_Ok, (writes_seq _ [_]); [apply writes_raw|by apply writes_attributes].
  - intros [_ Hl]. apply with_writer_encodes, (writes_seq _ [_]); [apply writes_raw|].
    apply writes_seq; [apply writes_raw|by apply writes_predicate].
  - intros [_ Hl]. apply with_writer_encodes, (writes_seq _ [_]); [apply writes_raw|].
    apply writes_seq; [apply writes_raw|by apply writes_predicate].
  - intros (_ & Hl & Hv). unfold encode_publish. rewrite (proj2 (Nat.ltb_ge _ _)) by lia.
    apply with_writer_encodes, (writes_seq _ [_]); [apply writes_raw|].
    apply writes_seq; [apply writes_raw|]. apply writes_seq; [by apply writes_predicate|].
    by apply writes_bytes_u16.
  - intros (_ & Hv). unfold encode_response. rewrite (proj2 (Nat.ltb_ge _ _)) by lia.
    apply with_writer_encodes, (writes_seq _ [_]); [apply writes_raw|].
    do 2 (apply writes_seq; [apply writes_raw|]). by apply writes_bytes_u16.
Qed.

(** ** Evaluation on decoded entries *)

(** The first value of an attribute in a list of entries. *)
Definition lookup_attribute (l : list AttributeRef) (wanted : AttributeId) : option ValueRef :=
  attr_value <$> find (fun a => bool_decide (attr_id a = wanted)) l.

Lemma lookup_attribute_elem l id v :
  NoDup (attr_id <$> l) -> lookup_attribute l id = Some v <-> mkAttribute id v ∈ l.
Proof.
  unfold lookup_attribute.
  induction l as [|[i w] l IH]; cbn [find attr_id fmap list_fmap]; intros Hnd.
  - split; [done|]. by intros ?%not_elem_of_nil.
  - apply NoDup_cons in Hnd as [Hi Hnd]. rewrite elem_of_cons.
    case_bool_decide as Hid; [subst i|].
    + cbn. split; [intros [= ->]; by left|]. intros [[= ->]|Hin]; [done|].
      exfalso. apply Hi. apply (list_elem_of_fmap_2 attr_id) in Hin. done.
    + rewrite IH by done. naive_solver.
Qed.

(** A clause holds of an environment. *)
Definition clause_holds (env : list AttributeRef) (c : ClauseRef) : bool :=
  match lookup_attribute env (clause_attribute c) with
  | Some lhs => compare lhs (clause_operator c) (clause_value c)
  | None => false
  end.

Section entries.
Variable input : list byte.
Hypothesis Hinput : fits (length input).

(** Running a cursor program on a word that is there. *)
Lemma reads_run {A B} (m : M Cursor Error A) R a w (k : A -> M Cursor Error B) n w' :
  reads input m R -> R a w -> spans input n (w ++ w') ->
  (m ≫= k) (at_pos input n) = k a (at_pos input (n + length w)) /\
  spans input (n + length w) w'.
Proof.
  intros [Hok _ _] HR [Hs Hs']%spans_app. split; [|done].
  apply bind_run, Hok; [done..|]. apply spans_length in Hs. unfold fits in *. lia.
Qed.

Lemma environment_get_loop_items l wanted n :
  Forall item_wf l -> spans input n (concat (item_wire <$> l)) ->
  fst (environment_get_loop (length l) wanted (at_pos input n)) = Ok (lookup_attribute l wanted).
Proof.
  intros Hl. revert n. induction Hl as [|[[id] v] l [Hid Hv] Hl IH]; intros n Hs; [done|].
  cbn [length environment_get_loop]. cbn [fmap list_fmap concat] in Hs.
  unfold item_wire in Hs at 1. rewrite <-app_assoc in Hs.
  eapply reads_run in Hs as [-> Hs]; [|apply reads_u16|by split].
  eapply reads_run in Hs as [-> Hs]; [|apply reads_value|done].
  unfold lookup_attribute. cbn [find attr_id attr_value attribute_raw].
  case_bool_decide; [done|]. by apply IH.
Qed.

Lemma iter_collect_items l fuel n :
  Forall item_wf l -> spans input n (concat (item_wire <$> l)) -> length l < fuel ->
  iter_collect fuel (mkIter (at_pos input n) (length l)) = l.
Proof.
  intros Hl. revert n fuel.
  induction Hl as [|[[id] v] l [Hid Hv] Hl IH]; intros n [|fuel] Hs Hfuel; try done;
    cbn [length] in Hfuel; try lia.
  cbn [iter_collect length iter_next iter_remaining iter_cursor].
  cbn [fmap list_fmap concat] in Hs.
  unfold item_wire in Hs at 1. rewrite <-app_assoc in Hs.
  eapply reads_run in Hs as [-> Hs]; [|apply reads_u16|by split].
  eapply reads_run in Hs as [-> Hs]; [|apply reads_value|done].
  cbn [mret M_ret]. rewrite IH; [done|done|lia].
Qed.

Lemma evaluate_loop_clauses l n env e :
  Forall clause_wf l -> spans input n (concat (clause_wire <$> l)) ->
  (forall wanted, environment_get e wanted = lookup_attribute env wanted) ->
  fst (evaluate_loop (length l) e (at_pos input n)) = Ok (forallb (clause_holds env) l).
Proof.
  intros Hl Hs He. revert n Hs.
  induction Hl as [|[[id] op v] l [Hid Hv] Hl IH]; intros n Hs; [done|].
  cbn [length evaluate_loop forallb]. cbn [fmap list_fmap concat] in Hs.
  change (clause_wire _ ++ ?x)
    with (to_be 2 id ++ [operator_u8 op] ++ value_wire v ++ x) in Hs.
  eapply reads_run in Hs as [-> Hs]; [|apply reads_u16|by split].
  eapply reads_run in Hs as [-> Hs]; [|apply reads_u8|done].
  rewrite operator_u8_roundtrip.
  eapply reads_run in Hs as [-> Hs]; [|apply reads_value|done].
  rewrite He. unfold clause_holds at 1. cbn [clause_attribute clause_operator clause_value].
  destruct (lookup_attribute env _) as [lhs|]; [|done].
  destruct (compare lhs op v); [|done]. cbn [negb andb]. by apply IH.
Qed.
End entries.

Lemma Cursor_new_at w : Cursor_new w = at_pos w 0.
Proof. reflexivity. Qed.

Lemma spans_self w : spans w 0 w.
Proof. split; [lia|]. exists []. by rewrite app_nil_r. Qed.

Lemma fits_items l : Operation.environment_wf l -> fits (length (concat (item_wire <$> l))).
Proof.
  intros Hl. apply fits_small. pose proof (length_wire (Operation.SetEnvironment l) Hl) as H.
  cbn [Operation.wire counted_wire length] in H. unfold counted_wire in H. cbn [length] in H. lia.
Qed.

Lemma environment_get_view l wanted :
  Operation.environment_wf l ->
  environment_get (Operation.environment_view l) wanted = lookup_attribute l wanted.
Proof.
  intros Hl. pose proof (fits_items l Hl) as Hfit. destruct Hl as (Hlen & Hl & _).
  unfold environment_get. cbn [Operation.environment_view environment_count environment_bytes].
  unfold MAX_ATTRIBUTES in Hlen. rewrite byte_nat_of by lia.
  by rewrite Cursor_new_at, (environment_get_loop_items _ Hfit l wanted 0 Hl (spans_self _)).
Qed.

Lemma environment_items_view l :
  Operation.environment_wf l -> environment_items (Operation.environment_view l) = l.
Proof.
  intros Hl. pose proof (fits_items l Hl) as Hfit. destruct Hl as (Hlen & Hl & _).
  unfold environment_items, environment_iter.
  cbn [Operation.environment_view environment_count environment_bytes].
  unfold MAX_ATTRIBUTES in Hlen. rewrite byte_nat_of by lia.
  rewrite Cursor_new_at. apply (iter_collect_items _ Hfit); [done|apply spans_self|lia].
Qed.

Lemma evaluate_view clauses env :
  Operation.clauses_wf clauses -> Operation.environment_wf env ->
  evaluate (Operation.predicate_view clauses) (Operation.environment_view env)
  = forallb (clause_holds env) clauses.
Proof.
  intros [Hlen Hl] Henv. unfold evaluate.
  cbn [Operation.predicate_view predicate_count predicate_bytes].
  pose proof (length_clauses_wire clauses (conj Hlen Hl)) as Hfit.
  unfold counted_wire in Hfit. cbn [length] in Hfit.
  unfold MAX_CLAUSES in Hlen. rewrite byte_nat_of by lia.
  assert (fits (length (concat (clause_wire <$> clauses)))) as Hfits by (apply fits_small; lia).
  rewrite Cursor_new_at, (evaluate_loop_clauses _ Hfits clauses 0 env _ Hl (spans_self _));
    [done|]. intros wanted. by apply environment_get_view.
Qed.

(** ** Properties *)

(** [parse_operation] accepts exactly the canonical encodings: it returns a
    view if and only if the input is the wire form of a well-formed operation (at
    most 16 attributes with distinct identifiers, at most 8 clauses, attribute
    values of at most 64 bytes, values of at most 3072 bytes) and the result is
    the view of that operation; it never panics, and whatever it accepts is at
    most 3640 bytes long, so it fits in one plaintext. *)
Theorem parse_operation_canonical input :
  parse_operation input <> Panic /\
  (forall r, parse_operation input = Ok r ->
     length input <= MAX_OPERATION_BYTES /\ MAX_OPERATION_BYTES <= MAX_PLAINTEXT_LEN) /\
  (forall r, parse_operation input = Ok r <->
     exists op, Operation.wf op /\ input = Operation.wire op /\ r = Operation.view op).
Proof.
  split; [apply parse_operation_total|]. split; [|intros r; apply parse_operation_iff].
  intros r (op & Hop & -> & _)%parse_operation_iff. split; [by apply length_wire|].
  unfold MAX_PLAINTEXT_LEN. lia.
Qed.

(** C28: The five encoders round-trip through the parser: on any buffer with room
    for it, the encoder of a well-formed operation writes exactly its wire form at
    the start of the buffer, leaves the rest untouched and returns its length, and
    parsing what was written returns the view of the operation.  A buffer without
    room makes it return [Oversized] without changing the buffer's length. *)
Theorem encode_parse_roundtrip op out :
  Operation.wf op -> fits (length out) ->
  parse_operation (Operation.wire op) = Ok (Operation.view op) /\
  (if decide (length (Operation.wire op) <= length out)
   then Operation.encode op out
        = (Ok (length (Operation.wire op)),
           Operation.wire op ++ drop (length (Operation.wire op)) out)
   else exists out', Operation.encode op out = (Err Error.Oversized, out') /\
                     length out' = length out).
Proof.
  intros Hop Hout. split; [apply parse_operation_iff; by exists op|].
  by apply encode_encodes.
Qed.

Definition sample_publish : Operation :=
  Operation.Publish (mkTypeId 7)
    [mkClause (mkAttributeId 1) Operator.Ge (ValueRef.I64 (-3));
     mkClause (mkAttributeId 2) Operator.Eq (ValueRef.Bytes [x61; x62])] [x2a].

Lemma encode_parse_roundtrip_witness :
  Operation.encode sample_publish (replicate 64 x00)
  = (Ok 29, Operation.wire sample_publish ++ replicate 35 x00) /\
  parse_operation (Operation.wire sample_publish) = Ok (Operation.view sample_publish).
Proof.
  destruct (encode_parse_roundtrip sample_publish (replicate 64 x00)) as [Hparse Henc].
  - repeat split; repeat constructor; vm_compute; try lia; try discriminate; repeat constructor.
  - vm_compute. discriminate.
  - rewrite decide_True in Henc by (vm_compute; lia). split; [exact Henc|exact Hparse].
Defined.

(** C29: Evaluating a parsed predicate is the conjunction of its clauses over the
    entries of a parsed environment: a clause holds when the attribute is present
    and its value compares as the operator asks, and values of different types
    compare as false.  In particular the cursor failures [evaluate] and [get]
    guard against never happen on parsed data, and the empty conjunction is true. *)
Theorem evaluate_conjunction input env_input predicate environment :
  (exists ty, parse_operation input = Ok (OperationRef.Subscribe ty predicate)
    \/ parse_operation input = Ok (OperationRef.SubscribePermanent ty predicate)
    \/ exists v, parse_operation input = Ok (OperationRef.Publish ty predicate v)) ->
  parse_operation env_input = Ok (OperationRef.SetEnvironment environment) ->
  exists clauses env,
    predicate = Operation.predicate_view clauses /\
    environment = Operation.environment_view env /\
    (forall wanted, environment_get environment wanted = lookup_attribute env wanted) /\
    evaluate predicate environment = forallb (clause_holds env) clauses.
Proof.
  intros Hpred ([env| | | |] & Henv & _ & [= ->])%parse_operation_iff.
  assert (exists clauses, Operation.clauses_wf clauses /\
    predicate = Operation.predicate_view clauses) as (clauses & Hc & ->).
  { destruct Hpred as (ty & [H|[H|[v H]]]); apply parse_operation_iff in H as (op & Hop & _ & H);
      destruct op; simplify_eq/=; naive_solver. }
  exists clauses, env. split_and!; try done.
  - intros wanted. by apply environment_get_view.
  - by apply evaluate_view.
Qed.

Lemma evaluate_conjunction_witness :
  exists clauses env,
    length clauses = 2 /\ length env = 1 /\
    evaluate (Operation.predicate_view clauses) (Operation.environment_view env)
    = forallb (clause_holds env) clauses.
Proof.
  destruct (evaluate_conjunction (Operation.wire sample_publish)
    (Operation.wire (Operation.SetEnvironment [mkAttribute (mkAttributeId 1) (ValueRef.I64 5)]))
    (Operation.predicate_view
      [mkClause (mkAttributeId 1) Operator.Ge (ValueRef.I64 (-3));
       mkClause (mkAttributeId 2) Operator.Eq (ValueRef.Bytes [x61; x62])])
    (Operation.environment_view [mkAttribute (mkAttributeId 1) (ValueRef.I64 5)]))
    as (c & e & Hc & He & _ & Hev).
  - exists (mkTypeId 7). right. right. exists [x2a]. vm_compute. reflexivity.
  - vm_compute. reflexivity.
  - exists [mkClause (mkAttributeId 1) Operator.Ge (ValueRef.I64 (-3));
       mkClause (mkAttributeId 2) Operator.Eq (ValueRef.Bytes [x61; x62])],
      [mkAttribute (mkAttributeId 1) (ValueRef.I64 5)].
    split; [done|]. split; [done|]. vm_compute. reflexivity.
Defined.

(** Iterating over a parsed environment yields exactly the entries that
    were encoded, in order and with distinct identifiers, so [get] finds the
    value of an entry under its identifier and nothing under any other. *)
Theorem environment_iteration input environment :
  parse_operation input = Ok (OperationRef.SetEnvironment environment) ->
  let items := environment_items environment in
  input = Operation.wire (Operation.SetEnvironment items) /\
  length items = byte_nat (environment_count environment) /\
  NoDup (attr_id <$> items) /\
  (forall id v, environment_get environment id = Some v <-> mkAttribute id v ∈ items).
Proof.
  intros ([env| | | |] & Henv & -> & [= ->])%parse_operation_iff. cbn zeta.
  rewrite environment_items_view by done. pose proof Henv as (Hlen & Hwf & Hnd).
  unfold MAX_ATTRIBUTES in Hlen. split; [done|].
  split; [cbn; by rewrite byte_nat_of by lia|]. split; [done|].
  intros id v. rewrite environment_get_view by done. by apply lookup_attribute_elem.
Qed.

Lemma environment_iteration_witness :
  environment_items (Operation.environment_view
    [mkAttribute (mkAttributeId 1) (ValueRef.I64 5); mkAttribute (mkAttributeId 9) (ValueRef.Bool true)])
  = [mkAttribute (mkAttributeId 1) (ValueRef.I64 5); mkAttribute (mkAttributeId 9) (ValueRef.Bool true)]
  /\ exists n, n = 2 /\ length (environment_items (Operation.environment_view
    [mkAttribute (mkAttributeId 1) (ValueRef.I64 5); mkAttribute (mkAttributeId 9) (ValueRef.Bool true)])) = n.
Proof.
  destruct (environment_iteration
    (Operation.wire (Operation.SetEnvironment
      [mkAttribute (mkAttributeId 1) (ValueRef.I64 5);
       mkAttribute (mkAttributeId 9) (ValueRef.Bool true)]))
    (Operation.environment_view
      [mkAttribute (mkAttributeId 1) (ValueRef.I64 5);
       mkAttribute (mkAttributeId 9) (ValueRef.Bool true)])) as (_ & Hlen & _).
  - vm_compute. reflexivity.
  - split; [vm_compute; reflexivity|]. exists 2. split; [done|]. exact Hlen.
Defined.
