(* ===== verification/UseCases.v ===== *)
(** usecase-models/src/lib.rs: the typed, allocation-free application models of
    the three bundled use cases, and what their builders promise to the CA. *)

From S2P Require Export Payload.

(** ** Schema vocabulary *)

Module Authority.
Inductive t := SelfDeclared | CaIssued.

#[global] Instance eq_dec : EqDecision t.
Proof. solve_decision. Defined.
End Authority.
Abbreviation Authority := Authority.t.

Module AttributeKind.
Inductive t := Bool | I64 | Bytes.

#[global] Instance eq_dec : EqDecision t.
Proof. solve_decision. Defined.
End AttributeKind.
Abbreviation AttributeKind := AttributeKind.t.

Module ModelError.
Inductive t := Capacity | DuplicateAttribute | AttributeTooLong | UnknownAttribute | WrongAttributeType.

#[global] Instance eq_dec : EqDecision t.
Proof. solve_decision. Defined.
End ModelError.
Abbreviation ModelError := ModelError.t.

(** [BoolAttribute<D>], [I64Attribute<D>], [BytesAttribute<D>]: the domain is a
    phantom parameter. *)
Record BoolAttribute (D : Type) := mkBoolAttribute { bool_id : AttributeId; bool_authority : Authority }.
Record I64Attribute (D : Type) := mkI64Attribute { i64_id : AttributeId; i64_authority : Authority }.
Record BytesAttribute (D : Type) := mkBytesAttribute { bytes_id : AttributeId; bytes_authority : Authority }.
Arguments bool_id {D} _.
Arguments bool_authority {D} _.
Arguments i64_id {D} _.
Arguments i64_authority {D} _.
Arguments bytes_id {D} _.
Arguments bytes_authority {D} _.

(** [$name::new] of [attribute_impl!] *)
Definition BoolAttribute_new {D} (id : N) (authority : Authority) : BoolAttribute D :=
  mkBoolAttribute D (mkAttributeId id) authority.
Definition I64Attribute_new {D} (id : N) (authority : Authority) : I64Attribute D :=
  mkI64Attribute D (mkAttributeId id) authority.
Definition BytesAttribute_new {D} (id : N) (authority : Authority) : BytesAttribute D :=
  mkBytesAttribute D (mkAttributeId id) authority.

(** [trait DomainSchema] *)
Class DomainSchema (D : Type) := {
  attribute : AttributeId -> option (AttributeKind * Authority);
}.
Arguments attribute D {_} _.

(** [schema_entry] *)
Definition schema_entry (wanted : AttributeId) (entries : list (AttributeId * AttributeKind * Authority)) :
    option (AttributeKind * Authority) :=
  match find (fun e => bool_decide (e.1.1 = wanted)) entries with
  | Some (_, kind, authority) => Some (kind, authority)
  | None => None
  end.

(** [validate_attribute::<D>] *)
Definition validate_model_attribute D `{DomainSchema D} (a : AttributeRef) : result ModelError unit :=
  entry ← ok_or (attribute D (attr_id a)) ModelError.UnknownAttribute;
  actual ← match attr_value a with
           | ValueRef.Bool _ => Ok AttributeKind.Bool
           | ValueRef.I64 _ => Ok AttributeKind.I64
           | ValueRef.Bytes value =>
               if MAX_ATTRIBUTE_BYTES <? length value then Err ModelError.AttributeTooLong
               else Ok AttributeKind.Bytes
           end;
  if negb (bool_decide (entry.1 = actual)) then Err ModelError.WrongAttributeType else Ok tt.

(** ** Builders *)

(** [&entries[..len]], which panics beyond the array. *)
Definition filled {E A} (entries : list A) (len : nat) : result E (list A) :=
  if length entries <? len then Panic else Ok (take len entries).

(** The entries are the slots of the fixed array. *)
Record EnvironmentBuilder (D : Type) := mkEnvironmentBuilder {
  eb_entries : list AttributeRef;
  eb_len : nat;
}.
Arguments mkEnvironmentBuilder {D} _ _.
Arguments eb_entries {D} _.
Arguments eb_len {D} _.

Definition EnvironmentBuilder_new {D} : EnvironmentBuilder D :=
  mkEnvironmentBuilder (replicate MAX_ATTRIBUTES (mkAttribute (mkAttributeId 0) (ValueRef.Bool false))) 0.

Definition environment_push {D} (id : AttributeId) (value : ValueRef) :
    M (EnvironmentBuilder D) ModelError unit :=
  entries ← gets eb_entries;
  len ← gets eb_len;
  used ← lift (filled entries len);
  if existsb (fun e => bool_decide (attr_id e = id)) used then fail ModelError.DuplicateAttribute else
  if length entries <=? len then fail ModelError.Capacity else
  modify (fun b => mkEnvironmentBuilder (<[len := mkAttribute id value]> (eb_entries b)) (eb_len b));;
  modify (fun b => mkEnvironmentBuilder (eb_entries b) (S (eb_len b))).

Definition environment_bool {D} (a : BoolAttribute D) (value : bool) :
    M (EnvironmentBuilder D) ModelError unit :=
  environment_push (bool_id a) (ValueRef.Bool value).
Definition environment_i64 {D} (a : I64Attribute D) (value : Z) :
    M (EnvironmentBuilder D) ModelError unit :=
  environment_push (i64_id a) (ValueRef.I64 value).
Definition environment_bytes_value {D} (a : BytesAttribute D) (value : list byte) :
    M (EnvironmentBuilder D) ModelError unit :=
  if MAX_ATTRIBUTE_BYTES <? length value then fail ModelError.AttributeTooLong else
  environment_push (bytes_id a) (ValueRef.Bytes value).

Definition environment_attributes {D} (b : EnvironmentBuilder D) : result ModelError (list AttributeRef) :=
  filled (eb_entries b) (eb_len b).

Record ClauseBuilder (D : Type) := mkClauseBuilder { cb_clauses : list ClauseRef; cb_len : nat }.
Arguments mkClauseBuilder {D} _ _.
Arguments cb_clauses {D} _.
Arguments cb_len {D} _.

Definition ClauseBuilder_new {D} : ClauseBuilder D :=
  mkClauseBuilder (replicate MAX_CLAUSES (mkClause (mkAttributeId 0) Operator.Eq (ValueRef.Bool false))) 0.

Definition clause_push {D} (a : AttributeId) (operator : Operator) (value : ValueRef) :
    M (ClauseBuilder D) ModelError unit :=
  clauses ← gets cb_clauses;
  len ← gets cb_len;
  if length clauses <=? len then fail ModelError.Capacity else
  modify (fun b => mkClauseBuilder (<[len := mkClause a operator value]> (cb_clauses b)) (cb_len b));;
  modify (fun b => mkClauseBuilder (cb_clauses b) (S (cb_len b))).

(** [predicate_builder!]: [SubscriptionBuilder] and [AudienceBuilder] are two
    instances of the same code. *)
Record PredicateBuilder (D : Type) := mkPredicateBuilder { pb_builder : ClauseBuilder D }.
Arguments mkPredicateBuilder {D} _.
Arguments pb_builder {D} _.
Definition SubscriptionBuilder : Type -> Type := PredicateBuilder.
Definition AudienceBuilder : Type -> Type := PredicateBuilder.

Definition PredicateBuilder_new {D} : PredicateBuilder D := mkPredicateBuilder ClauseBuilder_new.

Definition on_builder {D A} (m : M (ClauseBuilder D) ModelError A) : M (PredicateBuilder D) ModelError A :=
  zoom pb_builder (fun c _ => mkPredicateBuilder c) m.

Definition predicate_bool {D} (a : BoolAttribute D) (operator : Operator) (value : bool) :
    M (PredicateBuilder D) ModelError unit :=
  on_builder (clause_push (bool_id a) operator (ValueRef.Bool value)).
Definition predicate_i64 {D} (a : I64Attribute D) (operator : Operator) (value : Z) :
    M (PredicateBuilder D) ModelError unit :=
  on_builder (clause_push (i64_id a) operator (ValueRef.I64 value)).
Definition predicate_bytes_value {D} (a : BytesAttribute D) (operator : Operator) (value : list byte) :
    M (PredicateBuilder D) ModelError unit :=
  if MAX_ATTRIBUTE_BYTES <? length value then fail ModelError.AttributeTooLong else
  on_builder (clause_push (bytes_id a) operator (ValueRef.Bytes value)).

Definition predicate_clauses {D} (b : PredicateBuilder D) : result ModelError (list ClauseRef) :=
  filled (cb_clauses (pb_builder b)) (cb_len (pb_builder b)).

(** A builder that a function makes, fills and returns. *)
Definition built {D} (m : M (PredicateBuilder D) ModelError unit) : result ModelError (PredicateBuilder D) :=
  match m PredicateBuilder_new with
  | (Ok _, b) => Ok b
  | (Err e, _) => Err e
  | (Panic, _) => Panic
  end.

(** ** The smart building *)

Module smart_building.
Inductive Domain := DomainMarker.
Definition Environment : Type := (EnvironmentBuilder Domain).
Definition Subscription : Type := (SubscriptionBuilder Domain).
Definition Audience : Type := (AudienceBuilder Domain).

Definition SENSOR_READING : TypeId := mkTypeId 0x1001.
Definition TEMPERATURE_ALERT : TypeId := mkTypeId 0x1002.
Definition FIRE_ALERT : TypeId := mkTypeId 0x1003.
Definition MAINTENANCE_COMMAND : TypeId := mkTypeId 0x1004.

Definition BUILDING_ID : BytesAttribute Domain := BytesAttribute_new 0x1001 Authority.CaIssued.
Definition FLOOR_ID : I64Attribute Domain := I64Attribute_new 0x1002 Authority.CaIssued.
Definition DEVICE_CLASS : I64Attribute Domain := I64Attribute_new 0x1003 Authority.CaIssued.
Definition CERTIFIED_DEVICE : BoolAttribute Domain := BoolAttribute_new 0x1004 Authority.CaIssued.
Definition USER_ROLE : I64Attribute Domain := I64Attribute_new 0x1005 Authority.CaIssued.
Definition OPERATIONAL : BoolAttribute Domain := BoolAttribute_new 0x1006 Authority.SelfDeclared.
Definition TEMPERATURE : I64Attribute Domain := I64Attribute_new 0x1007 Authority.SelfDeclared.
Definition OCCUPANCY : I64Attribute Domain := I64Attribute_new 0x1008 Authority.SelfDeclared.
Definition ALERT_ZONE : BytesAttribute Domain := BytesAttribute_new 0x1009 Authority.CaIssued.

Inductive DeviceClass := Sensor | ControlPanel | MaintenanceTerminal.
(** [as i64] *)
Definition DeviceClass_i64 (c : DeviceClass) : Z :=
  match c with Sensor => 1 | ControlPanel => 2 | MaintenanceTerminal => 3 end.

Inductive UserRole := ControlOperator | MaintenanceOperator | Observer.
Definition UserRole_i64 (r : UserRole) : Z :=
  match r with ControlOperator => 1 | MaintenanceOperator => 2 | Observer => 3 end.

Definition environment : Environment := EnvironmentBuilder_new.

Definition subscription (building_id : list byte) : result ModelError Subscription :=
  built (predicate_bytes_value BUILDING_ID Operator.Eq building_id).
Definition audience (building_id : list byte) : result ModelError Audience :=
  built (predicate_bytes_value BUILDING_ID Operator.Eq building_id).

#[global] Instance schema : DomainSchema Domain := {
  attribute wanted := schema_entry wanted
    [(bytes_id BUILDING_ID, AttributeKind.Bytes, bytes_authority BUILDING_ID);
     (i64_id FLOOR_ID, AttributeKind.I64, i64_authority FLOOR_ID);
     (i64_id DEVICE_CLASS, AttributeKind.I64, i64_authority DEVICE_CLASS);
     (bool_id CERTIFIED_DEVICE, AttributeKind.Bool, bool_authority CERTIFIED_DEVICE);
     (i64_id USER_ROLE, AttributeKind.I64, i64_authority USER_ROLE);
     (bool_id OPERATIONAL, AttributeKind.Bool, bool_authority OPERATIONAL);
     (i64_id TEMPERATURE, AttributeKind.I64, i64_authority TEMPERATURE);
     (i64_id OCCUPANCY, AttributeKind.I64, i64_authority OCCUPANCY);
     (bytes_id ALERT_ZONE, AttributeKind.Bytes, bytes_authority ALERT_ZONE)];
}.
End smart_building.

(** ** The robot swarm *)

Module robot_swarm.
Inductive Domain := DomainMarker.
Definition Environment : Type := (EnvironmentBuilder Domain).
Definition Subscription : Type := (SubscriptionBuilder Domain).
Definition Audience : Type := (AudienceBuilder Domain).

Definition DRONE_TELEMETRY : TypeId := mkTypeId 0x2001.
Definition TARGET_DETECTED : TypeId := mkTypeId 0x2002.
Definition MISSION_COMMAND : TypeId := mkTypeId 0x2003.
Definition TASK_ASSIGNMENT : TypeId := mkTypeId 0x2004.
Definition FORMATION_UPDATE : TypeId := mkTypeId 0x2005.
Definition EMERGENCY_ALERT : TypeId := mkTypeId 0x2006.

Definition SWARM_ID : BytesAttribute Domain := BytesAttribute_new 0x2001 Authority.CaIssued.
Definition MISSION_EPOCH : I64Attribute Domain := I64Attribute_new 0x2002 Authority.CaIssued.
Definition ROBOT_ROLE : I64Attribute Domain := I64Attribute_new 0x2003 Authority.CaIssued.
Definition CAPABILITY : I64Attribute Domain := I64Attribute_new 0x2004 Authority.CaIssued.
Definition PAYLOAD_CAPACITY : I64Attribute Domain := I64Attribute_new 0x2005 Authority.CaIssued.
Definition OPERATIONAL : BoolAttribute Domain := BoolAttribute_new 0x2006 Authority.SelfDeclared.
Definition BATTERY_LEVEL : I64Attribute Domain := I64Attribute_new 0x2007 Authority.SelfDeclared.
Definition ZONE : BytesAttribute Domain := BytesAttribute_new 0x2008 Authority.SelfDeclared.
Definition ASSIGNED_TASK : BytesAttribute Domain := BytesAttribute_new 0x2009 Authority.CaIssued.
Definition RECIPIENT_ID : BytesAttribute Domain := BytesAttribute_new 0x200a Authority.CaIssued.

Inductive RobotRole := Coordinator | Scout | Responder | Relay.
Definition RobotRole_i64 (r : RobotRole) : Z :=
  match r with Coordinator => 1 | Scout => 2 | Responder => 3 | Relay => 4 end.

Inductive Capability := RgbCamera | ThermalCamera | Transport | Manipulation | NetworkRelay.
Definition Capability_i64 (c : Capability) : Z :=
  match c with
  | RgbCamera => 1 | ThermalCamera => 2 | Transport => 3 | Manipulation => 4 | NetworkRelay => 5
  end.

Definition environment : Environment := EnvironmentBuilder_new.

Definition subscription (swarm_id : list byte) (mission_epoch : Z) : result ModelError Subscription :=
  built (predicate_bytes_value SWARM_ID Operator.Eq swarm_id;;
         predicate_i64 MISSION_EPOCH Operator.Eq mission_epoch).
Definition audience (swarm_id : list byte) (mission_epoch : Z) : result ModelError Audience :=
  built (predicate_bytes_value SWARM_ID Operator.Eq swarm_id;;
         predicate_i64 MISSION_EPOCH Operator.Eq mission_epoch).

#[global] Instance schema : DomainSchema Domain := {
  attribute wanted := schema_entry wanted
    [(bytes_id SWARM_ID, AttributeKind.Bytes, bytes_authority SWARM_ID);
     (i64_id MISSION_EPOCH, AttributeKind.I64, i64_authority MISSION_EPOCH);
     (i64_id ROBOT_ROLE, AttributeKind.I64, i64_authority ROBOT_ROLE);
     (i64_id CAPABILITY, AttributeKind.I64, i64_authority CAPABILITY);
     (i64_id PAYLOAD_CAPACITY, AttributeKind.I64, i64_authority PAYLOAD_CAPACITY);
     (bool_id OPERATIONAL, AttributeKind.Bool, bool_authority OPERATIONAL);
     (i64_id BATTERY_LEVEL, AttributeKind.I64, i64_authority BATTERY_LEVEL);
     (bytes_id ZONE, AttributeKind.Bytes, bytes_authority ZONE);
     (bytes_id ASSIGNED_TASK, AttributeKind.Bytes, bytes_authority ASSIGNED_TASK);
     (bytes_id RECIPIENT_ID, AttributeKind.Bytes, bytes_authority RECIPIENT_ID)];
}.
End robot_swarm.

(** ** The multi-tenant event bus *)

Module multi_tenant.
Inductive Domain := DomainMarker.
Definition Environment : Type := (EnvironmentBuilder Domain).
Definition Subscription : Type := (SubscriptionBuilder Domain).
Definition Audience : Type := (AudienceBuilder Domain).

Definition DOMAIN_EVENT : TypeId := mkTypeId 0x3001.
Definition AUDIT_EVENT : TypeId := mkTypeId 0x3002.
Definition DEPLOYMENT_EVENT : TypeId := mkTypeId 0x3003.
Definition SECURITY_ALERT : TypeId := mkTypeId 0x3004.

Definition TENANT_ID : BytesAttribute Domain := BytesAttribute_new 0x3001 Authority.CaIssued.
Definition SERVICE_ID : BytesAttribute Domain := BytesAttribute_new 0x3002 Authority.CaIssued.
Definition DEPLOYMENT_ENVIRONMENT : I64Attribute Domain := I64Attribute_new 0x3003 Authority.CaIssued.
Definition SERVICE_ROLE : I64Attribute Domain := I64Attribute_new 0x3004 Authority.CaIssued.
Definition CLEARANCE_LEVEL : I64Attribute Domain := I64Attribute_new 0x3005 Authority.CaIssued.
Definition SERVICE_HEALTH : BoolAttribute Domain := BoolAttribute_new 0x3006 Authority.SelfDeclared.
Definition REGION : BytesAttribute Domain := BytesAttribute_new 0x3007 Authority.CaIssued.

Inductive DeploymentEnvironment := Production | Staging.
Definition DeploymentEnvironment_i64 (e : DeploymentEnvironment) : Z :=
  match e with Production => 1 | Staging => 2 end.

Inductive ServiceRole := Publisher | Consumer | Auditor | SecurityOperator.
Definition ServiceRole_i64 (r : ServiceRole) : Z :=
  match r with Publisher => 1 | Consumer => 2 | Auditor => 3 | SecurityOperator => 4 end.

Definition environment : Environment := EnvironmentBuilder_new.

Definition subscription (tenant_id : list byte) : result ModelError Subscription :=
  built (predicate_bytes_value TENANT_ID Operator.Eq tenant_id).
Definition audience (tenant_id : list byte) : result ModelError Audience :=
  built (predicate_bytes_value TENANT_ID Operator.Eq tenant_id).

#[global] Instance schema : DomainSchema Domain := {
  attribute wanted := schema_entry wanted
    [(bytes_id TENANT_ID, AttributeKind.Bytes, bytes_authority TENANT_ID);
     (bytes_id SERVICE_ID, AttributeKind.Bytes, bytes_authority SERVICE_ID);
     (i64_id DEPLOYMENT_ENVIRONMENT, AttributeKind.I64, i64_authority DEPLOYMENT_ENVIRONMENT);
     (i64_id SERVICE_ROLE, AttributeKind.I64, i64_authority SERVICE_ROLE);
     (i64_id CLEARANCE_LEVEL, AttributeKind.I64, i64_authority CLEARANCE_LEVEL);
     (bool_id SERVICE_HEALTH, AttributeKind.Bool, bool_authority SERVICE_HEALTH);
     (bytes_id REGION, AttributeKind.Bytes, bytes_authority REGION)];
}.
End multi_tenant.

(** ** Sequences of builder calls

    An application may make any further calls on a builder; a call that fails is
    the application's to handle. *)

Inductive EnvironmentCall (D : Type) :=
| PutBool (a : BoolAttribute D) (value : bool)
| PutI64 (a : I64Attribute D) (value : Z)
| PutBytes (a : BytesAttribute D) (value : list byte).
Arguments PutBool {D} _ _.
Arguments PutI64 {D} _ _.
Arguments PutBytes {D} _ _.

Definition environment_call {D} (c : EnvironmentCall D) : M (EnvironmentBuilder D) ModelError unit :=
  match c with
  | PutBool a value => environment_bool a value
  | PutI64 a value => environment_i64 a value
  | PutBytes a value => environment_bytes_value a value
  end.

Definition environment_calls {D} (calls : list (EnvironmentCall D)) (b : EnvironmentBuilder D) :
    EnvironmentBuilder D :=
  foldl (fun b c => (environment_call c b).2) b calls.

(** The entry that a call adds. *)
Definition call_attribute {D} (c : EnvironmentCall D) : AttributeRef :=
  match c with
  | PutBool a value => mkAttribute (bool_id a) (ValueRef.Bool value)
  | PutI64 a value => mkAttribute (i64_id a) (ValueRef.I64 value)
  | PutBytes a value => mkAttribute (bytes_id a) (ValueRef.Bytes value)
  end.

(** The attribute is one the schema declares, with its type; integers are [i64]. *)
Definition call_typed D `{DomainSchema D} (c : EnvironmentCall D) : Prop :=
  attribute_wf (attr_id (call_attribute c)) /\
  match c with
  | PutBool a _ => fst <$> attribute D (bool_id a) = Some AttributeKind.Bool
  | PutI64 a value => fst <$> attribute D (i64_id a) = Some AttributeKind.I64 /\ i64_wf value
  | PutBytes a _ => fst <$> attribute D (bytes_id a) = Some AttributeKind.Bytes
  end.

Inductive PredicateCall (D : Type) :=
| ClauseBool (a : BoolAttribute D) (operator : Operator) (value : bool)
| ClauseI64 (a : I64Attribute D) (operator : Operator) (value : Z)
| ClauseBytes (a : BytesAttribute D) (operator : Operator) (value : list byte).
Arguments ClauseBool {D} _ _ _.
Arguments ClauseI64 {D} _ _ _.
Arguments ClauseBytes {D} _ _ _.

Definition predicate_call {D} (c : PredicateCall D) : M (PredicateBuilder D) ModelError unit :=
  match c with
  | ClauseBool a operator value => predicate_bool a operator value
  | ClauseI64 a operator value => predicate_i64 a operator value
  | ClauseBytes a operator value => predicate_bytes_value a operator value
  end.

Definition predicate_calls {D} (calls : list (PredicateCall D)) (b : PredicateBuilder D) :
    PredicateBuilder D :=
  foldl (fun b c => (predicate_call c b).2) b calls.

Definition call_clause {D} (c : PredicateCall D) : ClauseRef :=
  match c with
  | ClauseBool a operator value => mkClause (bool_id a) operator (ValueRef.Bool value)
  | ClauseI64 a operator value => mkClause (i64_id a) operator (ValueRef.I64 value)
  | ClauseBytes a operator value => mkClause (bytes_id a) operator (ValueRef.Bytes value)
  end.

(** The integers of the call have their Rust width. *)
Definition clause_call_wf {D} (c : PredicateCall D) : Prop :=
  attribute_wf (clause_attribute (call_clause c)) /\
  match c with ClauseI64 _ _ value => i64_wf value | _ => True end.

(** ** The builders as lists *)

Lemma take_insert_snoc {A} (l : list A) n x :
  n < length l -> take (S n) (<[n := x]> l) = take n l ++ [x].
Proof.
  intros Hn. rewrite (take_S_r _ n x) by (by apply list_lookup_insert_eq).
  by rewrite take_insert_ge.
Qed.

Lemma filled_ok {E A} (l : list A) n : n <= length l -> filled (E:=E) l n = Ok (take n l).
Proof. intros Hn. unfold filled. by rewrite (proj2 (Nat.ltb_ge _ _)). Qed.

(** A builder that holds the entries [l]. *)
Definition environment_holds {D} (b : EnvironmentBuilder D) (l : list AttributeRef) : Prop :=
  length (eb_entries b) = MAX_ATTRIBUTES /\ eb_len b = length l /\ l = take (eb_len b) (eb_entries b).

Lemma environment_holds_new D : environment_holds (EnvironmentBuilder_new (D:=D)) [].
Proof. split; [apply length_replicate|]. done. Qed.

Lemma environment_holds_attributes {D} (b : EnvironmentBuilder D) l :
  environment_holds b l -> environment_attributes b = Ok l /\ length l <= MAX_ATTRIBUTES.
Proof.
  intros (Hlen & Hl & Heq).
  assert (eb_len b <= length (eb_entries b)) as Hle.
  { rewrite Hl, Heq, length_take. lia. }
  split; [|lia]. unfold environment_attributes. rewrite filled_ok by done. by rewrite <-Heq.
Qed.

Lemma environment_push_run {D} id value (b : EnvironmentBuilder D) l : environment_holds b l ->
  if decide (id ∈ attr_id <$> l) then environment_push id value b = (Err ModelError.DuplicateAttribute, b)
  else if decide (length l = MAX_ATTRIBUTES) then environment_push id value b = (Err ModelError.Capacity, b)
  else exists b', environment_push id value b = (Ok tt, b') /\ environment_holds b' (l ++ [mkAttribute id value]).
Proof.
  intros Hb. pose proof Hb as (Hlen & Hl & Heq).
  assert (eb_len b <= length (eb_entries b)) as Hle by (rewrite Hl, Heq, length_take; lia).
  unfold environment_push. autorewrite with rust. rewrite filled_ok, <-Heq by done. autorewrite with rust.
  assert (existsb (fun e => bool_decide (attr_id e = id)) l = bool_decide (id ∈ attr_id <$> l)) as ->.
  { apply eq_true_iff_eq. rewrite existsb_exists, bool_decide_eq_true, list_elem_of_fmap.
    setoid_rewrite <-list_elem_of_In. setoid_rewrite bool_decide_eq_true. naive_solver. }
  case_decide as Hdup; [by rewrite bool_decide_eq_true_2|]. rewrite bool_decide_eq_false_2 by done.
  case_decide as Hfull.
  - by rewrite (proj2 (Nat.leb_le _ _)) by lia.
  - rewrite (proj2 (Nat.leb_gt _ _)) by lia. autorewrite with rust. eexists. split; [done|].
    split; [cbn; by rewrite length_insert|]. cbn [eb_len eb_entries]. split.
    + rewrite length_app, Hl. cbn. lia.
    + rewrite take_insert_snoc by lia. by rewrite <-Heq.
Qed.

(** A call adds its entry, or fails and changes nothing. *)
Lemma environment_call_run {D} (c : EnvironmentCall D) b l : environment_holds b l ->
  (exists e, environment_call c b = (Err e, b)) \/
  (exists b', environment_call c b = (Ok tt, b') /\ environment_holds b' (l ++ [call_attribute c]) /\
     (attr_id (call_attribute c) ∉ attr_id <$> l) /\
     match attr_value (call_attribute c) with
     | ValueRef.Bytes value => length value <= MAX_ATTRIBUTE_BYTES
     | _ => True
     end).
Proof.
  intros Hb.
  assert (forall id value, (exists e, environment_push id value b = (Err e, b)) \/
    (exists b', environment_push id value b = (Ok tt, b') /\
       environment_holds b' (l ++ [mkAttribute id value]) /\ id ∉ (attr_id <$> l))) as Hpush.
  { intros id value. pose proof (environment_push_run id value b l Hb) as Hrun.
    case_decide; [left; by eexists|]. case_decide; [left; by eexists|].
    right. destruct Hrun as (b' & ? & ?). by exists b'. }
  destruct c as [a value|a value|a value]; cbn [environment_call call_attribute attr_id attr_value].
  - destruct (Hpush (bool_id a) (ValueRef.Bool value)) as [|(b' & ? & ? & ?)]; [by left|right; by exists b'].
  - destruct (Hpush (i64_id a) (ValueRef.I64 value)) as [|(b' & ? & ? & ?)]; [by left|right; by exists b'].
  - unfold environment_bytes_value. destruct (Nat.ltb_spec MAX_ATTRIBUTE_BYTES (length value)) as [|Hle].
    { left. by eexists. }
    destruct (Hpush (bytes_id a) (ValueRef.Bytes value)) as [|(b' & ? & ? & ?)]; [by left|right; by exists b'].
Qed.

(** Entries that the schema admits and the codec encodes. *)
Definition schema_ok D `{DomainSchema D} (l : list AttributeRef) : Prop :=
  Operation.environment_wf l /\ Forall (fun a => validate_model_attribute D a = Ok tt) l.

Lemma call_attribute_ok {D} `{DomainSchema D} (c : EnvironmentCall D) : call_typed D c ->
  match attr_value (call_attribute c) with
  | ValueRef.Bytes value => length value <= MAX_ATTRIBUTE_BYTES
  | _ => True
  end -> item_wf (call_attribute c) /\ validate_model_attribute D (call_attribute c) = Ok tt.
Proof.
  intros [Hid Hc] Hlen. unfold item_wf, validate_model_attribute.
  assert (forall id kind, fst <$> attribute D id = Some kind -> exists authority,
    attribute D id = Some (kind, authority)) as Hentry.
  { intros id kind. destruct (attribute D id) as [[k authority]|]; [|done]. intros [= ->]. by exists authority. }
  destruct c as [a value|a value|a value];
    cbn [call_attribute attr_id attr_value value_wf] in *.
  - apply Hentry in Hc as [authority ->]. done.
  - destruct Hc as [Hc Hz]. apply Hentry in Hc as [authority ->]. done.
  - apply Hentry in Hc as [authority ->]. split; [done|].
    rewrite (proj2 (Nat.ltb_ge _ _)) by done. done.
Qed.

Lemma environment_calls_holds {D} `{DomainSchema D} calls (b : EnvironmentBuilder D) l :
  environment_holds b l -> schema_ok D l -> Forall (call_typed D) calls ->
  exists l', environment_holds (environment_calls calls b) l' /\ schema_ok D l' /\
    (forall a, a ∈ l' -> a ∈ l \/ a ∈ call_attribute <$> calls).
Proof.
  intros Hb Hl Hcalls. revert b l Hb Hl. induction Hcalls as [|c calls Hc Hcalls IH]; intros b l Hb Hl.
  { exists l. split; [done|]. split; [done|]. auto. }
  cbn [environment_calls foldl]. destruct (environment_call_run c b l Hb)
    as [[e Hrun]|(b' & Hrun & Hb' & Hfresh & Hlen)]; rewrite Hrun; cbn [snd].
  - destruct (IH b l Hb Hl) as (l' & ? & ? & Hin). exists l'. split; [done|]. split; [done|].
    intros a [?|?]%Hin; [by left|right]. by apply list_elem_of_further.
  - destruct (call_attribute_ok c Hc Hlen) as [Hwf Hval].
    destruct (environment_holds_attributes b' _ Hb') as [_ Hmax].
    destruct Hl as [(_ & Hitems & Hnd) Hvalid].
    destruct (IH b' (l ++ [call_attribute c]) Hb') as (l' & ? & ? & Hin).
    { split; [split; [done|split; [by apply Forall_app; rewrite Forall_singleton|]]
             |by apply Forall_app; rewrite Forall_singleton].
      rewrite fmap_app. apply NoDup_app. split; [done|]. split; [|apply NoDup_singleton].
      intros k Hk Hk'. cbn in Hk'. by apply list_elem_of_singleton in Hk' as ->. }
    exists l'. split; [done|]. split; [done|]. intros a [Ha|?]%Hin.
    + apply elem_of_app in Ha as [?| ->%list_elem_of_singleton]; [by left|right; left].
    + right. by apply list_elem_of_further.
Qed.

(** A predicate builder that holds the clauses [l]. *)
Definition predicate_holds {D} (b : PredicateBuilder D) (l : list ClauseRef) : Prop :=
  length (cb_clauses (pb_builder b)) = MAX_CLAUSES /\ cb_len (pb_builder b) = length l /\
  l = take (cb_len (pb_builder b)) (cb_clauses (pb_builder b)).

Lemma predicate_holds_new D : predicate_holds (PredicateBuilder_new (D:=D)) [].
Proof. split; [apply length_replicate|]. done. Qed.

Lemma predicate_holds_clauses {D} (b : PredicateBuilder D) l :
  predicate_holds b l -> predicate_clauses b = Ok l /\ length l <= MAX_CLAUSES.
Proof.
  intros (Hlen & Hl & Heq).
  assert (cb_len (pb_builder b) <= length (cb_clauses (pb_builder b))) as Hle.
  { rewrite Hl, Heq, length_take. lia. }
  split; [|lia]. unfold predicate_clauses. rewrite filled_ok by done. by rewrite <-Heq.
Qed.

Lemma clause_push_run {D} id operator value (b : PredicateBuilder D) l : predicate_holds b l ->
  if decide (length l = MAX_CLAUSES)
  then on_builder (clause_push id operator value) b = (Err ModelError.Capacity, b)
  else exists b', on_builder (clause_push id operator value) b = (Ok tt, b') /\
    predicate_holds b' (l ++ [mkClause id operator value]).
Proof.
  intros (Hlen & Hl & Heq).
  assert (cb_len (pb_builder b) <= length (cb_clauses (pb_builder b))) as Hle
    by (rewrite Hl, Heq, length_take; lia).
  unfold on_builder, zoom, clause_push. autorewrite with rust. case_decide as Hfull.
  - rewrite (proj2 (Nat.leb_le _ _)) by lia. by destruct b.
  - rewrite (proj2 (Nat.leb_gt _ _)) by lia. autorewrite with rust. eexists. split; [done|].
    split; [cbn; by rewrite length_insert|]. cbn [pb_builder cb_len cb_clauses]. split.
    + rewrite length_app, Hl. cbn. lia.
    + rewrite take_insert_snoc by lia. by rewrite <-Heq.
Qed.

Lemma predicate_call_run {D} (c : PredicateCall D) b l : predicate_holds b l ->
  (exists e, predicate_call c b = (Err e, b)) \/
  (exists b', predicate_call c b = (Ok tt, b') /\ predicate_holds b' (l ++ [call_clause c]) /\
     match clause_value (call_clause c) with
     | ValueRef.Bytes value => length value <= MAX_ATTRIBUTE_BYTES
     | _ => True
     end).
Proof.
  intros Hb.
  assert (forall id operator value, (exists e, on_builder (clause_push id operator value) b = (Err e, b)) \/
    (exists b', on_builder (clause_push id operator value) b = (Ok tt, b') /\
       predicate_holds b' (l ++ [mkClause id operator value]))) as Hpush.
  { intros id operator value. pose proof (clause_push_run id operator value b l Hb) as Hrun.
    case_decide; [left; by eexists|by right]. }
  destruct c as [a op value|a op value|a op value]; cbn [predicate_call call_clause clause_value].
  - destruct (Hpush (bool_id a) op (ValueRef.Bool value)) as [|(b' & ? & ?)]; [by left|right; by exists b'].
  - destruct (Hpush (i64_id a) op (ValueRef.I64 value)) as [|(b' & ? & ?)]; [by left|right; by exists b'].
  - unfold predicate_bytes_value. destruct (Nat.ltb_spec MAX_ATTRIBUTE_BYTES (length value)) as [|Hle].
    { left. by eexists. }
    destruct (Hpush (bytes_id a) op (ValueRef.Bytes value)) as [|(b' & ? & ?)]; [by left|right; by exists b'].
Qed.

Lemma call_clause_wf {D} (c : PredicateCall D) : clause_call_wf c ->
  match clause_value (call_clause c) with
  | ValueRef.Bytes value => length value <= MAX_ATTRIBUTE_BYTES
  | _ => True
  end -> clause_wf (call_clause c).
Proof. intros [Hid Hc] Hlen. by destruct c. Qed.

(** Further calls keep the clauses there are. *)
Lemma predicate_calls_holds {D} calls (b : PredicateBuilder D) l :
  predicate_holds b l -> Forall clause_wf l -> Forall clause_call_wf calls ->
  exists k, predicate_holds (predicate_calls calls b) (l ++ k) /\ Forall clause_wf (l ++ k).
Proof.
  intros Hb Hl Hcalls. revert b l Hb Hl. induction Hcalls as [|c calls Hc Hcalls IH]; intros b l Hb Hl.
  { exists []. by rewrite app_nil_r. }
  cbn [predicate_calls foldl]. destruct (predicate_call_run c b l Hb)
    as [[e Hrun]|(b' & Hrun & Hb' & Hlen)]; rewrite Hrun; cbn [snd]; [by apply IH|].
  destruct (IH b' _ Hb') as (k & Hk & Hwf).
  { apply Forall_app. rewrite Forall_singleton. split; [done|by apply call_clause_wf]. }
  exists (call_clause c :: k). by rewrite <-app_assoc in Hk, Hwf.
Qed.

Lemma compare_eq_true lhs rhs : compare lhs Operator.Eq rhs = true <-> lhs = rhs.
Proof.
  destruct lhs as [a|a|a], rhs as [b|b|b]; cbn; try done.
  - destruct a, b; cbn; split; congruence.
  - destruct (Z.compare_spec a b); split; try congruence; intros [= ?]; lia.
  - destruct (bytes_compare a b) eqn:Hc; split; try done.
    + by apply bytes_compare_eq in Hc as ->.
    + intros [= ->]. by rewrite (proj2 (bytes_compare_eq b b) eq_refl) in Hc.
    + intros [= ->]. by rewrite (proj2 (bytes_compare_eq b b) eq_refl) in Hc.
Qed.

(** A predicate with an equality clause holds only where the attribute has the value. *)
Lemma evaluate_boundary l id value environment env_input :
  Operation.clauses_wf l -> mkClause id Operator.Eq value ∈ l ->
  parse_operation env_input = Ok (OperationRef.SetEnvironment environment) ->
  evaluate (Operation.predicate_view l) environment = true ->
  environment_get environment id = Some value.
Proof.
  intros Hl Hin ([env| | | |] & Henv & _ & [= ->])%parse_operation_iff Heval.
  rewrite evaluate_view in Heval by done. rewrite environment_get_view by done.
  rewrite forallb_forall in Heval. apply list_elem_of_In, Heval in Hin.
  unfold clause_holds in Hin. cbn in Hin.
  destruct (lookup_attribute env id) as [lhs|]; [|done]. by apply compare_eq_true in Hin as ->.
Qed.

(** Whatever is added to [b], its predicate is encodable and admits only
    environments in which each of the attributes has its value. *)
Definition confines {D} (b : PredicateBuilder D) (boundary : list (AttributeId * ValueRef)) : Prop :=
  forall calls, Forall clause_call_wf calls ->
    exists l, predicate_clauses (predicate_calls calls b) = Ok l /\ Operation.clauses_wf l /\
      forall env_input environment,
        parse_operation env_input = Ok (OperationRef.SetEnvironment environment) ->
        evaluate (Operation.predicate_view l) environment = true ->
        Forall (fun kv => environment_get environment kv.1 = Some kv.2) boundary.

Lemma holds_confines {D} (b : PredicateBuilder D) (l : list ClauseRef) :
  predicate_holds b l -> Forall clause_wf l -> Forall (fun c => clause_operator c = Operator.Eq) l ->
  confines b ((fun c => (clause_attribute c, clause_value c)) <$> l).
Proof.
  intros Hb Hl Heq calls Hcalls.
  destruct (predicate_calls_holds calls b l Hb Hl Hcalls) as (k & Hk & Hwf).
  destruct (predicate_holds_clauses _ _ Hk) as [Hrun Hmax]. exists (l ++ k). split; [done|].
  split; [by split|]. intros env_input environment Henv Heval.
  apply Forall_fmap, Forall_forall. intros [id op value] Hin. cbn [clause_attribute clause_value fst snd compose].
  rewrite Forall_forall in Heq. specialize (Heq _ Hin). cbn in Heq. subst op.
  eapply evaluate_boundary; [by split| |done|done]. apply elem_of_app. by left.
Qed.

(** The boundary of a freshly built predicate. *)
Lemma built_bytes_confines {D} (a : BytesAttribute D) value b :
  attribute_wf (bytes_id a) -> built (predicate_bytes_value a Operator.Eq value) = Ok b ->
  confines b [(bytes_id a, ValueRef.Bytes value)].
Proof.
  intros Ha. unfold built. change (predicate_bytes_value a Operator.Eq value)
    with (predicate_call (ClauseBytes a Operator.Eq value)).
  destruct (predicate_call_run (ClauseBytes a Operator.Eq value) PredicateBuilder_new []
    (predicate_holds_new D)) as [[e ->]|(b' & -> & Hb & Hlen)]; [done|]. intros [= ->].
  eapply (holds_confines b [call_clause (ClauseBytes a Operator.Eq value)]); [exact Hb| |].
  - by apply Forall_singleton.
  - by apply Forall_singleton.
Qed.

Lemma built_pair_confines {D} (a : BytesAttribute D) value (a' : I64Attribute D) z b :
  attribute_wf (bytes_id a) -> attribute_wf (i64_id a') -> i64_wf z ->
  built (predicate_bytes_value a Operator.Eq value;; predicate_i64 a' Operator.Eq z) = Ok b ->
  confines b [(bytes_id a, ValueRef.Bytes value); (i64_id a', ValueRef.I64 z)].
Proof.
  intros Ha Ha' Hz. unfold built. rewrite M_bind_run.
  change (predicate_bytes_value a Operator.Eq value)
    with (predicate_call (ClauseBytes a Operator.Eq value)).
  change (predicate_i64 a' Operator.Eq z) with (predicate_call (ClauseI64 a' Operator.Eq z)).
  destruct (predicate_call_run (ClauseBytes a Operator.Eq value) PredicateBuilder_new []
    (predicate_holds_new D)) as [[e ->]|(b1 & -> & Hb1 & Hlen)]; [done|].
  destruct (predicate_call_run (ClauseI64 a' Operator.Eq z) b1 _ Hb1)
    as [[e ->]|(b' & -> & Hb & _)]; [done|]. intros [= ->].
  eapply (holds_confines b [call_clause (ClauseBytes a Operator.Eq value);
    call_clause (ClauseI64 a' Operator.Eq z)]); [exact Hb| |].
  - rewrite Forall_cons, Forall_singleton. split; by split.
  - by rewrite Forall_cons, Forall_singleton.
Qed.

(** ** The promises of the models *)

(** C37: The subscriptions and audiences of the use cases cannot cross their
    boundary. Whatever clauses an application adds to a subscription or an audience
    it obtained from the model of its domain, the predicate is one the codec
    encodes, and the CA's evaluation of it is true only for an environment with
    the building, or the swarm and mission epoch, or the tenant it was built for. *)
Theorem use_case_boundaries :
  (forall building b, smart_building.subscription building = Ok b \/ smart_building.audience building = Ok b ->
     confines b [(bytes_id smart_building.BUILDING_ID, ValueRef.Bytes building)]) /\
  (forall swarm epoch b, i64_wf epoch ->
     robot_swarm.subscription swarm epoch = Ok b \/ robot_swarm.audience swarm epoch = Ok b ->
     confines b [(bytes_id robot_swarm.SWARM_ID, ValueRef.Bytes swarm);
                 (i64_id robot_swarm.MISSION_EPOCH, ValueRef.I64 epoch)]) /\
  (forall tenant b, multi_tenant.subscription tenant = Ok b \/ multi_tenant.audience tenant = Ok b ->
     confines b [(bytes_id multi_tenant.TENANT_ID, ValueRef.Bytes tenant)]).
Proof.
  split_and!.
  - intros building b Hb. apply built_bytes_confines; [vm_compute; discriminate|].
    by destruct Hb.
  - intros swarm epoch b Hz Hb. apply built_pair_confines; [vm_compute; discriminate..|done|].
    by destruct Hb.
  - intros tenant b Hb. apply built_bytes_confines; [vm_compute; discriminate|].
    by destruct Hb.
Qed.

(** C38: Environments built through the typed builder are well typed. From an empty
    builder, any sequence of calls with attributes of the domain leads to entries
    that the codec encodes (at most sixteen, no attribute twice, byte strings and
    integers within bounds), that the schema of the domain validates, and each of
    which one of the calls supplied; the accessor never panics. *)
Theorem typed_environment_sound {D} `{DomainSchema D} calls :
  Forall (call_typed D) calls ->
  exists l, environment_attributes (environment_calls calls (EnvironmentBuilder_new (D:=D))) = Ok l /\
    Operation.environment_wf l /\
    Forall (fun a => validate_model_attribute D a = Ok tt) l /\
    forall a, a ∈ l -> a ∈ call_attribute <$> calls.
Proof.
  intros Hcalls. destruct (environment_calls_holds (D:=D) calls EnvironmentBuilder_new []
    (environment_holds_new D)) as (l & Hl & [Hwf Hvalid] & Hin); [|done|].
  { split; [|done]. split; [cbn; lia|]. split; [done|]. apply NoDup_nil_2. }
  exists l. split; [by apply environment_holds_attributes in Hl as [? _]|]. do 2 (split; [done|]).
  intros a [Ha|?]%Hin; [by apply not_elem_of_nil in Ha|done].
Qed.

(** The attributes the models declare. *)
Ltac declared :=
  repeat (apply Forall_cons; split;
    [split; [vm_compute; discriminate|first [reflexivity|split; [reflexivity|assumption]]]|]);
  apply Forall_nil_2.

Example smart_building_declared z l : i64_wf z ->
  Forall (call_typed smart_building.Domain)
    [PutBytes smart_building.BUILDING_ID l; PutI64 smart_building.FLOOR_ID z;
     PutI64 smart_building.DEVICE_CLASS z; PutBool smart_building.CERTIFIED_DEVICE true;
     PutI64 smart_building.USER_ROLE z; PutBool smart_building.OPERATIONAL true;
     PutI64 smart_building.TEMPERATURE z; PutI64 smart_building.OCCUPANCY z;
     PutBytes smart_building.ALERT_ZONE l].
Proof. intros Hz. declared. Qed.

Example robot_swarm_declared z l : i64_wf z ->
  Forall (call_typed robot_swarm.Domain)
    [PutBytes robot_swarm.SWARM_ID l; PutI64 robot_swarm.MISSION_EPOCH z;
     PutI64 robot_swarm.ROBOT_ROLE z; PutI64 robot_swarm.CAPABILITY z;
     PutI64 robot_swarm.PAYLOAD_CAPACITY z; PutBool robot_swarm.OPERATIONAL true;
     PutI64 robot_swarm.BATTERY_LEVEL z; PutBytes robot_swarm.ZONE l;
     PutBytes robot_swarm.ASSIGNED_TASK l; PutBytes robot_swarm.RECIPIENT_ID l].
Proof. intros Hz. declared. Qed.

Example multi_tenant_declared z l : i64_wf z ->
  Forall (call_typed multi_tenant.Domain)
    [PutBytes multi_tenant.TENANT_ID l; PutBytes multi_tenant.SERVICE_ID l;
     PutI64 multi_tenant.DEPLOYMENT_ENVIRONMENT z; PutI64 multi_tenant.SERVICE_ROLE z;
     PutI64 multi_tenant.CLEARANCE_LEVEL z; PutBool multi_tenant.SERVICE_HEALTH true;
     PutBytes multi_tenant.REGION l].
Proof. intros Hz. declared. Qed.

Lemma typed_environment_sound_witness :
  let calls := [PutBytes smart_building.BUILDING_ID [x41]; PutI64 smart_building.FLOOR_ID 3;
                PutI64 smart_building.FLOOR_ID 4; PutBytes smart_building.ALERT_ZONE (replicate 65 x42);
                PutBool smart_building.OPERATIONAL true] in
  exists l, environment_attributes (environment_calls calls smart_building.environment) = Ok l /\
    length l = 3 /\ Operation.environment_wf l.
Proof.
  cbn zeta.
  destruct (typed_environment_sound (D:=smart_building.Domain)
    [PutBytes smart_building.BUILDING_ID [x41]; PutI64 smart_building.FLOOR_ID 3;
     PutI64 smart_building.FLOOR_ID 4; PutBytes smart_building.ALERT_ZONE (replicate 65 x42);
     PutBool smart_building.OPERATIONAL true]) as (l & Hl & Hwf & _).
  - assert (i64_wf 3 /\ i64_wf 4) as [? ?] by (unfold i64_wf, i64_min, i64_max; lia). declared.
  - exists l. split; [exact Hl|]. split; [|exact Hwf]. vm_compute in Hl. by injection Hl as <-.
Defined.

Lemma use_case_boundaries_witness :
  exists b, smart_building.subscription [x41] = Ok b /\
    confines b [(bytes_id smart_building.BUILDING_ID, ValueRef.Bytes [x41])].
Proof.
  eexists. split; [reflexivity|]. apply (proj1 use_case_boundaries [x41]). left. reflexivity.
Defined.
