(* ===== verification/Crypto.v ===== *)
(** protocol-core/src/crypto.rs: the sealing and opening of envelopes, over the
    primitives of the dalek, hkdf and chacha20poly1305 crates. *)

From S2P Require Export Codec.

(** ** The cryptographic crates

    The primitives are third-party code: operations of a class, whose documented
    behaviour the theorems use is the class [CryptoLaws]. *)

Class Crypto := {
  (** [x25519_dalek]: public key of a secret, and Diffie-Hellman. *)
  x25519_public : array 32 -> array 32;
  x25519 : array 32 -> array 32 -> array 32;
  (** [ed25519_dalek]: [SigningKey::verifying_key], [VerifyingKey::from_bytes],
      [SigningKey::sign] and [VerifyingKey::verify_strict]. *)
  ed25519_public : array 32 -> array 32;
  ed25519_valid_key : array 32 -> bool;
  ed25519_sign : array 32 -> list byte -> array 64;
  ed25519_verify_strict : array 32 -> list byte -> array 64 -> bool;
  (** [Hkdf::<Sha256>::new(Some(salt), shared).expand(info, output)] *)
  hkdf_expand : array 32 -> array 32 -> list byte -> forall n, option (array n);
  (** [ChaCha20Poly1305::new(key).encrypt_inout_detached(nonce, aad, buffer)]: the
      new contents of the buffer and the tag. *)
  aead_encrypt : array 32 -> array 12 -> list byte -> list byte ->
                 option (list byte * array 16);
  (** [decrypt_inout_detached]: the new contents of the buffer; on a tag mismatch
      the buffer is left as it was. *)
  aead_decrypt : array 32 -> array 12 -> list byte -> list byte -> array 16 ->
                 option (list byte);
  (** [CryptoRng::fill_bytes] and [EphemeralSecret::random_from_rng]. *)
  Rng : Type;
  rng_fill : forall n, Rng -> array n * Rng;
  rng_ephemeral : Rng -> array 32 * Rng;
}.

Definition zero32 : array 32 := vreplicate 32 x00.

Class CryptoLaws `{Crypto} : Prop := {
  x25519_comm a b : x25519 a (x25519_public b) = x25519 b (x25519_public a);
  ed25519_public_valid sk : ed25519_valid_key (ed25519_public sk) = true;
  ed25519_verify_sign sk msg :
    ed25519_verify_strict (ed25519_public sk) msg (ed25519_sign sk msg) = true;
  hkdf_expand_total salt shared info n :
    n <= 255 * 32 -> is_Some (hkdf_expand salt shared info n);
  aead_encrypt_total key nonce aad msg :
    length msg <= MAX_PLAINTEXT_LEN -> is_Some (aead_encrypt key nonce aad msg);
  aead_encrypt_length key nonce aad msg ct tag :
    aead_encrypt key nonce aad msg = Some (ct, tag) -> length ct = length msg;
  aead_decrypt_encrypt key nonce aad msg ct tag :
    aead_encrypt key nonce aad msg = Some (ct, tag) ->
    aead_decrypt key nonce aad ct tag = Some msg;
  aead_decrypt_length key nonce aad ct tag msg :
    aead_decrypt key nonce aad ct tag = Some msg -> length msg = length ct;
}.

(** ** Key derivation *)

(** [append]: the state is the output buffer and the cursor. *)
Definition append (input : list byte) : M (list byte * nat) Error unit :=
  cursor ← gets snd;
  stop ← lift (ok_or (checked_add cursor (length input)) Error.CryptoFailure);
  output ← gets fst;
  lift (ok_or (get_range output cursor stop) Error.CryptoFailure);;
  output' ← lift (write_range output cursor stop input);
  modify (fun _ => (output', stop)).

(** [b"aead-key/chacha20poly1305"] *)
Definition LABEL_KEY : list byte :=
  [x61; x65; x61; x64; x2d; x6b; x65; x79; x2f; x63; x68; x61; x63; x68; x61; x32; x30;
   x70; x6f; x6c; x79; x31; x33; x30; x35].
(** [b"aead-nonce/one-message"] *)
Definition LABEL_NONCE : list byte :=
  [x61; x65; x61; x64; x2d; x6e; x6f; x6e; x63; x65; x2f; x6f; x6e; x65; x2d; x6d; x65;
   x73; x73; x61; x67; x65].

(** [context[..cursor]] after appending to a zeroed buffer of [size] bytes. *)
Definition appended (size : nat) (m : M (list byte * nat) Error unit) : Res (list byte) :=
  match m (replicate size x00, 0) with
  | (Ok _, (buffer, cursor)) => slice buffer 0 cursor
  | (Err e, _) => Err e
  | (Panic, _) => Panic
  end.

Definition derivation_context (message_type : MessageType) (sender recipient : AgentId)
    (session_id : SessionId) (ephemeral_public : array 32) : Res (list byte) :=
  appended 128 (
    append PROTOCOL_ID;;
    append [VERSION];;
    append [direction message_type; message_type_u8 message_type];;
    append (domain message_type);;
    append (vec_to_list (agent_bytes sender));;
    append (vec_to_list (agent_bytes recipient));;
    append (vec_to_list ephemeral_public);;
    append (vec_to_list (session_bytes session_id))).

Section crypto.
Context `{Crypto}.

Definition expand_label (salt shared : array 32) (context label : list byte) (n : nat) :
    Res (array n) :=
  info ← appended 160 (append context;; append label);
  ok_or (hkdf_expand salt shared info n) Error.CryptoFailure.

Definition derive_key_nonce (shared salt : array 32) (message_type : MessageType)
    (sender recipient : AgentId) (session_id : SessionId) (ephemeral_public : array 32) :
    Res (array 32 * array 12) :=
  context ← derivation_context message_type sender recipient session_id ephemeral_public;
  key ← expand_label salt shared context LABEL_KEY 32;
  nonce ← expand_label salt shared context LABEL_NONCE 12;
  Ok (key, nonce).

(** [OneShotSecret::generate], [public_key] and [agree]. *)
Definition OneShotSecret_generate : Rng -> array 32 * Rng := rng_ephemeral.
Definition OneShotSecret_public_key (secret : array 32) : array 32 := x25519_public secret.
Definition OneShotSecret_agree (secret peer : array 32) : Res (array 32) :=
  let bytes := x25519 secret peer in
  if bool_decide (bytes = zero32) then Err Error.CryptoFailure else Ok bytes.

(** Running a method on the buffer or on the generator of the pair. *)
Definition on_output {R A} (m : M (list byte) Error A) : M (list byte * R) Error A :=
  zoom fst (fun o s => (o, s.2)) m.
Definition on_second {R A} (m : M R Error A) : M (list byte * R) Error A :=
  zoom snd (fun r s => (s.1, r)) m.

(** [rng.fill_bytes(&mut [0u8; n])] and [OneShotSecret::generate(rng)] *)
Definition fill_bytes (n : nat) : M Rng Error (array n) := fun g =>
  let '(a, g') := rng_fill n g in (Ok a, g').
Definition generate : M Rng Error (array 32) := fun g =>
  let '(a, g') := OneShotSecret_generate g in (Ok a, g').

(** ** Sealing and opening *)

Definition seal_in_place (plaintext_len : nat) (message_type : MessageType)
    (sender recipient : AgentId) (handler : HandlerId) (session_id : SessionId)
    (salt ephemeral_secret recipient_x25519 signing_key : array 32) :
    M (list byte) Error nat :=
  let ephemeral_public := OneShotSecret_public_key ephemeral_secret in
  total_len ← encode_header message_type sender recipient handler session_id
                ephemeral_public salt plaintext_len;
  output_len ← gets length;
  if output_len <? total_len then fail Error.Oversized else
  shared ← lift (OneShotSecret_agree ephemeral_secret recipient_x25519);
  kn ← lift (derive_key_nonce shared salt message_type sender recipient session_id
               ephemeral_public);
  let ciphertext_end := HEADER_LEN + plaintext_len in
  output ← gets id;
  header ← lift (slice output 0 HEADER_LEN);
  plaintext ← lift (slice output HEADER_LEN ciphertext_end);
  sealed ← lift (ok_or (aead_encrypt kn.1 kn.2 header plaintext) Error.CryptoFailure);
  put_range HEADER_LEN ciphertext_end sealed.1;;
  put_range ciphertext_end (ciphertext_end + TAG_LEN) (vec_to_list sealed.2);;
  let signed_end := ciphertext_end + TAG_LEN in
  output ← gets id;
  signed ← lift (slice output 0 signed_end);
  put_range signed_end (signed_end + SIGNATURE_LEN)
    (vec_to_list (ed25519_sign signing_key signed));;
  mret total_len.

Definition verify_envelope_signature (envelope : EnvelopeRef) (verifying_key : array 32) :
    Res unit :=
  if ed25519_verify_strict verifying_key (env_signed_bytes envelope) (env_signature envelope)
  then Ok tt else Err Error.BadSignature.

Definition open_in_place (expected_recipient : AgentId) (expected_type : MessageType)
    (sender_verifying_key recipient_x25519_secret : array 32) :
    M (list byte) Error (list byte) :=
  frame ← gets id;
  envelope ← lift (parse_envelope frame);
  if negb (bool_decide (env_recipient envelope = expected_recipient))
  then fail Error.WrongRecipient else
  if negb (bool_decide (env_message_type envelope = expected_type))
  then fail Error.WrongMessageType else
  lift (verify_envelope_signature envelope sender_verifying_key);;
  envelope ← lift (parse_envelope frame);
  let shared := x25519 recipient_x25519_secret (env_ephemeral_public envelope) in
  if bool_decide (shared = zero32) then fail Error.CryptoFailure else
  kn ← lift (derive_key_nonce shared (env_salt envelope) (env_message_type envelope)
               (env_sender envelope) (env_recipient envelope) (env_session_id envelope)
               (env_ephemeral_public envelope));
  let ciphertext_end := HEADER_LEN + length (env_ciphertext envelope) in
  header ← lift (slice frame 0 HEADER_LEN);
  ciphertext ← lift (slice frame HEADER_LEN ciphertext_end);
  plaintext ← lift (ok_or (aead_decrypt kn.1 kn.2 header ciphertext (env_tag envelope))
                      Error.CryptoFailure);
  put_range HEADER_LEN ciphertext_end plaintext;;
  mret plaintext.

Lemma on_output_eq {R A} (m : M (list byte) Error A) out (r : R) :
  on_output m (out, r) = ((m out).1, ((m out).2, r)).
Proof. unfold on_output, zoom. cbn [fst snd]. by destruct (m out). Qed.

Lemma on_second_eq {R A} (m : M R Error A) (out : list byte) (r : R) :
  on_second m (out, r) = ((m r).1, (out, (m r).2)).
Proof. unfold on_second, zoom. cbn [fst snd]. by destruct (m r). Qed.

Lemma fill_bytes_eq n g : fill_bytes n g = (Ok (rng_fill n g).1, (rng_fill n g).2).
Proof. unfold fill_bytes. by destruct (rng_fill n g). Qed.

Lemma generate_eq g : generate g = (Ok (rng_ephemeral g).1, (rng_ephemeral g).2).
Proof. unfold generate, OneShotSecret_generate. by destruct (rng_ephemeral g). Qed.
End crypto.

(** ** Specification *)

(** The derivation context as a concatenation of its fields. *)
Definition context_bytes (message_type : MessageType) (sender recipient : AgentId)
    (session_id : SessionId) (ephemeral_public : array 32) : list byte :=
  PROTOCOL_ID ++ [VERSION] ++ [direction message_type; message_type_u8 message_type]
    ++ domain message_type ++ vec_to_list (agent_bytes sender)
    ++ vec_to_list (agent_bytes recipient) ++ vec_to_list ephemeral_public
    ++ vec_to_list (session_bytes session_id).

Lemma length_context_bytes mt s r si ep : length (context_bytes mt s r si ep) <= 119.
Proof.
  unfold context_bytes. rewrite !length_app, !length_vec_to_list.
  destruct mt; cbn [domain length PROTOCOL_ID]; lia.
Qed.

(** A buffer whose first bytes have been filled. *)
Lemma append_run input pre post :
  length pre + length input <= 4096 -> length input <= length post ->
  append input (pre ++ post, length pre)
  = (Ok tt, ((pre ++ input) ++ drop (length input) post, length (pre ++ input))).
Proof.
  intros Hlen Hle. unfold append. autorewrite with rust. cbn [snd].
  rewrite (proj2 (checked_add_Some _ _ (length pre + length input)))
    by (unfold u64_max; split; [done|lia]).
  cbn [ok_or]. autorewrite with rust. cbn [fst].
  rewrite (proj2 (get_range_Some _ _ _ _))
    by (split_and!; [lia|rewrite length_app; lia|reflexivity]).
  cbn [ok_or]. autorewrite with rust. rewrite write_range_eq by (rewrite ?length_app; lia).
  autorewrite with rust. unfold modify.
  rewrite take_app_length, <-drop_drop, drop_app_length, length_app, <-app_assoc. done.
Qed.

(** Appending parts that fit gives their concatenation. *)
Fixpoint append_all (parts : list (list byte)) : M (list byte * nat) Error unit :=
  match parts with
  | [] => mret tt
  | [part] => append part
  | part :: parts' => append part;; append_all parts'
  end.

Lemma append_all_run parts pre post :
  length pre + length (concat parts) <= 4096 -> length (concat parts) <= length post ->
  append_all parts (pre ++ post, length pre)
  = (Ok tt, ((pre ++ concat parts) ++ drop (length (concat parts)) post,
             length (pre ++ concat parts))).
Proof.
  revert pre post. induction parts as [|part [|part' parts] IH]; intros pre post Hlen Hle.
  - cbn. by rewrite app_nil_r.
  - cbn [append_all concat] in *. rewrite app_nil_r in *. by apply append_run.
  - change (append_all (part :: part' :: parts)) with (append part;; append_all (part' :: parts)).
    change (concat (part :: part' :: parts)) with (part ++ concat (part' :: parts)) in *.
    rewrite length_app in Hlen, Hle.
    erewrite bind_run by (apply append_run; lia).
    rewrite IH by (rewrite ?length_app, ?length_drop; lia).
    by rewrite drop_drop, <-length_app, <-!app_assoc.
Qed.

Lemma appended_all size parts :
  size <= 4096 -> length (concat parts) <= size ->
  appended size (append_all parts) = Ok (concat parts).
Proof.
  intros Hsize Hle. unfold appended.
  pose proof (append_all_run parts [] (replicate size x00)) as Hrun.
  cbn [app length] in Hrun. rewrite length_replicate in Hrun.
  rewrite Hrun by lia. rewrite slice_eq by (rewrite ?length_app; lia).
  by rewrite Nat.sub_0_r, drop_0, take_app_length.
Qed.

Lemma derivation_context_eq mt s r si ep :
  derivation_context mt s r si ep = Ok (context_bytes mt s r si ep).
Proof.
  pose proof (length_context_bytes mt s r si ep) as Hlen.
  assert (Hc : context_bytes mt s r si ep
    = concat [PROTOCOL_ID; [VERSION]; [direction mt; message_type_u8 mt]; domain mt;
              vec_to_list (agent_bytes s); vec_to_list (agent_bytes r); vec_to_list ep;
              vec_to_list (session_bytes si)])
    by (unfold context_bytes; cbn [concat]; by rewrite app_nil_r).
  rewrite Hc in *. by apply (appended_all 128 [_;_;_;_;_;_;_;_]); [lia|lia].
Qed.

(** The context determines the message type and all the identifiers. *)
Lemma context_bytes_inj mt s r si ep mt' s' r' si' ep' :
  context_bytes mt s r si ep = context_bytes mt' s' r' si' ep' ->
  mt = mt' /\ s = s' /\ r = r' /\ si = si' /\ ep = ep'.
Proof.
  unfold context_bytes. intros Heq.
  apply app_inj_1 in Heq as [_ Heq]; [|done]. apply app_inj_1 in Heq as [_ Heq]; [|done].
  apply app_inj_1 in Heq as [Hmt Heq]; [|done].
  assert (mt = mt') as <- by (destruct mt, mt'; done).
  apply app_inj_1 in Heq as [_ Heq]; [|done].
  apply app_inj_1 in Heq as [Hs Heq]; [|by rewrite !length_vec_to_list].
  apply app_inj_1 in Heq as [Hr Heq]; [|by rewrite !length_vec_to_list].
  apply app_inj_1 in Heq as [He Hsi]; [|by rewrite !length_vec_to_list].
  apply vec_to_list_inj2 in Hs, Hr, He, Hsi.
  destruct s, s', r, r', si, si'; cbn in *. by subst.
Qed.

Section laws.
Context `{CryptoLaws}.

(** The key and the nonce of a message: HKDF outputs under two labels on the
    context of the message. *)
Definition derives (shared salt : array 32) mt s r si (ep : array 32)
    (key : array 32) (nonce : array 12) : Prop :=
  hkdf_expand salt shared (context_bytes mt s r si ep ++ LABEL_KEY) 32 = Some key /\
  hkdf_expand salt shared (context_bytes mt s r si ep ++ LABEL_NONCE) 12 = Some nonce.

Lemma expand_label_eq salt shared ctx label n :
  length ctx + length label <= 160 ->
  expand_label salt shared ctx label n
  = ok_or (hkdf_expand salt shared (ctx ++ label) n) Error.CryptoFailure.
Proof.
  intros Hlen. unfold expand_label.
  change (append ctx;; append label) with (append_all [ctx; label]).
  rewrite appended_all by (rewrite ?length_app; cbn [concat]; rewrite ?length_app; cbn; lia).
  cbn [concat]. by rewrite app_nil_r.
Qed.

Lemma derive_key_nonce_run shared salt mt s r si ep :
  exists key nonce, derive_key_nonce shared salt mt s r si ep = Ok (key, nonce) /\
    derives shared salt mt s r si ep key nonce.
Proof.
  pose proof (length_context_bytes mt s r si ep) as Hlen.
  unfold derive_key_nonce, derives. rewrite derivation_context_eq, bind_Ok.
  assert (length LABEL_KEY = 25) by reflexivity. assert (length LABEL_NONCE = 22) by reflexivity.
  generalize dependent (context_bytes mt s r si ep). intros ctx Hlen.
  rewrite !expand_label_eq by lia.
  destruct (hkdf_expand_total salt shared (ctx ++ LABEL_KEY) 32)
    as [key ->]; [lia|].
  destruct (hkdf_expand_total salt shared (ctx ++ LABEL_NONCE) 12)
    as [nonce ->]; [lia|].
  cbn [mbind result_bind ok_or]. exists key, nonce. repeat split.
Qed.

(** The envelope whose wire form sealing produces. *)
Definition sealed_envelope mt s r h si (salt ep sk : array 32) (ct : list byte)
    (tag : array 16) : EnvelopeRef :=
  let hd := header_bytes mt s r h si ep salt (length ct) in
  mkEnvelope mt s r h si ep salt ct tag
    (ed25519_sign sk (hd ++ ct ++ vec_to_list tag)) hd (hd ++ ct ++ vec_to_list tag).

Lemma sealed_envelope_wf mt s r h si salt ep sk ct tag :
  length ct <= MAX_PLAINTEXT_LEN -> envelope_wf (sealed_envelope mt s r h si salt ep sk ct tag).
Proof. intros Hct. split; [exact Hct|]. split; reflexivity. Qed.

Lemma length_sealed mt s r h si salt ep sk ct tag :
  length (envelope_wire (sealed_envelope mt s r h si salt ep sk ct tag)) =
    HEADER_LEN + length ct + (TAG_LEN + SIGNATURE_LEN).
Proof.
  unfold envelope_wire, envelope_header. rewrite !length_app, length_header_bytes, !length_vec_to_list.
  cbn [sealed_envelope env_ciphertext]. unfold TAG_LEN, SIGNATURE_LEN. lia.
Qed.

(** [seal_in_place] on a buffer holding the plaintext behind room for a header. *)
Lemma seal_in_place_run pt mt s r h si salt eph rx sk (h0 tail : list byte) :
  length h0 = HEADER_LEN -> length pt <= MAX_PLAINTEXT_LEN ->
  TAG_LEN + SIGNATURE_LEN <= length tail ->
  x25519 eph rx <> zero32 ->
  let ep := x25519_public eph in
  exists key nonce ct tag,
    derives (x25519 eph rx) salt mt s r si ep key nonce /\
    aead_encrypt key nonce (header_bytes mt s r h si ep salt (length pt)) pt = Some (ct, tag) /\
    seal_in_place (length pt) mt s r h si salt eph rx sk (h0 ++ pt ++ tail)
    = (Ok (HEADER_LEN + length pt + (TAG_LEN + SIGNATURE_LEN)),
       envelope_wire (sealed_envelope mt s r h si salt ep sk ct tag)
         ++ drop (TAG_LEN + SIGNATURE_LEN) tail).
Proof.
  intros Hh0 Hpt Htail Hz ep.
  destruct (derive_key_nonce_run (x25519 eph rx) salt mt s r si ep)
    as (key & nonce & Hderive & Hd).
  set (hd := header_bytes mt s r h si ep salt (length pt)).
  destruct (aead_encrypt_total key nonce hd pt Hpt) as [[ct tag] Hct].
  pose proof (aead_encrypt_length _ _ _ _ _ _ Hct) as Hlen.
  assert (Hhd : length hd = 148) by apply length_header_bytes.
  exists key, nonce, ct, tag. split; [done|]. split; [done|].
  unfold seal_in_place, OneShotSecret_public_key, OneShotSecret_agree.
  erewrite bind_run; cycle 1.
  { apply encode_header_run; [done|]. rewrite length_app. lia. }
  rewrite drop_app_length' by done. fold ep. fold hd. unfold HEADER_LEN, TAG_LEN, SIGNATURE_LEN in *.
  autorewrite with rust.
  rewrite (proj2 (Nat.ltb_ge _ _)) by (rewrite !length_app; lia).
  rewrite bool_decide_eq_false_2 by done. autorewrite with rust.
  rewrite Hderive. autorewrite with rust.
  change (gets id) with (gets (S:=list byte) (E:=Error) (@id (list byte))).
  autorewrite with rust. cbn [id fst snd].
  rewrite (slice_eq _ 0) by (rewrite ?length_app; lia).
  rewrite Nat.sub_0_r, drop_0, take_app_length' by done. autorewrite with rust.
  rewrite (slice_app hd pt tail) by lia. autorewrite with rust.
  rewrite Hct. cbn [ok_or]. autorewrite with rust. cbn [fst snd].
  rewrite <-(take_drop 80 tail), <-(take_drop 16 (take 80 tail)), <-app_assoc.
  set (t1 := take 16 (take 80 tail)). set (t2 := drop 16 (take 80 tail)). set (t3 := drop 80 tail).
  assert (length t1 = 16) by (subst t1; rewrite !length_take; lia).
  assert (length t2 = 64) by (subst t2; rewrite length_drop, length_take; lia).
  replace (hd ++ pt ++ t1 ++ t2 ++ t3) with (concat [hd; pt; t1; t2; t3])
    by (cbn [concat]; by rewrite app_nil_r).
  put_step 1. put_step 2. autorewrite with rust. cbn [id].
  rewrite (slice_eq _ 0) by (cbn [concat]; rewrite ?length_app, ?length_vec_to_list; lia).
  rewrite Nat.sub_0_r, drop_0, (take_concat_prefix 3) by seg_len.
  autorewrite with rust. put_step 3. cbn [mret M_ret concat firstn]. f_equal.
  unfold envelope_wire, sealed_envelope, envelope_header.
  cbn [env_message_type env_sender env_recipient env_handler env_session_id
    env_ephemeral_public env_salt env_ciphertext env_tag env_signature].
  rewrite Hlen. fold hd. rewrite (app_assoc t1), (drop_app_length' (t1 ++ t2)) by (rewrite length_app; lia).
  by rewrite <-!app_assoc, !app_nil_r.
Qed.

(** A peer key that gives the all-zero secret is refused, after the header was
    written. *)
Lemma seal_in_place_zero pt mt s r h si salt eph rx sk (h0 tail : list byte) :
  length h0 = HEADER_LEN -> length pt <= MAX_PLAINTEXT_LEN ->
  TAG_LEN + SIGNATURE_LEN <= length tail ->
  x25519 eph rx = zero32 ->
  (seal_in_place (length pt) mt s r h si salt eph rx sk (h0 ++ pt ++ tail)).1
  = Err Error.CryptoFailure.
Proof.
  intros Hh0 Hpt Htail Hz. unfold seal_in_place, OneShotSecret_public_key, OneShotSecret_agree.
  erewrite bind_run; cycle 1.
  { apply encode_header_run; [done|]. rewrite length_app. lia. }
  rewrite drop_app_length' by done. autorewrite with rust.
  pose proof (length_header_bytes mt s r h si (x25519_public eph) salt (length pt)) as Hhd.
  unfold HEADER_LEN, TAG_LEN, SIGNATURE_LEN in *.
  rewrite (proj2 (Nat.ltb_ge _ _)) by (rewrite !length_app; lia).
  rewrite bool_decide_eq_true_2 by done. by autorewrite with rust.
Qed.

(** The checks [open_in_place] makes before any use of the private key. *)
Definition open_checks (er : AgentId) (et : MessageType) (vk : array 32) (frame : list byte) :
    Res EnvelopeRef :=
  e ← parse_envelope frame;
  if negb (bool_decide (env_recipient e = er)) then Err Error.WrongRecipient else
  if negb (bool_decide (env_message_type e = et)) then Err Error.WrongMessageType else
  verify_envelope_signature e vk;;
  Ok e.

(** What it does with the private key on an envelope that passed the checks. *)
Definition open_result (sk : array 32) (e : EnvelopeRef) : Res (list byte) :=
  let shared := x25519 sk (env_ephemeral_public e) in
  if bool_decide (shared = zero32) then Err Error.CryptoFailure else
  kn ← derive_key_nonce shared (env_salt e) (env_message_type e) (env_sender e)
         (env_recipient e) (env_session_id e) (env_ephemeral_public e);
  ok_or (aead_decrypt kn.1 kn.2 (env_header e) (env_ciphertext e) (env_tag e))
    Error.CryptoFailure.

Definition opened_frame (e : EnvelopeRef) (pt : list byte) : list byte :=
  env_header e ++ pt ++ vec_to_list (env_tag e) ++ vec_to_list (env_signature e).

Lemma open_in_place_run er et vk sk frame :
  open_in_place er et vk sk frame
  = match open_checks er et vk frame with
    | Ok e => match open_result sk e with
              | Ok pt => (Ok pt, opened_frame e pt)
              | Err x => (Err x, frame)
              | Panic => (Panic, frame)
              end
    | Err x => (Err x, frame)
    | Panic => (Panic, frame)
    end.
Proof.
  unfold open_in_place, open_checks.
  change (gets id) with (gets (S:=list byte) (E:=Error) (@id (list byte))).
  autorewrite with rust. cbn [id].
  destruct (parse_envelope frame) as [e| |] eqn:Hparse; [|done..].
  cbn [mbind result_bind]. autorewrite with rust.
  destruct (negb _); [done|]. destruct (negb _); [done|].
  unfold verify_envelope_signature. destruct (ed25519_verify_strict _ _ _); [|done].
  autorewrite with rust. cbn [mbind result_bind]. unfold open_result.
  destruct (bool_decide _); [done|].
  destruct (derive_key_nonce_run (x25519 sk (env_ephemeral_public e)) (env_salt e)
    (env_message_type e) (env_sender e) (env_recipient e) (env_session_id e)
    (env_ephemeral_public e)) as (key & nonce & -> & _).
  autorewrite with rust. cbn [mbind result_bind fst snd].
  apply parse_envelope_iff in Hparse as [(Hct & Hh & _) ->].
  assert (length (env_header e) = HEADER_LEN) as Hlen
    by (rewrite Hh; apply length_header_bytes).
  unfold envelope_wire. rewrite <-Hh.
  rewrite (slice_eq _ 0) by (rewrite ?length_app; lia).
  rewrite Nat.sub_0_r, drop_0, take_app_length' by done. autorewrite with rust.
  rewrite (slice_app (env_header e) (env_ciphertext e)) by lia. autorewrite with rust.
  destruct (aead_decrypt _ _ _ _ _) as [pt|] eqn:Hdec; [|done].
  apply aead_decrypt_length in Hdec. cbn [ok_or]. autorewrite with rust.
  replace (env_header e ++ env_ciphertext e ++ _) with
    (concat [env_header e; env_ciphertext e; vec_to_list (env_tag e);
             vec_to_list (env_signature e)])
    by (cbn [concat]; by rewrite app_nil_r).
  unfold HEADER_LEN in *. put_step 1. unfold opened_frame. cbn [concat]. by rewrite app_nil_r.
Qed.

Lemma open_result_spec sk e :
  open_result sk e = Err Error.CryptoFailure \/
  exists pt key nonce, open_result sk e = Ok pt /\
    x25519 sk (env_ephemeral_public e) <> zero32 /\
    derives (x25519 sk (env_ephemeral_public e)) (env_salt e) (env_message_type e)
      (env_sender e) (env_recipient e) (env_session_id e) (env_ephemeral_public e) key nonce /\
    aead_decrypt key nonce (env_header e) (env_ciphertext e) (env_tag e) = Some pt.
Proof.
  unfold open_result. case_bool_decide as Hz; [by left|].
  destruct (derive_key_nonce_run (x25519 sk (env_ephemeral_public e)) (env_salt e)
    (env_message_type e) (env_sender e) (env_recipient e) (env_session_id e)
    (env_ephemeral_public e)) as (key & nonce & -> & Hd).
  cbn [mbind result_bind fst snd].
  destruct (aead_decrypt _ _ _ _ _) as [pt|] eqn:Hdec; [right|by left].
  by exists pt, key, nonce.
Qed.

Lemma open_checks_Ok er et vk frame e :
  open_checks er et vk frame = Ok e <->
  parse_envelope frame = Ok e /\ env_recipient e = er /\ env_message_type e = et /\
  ed25519_verify_strict vk (env_signed_bytes e) (env_signature e) = true.
Proof.
  unfold open_checks, verify_envelope_signature. split.
  - intros Hr. res_inv Hr. destruct (ed25519_verify_strict _ _ _) eqn:?; naive_solver.
  - intros (-> & <- & <- & Hv). cbn [mbind result_bind].
    by rewrite !bool_decide_eq_true_2, Hv by done.
Qed.

Lemma open_sealed mt s r h si salt eph sk rsk pt key nonce ct tag :
  length pt <= MAX_PLAINTEXT_LEN ->
  let ep := x25519_public eph in
  let e := sealed_envelope mt s r h si salt ep sk ct tag in
  x25519 eph (x25519_public rsk) <> zero32 ->
  derives (x25519 eph (x25519_public rsk)) salt mt s r si ep key nonce ->
  aead_encrypt key nonce (header_bytes mt s r h si ep salt (length pt)) pt = Some (ct, tag) ->
  open_checks r mt (ed25519_public sk) (envelope_wire e) = Ok e /\
  open_result rsk e = Ok pt.
Proof.
  intros Hpt ep e Hz [Hk Hn] Hct. pose proof (aead_encrypt_length _ _ _ _ _ _ Hct) as Hlen.
  assert (envelope_wf e) as Hwf by (apply sealed_envelope_wf; lia).
  split.
  - apply open_checks_Ok. split_and!; [by apply parse_envelope_iff|done|done|].
    apply ed25519_verify_sign.
  - unfold open_result. subst e.
    cbn [sealed_envelope env_message_type env_sender env_recipient env_handler env_session_id
      env_ephemeral_public env_salt env_ciphertext env_tag env_signature env_header].
    assert (x25519 rsk ep = x25519 eph (x25519_public rsk)) as -> by apply x25519_comm.
    rewrite bool_decide_eq_false_2 by done.
    destruct (derive_key_nonce_run (x25519 eph (x25519_public rsk)) salt mt s r si ep)
      as (key' & nonce' & -> & [Hk' Hn']). simplify_eq. cbn [mbind result_bind fst snd].
    rewrite Hlen, (aead_decrypt_encrypt _ _ _ _ _ _ Hct). done.
Qed.
End laws.

(** What is sealed opens. *)
Lemma seal_opens `{CryptoLaws} pt mt s r h si salt eph sk rsk (h0 tail : list byte) :
  length h0 = HEADER_LEN -> length pt <= MAX_PLAINTEXT_LEN ->
  TAG_LEN + SIGNATURE_LEN <= length tail ->
  x25519 eph (x25519_public rsk) <> zero32 ->
  exists e frame,
    seal_in_place (length pt) mt s r h si salt eph (x25519_public rsk) sk (h0 ++ pt ++ tail)
    = (Ok (length frame), frame ++ drop (TAG_LEN + SIGNATURE_LEN) tail) /\
    length frame = HEADER_LEN + length pt + (TAG_LEN + SIGNATURE_LEN) /\
    parse_envelope frame = Ok e /\
    (env_message_type e, env_sender e, env_recipient e, env_handler e, env_session_id e, env_salt e)
    = (mt, s, r, h, si, salt) /\
    (open_in_place r mt (ed25519_public sk) rsk frame).1 = Ok pt.
Proof.
  intros Hh0 Hpt Htail Hz.
  destruct (seal_in_place_run pt mt s r h si salt eph (x25519_public rsk) sk h0 tail)
    as (key & nonce & ct & tag & Hd & Hct & Hrun); [done..|].
  pose proof (aead_encrypt_length _ _ _ _ _ _ Hct) as Hlen.
  destruct (open_sealed mt s r h si salt eph sk rsk pt key nonce ct tag Hpt Hz Hd Hct)
    as [Hchk Hres].
  set (e := sealed_envelope mt s r h si salt (x25519_public eph) sk ct tag) in *.
  assert (length (envelope_wire e) = HEADER_LEN + length pt + (TAG_LEN + SIGNATURE_LEN)) as Hframe
    by (unfold e; by rewrite length_sealed, Hlen).
  exists e, (envelope_wire e). rewrite Hframe. split; [exact Hrun|]. split; [done|].
  split; [by apply open_checks_Ok in Hchk as [? _]|]. split; [done|].
  by rewrite open_in_place_run, Hchk, Hres.
Qed.

(** ** A concrete instance of the primitives

    Not secure, but an instance of the laws on which the theorems are evaluated:
    Diffie-Hellman is byte-wise addition, a signature and a tag are checksums, and
    the cipher adds the first byte of the key. *)
Module Toy.
Definition add (a b : byte) : byte := byte_of (byte_val a + byte_val b).
Definition sub (a b : byte) : byte := byte_of (byte_val a + 256 - byte_val b).
Definition sum (l : list byte) : byte := foldr add x01 l.

Lemma sub_add a b : sub (add a b) b = a.
Proof.
  apply (inj byte_val). unfold sub, add. rewrite !byte_val_of.
  pose proof (byte_val_lt a). pose proof (byte_val_lt b).
  destruct (N.lt_ge_cases (byte_val a + byte_val b) 256).
  - rewrite (N.mod_small (byte_val a + byte_val b)) by lia.
    replace (byte_val a + byte_val b + 256 - byte_val b)%N with (byte_val a + 1 * 256)%N by lia.
    rewrite N.Div0.mod_add. apply N.mod_small. lia.
  - replace ((byte_val a + byte_val b) mod 256)%N with (byte_val a + byte_val b - 256)%N.
    + replace (byte_val a + byte_val b - 256 + 256 - byte_val b)%N with (byte_val a) by lia.
      apply N.mod_small. lia.
    + rewrite <-(N.mod_small (byte_val a + byte_val b - 256) 256) by lia.
      rewrite <-(N.Div0.mod_add (byte_val a + byte_val b - 256) 1). f_equal. lia.
Qed.

Definition key_byte (key : array 32) : byte := default x00 (head (vec_to_list key)).

#[export] Instance crypto : Crypto := {
  x25519_public := id;
  x25519 a b := vzip_with add a b;
  ed25519_public := id;
  ed25519_valid_key _ := true;
  ed25519_sign sk msg := vreplicate 64 (sum (vec_to_list sk ++ msg));
  ed25519_verify_strict vk msg sig :=
    bool_decide (sig = vreplicate 64 (sum (vec_to_list vk ++ msg)));
  hkdf_expand salt shared info n :=
    if n <=? 255 * 32
    then Some (vreplicate n (sum (vec_to_list salt ++ vec_to_list shared ++ info))) else None;
  aead_encrypt key nonce aad msg :=
    let ct := (fun b => add b (key_byte key)) <$> msg in
    Some (ct, vreplicate 16 (sum (vec_to_list key ++ vec_to_list nonce ++ aad ++ ct)));
  aead_decrypt key nonce aad ct tag :=
    if bool_decide (tag = vreplicate 16 (sum (vec_to_list key ++ vec_to_list nonce ++ aad ++ ct)))
    then Some ((fun b => sub b (key_byte key)) <$> ct) else None;
  Rng := N;
  rng_fill n g := (vreplicate n (byte_of g), N.succ g);
  rng_ephemeral g := (vreplicate 32 (byte_of g), N.succ g);
}.

Lemma add_comm a b : add a b = add b a.
Proof. unfold add. by rewrite N.add_comm. Qed.

#[export] Instance laws : CryptoLaws.
Proof.
  split; cbn [x25519 x25519_public ed25519_public ed25519_valid_key ed25519_sign
    ed25519_verify_strict hkdf_expand aead_encrypt aead_decrypt crypto id].
  - intros a b. apply vec_eq. intros i. rewrite !vlookup_zip_with. apply add_comm.
  - done.
  - intros. by apply bool_decide_eq_true_2.
  - intros salt shared info n Hn. apply Nat.leb_le in Hn. rewrite Hn. by eexists.
  - intros. by eexists.
  - intros key nonce aad msg ct tag [= <- <-]. by rewrite length_fmap.
  - intros key nonce aad msg ct tag [= <- <-]. rewrite bool_decide_eq_true_2 by done.
    f_equal. rewrite <-list_fmap_compose. rewrite <-(list_fmap_id msg) at 2.
    apply list_fmap_ext. intros i x _. apply sub_add.
  - intros key nonce aad ct tag msg Hd. case_bool_decide; [|done].
    injection Hd as <-. by rewrite length_fmap.
Qed.

(** A frame sealed with fixed keys: signing key [06..], ephemeral key [04..]. *)
Definition frame (sk rx : byte) (mt : MessageType) (s r : AgentId) (h : HandlerId)
    (session : byte) (pt : list byte) : list byte :=
  take (HEADER_LEN + length pt + (TAG_LEN + SIGNATURE_LEN))
    (seal_in_place (length pt) mt s r h (mkSessionId (vreplicate 16 session))
       (vreplicate 32 x03) (vreplicate 32 x04) (vreplicate 32 rx) (vreplicate 32 sk)
       (replicate HEADER_LEN x00 ++ pt ++ replicate 80 x00)).2.
End Toy.

(** ** Properties *)

(** C1: Sealing and then opening is the identity on plaintexts: whatever the
    buffer held besides the plaintext, [seal_in_place] returns the length of the
    frame and writes a frame the canonical parser accepts with exactly the given
    type, identifiers, session and salt; [open_in_place], called by the holder of
    the recipient's key with the sender's verifying key, returns the plaintext. *)
Theorem seal_open `{CryptoLaws} pt mt s r h si salt eph sk rsk (h0 tail : list byte) :
  length h0 = HEADER_LEN -> length pt <= MAX_PLAINTEXT_LEN ->
  TAG_LEN + SIGNATURE_LEN <= length tail ->
  x25519 eph (x25519_public rsk) <> zero32 ->
  exists e frame,
    seal_in_place (length pt) mt s r h si salt eph (x25519_public rsk) sk (h0 ++ pt ++ tail)
    = (Ok (length frame), frame ++ drop (TAG_LEN + SIGNATURE_LEN) tail) /\
    length frame = HEADER_LEN + length pt + (TAG_LEN + SIGNATURE_LEN) /\
    parse_envelope frame = Ok e /\
    (env_message_type e, env_sender e, env_recipient e, env_handler e, env_session_id e, env_salt e)
    = (mt, s, r, h, si, salt) /\
    (open_in_place r mt (ed25519_public sk) rsk frame).1 = Ok pt.
Proof. by apply seal_opens. Qed.

Lemma seal_open_witness :
  let rsk := vreplicate 32 x05 in
  exists e frame,
    parse_envelope frame = Ok e /\ length frame = 231 /\
    (open_in_place (H:=Toy.crypto) AgentId_CA MessageType.Publish (vreplicate 32 x06) rsk frame).1
    = Ok [x2a; x2b; x2c].
Proof.
  destruct (seal_open (H:=Toy.crypto) (H0:=Toy.laws) [x2a; x2b; x2c] MessageType.Publish
    (mkAgentId (vreplicate 16 x01)) AgentId_CA HandlerId_NONE (mkSessionId (vreplicate 16 x02))
    (vreplicate 32 x03) (vreplicate 32 x04) (vreplicate 32 x06) (vreplicate 32 x05)
    (replicate 148 x00) (replicate 80 x00))
    as (e & frame & _ & Hlen & Hparse & _ & Hopen);
    [reflexivity|vm_compute; lia|vm_compute; lia|vm_compute; discriminate|].
  exists e, frame. split; [exact Hparse|]. split; [exact Hlen|exact Hopen].
Defined.

(** [open_in_place] uses the private key only on an envelope that parsed,
    is for the expected recipient, has the expected type and carries a valid
    signature: a failure of one of these checks, in that order, is the result
    whatever the key is, and leaves the frame unchanged.  When the checks pass the
    only failure left is [CryptoFailure], and on success the plaintext is the
    authenticated decryption of the ciphertext under the keys derived from the
    Diffie-Hellman secret and the envelope's own fields. *)
Theorem open_checks_before_key `{CryptoLaws} er et vk frame :
  match open_checks er et vk frame with
  | Panic => False
  | Err x => forall sk, open_in_place er et vk sk frame = (Err x, frame)
  | Ok e =>
      parse_envelope frame = Ok e /\ env_recipient e = er /\ env_message_type e = et /\
      ed25519_verify_strict vk (env_signed_bytes e) (env_signature e) = true /\
      forall sk,
        open_in_place er et vk sk frame = (Err Error.CryptoFailure, frame) \/
        exists pt key nonce,
          open_in_place er et vk sk frame = (Ok pt, opened_frame e pt) /\
          derives (x25519 sk (env_ephemeral_public e)) (env_salt e) et (env_sender e) er
            (env_session_id e) (env_ephemeral_public e) key nonce /\
          aead_decrypt key nonce (env_header e) (env_ciphertext e) (env_tag e) = Some pt
  end.
Proof.
  destruct (open_checks er et vk frame) as [e|x|] eqn:Hchk.
  - pose proof Hchk as (Hparse & Hr & Ht & Hv)%open_checks_Ok. do 4 (split; [done|]).
    intros sk. rewrite open_in_place_run, Hchk.
    destruct (open_result_spec sk e) as [->|(pt & key & nonce & -> & _ & Hd & Hdec)]; [by left|].
    right. exists pt, key, nonce. by rewrite <-Hr, <-Ht.
  - intros sk. by rewrite open_in_place_run, Hchk.
  - unfold open_checks, verify_envelope_signature in Hchk.
    destruct (parse_envelope frame) eqn:Hp; cbn [mbind result_bind] in Hchk; [|done|].
    + repeat case_match; done.
    + by apply (parse_envelope_no_panic frame).
Qed.

Lemma open_checks_before_key_witness :
  let frame := Toy.frame x06 x05 MessageType.Publish (mkAgentId (vreplicate 16 x01)) AgentId_CA
                 HandlerId_NONE x02 [x2a] in
  (open_in_place (H:=Toy.crypto) AgentId_CA MessageType.Publish (vreplicate 32 x07)
     (vreplicate 32 x05) frame).1 = Err Error.BadSignature /\
  (open_in_place (H:=Toy.crypto) AgentId_CA MessageType.Publish (vreplicate 32 x06)
     (vreplicate 32 x05) frame).1 = Ok [x2a].
Proof.
  cbn zeta. split; [|vm_compute; reflexivity].
  pose proof (open_checks_before_key (H:=Toy.crypto) (H0:=Toy.laws) AgentId_CA MessageType.Publish
    (vreplicate 32 x07) (Toy.frame x06 x05 MessageType.Publish (mkAgentId (vreplicate 16 x01))
    AgentId_CA HandlerId_NONE x02 [x2a])) as H.
  destruct (open_checks _ _ _ _) as [e|x|] eqn:Hc; [vm_compute in Hc; discriminate Hc| |done].
  rewrite H. vm_compute in Hc. injection Hc as <-. reflexivity.
Defined.

(** Keys are separated by context: the HKDF inputs of two key-nonce
    derivations that agree on any of the two labels come from the same message
    type, sender, recipient, session and ephemeral key, and a key input is never a
    nonce input.  [derive_key_nonce] never fails on its bounded buffers. *)
Theorem derivation_domain_separation `{CryptoLaws} shared salt mt s r si ep :
  (exists key nonce, derive_key_nonce shared salt mt s r si ep = Ok (key, nonce) /\
     derives shared salt mt s r si ep key nonce) /\
  forall mt' s' r' si' ep',
    let c := context_bytes mt s r si ep in let c' := context_bytes mt' s' r' si' ep' in
    c ++ LABEL_KEY <> c' ++ LABEL_NONCE /\
    (c ++ LABEL_KEY = c' ++ LABEL_KEY \/ c ++ LABEL_NONCE = c' ++ LABEL_NONCE ->
     mt = mt' /\ s = s' /\ r = r' /\ si = si' /\ ep = ep').
Proof.
  split; [apply derive_key_nonce_run|]. intros mt' s' r' si' ep' c c'. split.
  - intros Heq. apply (f_equal last) in Heq. rewrite !last_app in Heq. cbn in Heq. discriminate Heq.
  - intros [Heq|Heq]; apply app_inv_tail in Heq; by apply context_bytes_inj.
Qed.

Lemma derivation_domain_separation_witness :
  context_bytes MessageType.Subscribe AgentId_CA AgentId_CA (mkSessionId (vreplicate 16 x02))
    zero32 ++ LABEL_KEY
  <> context_bytes MessageType.SubscribePermanent AgentId_CA AgentId_CA
       (mkSessionId (vreplicate 16 x02)) zero32 ++ LABEL_KEY.
Proof.
  intros Heq.
  destruct (derivation_domain_separation (H:=Toy.crypto) (H0:=Toy.laws) zero32 zero32
    MessageType.Subscribe AgentId_CA AgentId_CA (mkSessionId (vreplicate 16 x02)) zero32)
    as [_ Hsep].
  destruct (Hsep MessageType.SubscribePermanent AgentId_CA AgentId_CA
    (mkSessionId (vreplicate 16 x02)) zero32) as [_ Hinj].
  destruct (Hinj (or_introl Heq)) as [Hmt _]. discriminate Hmt.
Defined.
