(* ===== verification/Frames.v ===== *)
(** Frames that are encoded and sealed into one buffer: what [request_into] of
    agent-core and [delivery] of ca-core have in common. *)

From S2P Require Export Payload Crypto.

Section frames.
Context `{Crypto}.

(** Encode behind room for the header, draw session, salt and one-shot secret in
    this order, seal in place. *)
Definition seal_encoded (message_type : MessageType) (sender recipient : AgentId)
    (handler : HandlerId) (recipient_x25519 signing : array 32)
    (encode : M (list byte) Error nat) : M (list byte * Rng) Error nat :=
  plaintext_len ← on_output (on_range HEADER_LEN MAX_FRAME_LEN encode);
  session ← on_second (fill_bytes 16);
  salt ← on_second (fill_bytes 32);
  secret ← on_second generate;
  on_output (seal_in_place plaintext_len message_type sender recipient handler
    (mkSessionId session) salt secret recipient_x25519 signing).

(** The random values of a request, in the order they are drawn. *)
Definition drawn_session (g : Rng) : SessionId := mkSessionId (rng_fill 16 g).1.
Definition drawn_salt (g : Rng) : array 32 := (rng_fill 32 (rng_fill 16 g).2).1.
Definition drawn_secret (g : Rng) : array 32 :=
  (rng_ephemeral (rng_fill 32 (rng_fill 16 g).2).2).1.
Definition drawn_rng (g : Rng) : Rng :=
  (rng_ephemeral (rng_fill 32 (rng_fill 16 g).2).2).2.

(** For the holder of [secret], [frame] is [w] sealed by the holder of [vk]. *)
Definition sealed_frame (mt : MessageType) (s r : AgentId) (h : HandlerId) (g : Rng)
    (vk secret : array 32) (w frame : list byte) : Prop :=
  length frame = HEADER_LEN + length w + (TAG_LEN + SIGNATURE_LEN) /\
  exists e, parse_envelope frame = Ok e /\
    env_message_type e = mt /\ env_sender e = s /\ env_recipient e = r /\
    env_handler e = h /\ env_session_id e = drawn_session g /\
    (open_in_place r mt vk secret frame).1 = Ok w.
End frames.

(** The buffer after encoding: room for the header, the plaintext and the rest. *)
Lemma encode_behind_header `{Crypto} encode w out (g : Rng) :
  encodes encode w -> length w <= MAX_PLAINTEXT_LEN -> MAX_FRAME_LEN <= length out ->
  exists h0 tail, length h0 = HEADER_LEN /\ TAG_LEN + SIGNATURE_LEN <= length tail /\
    length (h0 ++ w ++ tail) = length out /\
    on_output (on_range HEADER_LEN MAX_FRAME_LEN encode) (out, g)
    = (Ok (length w), (h0 ++ w ++ tail, g)).
Proof.
  intros Henc Hw Hout.
  unfold MAX_FRAME_LEN, MAX_PLAINTEXT_LEN, HEADER_LEN, TAG_LEN, SIGNATURE_LEN in Hout, Hw.
  set (sub := take 4176 (drop 148 out)).
  assert (Hsub : length sub = 4176) by (subst sub; rewrite length_take, length_drop; lia).
  exists (take HEADER_LEN out), (drop (length w) sub ++ drop MAX_FRAME_LEN out).
  split; [rewrite length_take; unfold HEADER_LEN; lia|].
  split; [rewrite length_app, length_drop; unfold TAG_LEN, SIGNATURE_LEN; lia|].
  split.
  { subst sub. unfold MAX_FRAME_LEN, MAX_PLAINTEXT_LEN, HEADER_LEN, TAG_LEN, SIGNATURE_LEN.
    rewrite !length_app, !length_take, !length_drop, length_take, length_drop. lia. }
  rewrite on_output_eq. unfold on_range.
  rewrite (proj2 (get_range_Some out HEADER_LEN MAX_FRAME_LEN sub))
    by (unfold MAX_FRAME_LEN, MAX_PLAINTEXT_LEN, HEADER_LEN, TAG_LEN, SIGNATURE_LEN;
        split_and!; [lia|lia|done]).
  specialize (Henc sub). rewrite decide_True in Henc by lia.
  rewrite Henc by (unfold fits, u64_max; lia). cbn [fst snd]. by rewrite <-app_assoc.
Qed.

(** Encoding and drawing succeed; what is left is to seal. *)
Lemma seal_encoded_drawn `{Crypto} mt s r h rx sk encode w out (g : Rng) :
  encodes encode w -> length w <= MAX_PLAINTEXT_LEN -> MAX_FRAME_LEN <= length out ->
  exists h0 tail, length h0 = HEADER_LEN /\ TAG_LEN + SIGNATURE_LEN <= length tail /\
    length (h0 ++ w ++ tail) = length out /\
    seal_encoded mt s r h rx sk encode (out, g)
    = let '(res, frame) := seal_in_place (length w) mt s r h (drawn_session g) (drawn_salt g)
                             (drawn_secret g) rx sk (h0 ++ w ++ tail) in
      (res, (frame, drawn_rng g)).
Proof.
  intros Henc Hw Hout.
  destruct (encode_behind_header encode w out g Henc Hw Hout) as (h0 & tail & Hh & Ht & Hl & Hrun).
  exists h0, tail. do 3 (split; [done|]).
  unfold seal_encoded. erewrite bind_run by exact Hrun.
  erewrite bind_run by (rewrite on_second_eq, fill_bytes_eq; reflexivity).
  erewrite bind_run by (rewrite on_second_eq, fill_bytes_eq; reflexivity).
  erewrite bind_run by (rewrite on_second_eq, generate_eq; reflexivity).
  rewrite on_output_eq. cbn [fst snd]. unfold drawn_session, drawn_salt, drawn_secret, drawn_rng.
  by destruct (seal_in_place _ _ _ _ _ _ _ _ _ _ _).
Qed.

Lemma seal_encoded_run `{CryptoLaws} mt s r h sk secret encode w out g :
  encodes encode w -> length w <= MAX_PLAINTEXT_LEN -> MAX_FRAME_LEN <= length out ->
  x25519 (drawn_secret g) (x25519_public secret) <> zero32 ->
  exists frame rest,
    seal_encoded mt s r h (x25519_public secret) sk encode (out, g)
    = (Ok (length frame), (frame ++ rest, drawn_rng g)) /\
    sealed_frame mt s r h g (ed25519_public sk) secret w frame.
Proof.
  intros Henc Hw Hout Hz.
  destruct (seal_encoded_drawn mt s r h (x25519_public secret) sk encode w out g Henc Hw Hout)
    as (h0 & tail & Hh0 & Htail & _ & ->).
  destruct (seal_opens w mt s r h (drawn_session g) (drawn_salt g)
    (drawn_secret g) sk secret h0 tail Hh0 Hw Htail Hz)
    as (e & frame & -> & Hlen & Hparse & Hf & Hopen).
  injection Hf as Hmt Hs Hr Hh Hsi _.
  exists frame. eexists. split; [done|]. split; [done|]. by exists e.
Qed.

(** For any peer key the outcome is a frame or [CryptoFailure], and the same
    random values are drawn. *)
Lemma seal_encoded_total `{CryptoLaws} mt s r h rx sk encode w out g :
  encodes encode w -> length w <= MAX_PLAINTEXT_LEN -> MAX_FRAME_LEN <= length out ->
  exists res frame, seal_encoded mt s r h rx sk encode (out, g) = (res, (frame, drawn_rng g)) /\
    if decide (x25519 (drawn_secret g) rx = zero32) then res = Err Error.CryptoFailure
    else res = Ok (HEADER_LEN + length w + (TAG_LEN + SIGNATURE_LEN)).
Proof.
  intros Henc Hw Hout.
  destruct (seal_encoded_drawn mt s r h rx sk encode w out g Henc Hw Hout)
    as (h0 & tail & Hh0 & Htail & _ & ->).
  case_decide as Hz.
  - pose proof (seal_in_place_zero w mt s r h (drawn_session g) (drawn_salt g)
      (drawn_secret g) rx sk h0 tail Hh0 Hw Htail Hz) as Hrun.
    destruct (seal_in_place _ _ _ _ _ _ _ _ _ _ _) as [res frame]. exists res, frame. by split.
  - destruct (seal_in_place_run w mt s r h (drawn_session g) (drawn_salt g)
      (drawn_secret g) rx sk h0 tail Hh0 Hw Htail Hz) as (key & nonce & ct & tag & _ & _ & ->).
    eexists _, _. by split.
Qed.

(** Whatever the peer key, the frame is an envelope for the recipient. *)
Lemma seal_encoded_addressed `{CryptoLaws} mt s r h rx sk encode w out g len frame g' :
  encodes encode w -> length w <= MAX_PLAINTEXT_LEN -> MAX_FRAME_LEN <= length out ->
  seal_encoded mt s r h rx sk encode (out, g) = (Ok len, (frame, g')) ->
  exists e, parse_envelope (take len frame) = Ok e /\
    env_sender e = s /\ env_recipient e = r /\ env_message_type e = mt.
Proof.
  intros Henc Hw Hout.
  destruct (seal_encoded_drawn mt s r h rx sk encode w out g Henc Hw Hout)
    as (h0 & tail & Hh0 & Htail & _ & ->).
  destruct (decide (x25519 (drawn_secret g) rx = zero32)) as [Hz|Hz].
  - pose proof (seal_in_place_zero w mt s r h (drawn_session g) (drawn_salt g)
      (drawn_secret g) rx sk h0 tail Hh0 Hw Htail Hz) as Hrun.
    destruct (seal_in_place _ _ _ _ _ _ _ _ _ _ _) as [res frame']. cbn in Hrun. by subst res.
  - destruct (seal_in_place_run w mt s r h (drawn_session g) (drawn_salt g)
      (drawn_secret g) rx sk h0 tail Hh0 Hw Htail Hz) as (key & nonce & ct & tag & _ & Hct & ->).
    apply aead_encrypt_length in Hct as Hlen.
    set (e := sealed_envelope _ _ _ _ _ _ _ _ _ _). intros [Hl%Ok_inj [<- _]%pair_eq]%pair_eq. exists e. split; [|done].
    assert (length (envelope_wire e) = len) as <- by (unfold e; by rewrite length_sealed, Hlen).
    rewrite take_app_length. apply parse_envelope_iff. split; [|done].
    apply sealed_envelope_wf. lia.
Qed.

(** The buffer keeps its length. *)
Lemma seal_encoded_length `{CryptoLaws} mt s r h sk secret encode w out g res out' g' :
  encodes encode w -> length w <= MAX_PLAINTEXT_LEN -> MAX_FRAME_LEN <= length out ->
  x25519 (drawn_secret g) (x25519_public secret) <> zero32 ->
  seal_encoded mt s r h (x25519_public secret) sk encode (out, g) = (res, (out', g')) ->
  length out' = length out.
Proof.
  intros Henc Hw Hout Hz.
  destruct (seal_encoded_drawn mt s r h (x25519_public secret) sk encode w out g Henc Hw Hout)
    as (h0 & tail & Hh0 & Htail & <- & ->).
  destruct (seal_opens w mt s r h (drawn_session g) (drawn_salt g)
    (drawn_secret g) sk secret h0 tail Hh0 Hw Htail Hz)
    as (e & frame & -> & Hlen & _).
  intros [= _ <- _]. rewrite !length_app, length_drop, Hlen, Hh0. unfold TAG_LEN, SIGNATURE_LEN in *. lia.
Qed.
