(* ===== verification/Replay.v ===== *)
(** Replay protection: the [ReplayProtector] interface of protocol-core, its
    allocation-free implementation in agent-core ([FixedReplayCache]) and the
    ordered-map implementation in ca-core ([ReplayCache]). *)

From S2P Require Export Types.

(** A session of a sender. *)
Abbreviation replay_key := (AgentId * SessionId)%type.

(** ** The interface *)

(** [trait ReplayProtector] (and [ReplayStore] of ca-core). *)
Class ReplayProtector (S : Type) := {
  check_and_mark : AgentId -> SessionId -> N -> M S Error unit;
}.

(** ** ca-core: [ReplayCache] *)

Record ReplayCache := mkReplayCache {
  rc_entries : gmap replay_key N;
  rc_maximum : nat;
  rc_ttl_seconds : N;
}.

Definition ReplayCache_new (maximum : nat) (ttl_seconds : N) : ReplayCache :=
  mkReplayCache ∅ maximum ttl_seconds.

(** [self.entries.retain(|_, expires| *expires > now_seconds)] *)
Definition retain_live (now_seconds : N) (entries : gmap replay_key N) : gmap replay_key N :=
  filter (fun kv => (now_seconds < kv.2)%N) entries.

Definition ReplayCache_check_and_mark (sender : AgentId) (session : SessionId)
    (now_seconds : N) : M ReplayCache Error unit :=
  modify (fun c => mkReplayCache (retain_live now_seconds (rc_entries c)) (rc_maximum c)
                     (rc_ttl_seconds c));;
  entries ← gets rc_entries;
  maximum ← gets rc_maximum;
  ttl_seconds ← gets rc_ttl_seconds;
  if bool_decide (is_Some (entries !! (sender, session))) then fail Error.Replay else
  if maximum <=? size entries then fail Error.Capacity else
  let expires := saturating_add now_seconds ttl_seconds in
  modify (fun c => mkReplayCache (<[(sender, session) := expires]> (rc_entries c))
                     (rc_maximum c) (rc_ttl_seconds c)).

#[export] Instance ReplayCache_protector : ReplayProtector ReplayCache :=
  { check_and_mark := ReplayCache_check_and_mark }.

(** ** agent-core: [FixedReplayCache<N>] *)

Record ReplayEntry := mkReplayEntry {
  re_sender : AgentId;
  re_session : SessionId;
  re_expires_at : N;
}.

(** The entries are the slots of the fixed array; [N] is its length. *)
Record FixedReplayCache := mkFixedReplayCache {
  fr_entries : list (option ReplayEntry);
  fr_ttl_seconds : N;
}.

Definition FixedReplayCache_new (n : nat) (ttl_seconds : N) : FixedReplayCache :=
  mkFixedReplayCache (replicate n None) ttl_seconds.

Definition FixedReplayCache_len (c : FixedReplayCache) : nat :=
  length (filter is_Some (fr_entries c)).

(** The loop that clears the expired slots. *)
Definition expire_slot (now_seconds : N) (slot : option ReplayEntry) : option ReplayEntry :=
  match slot with
  | Some entry => if (re_expires_at entry <=? now_seconds)%N then None else Some entry
  | None => None
  end.

Definition slot_matches (sender : AgentId) (session : SessionId) (slot : option ReplayEntry) : bool :=
  match slot with
  | Some entry => bool_decide (re_sender entry = sender) && bool_decide (re_session entry = session)
  | None => false
  end.

(** [iter_mut().find(|entry| entry.is_none())] *)
Fixpoint find_vacant (slots : list (option ReplayEntry)) : option nat :=
  match slots with
  | [] => None
  | None :: _ => Some 0
  | Some _ :: slots' => S <$> find_vacant slots'
  end.

Definition FixedReplayCache_check_and_mark (sender : AgentId) (session : SessionId)
    (now_seconds : N) : M FixedReplayCache Error unit :=
  modify (fun c => mkFixedReplayCache (expire_slot now_seconds <$> fr_entries c) (fr_ttl_seconds c));;
  entries ← gets fr_entries;
  ttl_seconds ← gets fr_ttl_seconds;
  if existsb (slot_matches sender session) entries then fail Error.Replay else
  vacant ← lift (ok_or (find_vacant entries) Error.Capacity);
  let entry := mkReplayEntry sender session (saturating_add now_seconds ttl_seconds) in
  modify (fun c => mkFixedReplayCache (<[vacant := Some entry]> (fr_entries c)) (fr_ttl_seconds c)).

#[export] Instance FixedReplayCache_protector : ReplayProtector FixedReplayCache :=
  { check_and_mark := FixedReplayCache_check_and_mark }.

(** ** Abstract specification: a bounded map of expiry times *)

Definition spec_check (capacity : nat) (ttl : N) (k : replay_key) (now : N)
    (m : gmap replay_key N) : Res unit * gmap replay_key N :=
  let live := retain_live now m in
  if bool_decide (is_Some (live !! k)) then (Err Error.Replay, live) else
  if capacity <=? size live then (Err Error.Capacity, live) else
  (Ok tt, <[k := saturating_add now ttl]> live).

(** What an implementation promises: it is the abstract map, seen through a view. *)
Class ReplayLaws (S : Type) `{ReplayProtector S} := {
  replay_inv : S -> Prop;
  replay_view : S -> gmap replay_key N;
  replay_capacity : S -> nat;
  replay_ttl : S -> N;
  replay_refines sender session now s r s' :
    replay_inv s -> check_and_mark sender session now s = (r, s') ->
    replay_inv s' /\ replay_capacity s' = replay_capacity s /\ replay_ttl s' = replay_ttl s /\
    spec_check (replay_capacity s) (replay_ttl s) (sender, session) now (replay_view s)
    = (r, replay_view s');
}.

#[export] Program Instance ReplayCache_laws : ReplayLaws ReplayCache := {
  replay_inv _ := True;
  replay_view := rc_entries;
  replay_capacity := rc_maximum;
  replay_ttl := rc_ttl_seconds;
}.
Next Obligation.
  intros sender session now c r s' _ Hrun. cbn in Hrun. unfold ReplayCache_check_and_mark in Hrun.
  autorewrite with rust in Hrun. cbn [rc_entries rc_maximum rc_ttl_seconds] in Hrun.
  unfold spec_check. case_bool_decide; [by injection Hrun as <- <-|].
  destruct (_ <=? _); by injection Hrun as <- <-.
Qed.

(** *** The fixed array as a map *)

Definition entry_binding (e : ReplayEntry) : replay_key * N :=
  ((re_sender e, re_session e), re_expires_at e).

(** The bindings of the occupied slots. *)
Definition slot_bindings (slots : list (option ReplayEntry)) : list (replay_key * N) :=
  entry_binding <$> omap id slots.

Lemma slot_bindings_cons slot slots :
  slot_bindings (slot :: slots)
  = (match slot with Some e => [entry_binding e] | None => [] end) ++ slot_bindings slots.
Proof. by destruct slot. Qed.

Lemma bindings_expire now slots :
  slot_bindings (expire_slot now <$> slots)
  = filter (fun kv => (now < kv.2)%N) (slot_bindings slots).
Proof.
  induction slots as [|[e|] slots IH]; [done| |exact IH].
  cbn [fmap list_fmap]. rewrite !slot_bindings_cons, IH. cbn [expire_slot app].
  rewrite filter_cons. cbn [entry_binding snd].
  destruct (N.leb_spec (re_expires_at e) now).
  - by rewrite decide_False by lia.
  - by rewrite decide_True by lia.
Qed.

Lemma bindings_matches sender session slots :
  existsb (slot_matches sender session) slots = true <->
  (sender, session) ∈ (slot_bindings slots).*1.
Proof.
  induction slots as [|[e|] slots IH]; cbn [existsb slot_matches orb].
  - split; [done|]. by intros ?%not_elem_of_nil.
  - rewrite slot_bindings_cons. cbn [app fmap list_fmap entry_binding fst].
    rewrite orb_true_iff, andb_true_iff, !bool_decide_eq_true, IH, elem_of_cons.
    split; [intros [[<- <-]|?]; auto|intros [[= <- <-]|?]; auto].
  - exact IH.
Qed.

Lemma length_bindings_le slots : length (slot_bindings slots) <= length slots.
Proof.
  induction slots as [|[e|] slots IH]; rewrite ?slot_bindings_cons; cbn [app length]; lia || done.
Qed.

Lemma find_vacant_insert slots e :
  match find_vacant slots with
  | Some i => slot_bindings (<[i := Some e]> slots) ≡ₚ entry_binding e :: slot_bindings slots /\
              length (slot_bindings slots) < length slots
  | None => length (slot_bindings slots) = length slots
  end.
Proof.
  induction slots as [|[e'|] slots IH]; cbn [find_vacant].
  - done.
  - destruct (find_vacant slots) as [i|]; cbn [fmap option_fmap option_map].
    + destruct IH as [IH Hlt]. cbn [insert list_insert].
      rewrite !slot_bindings_cons. cbn [app length]. rewrite IH. split; [by constructor|lia].
    + rewrite slot_bindings_cons. cbn [app length]. by rewrite IH.
  - cbn [insert list_insert]. rewrite !slot_bindings_cons. cbn [app length].
    split; [done|].
    pose proof (length_bindings_le slots). lia.
Qed.

Lemma list_to_map_filter (f : replay_key * N -> Prop) `{!forall kv, Decision (f kv)} l :
  NoDup l.*1 -> list_to_map (M:=gmap replay_key N) (filter f l) = filter f (list_to_map l).
Proof.
  induction l as [|[k e] l IH]; [done|]. intros [Hk Hnd]%NoDup_cons.
  cbn [list_to_map foldr]. rewrite filter_cons.
  apply (not_elem_of_list_to_map_1 (M:=gmap replay_key)) in Hk.
  case_decide as Hf; cbn [list_to_map foldr fst snd].
  - rewrite map_filter_insert_True by done. f_equal. by apply IH.
  - rewrite map_filter_insert_False by done. rewrite delete_id by done. by apply IH.
Qed.

Lemma NoDup_filter_keys (f : replay_key * N -> Prop) `{!forall kv, Decision (f kv)} l :
  NoDup l.*1 -> NoDup (filter f l).*1.
Proof. intros Hnd. eapply sublist_NoDup; [exact Hnd|]. by apply fmap_sublist, sublist_filter. Qed.

Definition fixed_view (c : FixedReplayCache) : gmap replay_key N :=
  list_to_map (slot_bindings (fr_entries c)).
Definition fixed_inv (c : FixedReplayCache) : Prop := NoDup (slot_bindings (fr_entries c)).*1.

Lemma size_list_to_map_keys (l : list (replay_key * N)) :
  NoDup l.*1 -> size (list_to_map (M:=gmap replay_key N) l) = length l.
Proof.
  intros Hnd. rewrite <-length_map_to_list. apply Permutation_length.
  by apply map_to_list_to_map.
Qed.

Lemma fixed_refines sender session now c r c' :
  fixed_inv c -> FixedReplayCache_check_and_mark sender session now c = (r, c') ->
  fixed_inv c' /\ length (fr_entries c') = length (fr_entries c) /\
  fr_ttl_seconds c' = fr_ttl_seconds c /\
  spec_check (length (fr_entries c)) (fr_ttl_seconds c) (sender, session) now (fixed_view c)
  = (r, fixed_view c').
Proof.
  intros Hinv Hrun. unfold FixedReplayCache_check_and_mark in Hrun.
  autorewrite with rust in Hrun. cbn [fr_entries fr_ttl_seconds] in Hrun.
  set (slots := expire_slot now <$> fr_entries c) in *.
  assert (Hlen : length slots = length (fr_entries c)) by apply length_fmap.
  assert (Hb : slot_bindings slots = filter (fun kv => (now < kv.2)%N) (slot_bindings (fr_entries c)))
    by apply bindings_expire.
  assert (Hnd : NoDup (slot_bindings slots).*1) by (rewrite Hb; by apply NoDup_filter_keys).
  assert (Hlive : retain_live now (fixed_view c) = list_to_map (slot_bindings slots))
    by (unfold retain_live, fixed_view; by rewrite Hb, list_to_map_filter).
  unfold spec_check. rewrite Hlive, size_list_to_map_keys by done.
  destruct (existsb _ slots) eqn:Hex.
  - apply bindings_matches in Hex. injection Hrun as <- <-.
    rewrite bool_decide_eq_true_2; [done|].
    destruct (list_to_map _ !! _) eqn:Hlk; [done|].
    by apply not_elem_of_list_to_map_2 in Hlk.
  - assert (Hno : (sender, session) ∉ (slot_bindings slots).*1)
      by (rewrite <-bindings_matches; by rewrite Hex).
    rewrite bool_decide_eq_false_2; cycle 1.
    { rewrite <-eq_None_not_Some. by apply not_elem_of_list_to_map_1. }
    pose proof (find_vacant_insert slots
      (mkReplayEntry sender session (saturating_add now (fr_ttl_seconds c)))) as Hv.
    destruct (find_vacant slots) as [i|]; cbn [ok_or] in Hrun; autorewrite with rust in Hrun;
      injection Hrun as <- <-; cbn [fr_entries fr_ttl_seconds] in *.
    + destruct Hv as [Hperm Hlt]. rewrite (proj2 (Nat.leb_gt _ _)) by lia.
      assert (Hnd' : NoDup (slot_bindings (<[i:=Some (mkReplayEntry sender session
        (saturating_add now (fr_ttl_seconds c)))]> slots)).*1).
      { rewrite Hperm. by constructor. }
      split_and!; [exact Hnd'|by rewrite length_insert|done|].
      f_equal. unfold fixed_view. cbn [fr_entries].
      by rewrite (list_to_map_proper _ _ Hnd' Hperm).
    + rewrite (proj2 (Nat.leb_le _ _)) by lia. done.
Qed.

#[export] Instance FixedReplayCache_laws : ReplayLaws FixedReplayCache := {
  replay_inv := fixed_inv;
  replay_view := fixed_view;
  replay_capacity c := length (fr_entries c);
  replay_ttl := fr_ttl_seconds;
  replay_refines := fixed_refines;
}.

(** ** Sequences of calls *)

(** A call: sender, session and the clock at the call. *)
Definition replay_call : Type := replay_key * N.

Fixpoint run_checks {S} `{ReplayProtector S} (calls : list replay_call) (s : S) :
    list (Res unit) * S :=
  match calls with
  | [] => ([], s)
  | (k, now) :: calls' =>
      let '(r, s') := check_and_mark k.1 k.2 now s in
      let '(rs, s'') := run_checks calls' s' in (r :: rs, s'')
  end.

Fixpoint spec_run (capacity : nat) (ttl : N) (calls : list replay_call) (m : gmap replay_key N) :
    list (Res unit) * gmap replay_key N :=
  match calls with
  | [] => ([], m)
  | (k, now) :: calls' =>
      let '(r, m') := spec_check capacity ttl k now m in
      let '(rs, m'') := spec_run capacity ttl calls' m' in (r :: rs, m'')
  end.

Section runs.
Context `{HL : ReplayLaws T}.
Implicit Types s : T.

Lemma run_checks_refines calls s rs s' :
  replay_inv s -> run_checks calls s = (rs, s') ->
  replay_inv s' /\ replay_capacity s' = replay_capacity s /\ replay_ttl s' = replay_ttl s /\
  spec_run (replay_capacity s) (replay_ttl s) calls (replay_view s) = (rs, replay_view s').
Proof.
  revert s rs. induction calls as [|[[sender session] now] calls IH]; intros s rs Hinv Hrun;
    cbn [run_checks spec_run] in *.
  - by injection Hrun as <- <-.
  - cbn [fst snd] in Hrun.
    destruct (check_and_mark sender session now s) as [r s1] eqn:Hc.
    destruct (run_checks calls s1) as [rs' s2] eqn:Hr. injection Hrun as <- <-.
    apply replay_refines in Hc as (Hinv1 & Hcap & Httl & ->); [|done].
    apply IH in Hr as (Hinv2 & Hcap2 & Httl2 & Hs); [|done].
    rewrite Hcap, Httl in *. by rewrite Hs.
Qed.
End runs.

Lemma spec_check_live capacity ttl k now m k' e :
  m !! k' = Some e -> (now < e)%N ->
  let '(r, m') := spec_check capacity ttl k now m in
  m' !! k' = Some e /\ (k = k' -> r = Err Error.Replay).
Proof.
  intros Hm Hlt. unfold spec_check.
  assert (Hlive : retain_live now m !! k' = Some e) by (by apply map_lookup_filter_Some).
  destruct (bool_decide _) eqn:Hk; [done|].
  apply bool_decide_eq_false in Hk.
  assert (k <> k') as Hne by (intros ->; by rewrite Hlive in Hk; destruct Hk).
  destruct (_ <=? _); [done|]. split; [|done]. by rewrite lookup_insert_ne.
Qed.

Lemma spec_run_live capacity ttl calls m k e :
  m !! k = Some e -> Forall (fun c => c.2 < e)%N calls ->
  Forall2 (fun c r => c.1 = k -> r = Err Error.Replay) calls (spec_run capacity ttl calls m).1.
Proof.
  intros Hm Hcalls. revert m Hm. induction Hcalls as [|[k' now] calls Hlt Hcalls IH];
    intros m Hm; cbn [spec_run]; [constructor|].
  pose proof (spec_check_live capacity ttl k' now m k e Hm Hlt) as Hc.
  destruct (spec_check capacity ttl k' now m) as [r m']. destruct Hc as [Hm' Hr].
  specialize (IH m' Hm'). destruct (spec_run _ _ calls m'). by constructor.
Qed.

Lemma accepted_live `{HL : ReplayLaws T} (s : T) sender session t s1 :
  replay_inv s -> check_and_mark sender session t s = (Ok tt, s1) ->
  replay_inv s1 /\ replay_view s1 !! (sender, session) = Some (saturating_add t (replay_ttl s)).
Proof.
  intros Hinv (Hinv1 & _ & _ & Hspec)%replay_refines; [|done]. split; [done|].
  unfold spec_check in Hspec. destruct (bool_decide _); [done|]. destruct (_ <=? _); [done|].
  injection Hspec as <-. by rewrite lookup_insert_eq.
Qed.

Lemma run_checks_app `{ReplayProtector T} (s : T) calls k now :
  (run_checks (calls ++ [(k, now)]) s).1
  = (run_checks calls s).1 ++ [(check_and_mark k.1 k.2 now (run_checks calls s).2).1].
Proof.
  revert s. induction calls as [|[k' n'] calls IH]; intros s; cbn [run_checks app].
  - by destruct (check_and_mark _ _ _ _).
  - destruct (check_and_mark _ _ _ _) as [r s1]. specialize (IH s1).
    destruct (run_checks (calls ++ _) s1), (run_checks calls s1). cbn [fst snd app] in *.
    by rewrite IH.
Qed.

Lemma run_checks_length `{ReplayProtector T} (s : T) calls :
  length (run_checks calls s).1 = length calls.
Proof.
  revert s. induction calls as [|[k n] calls IH]; intros s; cbn [run_checks]; [done|].
  destruct (check_and_mark _ _ _ _) as [r s1]. specialize (IH s1).
  destruct (run_checks calls s1). cbn in *. by rewrite IH.
Qed.

(** A session that was accepted is refused until its expiry. *)
Lemma accepted_then_replayed `{HL : ReplayLaws T} (s : T) sender session t s1 calls now :
  replay_inv s -> check_and_mark sender session t s = (Ok tt, s1) ->
  Forall (fun c => c.2 < saturating_add t (replay_ttl s))%N calls ->
  (now < saturating_add t (replay_ttl s))%N ->
  (check_and_mark sender session now (run_checks calls s1).2).1 = Err Error.Replay.
Proof.
  intros Hinv (Hinv1 & Hlive)%accepted_live Hcalls Hnow; [|done].
  pose proof (run_checks_app s1 calls (sender, session) now) as Happ. cbn [fst snd] in Happ.
  destruct (run_checks (calls ++ _) s1) as [rs s2] eqn:Hrun.
  apply run_checks_refines in Hrun as (_ & _ & _ & Hrun); [|done].
  pose proof (spec_run_live (replay_capacity s1) (replay_ttl s1)
    (calls ++ [((sender, session), now)]) (replay_view s1) (sender, session)
    (saturating_add t (replay_ttl s)) Hlive) as Hf.
  rewrite Hrun in Hf. cbn [fst] in *.
  rewrite Happ in Hf. apply Forall2_app_inv in Hf as [_ Hf].
  - apply Forall2_cons in Hf as [Hf _]. by apply Hf.
  - by rewrite run_checks_length.
  - apply Forall_app. by repeat constructor.
Qed.

(** ** Properties *)

(** No implementation of the replay interface accepts a session twice within
    its time-to-live: after a call that accepted a (sender, session) pair, every
    later call with that pair is refused with [Replay] as long as no clock value
    seen in between reaches the expiry, whatever other calls are interleaved and
    however full the cache is. *)
Theorem replay_rejected `{HL : ReplayLaws T} (s : T) sender session t s1 calls :
  replay_inv s -> check_and_mark sender session t s = (Ok tt, s1) ->
  Forall (fun c => c.2 < saturating_add t (replay_ttl s))%N calls ->
  Forall2 (fun c r => c.1 = (sender, session) -> r = Err Error.Replay)
    calls (run_checks calls s1).1.
Proof.
  intros Hinv (Hinv1 & Hcap & Httl & Hspec)%replay_refines Hcalls; [|done].
  destruct (run_checks calls s1) as [rs s2] eqn:Hrun.
  apply run_checks_refines in Hrun as (_ & _ & _ & Hrun); [|done].
  pose proof (spec_run_live (replay_capacity s1) (replay_ttl s1) calls (replay_view s1)
    (sender, session) (saturating_add t (replay_ttl s))) as Hlive.
  rewrite Hrun in Hlive. apply Hlive; [|done]. unfold spec_check in Hspec.
  destruct (bool_decide _); [done|]. destruct (_ <=? _); [done|].
  injection Hspec as <-. by rewrite lookup_insert_eq.
Qed.

Lemma replay_rejected_witness :
  let a := mkAgentId (vreplicate 16 x01) in
  let s k := mkSessionId (vreplicate 16 k) in
  let calls := [((a, s x03), 12%N); ((a, s x02), 14%N)] in
  let results := (run_checks calls (check_and_mark a (s x02) 5 (FixedReplayCache_new 2 10)).2).1 in
  results = [Ok tt; Err Error.Replay] /\
  Forall2 (fun c r => c.1 = (a, s x02) -> r = Err Error.Replay) calls results.
Proof.
  cbn zeta beta. split; [vm_compute; reflexivity|].
  apply (replay_rejected (FixedReplayCache_new 2 10) (mkAgentId (vreplicate 16 x01))
    (mkSessionId (vreplicate 16 x02)) 5).
  - cbn. constructor.
  - reflexivity.
  - repeat constructor.
Defined.

(** The allocation-free cache of the agents and the ordered-map cache of the
    CA are the same replay protector: created with the same capacity and
    time-to-live they answer every sequence of calls, at any clock values, with
    the same results. *)
Theorem replay_implementations_agree n ttl calls :
  (run_checks calls (FixedReplayCache_new n ttl)).1 = (run_checks calls (ReplayCache_new n ttl)).1.
Proof.
  destruct (run_checks calls (FixedReplayCache_new n ttl)) as [rs1 s1] eqn:H1.
  destruct (run_checks calls (ReplayCache_new n ttl)) as [rs2 s2] eqn:H2.
  assert (Hnil : slot_bindings (replicate n None) = []) by (clear; induction n as [|n IH]; [done|exact IH]).
  apply run_checks_refines in H1 as (_ & _ & _ & H1);
    [|change (NoDup (slot_bindings (replicate n None)).*1); rewrite Hnil; constructor].
  apply run_checks_refines in H2 as (_ & _ & _ & H2); [|done].
  assert (Hv : fixed_view (FixedReplayCache_new n ttl) = ∅)
    by (unfold fixed_view, FixedReplayCache_new; cbn [fr_entries]; by rewrite Hnil).
  change (spec_run (length (replicate n (@None ReplayEntry))) ttl calls
    (fixed_view (FixedReplayCache_new n ttl)) = (rs1, fixed_view s1)) in H1.
  change (spec_run n ttl calls ∅ = (rs2, rc_entries s2)) in H2.
  rewrite Hv, length_replicate, H2 in H1. by injection H1 as -> _.
Qed.

(** Replay caches fail closed: on every call the outcome is decided by the
    entries that are still live at the call's clock.  A live pair is refused with
    [Replay], a full cache refuses every other pair with [Capacity] and drops
    nothing, and otherwise the call succeeds and records exactly that pair with
    its saturating expiry; the number of entries never exceeds the capacity. *)
Theorem replay_fail_closed `{HL : ReplayLaws T} (s : T) sender session now :
  replay_inv s -> size (replay_view s) <= replay_capacity s ->
  let '(r, s') := check_and_mark sender session now s in
  let live := retain_live now (replay_view s) in
  replay_inv s' /\ size (replay_view s') <= replay_capacity s' /\
  (r = Err Error.Replay <-> is_Some (live !! (sender, session))) /\
  (r = Err Error.Capacity <->
    live !! (sender, session) = None /\ replay_capacity s <= size live) /\
  replay_view s' =
    match r with
    | Ok _ => <[(sender, session) := saturating_add now (replay_ttl s)]> live
    | _ => live
    end /\
  (r = Ok tt \/ r = Err Error.Replay \/ r = Err Error.Capacity).
Proof.
  intros Hinv Hsize. destruct (check_and_mark sender session now s) as [r s'] eqn:Hrun.
  apply replay_refines in Hrun as (Hinv' & Hcap & Httl & Hspec); [|done]. cbn zeta.
  assert (Hlive : size (retain_live now (replay_view s)) <= size (replay_view s))
    by apply map_size_filter.
  unfold spec_check in Hspec. rewrite Hcap.
  case_bool_decide as Hin; [|destruct (Nat.leb_spec (replay_capacity s)
    (size (retain_live now (replay_view s)))) as [Hfull|Hroom]];
    injection Hspec as <- <-.
  - split; [done|]. split; [lia|]. split; [done|]. split; [|auto].
    split; [done|]. intros [Hn _]. rewrite Hn in Hin. by destruct Hin.
  - rewrite <-eq_None_not_Some in Hin. split; [done|]. split; [lia|].
    split; [|split; [split; [by split|done]|split; [done|auto]]].
    split; [done|]. rewrite Hin. by intros [].
  - rewrite <-eq_None_not_Some in Hin. split; [done|].
    split; [rewrite map_size_insert_None by done; lia|]. split; [|split; [|auto]].
    + split; [done|]. rewrite Hin. by intros [].
    + split; [done|]. lia.
Qed.

Lemma replay_fail_closed_witness :
  let a := mkAgentId (vreplicate 16 x01) in
  let s k := mkSessionId (vreplicate 16 k) in
  let full := (check_and_mark a (s x02) 5 (FixedReplayCache_new 1 10)).2 in
  size (replay_view full) <= 1 /\
  (check_and_mark a (s x03) 6 full).1 = Err Error.Capacity /\
  (check_and_mark a (s x03) 15 full).1 = Ok tt.
Proof.
  cbn zeta beta. split; [|split; vm_compute; reflexivity].
  pose proof (replay_fail_closed (FixedReplayCache_new 1 10) (mkAgentId (vreplicate 16 x01))
    (mkSessionId (vreplicate 16 x02)) 5) as H.
  destruct (check_and_mark _ _ _ _) as [r s'] eqn:Hrun.
  destruct H as (_ & Hsize & _); [cbn; constructor|vm_compute; lia|].
  etrans; [exact Hsize|]. injection Hrun as _ <-. vm_compute. lia.
Defined.
