(* ===== verification/Agent.v ===== *)
(** agent-core/src/lib.rs: the stateful Agent facade: requests sealed for the
    CA, reception of deliveries, the two subscription flows and the copy of a
    validated environment. *)

From S2P Require Export Frames Replay.

(** ** Data *)

Record AgentKeys := mkAgentKeys { keys_signing : array 32; keys_x25519 : array 32 }.

(** [AgentKeys::from_seeds]: both secrets are kept as they are. *)
Definition AgentKeys_from_seeds (ed25519_seed x25519_secret : array 32) : AgentKeys :=
  mkAgentKeys ed25519_seed x25519_secret.

Record CaPublicKeys := mkCaPublicKeys { ca_ed25519 : array 32; ca_x25519 : array 32 }.

Record Agent := mkAgent { agent_id : AgentId; agent_keys : AgentKeys; agent_ca : CaPublicKeys }.

Record Delivery := mkDelivery {
  delivery_type_id : TypeId;
  delivery_publisher : AgentId;
  delivery_handler : HandlerId;
  delivery_value : list byte;
}.

Module SubscriptionError.
Inductive t (E : Type) :=
| Protocol (e : Error)
| Transport (e : E).
Arguments Protocol {E} e.
Arguments Transport {E} e.
End SubscriptionError.
Abbreviation SubscriptionError := SubscriptionError.t.

(** The platform adapters: [trait AsyncTransport] (awaiting a future is running
    it), [trait Clock] and [trait SubscriptionHandler]. *)
Class AsyncTransport (T E : Type) := {
  transport_send : list byte -> M T E unit;
  (** Receives into the caller's buffer and returns the length. *)
  transport_receive : M (list byte * T) E nat;
}.

Class Clock (C : Type) := { now_seconds : C -> N * C }.

Class SubscriptionHandler (H : Type) := { on_publication : Delivery -> H -> H }.

Section agent.
Context `{Crypto}.

Definition AgentKeys_verifying_key (k : AgentKeys) : array 32 := ed25519_public (keys_signing k).
Definition AgentKeys_x25519_public (k : AgentKeys) : array 32 := x25519_public (keys_x25519 k).

(** ** Requests *)

Definition request_into (a : Agent) (message_type : MessageType) (handler : HandlerId)
    (encode : M (list byte) Error nat) : M (list byte * Rng) Error nat :=
  output ← gets fst;
  if length output <? MAX_FRAME_LEN then fail Error.Oversized else
  plaintext_len ← on_output (on_range HEADER_LEN MAX_FRAME_LEN encode);
  session ← on_second (fill_bytes 16);
  salt ← on_second (fill_bytes 32);
  secret ← on_second generate;
  on_output (seal_in_place plaintext_len message_type (agent_id a) AgentId_CA handler
    (mkSessionId session) salt secret (ca_x25519 (agent_ca a)) (keys_signing (agent_keys a))).

Definition set_environment_into (a : Agent) (attributes : list AttributeRef) :
    M (list byte * Rng) Error nat :=
  request_into a MessageType.SetEnvironment HandlerId_NONE (encode_environment attributes).

Definition subscribe_into (a : Agent) (type_id : TypeId) (handler : HandlerId)
    (predicate : list ClauseRef) : M (list byte * Rng) Error nat :=
  if bool_decide (handler = HandlerId_NONE) then fail Error.WrongHandler else
  request_into a MessageType.Subscribe handler (encode_subscribe type_id predicate).

Definition subscribe_permanent_into (a : Agent) (type_id : TypeId) (handler : HandlerId)
    (predicate : list ClauseRef) : M (list byte * Rng) Error nat :=
  if bool_decide (handler = HandlerId_NONE) then fail Error.WrongHandler else
  request_into a MessageType.SubscribePermanent handler
    (encode_subscribe_permanent type_id predicate).

Definition publish_into (a : Agent) (type_id : TypeId) (predicate : list ClauseRef)
    (value : list byte) : M (list byte * Rng) Error nat :=
  request_into a MessageType.Publish HandlerId_NONE (encode_publish type_id predicate value).

(** [request_owned] and the heap variants built on it: a zeroed buffer of
    [MAX_FRAME_LEN], truncated to the length written. *)
Definition request_owned (m : M (list byte * Rng) Error nat) : M Rng Error (list byte) := fun g =>
  match m (replicate MAX_FRAME_LEN x00, g) with
  | (Ok len, (frame, g')) => (Ok (take len frame), g')
  | (Err e, (_, g')) => (Err e, g')
  | (Panic, (_, g')) => (Panic, g')
  end.

Definition set_environment a attributes := request_owned (set_environment_into a attributes).
Definition subscribe a type_id handler predicate :=
  request_owned (subscribe_into a type_id handler predicate).
Definition subscribe_permanent_request a type_id handler predicate :=
  request_owned (subscribe_permanent_into a type_id handler predicate).
Definition publish a type_id predicate value :=
  request_owned (publish_into a type_id predicate value).

(** ** Reception *)

Definition receive {R} `{ReplayProtector R} (a : Agent) (expected_handler : HandlerId)
    (now : N) : M (list byte * R) Error Delivery :=
  let ca_key := ca_ed25519 (agent_ca a) in
  if negb (ed25519_valid_key ca_key) then fail Error.BadSignature else
  frame ← gets fst;
  envelope ← lift (parse_envelope frame);
  if negb (bool_decide (env_recipient envelope = agent_id a)) then fail Error.WrongRecipient else
  if negb (bool_decide (env_message_type envelope = MessageType.PublicationResponse))
  then fail Error.WrongMessageType else
  if negb (bool_decide (env_handler envelope = expected_handler))
     || bool_decide (expected_handler = HandlerId_NONE)
  then fail Error.WrongHandler else
  lift (verify_envelope_signature envelope ca_key);;
  on_second (check_and_mark (env_sender envelope) (env_session_id envelope) now);;
  plaintext ← on_output (open_in_place (agent_id a) MessageType.PublicationResponse ca_key
                           (keys_x25519 (agent_keys a)));
  operation ← lift (parse_operation plaintext);
  match operation with
  | OperationRef.PublicationResponse type_id publisher value =>
      mret (mkDelivery type_id publisher expected_handler value)
  | _ => fail Error.WrongMessageType
  end.

(** ** Subscription flows *)

Section flows.
Context {T E C R Hd : Type} `{AsyncTransport T E, Clock C, ReplayProtector R,
  SubscriptionHandler Hd}.

(** What a flow is given mutable references to. *)
Record FlowState := mkFlow {
  flow_frame : list byte;
  flow_rng : Rng;
  flow_transport : T;
  flow_replay : R;
  flow_clock : C;
}.

Definition flow_request (m : M (list byte * Rng) Error nat) :
    M FlowState (SubscriptionError E) nat := fun s =>
  let '(r, (f, g)) := m (flow_frame s, flow_rng s) in
  (map_err SubscriptionError.Protocol r,
   mkFlow f g (flow_transport s) (flow_replay s) (flow_clock s)).

(** [transport.send(&frame[..request_len]).await] *)
Definition flow_send (request_len : nat) : M FlowState (SubscriptionError E) unit := fun s =>
  match slice (E:=E) (flow_frame s) 0 request_len with
  | Ok bytes =>
      let '(r, t) := transport_send bytes (flow_transport s) in
      (map_err SubscriptionError.Transport r,
       mkFlow (flow_frame s) (flow_rng s) t (flow_replay s) (flow_clock s))
  | _ => (Panic, s)
  end.

(** [transport.receive(frame).await], [frame.get_mut(..frame_len)],
    [self.receive(received, handler, replay, clock.now_seconds())] and the test
    on the type. *)
Definition flow_receive (a : Agent) (type_id : TypeId) (handler : HandlerId) :
    M FlowState (SubscriptionError E) Delivery := fun s =>
  match transport_receive (flow_frame s, flow_transport s) with
  | (Ok frame_len, (f, t)) =>
      match get_range f 0 frame_len with
      | None => (Err (SubscriptionError.Protocol Error.Oversized),
                 mkFlow f (flow_rng s) t (flow_replay s) (flow_clock s))
      | Some received =>
          let '(now, c) := now_seconds (flow_clock s) in
          let '(r, (received', replay)) :=
            receive a handler now (received, flow_replay s) in
          let s' := mkFlow (received' ++ drop frame_len f) (flow_rng s) t replay c in
          match r with
          | Ok delivery =>
              if negb (bool_decide (delivery_type_id delivery = type_id))
              then (Err (SubscriptionError.Protocol Error.WrongMessageType), s')
              else (Ok delivery, s')
          | Err e => (Err (SubscriptionError.Protocol e), s')
          | Panic => (Panic, s')
          end
      end
  | (Err e, (f, t)) => (Err (SubscriptionError.Transport e),
                        mkFlow f (flow_rng s) t (flow_replay s) (flow_clock s))
  | (Panic, (f, t)) => (Panic, mkFlow f (flow_rng s) t (flow_replay s) (flow_clock s))
  end.

Definition subscribe_once (a : Agent) (type_id : TypeId) (handler : HandlerId)
    (predicate : list ClauseRef) : M FlowState (SubscriptionError E) Delivery :=
  request_len ← flow_request (subscribe_into a type_id handler predicate);
  flow_send request_len;;
  flow_receive a type_id handler.

(** The receive loop, for at most [fuel] deliveries; [Ok tt] is the loop still
    running.  The application's handler is part of the state. *)
Fixpoint permanent_loop (fuel : nat) (a : Agent) (type_id : TypeId) (handler : HandlerId) :
    M (FlowState * Hd) (SubscriptionError E) unit :=
  match fuel with
  | O => mret tt
  | S fuel' =>
      delivery ← zoom fst (fun f s => (f, s.2)) (flow_receive a type_id handler);
      modify (fun s => (s.1, on_publication delivery s.2));;
      permanent_loop fuel' a type_id handler
  end.

Definition subscribe_permanent (fuel : nat) (a : Agent) (type_id : TypeId)
    (handler : HandlerId) (predicate : list ClauseRef) :
    M (FlowState * Hd) (SubscriptionError E) unit :=
  request_len ← zoom fst (fun f s => (f, s.2))
                  (flow_request (subscribe_permanent_into a type_id handler predicate));
  zoom fst (fun f s => (f, s.2)) (flow_send request_len);;
  permanent_loop fuel a type_id handler.
End flows.
End agent.

(** ** [copy_environment] *)

(** [OwnedValue] has the constructors of [ValueRef], with the bytes copied. *)
Record OwnedAttribute := mkOwned { owned_id : AttributeId; owned_value : ValueRef }.

(** The loop over [id..=u16::MAX] with [n] identifiers left; [Some] is the early
    return. *)
Fixpoint copy_loop (n : nat) (id : N) (environment : EnvironmentRef)
    (acc : list OwnedAttribute) : list OwnedAttribute * bool :=
  match n with
  | O => (acc, false)
  | S n' =>
      match environment_get environment (mkAttributeId id) with
      | Some value =>
          let acc' := acc ++ [mkOwned (mkAttributeId id) value] in
          if length acc' =? byte_nat (environment_count environment) then (acc', true)
          else copy_loop n' (N.succ id) environment acc'
      | None => copy_loop n' (N.succ id) environment acc
      end
  end.

Definition copy_environment (environment : EnvironmentRef) : Res (list OwnedAttribute) :=
  let '(acc, returned) := copy_loop (N.to_nat (u16_max + 1)) 0 environment [] in
  if returned then Ok acc
  else if length acc =? byte_nat (environment_count environment) then Ok acc
  else Err Error.Malformed.

(** ** Requests *)

Section requests.
Context `{CryptoLaws}.

(** The frame [frame] is, for the holder of [secret], a request of [a]. *)
Definition request_frame (a : Agent) (mt : MessageType) (h : HandlerId) (g : Rng)
    (secret : array 32) (w frame : list byte) : Prop :=
  length frame = HEADER_LEN + length w + (TAG_LEN + SIGNATURE_LEN) /\
  exists e, parse_envelope frame = Ok e /\
    env_message_type e = mt /\ env_sender e = agent_id a /\ env_recipient e = AgentId_CA /\
    env_handler e = h /\ env_session_id e = drawn_session g /\
    (open_in_place AgentId_CA mt (AgentKeys_verifying_key (agent_keys a)) secret frame).1 = Ok w.

Lemma request_into_run a mt h encode w out g secret :
  encodes encode w -> length w <= MAX_PLAINTEXT_LEN -> MAX_FRAME_LEN <= length out ->
  ca_x25519 (agent_ca a) = x25519_public secret ->
  x25519 (drawn_secret g) (x25519_public secret) <> zero32 ->
  exists frame rest,
    request_into a mt h encode (out, g) = (Ok (length frame), (frame ++ rest, drawn_rng g)) /\
    request_frame a mt h g secret w frame.
Proof.
  intros Henc Hw Hout Hca Hz. unfold request_into. autorewrite with rust. cbn [fst].
  rewrite (proj2 (Nat.ltb_ge _ _)) by done. rewrite Hca.
  destruct (seal_encoded_run mt (agent_id a) AgentId_CA h (keys_signing (agent_keys a)) secret
    encode w out g) as (frame & rest & Hrun & Hlen & e & Hparse & ? & ? & ? & ? & ? & Hopen);
    [done..|].
  exists frame, rest. split; [exact Hrun|]. split; [done|]. by exists e.
Qed.

(** The request of each kind of operation, its type and its handler. *)
Definition request (a : Agent) (h : HandlerId) (op : Operation) :
    M (list byte * Rng) Error nat :=
  match op with
  | Operation.SetEnvironment l => set_environment_into a l
  | Operation.Subscribe ty l => subscribe_into a ty h l
  | Operation.SubscribePermanent ty l => subscribe_permanent_into a ty h l
  | Operation.Publish ty l v => publish_into a ty l v
  | Operation.PublicationResponse _ _ _ => fail Error.WrongMessageType
  end.

Definition request_type (op : Operation) : MessageType :=
  match op with
  | Operation.SetEnvironment _ => MessageType.SetEnvironment
  | Operation.Subscribe _ _ => MessageType.Subscribe
  | Operation.SubscribePermanent _ _ => MessageType.SubscribePermanent
  | Operation.Publish _ _ _ => MessageType.Publish
  | Operation.PublicationResponse _ _ _ => MessageType.PublicationResponse
  end.

Definition request_handler (h : HandlerId) (op : Operation) : HandlerId :=
  match op with
  | Operation.Subscribe _ _ | Operation.SubscribePermanent _ _ => h
  | _ => HandlerId_NONE
  end.

Definition is_request (op : Operation) : bool :=
  match op with Operation.PublicationResponse _ _ _ => false | _ => true end.

Definition is_subscription (op : Operation) : bool :=
  match op with
  | Operation.Subscribe _ _ | Operation.SubscribePermanent _ _ => true
  | _ => false
  end.

Lemma request_eq a h op s :
  is_request op = true ->
  request a h op s =
  (if is_subscription op && bool_decide (h = HandlerId_NONE) then (Err Error.WrongHandler, s)
   else request_into a (request_type op) (request_handler h op) (Operation.encode op) s).
Proof.
  destruct op; cbn [is_request is_subscription request andb]; try done; intros _;
    unfold subscribe_into, subscribe_permanent_into; by destruct (bool_decide _).
Qed.

Lemma request_run a h op out g secret :
  Operation.wf op -> is_request op = true ->
  is_subscription op = false \/ h <> HandlerId_NONE ->
  MAX_FRAME_LEN <= length out -> ca_x25519 (agent_ca a) = x25519_public secret ->
  x25519 (drawn_secret g) (x25519_public secret) <> zero32 ->
  exists frame rest,
    request a h op (out, g) = (Ok (length frame), (frame ++ rest, drawn_rng g)) /\
    request_frame a (request_type op) (request_handler h op) g secret (Operation.wire op) frame.
Proof.
  intros Hop Hreq Hh Hout Hca Hz. pose proof (length_wire op Hop) as Hlen.
  destruct (request_into_run a (request_type op) (request_handler h op) (Operation.encode op)
    (Operation.wire op) out g secret) as (frame & rest & Hrun & Hframe);
    [by apply encode_encodes|unfold MAX_PLAINTEXT_LEN; lia|done..|].
  exists frame, rest. split; [|done]. rewrite request_eq by done.
  destruct Hh as [->|Hh]; [done|]. rewrite (bool_decide_eq_false_2 (h = _)) by done.
  by rewrite andb_false_r.
Qed.
End requests.

(** ** Reception *)

Section reception.
Context `{CryptoLaws} `{HL : ReplayLaws R}.
Implicit Types (a : Agent) (rp : R) (frame : list byte).

Definition receive_checks a (h : HandlerId) frame : Res EnvelopeRef :=
  if negb (ed25519_valid_key (ca_ed25519 (agent_ca a))) then Err Error.BadSignature else
  e ← parse_envelope frame;
  if negb (bool_decide (env_recipient e = agent_id a)) then Err Error.WrongRecipient else
  if negb (bool_decide (env_message_type e = MessageType.PublicationResponse))
  then Err Error.WrongMessageType else
  if negb (bool_decide (env_handler e = h)) || bool_decide (h = HandlerId_NONE)
  then Err Error.WrongHandler else
  verify_envelope_signature e (ca_ed25519 (agent_ca a));;
  Ok e.

Definition receive_payload a (h : HandlerId) (e : EnvelopeRef) : Res Delivery :=
  pt ← open_result (keys_x25519 (agent_keys a)) e;
  operation ← parse_operation pt;
  match operation with
  | OperationRef.PublicationResponse type_id publisher value =>
      Ok (mkDelivery type_id publisher h value)
  | _ => Err Error.WrongMessageType
  end.

Lemma receive_checks_Ok a h frame e :
  receive_checks a h frame = Ok e <->
  ed25519_valid_key (ca_ed25519 (agent_ca a)) = true /\
  open_checks (agent_id a) MessageType.PublicationResponse (ca_ed25519 (agent_ca a)) frame
  = Ok e /\ env_handler e = h /\ h <> HandlerId_NONE.
Proof.
  rewrite open_checks_Ok. unfold receive_checks, verify_envelope_signature. split.
  - intros Hr. res_inv Hr. destruct (ed25519_verify_strict _ _ _) eqn:?; naive_solver.
  - intros (-> & (-> & Hr & Ht & Hv) & Hh & Hn). cbn [negb mbind result_bind].
    by rewrite (bool_decide_eq_true_2 _ Hr), (bool_decide_eq_true_2 _ Ht),
      (bool_decide_eq_true_2 _ Hh), (bool_decide_eq_false_2 _ Hn), Hv.
Qed.

(** [receive] is its checks, the replay test and the decoding of the payload. *)
Lemma receive_run a h now frame rp :
  match receive_checks a h frame with
  | Err x => receive a h now (frame, rp) = (Err x, (frame, rp))
  | Panic => receive a h now (frame, rp) = (Panic, (frame, rp))
  | Ok e =>
      match check_and_mark (env_sender e) (env_session_id e) now rp with
      | (Ok _, rp') => exists frame',
          receive a h now (frame, rp) = (receive_payload a h e, (frame', rp'))
      | (Err x, rp') => receive a h now (frame, rp) = (Err x, (frame, rp'))
      | (Panic, rp') => receive a h now (frame, rp) = (Panic, (frame, rp'))
      end
  end.
Proof.
  destruct (receive_checks a h frame) as [e| |] eqn:Hchk.
  - pose proof Hchk as (Hvk & Hopen & Hh & Hn)%receive_checks_Ok.
    pose proof Hopen as (Hparse & Hr & Ht & Hv)%open_checks_Ok.
    destruct (check_and_mark _ _ _ _) as [rr rp'] eqn:Hmark.
    unfold receive. rewrite Hvk. cbn [negb]. autorewrite with rust. cbn [fst].
    rewrite Hparse. autorewrite with rust.
    rewrite (bool_decide_eq_true_2 _ Hr), (bool_decide_eq_true_2 _ Ht),
      (bool_decide_eq_true_2 _ Hh), (bool_decide_eq_false_2 _ Hn). cbn [negb orb].
    unfold verify_envelope_signature. rewrite Hv. autorewrite with rust.
    destruct rr as [[]|x|].
    + erewrite bind_run by (rewrite on_second_eq, Hmark; reflexivity). cbn [fst snd].
      unfold receive_payload.
      destruct (open_result_spec (keys_x25519 (agent_keys a)) e)
        as [Hres|(pt & _ & _ & Hres & _)]; rewrite Hres.
      * eexists. rewrite M_bind_run, on_output_eq, open_in_place_run, Hopen, Hres. done.
      * eexists. rewrite M_bind_run, on_output_eq, open_in_place_run, Hopen, Hres.
        cbn [fst snd]. rewrite bind_Ok.
        destruct (parse_operation pt) as [[]| |]; reflexivity.
    + by erewrite bind_run_err by (rewrite on_second_eq, Hmark; reflexivity).
    + rewrite M_bind_run, on_second_eq, Hmark. done.
  - unfold receive. unfold receive_checks in Hchk.
    destruct (negb (ed25519_valid_key _)); [by injection Hchk as ->|].
    autorewrite with rust. cbn [fst].
    destruct (parse_envelope frame) as [e0| |]; cbn [mbind result_bind] in Hchk;
      [|by injection Hchk as ->|done].
    autorewrite with rust.
    destruct (negb _); [by injection Hchk as ->|]. destruct (negb _); [by injection Hchk as ->|].
    destruct (_ || _); [by injection Hchk as ->|].
    unfold verify_envelope_signature in *.
    destruct (ed25519_verify_strict _ _ _); [done|]. by injection Hchk as ->.
  - unfold receive_checks, verify_envelope_signature in Hchk.
    destruct (negb _); [done|].
    destruct (parse_envelope frame) eqn:Hp; cbn [mbind result_bind] in Hchk; [|done|].
    + repeat case_match; done.
    + by apply parse_envelope_no_panic in Hp.
Qed.

Lemma receive_payload_Ok a h e d :
  receive_payload a h e = Ok d <->
  delivery_handler d = h /\
  let op := Operation.PublicationResponse (delivery_type_id d) (delivery_publisher d)
              (delivery_value d) in
  Operation.wf op /\
  open_result (keys_x25519 (agent_keys a)) e = Ok (Operation.wire op).
Proof.
  unfold receive_payload. rewrite result_bind_Ok. setoid_rewrite result_bind_Ok.
  setoid_rewrite parse_operation_iff. destruct d as [ty p h' v].
  cbn [delivery_handler delivery_type_id delivery_publisher delivery_value]. split.
  - intros (pt & Hpt & r & (op & Hop & -> & ->) & Hk).
    destruct op; cbn in Hk; simplify_eq. naive_solver.
  - intros (-> & Hop & Hres). eexists. split; [exact Hres|].
    exists (Operation.view (Operation.PublicationResponse ty p v)).
    split; [by eexists|reflexivity].
Qed.

Lemma receive_payload_no_panic a h e : receive_payload a h e <> Panic.
Proof.
  unfold receive_payload.
  destruct (open_result_spec (keys_x25519 (agent_keys a)) e) as [->|(pt & _ & _ & -> & _)];
    [done|]. rewrite bind_Ok. pose proof (parse_operation_total pt).
  by destruct (parse_operation pt) as [[]| |].
Qed.
End reception.

(** ** The copy of an environment *)

(** The entries of the identifiers [id .. id + n - 1]. *)
Fixpoint scan (n : nat) (id : N) (environment : EnvironmentRef) : list OwnedAttribute :=
  match n with
  | O => []
  | S n' =>
      match environment_get environment (mkAttributeId id) with
      | Some v => mkOwned (mkAttributeId id) v :: scan n' (N.succ id) environment
      | None => scan n' (N.succ id) environment
      end
  end.

Definition owned (a : AttributeRef) : OwnedAttribute := mkOwned (attr_id a) (attr_value a).

Lemma elem_of_scan n id e i v :
  mkOwned (mkAttributeId i) v ∈ scan n id e <->
  (id <= i < id + N.of_nat n)%N /\ environment_get e (mkAttributeId i) = Some v.
Proof.
  revert id. induction n as [|n IH]; intros id; cbn [scan].
  - split; [by intros ?%not_elem_of_nil|lia].
  - assert (mkOwned (mkAttributeId i) v ∈ scan n (N.succ id) e <->
      (N.succ id <= i < id + N.of_nat (S n))%N /\ environment_get e (mkAttributeId i) = Some v) as IH'
      by (rewrite IH; intuition lia).
    destruct (N.eq_dec i id) as [->|Hne].
    + destruct (environment_get e (mkAttributeId id)) as [w|] eqn:Hg.
      * rewrite elem_of_cons, IH'. split; [intros [[= ->]|[? _]]; [split; [lia|done]|lia]|].
        intros [_ [= ->]]. by left.
      * rewrite IH'. split; [intros [? _]; lia|]. by intros [_ ?].
    + destruct (environment_get e (mkAttributeId id)) as [w|] eqn:Hg.
      * rewrite elem_of_cons, IH'. split; [intros [[= ? _]|[? ?]]; [done|split; [lia|done]]|].
        intros [? ?]. right. split; [lia|done].
      * rewrite IH'. intuition lia.
Qed.

Definition owned_lt (a b : OwnedAttribute) : Prop :=
  (attribute_raw (owned_id a) < attribute_raw (owned_id b))%N.

Lemma scan_sorted n id e : StronglySorted owned_lt (scan n id e).
Proof.
  revert id. induction n as [|n IH]; intros id; cbn [scan]; [constructor|].
  destruct (environment_get _ _); [|done]. constructor; [done|].
  apply Forall_forall. intros [[i] v] Hin%elem_of_scan. unfold owned_lt. cbn. lia.
Qed.

Lemma sorted_NoDup l : StronglySorted owned_lt l -> NoDup l.
Proof.
  induction 1 as [|a l _ IH Ha]; constructor; [|done].
  intros Hin. rewrite Forall_forall in Ha. specialize (Ha a Hin). unfold owned_lt in Ha. lia.
Qed.

Lemma scan_items l :
  Operation.environment_wf l ->
  scan (N.to_nat (u16_max + 1)) 0 (Operation.environment_view l) ≡ₚ owned <$> l.
Proof.
  intros Hl. pose proof Hl as (Hlen & Hwf & Hnd). apply NoDup_Permutation.
  - apply sorted_NoDup, scan_sorted.
  - apply NoDup_fmap_1 with (f := owned_id). by rewrite <-list_fmap_compose.
  - intros [[i] v]. rewrite elem_of_scan, environment_get_view by done.
    rewrite N2Nat.id. unfold u16_max. rewrite list_elem_of_fmap. split.
    + intros [_ Hlk]. unfold lookup_attribute in Hlk.
      apply fmap_Some in Hlk as (a & Hf & ->). apply find_some in Hf as [Hin Hid%bool_decide_eq_true].
      exists a. split; [by destruct a as [[] ?]; cbn in *; simplify_eq|]. by apply list_elem_of_In.
    + intros (a & [= Hi ->] & Hin).
      assert (attr_id a = mkAttributeId i) as Hid by done.
      split.
      * rewrite Forall_forall in Hwf. destruct (Hwf a Hin) as [Ha _]. unfold attribute_wf, u16_max in Ha.
        rewrite Hid in Ha. cbn in Ha. lia.
      * clear Hwf Hlen Hl Hi. unfold lookup_attribute. induction l as [|b l IH].
        { by apply not_elem_of_nil in Hin. }
        apply NoDup_cons in Hnd as [Hb Hnd]. cbn [find].
        apply elem_of_cons in Hin as [->|Hin]; [by rewrite bool_decide_eq_true_2|].
        rewrite bool_decide_eq_false_2; [by apply IH|]. intros Heq. apply Hb.
        rewrite Heq, <-Hid. by apply list_elem_of_fmap_2.
Qed.

Lemma copy_loop_scan n id e acc :
  length (acc ++ scan n id e) = byte_nat (environment_count e) ->
  (copy_loop n id e acc).1 = acc ++ scan n id e.
Proof.
  revert id acc. induction n as [|n IH]; intros id acc Hlen; cbn [copy_loop scan] in *.
  - by rewrite app_nil_r.
  - destruct (environment_get e (mkAttributeId id)) as [v|]; [|by apply IH].
    destruct (Nat.eqb_spec (length (acc ++ [mkOwned (mkAttributeId id) v]))
      (byte_nat (environment_count e))) as [Heq|].
    + rewrite <-Heq in Hlen. rewrite !length_app in Hlen. cbn [length] in Hlen.
      by destruct (scan n (N.succ id) e); [|cbn in Hlen; lia].
    + rewrite IH by (by rewrite <-app_assoc). by rewrite <-app_assoc.
Qed.

Lemma copy_environment_view l :
  Operation.environment_wf l ->
  copy_environment (Operation.environment_view l)
  = Ok (scan (N.to_nat (u16_max + 1)) 0 (Operation.environment_view l)).
Proof.
  intros Hl. pose proof (scan_items l Hl) as Hperm. pose proof Hl as (Hlen & _ & _).
  unfold MAX_ATTRIBUTES in Hlen.
  assert (Hcount : length (scan (N.to_nat (u16_max + 1)) 0 (Operation.environment_view l))
    = byte_nat (environment_count (Operation.environment_view l))).
  { rewrite Hperm, length_fmap. cbn [Operation.environment_view environment_count].
    by rewrite byte_nat_of by lia. }
  unfold copy_environment. clear Hperm. revert Hcount.
  generalize (N.to_nat (u16_max + 1)). intros n Hcount.
  pose proof (copy_loop_scan n 0 (Operation.environment_view l) []) as Hloop.
  destruct (copy_loop _ _ _ _) as [acc b]. cbn [fst app] in Hloop. rewrite Hloop by exact Hcount.
  rewrite Hcount, Nat.eqb_refl. by destruct b.
Qed.

(** ** The subscription flows *)

Section flow_lemmas.
Context `{CryptoLaws} {T E C R Hd : Type} `{AsyncTransport T E, Clock C,
  HP : ReplayProtector R, !ReplayLaws R, SubscriptionHandler Hd}.
Implicit Types (a : Agent) (s : FlowState (T:=T) (C:=C) (R:=R)).

(** A delivery decoded from a frame addressed to the agent's handler and signed
    by its CA. *)
Definition authentic a (h : HandlerId) (d : Delivery) : Prop :=
  exists frame e, receive_checks a h frame = Ok e /\ receive_payload a h e = Ok d.

Lemma receive_authentic a h now frame (rp : R) d fr :
  receive a h now (frame, rp) = (Ok d, fr) -> authentic a h d /\ delivery_handler d = h.
Proof.
  intros Hrun. pose proof (receive_run a h now frame rp) as Hr.
  destruct (receive_checks a h frame) as [e| |] eqn:Hchk; [|congruence..].
  destruct (check_and_mark _ _ _ _) as [[] rp'] eqn:Hm; [|congruence..].
  destruct Hr as [frame' Hr]. rewrite Hr in Hrun. injection Hrun as Hp _.
  split; [by exists frame, e|]. by apply receive_payload_Ok in Hp as [? _].
Qed.

Lemma flow_receive_authentic a ty h s d s' :
  flow_receive a ty h s = (Ok d, s') ->
  authentic a h d /\ delivery_handler d = h /\ delivery_type_id d = ty.
Proof.
  unfold flow_receive. destruct (transport_receive _) as [[len| |] [f t]]; [|done..].
  destruct (get_range f 0 len) as [received|]; [|done].
  destruct (now_seconds _) as [now c].
  destruct (receive a h now (received, flow_replay s)) as [[d'| |] [rv rp]] eqn:Hr; [|done..].
  case_bool_decide as Hty; [|done]. intros [= <- _].
  by apply receive_authentic in Hr as [? ?].
Qed.

Lemma permanent_loop_log fuel a ty h s hd r s' hd' :
  permanent_loop fuel a ty h (s, hd) = (r, (s', hd')) ->
  exists ds, hd' = foldl (fun x d => on_publication d x) hd ds /\
    Forall (fun d => authentic a h d /\ delivery_handler d = h /\ delivery_type_id d = ty) ds /\
    length ds <= fuel /\ (r = Ok tt -> length ds = fuel).
Proof.
  revert s hd. induction fuel as [|fuel IH]; intros s hd; cbn [permanent_loop].
  - intros [= <- <- <-]. by exists [].
  - rewrite M_bind_run. unfold zoom at 1. cbn [fst snd].
    destruct (flow_receive a ty h s) as [[d|e|] s1] eqn:Hf.
    + autorewrite with rust. cbn [fst snd]. intros (ds & -> & Hds & Hlen & Hok)%IH.
      exists (d :: ds). cbn [length foldl]. split; [done|].
      split; [constructor; [by eapply flow_receive_authentic|done]|].
      split; [lia|]. intros Hr. by rewrite Hok.
    + intros [= <- <- <-]. exists []. cbn. split_and!; [done|constructor|lia|done].
    + intros [= <- <- <-]. exists []. cbn. split_and!; [done|constructor|lia|done].
Qed.
End flow_lemmas.

(** ** Properties *)

(** Every request an agent builds is one the CA can open: for a well-formed
    operation and a subscription handler that is not [NONE], each of the four
    request methods succeeds on a buffer of at least [MAX_FRAME_LEN] bytes, and the
    frame it wrote parses with the agent as sender, the CA as recipient, the type
    of the operation, its handler and the session drawn from the generator; opened
    with the CA's key and the agent's verifying key it gives the encoded operation,
    which parses back.  With the handler [NONE] a subscription is refused. *)
Theorem request_reaches_ca `{CryptoLaws} a h op out g secret :
  Operation.wf op -> is_request op = true ->
  MAX_FRAME_LEN <= length out -> ca_x25519 (agent_ca a) = x25519_public secret ->
  x25519 (drawn_secret g) (x25519_public secret) <> zero32 ->
  if is_subscription op && bool_decide (h = HandlerId_NONE)
  then request a h op (out, g) = (Err Error.WrongHandler, (out, g))
  else exists frame rest,
    request a h op (out, g) = (Ok (length frame), (frame ++ rest, drawn_rng g)) /\
    request_frame a (request_type op) (request_handler h op) g secret (Operation.wire op) frame /\
    parse_operation (Operation.wire op) = Ok (Operation.view op).
Proof.
  intros Hop Hreq Hout Hca Hz. destruct (is_subscription op && _) eqn:Hsub.
  - by rewrite request_eq, Hsub.
  - destruct (request_run a h op out g secret) as (frame & rest & Hrun & Hframe); try done.
    + apply andb_false_iff in Hsub as [?|?%bool_decide_eq_false]; auto.
    + exists frame, rest. split_and!; [done..|]. apply parse_operation_iff. by exists op.
Qed.

Definition toy_agent : Agent :=
  mkAgent (mkAgentId (vreplicate 16 x01)) (mkAgentKeys (vreplicate 32 x06) (vreplicate 32 x07))
    (mkCaPublicKeys (vreplicate 32 x08) (vreplicate 32 x09)).

Lemma request_reaches_ca_witness :
  exists frame rest,
    request (H:=Toy.crypto) toy_agent HandlerId_NONE sample_publish
      (replicate (N.to_nat 4400) x00, 3%N)
    = (Ok (length frame), (frame ++ rest, 6%N)).
Proof.
  destruct (request_reaches_ca (H:=Toy.crypto) (H0:=Toy.laws) toy_agent HandlerId_NONE
    sample_publish (replicate (N.to_nat 4400) x00) 3%N (vreplicate 32 x09))
    as (frame & rest & Hrun & _).
  - repeat split; repeat constructor; vm_compute; try lia; try discriminate; repeat constructor.
  - reflexivity.
  - rewrite length_replicate. unfold MAX_FRAME_LEN, MAX_PLAINTEXT_LEN, HEADER_LEN, TAG_LEN,
      SIGNATURE_LEN. lia.
  - reflexivity.
  - vm_compute. discriminate.
  - by exists frame, rest.
Defined.

Lemma check_and_mark_no_panic `{HL : ReplayLaws R} sender session now (rp : R) :
  replay_inv rp -> (check_and_mark sender session now rp).1 <> Panic.
Proof.
  intros Hinv. destruct (check_and_mark sender session now rp) as [r rp'] eqn:Hmark.
  apply replay_refines in Hmark as (_ & _ & _ & Hspec); [|done]. unfold spec_check in Hspec.
  cbn [fst]. by repeat case_match; simplify_eq.
Qed.

(** C39: [receive] is fail-closed and does its work in order.  A frame that is not
    for this agent, not a delivery, not for the expected handler, or not signed by
    the provisioned CA is refused and leaves both the frame and the replay state
    untouched; then the replay test decides; only then is the payload decrypted,
    and the delivery returned is exactly the response operation the ciphertext
    holds.  From a replay state that satisfies its invariant (as every cache the code
    makes does, and goes on to do) it never panics, and a response of the CA that
    passes the tests is delivered. *)
Theorem receive_fail_closed `{CryptoLaws} `{HL : ReplayLaws R} a h now frame (rp : R) :
  replay_inv rp ->
  (receive a h now (frame, rp)).1 <> Panic /\
  match receive_checks a h frame with
  | Panic => False
  | Err x => receive a h now (frame, rp) = (Err x, (frame, rp))
  | Ok e =>
      ed25519_verify_strict (ca_ed25519 (agent_ca a)) (env_signed_bytes e) (env_signature e) = true /\
      env_recipient e = agent_id a /\ env_message_type e = MessageType.PublicationResponse /\
      env_handler e = h /\ h <> HandlerId_NONE /\
      match check_and_mark (env_sender e) (env_session_id e) now rp with
      | (Ok _, rp') =>
          exists r frame', receive a h now (frame, rp) = (r, (frame', rp')) /\ r <> Panic /\
          forall d, r = Ok d <->
            delivery_handler d = h /\
            let op := Operation.PublicationResponse (delivery_type_id d) (delivery_publisher d)
                        (delivery_value d) in
            Operation.wf op /\
            open_result (keys_x25519 (agent_keys a)) e = Ok (Operation.wire op)
      | (Err x, rp') => receive a h now (frame, rp) = (Err x, (frame, rp'))
      | (Panic, _) => False
      end
  end.
Proof.
  intros Hinv. pose proof (receive_run a h now frame rp) as Hrun.
  destruct (receive_checks a h frame) as [e|x|] eqn:Hchk; [|by rewrite Hrun|].
  - assert ((check_and_mark (env_sender e) (env_session_id e) now rp).1 <> Panic) as Hnp
      by (by apply check_and_mark_no_panic).
    apply receive_checks_Ok in Hchk as (_ & (_ & Hr & Ht & Hv)%open_checks_Ok & Hh & Hn).
    destruct (check_and_mark _ _ _ _) as [[]rp'] eqn:Hmark; [|by rewrite Hrun|done].
    destruct Hrun as [frame' Hrun]. rewrite Hrun. split; [apply receive_payload_no_panic|].
    do 5 (split; [done|]). exists (receive_payload a h e), frame'.
    split; [done|]. split; [apply receive_payload_no_panic|]. intros d. apply receive_payload_Ok.
  - unfold receive_checks, verify_envelope_signature in Hchk.
    destruct (negb _); [done|]. pose proof (parse_envelope_no_panic frame).
    destruct (parse_envelope frame); cbn [mbind result_bind] in Hchk; [|done..].
    repeat case_match; done.
Qed.

(** A delivery the toy CA seals for the toy agent. *)
Definition toy_handler : HandlerId := mkHandlerId (vreplicate 16 x0a).
Definition toy_delivery : list byte :=
  Toy.frame x08 x07 MessageType.PublicationResponse AgentId_CA (agent_id toy_agent) toy_handler x02
    (Operation.wire (Operation.PublicationResponse (mkTypeId 7) (mkAgentId (vreplicate 16 x03)) [x2a])).

Lemma receive_fail_closed_witness :
  let cache := FixedReplayCache_new 2 10 in
  (receive (H:=Toy.crypto) toy_agent toy_handler 5 (toy_delivery, cache)).1
  = Ok (mkDelivery (mkTypeId 7) (mkAgentId (vreplicate 16 x03)) toy_handler [x2a]) /\
  receive (H:=Toy.crypto) toy_agent HandlerId_NONE 5 (toy_delivery, cache)
  = (Err Error.WrongHandler, (toy_delivery, cache)).
Proof.
  cbn zeta. split; [vm_compute; reflexivity|].
  assert (fixed_inv (FixedReplayCache_new 2 10)) as Hinv by (apply NoDup_nil_2).
  pose proof (receive_fail_closed (H:=Toy.crypto) (H0:=Toy.laws) (HL:=FixedReplayCache_laws) toy_agent
    HandlerId_NONE 5 toy_delivery (FixedReplayCache_new 2 10) Hinv) as [_ H].
  destruct (receive_checks _ _ _) as [e|x|] eqn:Hc; [vm_compute in Hc; discriminate Hc| |done].
  rewrite H. vm_compute in Hc. injection Hc as <-. reflexivity.
Defined.

(** A delivery is received at most once: after [receive] returned a delivery
    for a frame, receiving the same frame again, with any other checks of the
    replay state in between, is refused with [Replay] until the entry expires. *)
Theorem receive_at_most_once `{CryptoLaws} `{HL : ReplayLaws R} a h t frame (rp : R) d frame' rp'
    calls now :
  replay_inv rp -> receive a h t (frame, rp) = (Ok d, (frame', rp')) ->
  Forall (fun c => c.2 < saturating_add t (replay_ttl rp))%N calls ->
  (now < saturating_add t (replay_ttl rp))%N ->
  (receive a h now (frame, (run_checks calls rp').2)).1 = Err Error.Replay.
Proof.
  intros Hinv Hrcv Hcalls Hnow. pose proof (receive_run a h t frame rp) as Hrun.
  set (rp2 := (run_checks calls rp').2). pose proof (receive_run a h now frame rp2) as Hrun2.
  destruct (receive_checks a h frame) as [e|x|]; [|congruence..].
  destruct (check_and_mark (env_sender e) (env_session_id e) t rp) as [[[]| |] rp1] eqn:Hmark;
    [|congruence..].
  destruct Hrun as [f1 Hrun]. rewrite Hrun in Hrcv. injection Hrcv as _ _ ->.
  pose proof (accepted_then_replayed rp (env_sender e) (env_session_id e) t rp' calls now
    Hinv Hmark Hcalls Hnow) as Hrep. fold rp2 in Hrep.
  destruct (check_and_mark _ _ now rp2) as [r rp3]. cbn [fst] in Hrep. subst r.
  by rewrite Hrun2.
Qed.

Lemma receive_at_most_once_witness :
  let '(r, (_, cache)) :=
    receive (H:=Toy.crypto) toy_agent toy_handler 5 (toy_delivery, FixedReplayCache_new 2 10) in
  is_ok r = true /\
  (receive (H:=Toy.crypto) toy_agent toy_handler 14 (toy_delivery, cache)).1 = Err Error.Replay.
Proof.
  destruct (receive (H:=Toy.crypto) toy_agent toy_handler 5
    (toy_delivery, FixedReplayCache_new 2 10)) as [[d| |] [f cache]] eqn:Hr;
    [|vm_compute in Hr; discriminate Hr..].
  split; [reflexivity|].
  apply (receive_at_most_once (H:=Toy.crypto) (H0:=Toy.laws) toy_agent toy_handler 5 toy_delivery
    (FixedReplayCache_new 2 10) d f cache [] 14).
  - cbn. constructor.
  - exact Hr.
  - constructor.
  - reflexivity.
Defined.

(** The subscription flows hand only authentic deliveries to the application.
    Whatever the transport delivers, every delivery [subscribe_once] returns and
    every delivery [subscribe_permanent] passes to the handler was decoded from a
    frame signed by the CA for this agent and handler, and carries the handler and
    the publication type subscribed to; the loop ends only by an error. *)
Theorem subscription_flows_authentic `{CryptoLaws} {T E C R Hd} `{AsyncTransport T E, Clock C,
    ReplayProtector R, !ReplayLaws R, SubscriptionHandler Hd}
    (a : Agent) ty h predicate (s : FlowState (T:=T) (C:=C) (R:=R)) :
  (forall d s', subscribe_once (E:=E) a ty h predicate s = (Ok d, s') ->
     authentic a h d /\ delivery_handler d = h /\ delivery_type_id d = ty) /\
  (forall fuel (hd : Hd) r s' hd',
     subscribe_permanent (E:=E) fuel a ty h predicate (s, hd) = (r, (s', hd')) ->
     exists ds, hd' = foldl (fun x d => on_publication d x) hd ds /\
       Forall (fun d => authentic a h d /\ delivery_handler d = h /\ delivery_type_id d = ty) ds /\
       length ds <= fuel /\ (r = Ok tt -> length ds = fuel)).
Proof.
  split.
  - intros d s' Hrun. unfold subscribe_once in Hrun.
    apply M_bind_ok in Hrun as (len & s1 & _ & Hrun).
    apply M_bind_ok in Hrun as ([] & s2 & _ & Hrun). by eapply flow_receive_authentic.
  - intros fuel hd r s' hd' Hrun. unfold subscribe_permanent in Hrun.
    assert (Hnil : r <> Ok tt -> hd' = hd -> exists ds : list Delivery,
      hd' = foldl (fun x d => on_publication d x) hd ds /\
      Forall (fun d => authentic a h d /\ delivery_handler d = h /\ delivery_type_id d = ty) ds /\
      length ds <= fuel /\ (r = Ok tt -> length ds = fuel)).
    { intros Hr ->. exists []. cbn. split_and!; [done|constructor|lia|done]. }
    rewrite M_bind_run in Hrun. unfold zoom at 1 in Hrun. cbn [fst snd] in Hrun.
    destruct (flow_request _ s) as [[len|e|] s1]; [|by apply Hnil; simplify_eq..].
    rewrite M_bind_run in Hrun. unfold zoom at 1 in Hrun. cbn [fst snd] in Hrun.
    destruct (flow_send len s1) as [[[]|e|] s2]; [|by apply Hnil; simplify_eq..].
    by apply permanent_loop_log in Hrun.
Qed.

Lemma subscription_flows_authentic_witness :
  let transport : AsyncTransport unit unit :=
    {| transport_send _ t := (Ok tt, t);
       transport_receive s := (Ok (length toy_delivery), (toy_delivery ++ drop (length toy_delivery) s.1, s.2)) |} in
  let clock : Clock N := {| now_seconds c := (c, N.succ c) |} in
  let s := mkFlow (H:=Toy.crypto) (replicate (N.to_nat 4400) x00) 3%N tt (FixedReplayCache_new 2 10) 5%N in
  exists d s', subscribe_once (H:=Toy.crypto) (E:=unit) toy_agent (mkTypeId 7) toy_handler [] s = (Ok d, s') /\
    delivery_type_id d = mkTypeId 7.
Proof.
  intros transport clock s.
  set (handler := {| on_publication (_ : Delivery) (n : nat) := S n |} : SubscriptionHandler nat).
  assert (Hok : is_ok (subscribe_once (H:=Toy.crypto) (E:=unit) toy_agent (mkTypeId 7)
    toy_handler [] s).1 = true) by (vm_compute; reflexivity).
  apply is_ok_run in Hok as (d & s' & Hrun). exists d, s'. split; [exact Hrun|].
  by apply (proj1 (subscription_flows_authentic (H:=Toy.crypto) (H0:=Toy.laws) (E:=unit) (Hd:=nat)
    toy_agent (mkTypeId 7) toy_handler [] s)) in Hrun as (_ & _ & ?).
Defined.

(** [copy_environment] copies a validated environment completely: it never
    fails on parsed data and returns exactly the entries of the environment, in
    increasing order of identifier. *)
Theorem copy_environment_complete input environment :
  parse_operation input = Ok (OperationRef.SetEnvironment environment) ->
  exists l, copy_environment environment = Ok l /\
    l ≡ₚ owned <$> environment_items environment /\
    StronglySorted owned_lt l.
Proof.
  intros ([env| | | |] & Henv & -> & [= ->])%parse_operation_iff.
  eexists. split; [by apply copy_environment_view|].
  rewrite environment_items_view by done. split; [by apply scan_items|apply scan_sorted].
Qed.

Lemma copy_environment_complete_witness :
  exists l, copy_environment (Operation.environment_view
    [mkAttribute (mkAttributeId 9) (ValueRef.Bool true); mkAttribute (mkAttributeId 1) (ValueRef.I64 5)])
  = Ok l /\ length l = 2.
Proof.
  destruct (copy_environment_complete
    (Operation.wire (Operation.SetEnvironment
      [mkAttribute (mkAttributeId 9) (ValueRef.Bool true);
       mkAttribute (mkAttributeId 1) (ValueRef.I64 5)]))
    (Operation.environment_view
      [mkAttribute (mkAttributeId 9) (ValueRef.Bool true);
       mkAttribute (mkAttributeId 1) (ValueRef.I64 5)])) as (l & Hl & Hperm & _).
  - vm_compute. reflexivity.
  - exists l. split; [exact Hl|]. rewrite Hperm. vm_compute. reflexivity.
Defined.
