(* ===== verification/Ledger.v ===== *)
(** What became of the deliveries accepted for an agent: which were put on its sockets or
    are still held, in which order, which were lost, and which were stored while the agent
    was connected already. The record is kept beside the state of the broker. *)

From stdpp Require Import sorting.
From S2P Require Export Codec.

Abbreviation frame := (list byte).

(** The deliveries in the order in which the router accepted them, and by their place in
    that list: those written to sockets of the agent followed by those held for it, as they
    stand in its queues; those a requeue that failed has dropped; and those that reached
    the offline store of an agent that had connected meanwhile. *)
Record Ledger := mkLedger {
  lg_accepted : list frame;
  lg_order : list nat;
  lg_lost : list nat;
  lg_late : list nat;
}.
Definition ledger_empty : Ledger := mkLedger [] [] [] [].

(** A delivery is queued for a connection, before the [stored] ones of the offline store. *)
Definition accept_online (stored : nat) (f : frame) (l : Ledger) : Ledger :=
  let ahead := length (lg_order l) - stored in
  mkLedger (lg_accepted l ++ [f])
    (take ahead (lg_order l) ++ length (lg_accepted l) :: drop ahead (lg_order l))
    (lg_lost l) (lg_late l).

(** A delivery is stored offline. *)
Definition accept_stored (connected : bool) (f : frame) (l : Ledger) : Ledger :=
  mkLedger (lg_accepted l ++ [f]) (lg_order l ++ [length (lg_accepted l)]) (lg_lost l)
    (lg_late l ++ if connected then [length (lg_accepted l)] else []).

(** Only the first [kept] are still there. *)
Definition lose (kept : nat) (l : Ledger) : Ledger :=
  mkLedger (lg_accepted l) (take kept (lg_order l)) (lg_lost l ++ drop kept (lg_order l)) (lg_late l).

(** [front] was written or waits in the queues of the connection, [back] is stored offline. *)
Record ledger_inv (l : Ledger) (front back : list frame) (connected : Prop) : Prop := mkLedgerInv {
  li_frames : Forall2 (fun n f => lg_accepted l !! n = Some f) (lg_order l) (front ++ back);
  li_places : lg_order l ++ lg_lost l ≡ₚ seq 0 (length (lg_accepted l));
  li_sorted : StronglySorted lt (filter (fun n => n ∉ lg_late l) (lg_order l));
  li_bound : Forall (fun n => n < length (lg_accepted l)) (lg_late l);
  li_stored : connected -> Forall (fun n => n ∈ lg_late l) (drop (length front) (lg_order l));
}.

Lemma ledger_empty_inv connected : ledger_inv ledger_empty [] [] connected.
Proof. split; cbn; try done; constructor. Qed.

Lemma places_bound l front back c n : ledger_inv l front back c -> n ∈ lg_order l -> n < length (lg_accepted l).
Proof.
  intros [_ Hp _ _ _] Hn. assert (n ∈ seq 0 (length (lg_accepted l))) as Hin by (rewrite <-Hp; set_solver).
  apply elem_of_seq in Hin. lia.
Qed.

(** The order, divided like the frames. *)
Lemma ledger_split l front back c : ledger_inv l front back c -> exists ahead rest,
  lg_order l = ahead ++ rest /\ length ahead = length front /\ length rest = length back /\
  Forall2 (fun n f => lg_accepted l !! n = Some f) ahead front /\
  Forall2 (fun n f => lg_accepted l !! n = Some f) rest back.
Proof.
  intros [Hf _ _ _ _]. apply Forall2_app_inv_r in Hf as (ahead & rest & H1 & H2 & ->).
  exists ahead, rest. split_and!; by eauto using Forall2_length.
Qed.

(** What is accounted for was accepted. *)
Lemma ledger_accepts l front back c f : ledger_inv l front back c -> f ∈ front ++ back -> f ∈ lg_accepted l.
Proof.
  intros [Hf _ _ _ _] [i Hi]%list_elem_of_lookup. destruct (Forall2_lookup_r _ _ _ _ _ Hf Hi) as (n & _ & Hn).
  by eapply list_elem_of_lookup_2.
Qed.

(** A frame more does not change what stands at a place. *)
Lemma frames_grow l f order frames :
  Forall2 (fun n g => lg_accepted l !! n = Some g) order frames ->
  Forall2 (fun n g => (lg_accepted l ++ [f]) !! n = Some g) order frames.
Proof. intros Hall. eapply Forall2_impl; [exact Hall|]. intros n g. apply lookup_app_l_Some. Qed.

Lemma place_next l f : (lg_accepted l ++ [f]) !! length (lg_accepted l) = Some f.
Proof. by apply list_lookup_middle. Qed.

Lemma places_grow l f order : order ++ lg_lost l ≡ₚ length (lg_accepted l) :: seq 0 (length (lg_accepted l)) ->
  order ++ lg_lost l ≡ₚ seq 0 (length (lg_accepted l ++ [f])).
Proof. intros ->. rewrite length_app, seq_app. cbn. apply Permutation_cons_append. Qed.

Lemma filter_none {A} (P : A -> Prop) `{forall x, Decision (P x)} (l : list A) :
  Forall (fun x => ~ P x) l -> filter P l = [].
Proof. induction 1 as [|x l Hx _ IH]; [done|]. by rewrite filter_cons_False. Qed.

Lemma filter_every {A} (P : A -> Prop) `{forall x, Decision (P x)} (l : list A) : Forall P l -> filter P l = l.
Proof. induction 1 as [|x l Hx _ IH]; [done|]. by rewrite filter_cons_True, IH. Qed.

Lemma filter_same {A} (P1 P2 : A -> Prop) `{forall x, Decision (P1 x), forall x, Decision (P2 x)} (l : list A) :
  (forall x, x ∈ l -> P1 x <-> P2 x) -> filter P1 l = filter P2 l.
Proof.
  induction l as [|x l IH]; intros Hiff; [done|]. rewrite !filter_cons, IH by (intros; apply Hiff; set_solver).
  apply decide_ext, Hiff. set_solver.
Qed.

(** The next place is after all those in use. *)
Lemma sorted_next (late order : list nat) n : StronglySorted lt (filter (fun m => m ∉ late) order) ->
  (forall m, m ∈ order -> m < n) -> StronglySorted lt (filter (fun m => m ∉ late) order ++ [n]).
Proof.
  intros Hs Hlt. apply StronglySorted_app. split; [|split; [done|repeat constructor]].
  intros m m' [_ Hm]%list_elem_of_filter ->%list_elem_of_singleton. by apply Hlt.
Qed.

Lemma ledger_online l front back (c : Prop) f : ledger_inv l front back c -> c ->
  ledger_inv (accept_online (length back) f l) (front ++ [f]) back c.
Proof.
  intros Hl Hc. pose proof (ledger_split _ _ _ _ Hl) as (ahead & rest & Ho & Ha & Hr & H1 & H2).
  pose proof Hl as [_ Hp Hs Hb Hst]. specialize (Hst Hc). unfold accept_online.
  rewrite Ho in *. rewrite drop_app_length' in Hst by done.
  rewrite length_app, Hr, Nat.add_sub, take_app_length, drop_app_length.
  assert (forall m, m ∈ ahead -> m < length (lg_accepted l)) as Hlt.
  { intros m Hm. eapply places_bound; [exact Hl|]. rewrite Ho. set_solver. }
  split; cbn [lg_accepted lg_order lg_lost lg_late].
  - rewrite <-app_assoc. apply Forall2_app; [by apply frames_grow|]. constructor; [apply place_next|by apply frames_grow].
  - apply places_grow. rewrite <-Hp, <-!app_assoc. cbn. symmetry. apply Permutation_middle.
  - rewrite filter_app, filter_cons_True; cycle 1.
    { intros Hn. rewrite Forall_forall in Hb. specialize (Hb _ Hn). cbn in Hb. lia. }
    rewrite filter_app in Hs. rewrite (filter_none _ rest) in Hs |- *; [|eapply Forall_impl; [exact Hst|]; intros m Hm Hn; by apply Hn..].
    rewrite app_nil_r in Hs. by apply sorted_next.
  - eapply Forall_impl; [exact Hb|]. cbn. intros n. rewrite length_app. lia.
  - intros _. rewrite (app_assoc ahead [_] rest : ahead ++ _ :: rest = _), drop_app_length'; [done|].
    rewrite !length_app. cbn. lia.
Qed.

Lemma ledger_stored l front back (c : Prop) (connected : bool) f : ledger_inv l front back c -> (c -> connected = true) ->
  ledger_inv (accept_stored connected f l) front (back ++ [f]) c.
Proof.
  intros Hl Hc. pose proof (ledger_split _ _ _ _ Hl) as (ahead & rest & Ho & Ha & Hr & H1 & H2).
  pose proof Hl as [Hf Hp Hs Hb Hst]. unfold accept_stored.
  assert (forall m, m ∈ lg_order l -> m < length (lg_accepted l)) as Hlt by (intros m; by eapply places_bound).
  assert (forall m, m ∈ lg_late l -> m < length (lg_accepted l)) as Hlate by (by rewrite Forall_forall in Hb).
  split; cbn [lg_accepted lg_order lg_lost lg_late].
  - rewrite app_assoc. apply Forall2_app; [by apply frames_grow|]. constructor; [apply place_next|constructor].
  - apply places_grow. rewrite <-app_assoc, <-Hp. cbn. symmetry. apply Permutation_middle.
  - rewrite filter_app. destruct connected; rewrite ?app_nil_r.
    + rewrite (filter_none _ [_]), app_nil_r by (repeat constructor; set_solver).
      rewrite (filter_same _ (fun m => m ∉ lg_late l)); [done|]. intros m Hm.
      specialize (Hlt m Hm). rewrite not_elem_of_app, list_elem_of_singleton. naive_solver lia.
    + rewrite filter_cons_True by (intros Hn; apply Hlate in Hn; lia). by apply sorted_next.
  - apply Forall_app. split.
    + eapply Forall_impl; [exact Hb|]. cbn. intros n. rewrite length_app. lia.
    + destruct connected; repeat constructor. rewrite length_app. cbn. lia.
  - intros Hconn. specialize (Hst Hconn). rewrite (Hc Hconn).
    rewrite drop_app_le by (apply Forall2_length in Hf; rewrite length_app in Hf; lia).
    apply Forall_app. split; [|repeat constructor; set_solver]. eapply Forall_impl; [exact Hst|]. set_solver.
Qed.

Lemma ledger_opened l front back c c' : ledger_inv l front back c -> ledger_inv l (front ++ back) [] c'.
Proof.
  intros [Hf Hp Hs Hb _]. split; rewrite ?app_nil_r; try done. intros _.
  rewrite drop_ge; [constructor|]. by rewrite (Forall2_length _ _ _ Hf).
Qed.

(** The end of a connection: what was held goes back before what is stored, and only
    [depth] frames remain. *)
Lemma ledger_closed l written held back c depth : ledger_inv l (written ++ held) back c ->
  let back' := take depth (held ++ back) in
  ledger_inv (lose (length written + length back') l) written back' False.
Proof.
  intros [Hf Hp Hs Hb _] back'. unfold lose.
  assert (written ++ back' = take (length written + length back') ((written ++ held) ++ back)) as Hback.
  { unfold back'. rewrite <-app_assoc, take_app_add'; [|done]. f_equal. rewrite length_take.
    destruct (Nat.min_spec depth (length (held ++ back))) as [[_ ->]|[Hle ->]]; [done|].
    by rewrite !take_ge by lia. }
  split; cbn [lg_accepted lg_order lg_lost lg_late]; try done.
  - rewrite Hback. by apply Forall2_take.
  - rewrite <-Hp. rewrite <-(take_drop (length written + length back') (lg_order l)) at 3.
    rewrite <-!app_assoc. apply Permutation_app_head, Permutation_app_comm.
  - rewrite <-(take_drop (length written + length back') (lg_order l)), filter_app in Hs.
    by apply StronglySorted_app_1_l in Hs.
Qed.

(** A connected agent's deliveries that are neither lost nor late are not in the offline
    store. *)
Lemma on_time_in_front l front back (c : Prop) n : ledger_inv l front back c -> c ->
  n < length (lg_accepted l) -> n ∉ lg_late l -> n ∉ lg_lost l ->
  exists k, take (length front) (lg_order l) !! k = Some n /\ lg_accepted l !! n = front !! k.
Proof.
  intros [Hf Hp _ _ Hst] Hc Hn Hlate Hlost. specialize (Hst Hc).
  assert (n ∈ lg_order l) as Hin.
  { assert (n ∈ lg_order l ++ lg_lost l) as Hin by (rewrite Hp; apply elem_of_seq; lia). set_solver. }
  rewrite <-(take_drop (length front) (lg_order l)) in Hin. apply elem_of_app in Hin as [Hin|Hin]; cycle 1.
  { rewrite Forall_forall in Hst. by destruct Hlate; apply Hst. }
  apply list_elem_of_lookup in Hin as [k Hk]. exists k. split; [done|].
  assert (Forall2 (fun m f => lg_accepted l !! m = Some f) (take (length front) (lg_order l)) front) as Ht.
  { rewrite <-(take_app_length front back) at 2. by apply Forall2_take. }
  destruct (Forall2_lookup_l _ _ _ _ _ Ht Hk) as (f & Hf' & ->). done.
Qed.

Lemma lose_nothing l front back c kept : ledger_inv l front back c -> length (front ++ back) <= kept -> lose kept l = l.
Proof.
  intros [Hf _ _ _ _] Hk. apply Forall2_length in Hf. unfold lose. rewrite take_ge, drop_ge, app_nil_r by lia. by destruct l.
Qed.

Lemma ledger_connected l front back (c c' : Prop) : ledger_inv l front back c -> (c' -> c) -> ledger_inv l front back c'.
Proof. intros [] Hc. split; auto. Qed.

(** ** Deliveries in order *)

#[local] Instance lt_anti_symm : AntiSymm (=) lt.
Proof. intros n m. lia. Qed.

Lemma seq_strongly_sorted n : forall k, StronglySorted lt (seq k n).
Proof.
  induction n as [|n IH]; intros k; cbn; constructor; [apply IH|].
  apply Forall_forall. intros m Hm. apply elem_of_seq in Hm. lia.
Qed.

(** When none was lost and none was late, what was accepted is, in order, what was written
    and what is held. *)
Lemma ledger_in_order l front back c : ledger_inv l front back c -> lg_lost l = [] -> lg_late l = [] ->
  lg_accepted l = front ++ back.
Proof.
  intros [Hf Hp Hs _ _] Hlost Hlate. rewrite Hlost, app_nil_r in Hp.
  rewrite filter_every in Hs by (apply Forall_forall; intros n _; rewrite Hlate; apply not_elem_of_nil).
  assert (lg_order l = seq 0 (length (lg_accepted l))) as Ho.
  { apply (StronglySorted_unique lt); [exact Hs|apply seq_strongly_sorted|exact Hp]. }
  rewrite Ho in Hf. pose proof (Forall2_length _ _ _ Hf) as Hlen. rewrite length_seq in Hlen.
  apply list_eq_same_length with (n := length (lg_accepted l)); [done|done|]. intros i x y Hi Hx Hy.
  assert (seq 0 (length (lg_accepted l)) !! i = Some i) as Hseq by by apply lookup_seq_lt.
  pose proof (Forall2_lookup_lr _ _ _ _ _ _ Hf Hseq Hy) as Hxy. cbn in Hxy. congruence.
Qed.
