(* ===== verification/Broker.v ===== *)
(** broker-core/src/lib.rs: the bounded router between agent sockets and the CA
    link, its offline queues, and the per-agent task of brokerd that owns a
    registration. *)

From stdpp Require Import functions sorting.
From S2P Require Export Codec Ledger.

(** ** Data *)

Module RouteError.
Inductive t :=
| Protocol (e : Error)
| ReservedIdentity
| DuplicateConnection
| ConnectionLimit
| CaQueueFull
| OnlineQueueFull
| OfflineQueueFull.

#[global] Instance eq_dec : EqDecision t.
Proof. solve_decision. Defined.
End RouteError.
Abbreviation RouteError := RouteError.t.

(** ** Bounded channels

    [tokio::sync::mpsc] is third-party code: its operations are a class, and the
    behaviour the router relies on is [MpscLaws]: a bounded FIFO whose sender
    fails when it is full or when the receiver is gone. *)

Module TrySend.
Inductive t := Sent | Full | Closed.
End TrySend.
Abbreviation TrySend := TrySend.t.

Class Mpsc (Ch : Type) := {
  (** [mpsc::channel(capacity)], which panics on a zero capacity. *)
  mpsc_channel : nat -> Ch;
  (** [Sender::try_send] *)
  mpsc_try_send : frame -> Ch -> TrySend * Ch;
  (** [Receiver::try_recv().ok()] *)
  mpsc_try_recv : Ch -> option frame * Ch;
  (** The receiver is dropped. *)
  mpsc_close : Ch -> Ch;
}.

Class MpscLaws (Ch : Type) `{Mpsc Ch} := {
  mpsc_queue : Ch -> list frame;
  mpsc_capacity : Ch -> nat;
  mpsc_closed : Ch -> bool;
  mpsc_channel_spec n :
    0 < n -> mpsc_queue (mpsc_channel n) = [] /\ mpsc_capacity (mpsc_channel n) = n /\
             mpsc_closed (mpsc_channel n) = false;
  mpsc_try_send_spec f c r c' :
    mpsc_try_send f c = (r, c') ->
    mpsc_capacity c' = mpsc_capacity c /\ mpsc_closed c' = mpsc_closed c /\
    (r, mpsc_queue c') =
      if mpsc_closed c then (TrySend.Closed, mpsc_queue c)
      else if mpsc_capacity c <=? length (mpsc_queue c) then (TrySend.Full, mpsc_queue c)
      else (TrySend.Sent, mpsc_queue c ++ [f]);
  mpsc_try_recv_spec c r c' :
    mpsc_try_recv c = (r, c') ->
    mpsc_capacity c' = mpsc_capacity c /\ mpsc_closed c' = mpsc_closed c /\
    (r, mpsc_queue c') =
      match mpsc_queue c with [] => (None, []) | f :: q => (Some f, q) end;
  mpsc_close_spec c : mpsc_closed (mpsc_close c) = true;
}.

(** ** Offline queues *)

(** [trait OfflineQueueStore] *)
Class OfflineQueueStore (Q : Type) := {
  oq_enqueue : AgentId -> frame -> M Q RouteError unit;
  oq_take : AgentId -> Q -> list frame * Q;
  oq_prepend : AgentId -> list frame -> M Q RouteError unit;
  oq_len : AgentId -> Q -> nat;
}.

(** The contract of the trait: per-agent FIFO order, and failure before a bound
    is exceeded. *)
Class OfflineQueueLaws (Q : Type) `{OfflineQueueStore Q} := {
  oq_inv : Q -> Prop;
  oq_queue : Q -> AgentId -> list frame;
  oq_depth : Q -> nat;
  oq_bounded q a : oq_inv q -> length (oq_queue q a) <= oq_depth q;
  oq_len_spec q a : oq_len a q = length (oq_queue q a);
  oq_enqueue_spec q a f r q' :
    oq_inv q -> oq_enqueue a f q = (r, q') ->
    oq_inv q' /\ oq_depth q' = oq_depth q /\
    (forall b, b <> a -> oq_queue q' b = oq_queue q b) /\
    (r, oq_queue q' a) =
      if oq_depth q <=? length (oq_queue q a)
      then (Err RouteError.OfflineQueueFull, oq_queue q a)
      else (Ok tt, oq_queue q a ++ [f]);
  oq_take_spec q a l q' :
    oq_inv q -> oq_take a q = (l, q') ->
    oq_inv q' /\ oq_depth q' = oq_depth q /\
    (forall b, b <> a -> oq_queue q' b = oq_queue q b) /\
    l = oq_queue q a /\ oq_queue q' a = [];
  oq_prepend_spec q a l r q' :
    oq_inv q -> oq_prepend a l q = (r, q') ->
    oq_inv q' /\ oq_depth q' = oq_depth q /\
    (forall b, b <> a -> oq_queue q' b = oq_queue q b) /\
    (r, oq_queue q' a) =
      (if oq_depth q <? length (l ++ oq_queue q a)
       then Err RouteError.OfflineQueueFull else Ok tt,
       take (oq_depth q) (l ++ oq_queue q a));
}.

(** [MemoryOfflineQueueStore] *)
Record MemoryOfflineQueueStore := mkMemoryOffline {
  mq_depth : nat;
  mq_queues : gmap AgentId (list frame);
}.

Definition MemoryOfflineQueueStore_new (depth : nat) : MemoryOfflineQueueStore :=
  mkMemoryOffline depth ∅.

Definition memory_enqueue (identity : AgentId) (f : frame) :
    M MemoryOfflineQueueStore RouteError unit :=
  depth ← gets mq_depth;
  if depth =? 0 then fail RouteError.OfflineQueueFull else
  queues ← gets mq_queues;
  let queue := default [] (queues !! identity) in
  (* [entry(identity).or_default()] *)
  modify (fun s => mkMemoryOffline (mq_depth s) (<[identity := queue]> (mq_queues s)));;
  if depth <=? length queue then fail RouteError.OfflineQueueFull else
  modify (fun s => mkMemoryOffline (mq_depth s) (<[identity := queue ++ [f]]> (mq_queues s))).

Definition memory_take (identity : AgentId) (s : MemoryOfflineQueueStore) :
    list frame * MemoryOfflineQueueStore :=
  (default [] (mq_queues s !! identity), mkMemoryOffline (mq_depth s) (delete identity (mq_queues s))).

Definition memory_prepend (identity : AgentId) (frames : list frame) :
    M MemoryOfflineQueueStore RouteError unit :=
  queues ← gets mq_queues;
  depth ← gets mq_depth;
  let frames := frames ++ default [] (queues !! identity) in
  let overflowed := depth <? length frames in
  let frames := take depth frames in
  let queues := delete identity queues in
  modify (fun s => mkMemoryOffline (mq_depth s)
    (match frames with [] => queues | _ => <[identity := frames]> queues end));;
  if overflowed then fail RouteError.OfflineQueueFull else mret tt.

Definition memory_len (identity : AgentId) (s : MemoryOfflineQueueStore) : nat :=
  match mq_queues s !! identity with Some queue => length queue | None => 0 end.

#[export] Instance memory_offline_store : OfflineQueueStore MemoryOfflineQueueStore := {
  oq_enqueue := memory_enqueue;
  oq_take := memory_take;
  oq_prepend := memory_prepend;
  oq_len := memory_len;
}.

(** ** The router *)

Record Connection := mkConnection { conn_generation : N; conn_sender : nat }.

(** [AgentRegistration]: the receiver is the channel it shares with the router. *)
Record AgentRegistration := mkRegistration {
  reg_identity : AgentId;
  reg_generation : N;
  reg_pending : list frame;
  reg_receiver : nat;
}.

Section router.
Context {Ch Q : Type} `{Mpsc Ch, OfflineQueueStore Q}.

(** [BrokerRouter], with the channels it shares with the registrations: a
    channel is named by its index in [rt_channels]. *)
Record BrokerRouter := mkRouter {
  rt_connections : gmap AgentId Connection;
  rt_maximum : nat;
  rt_online_depth : nat;
  rt_offline : Q;
  rt_ca_depth : nat;
  rt_generation : N;
  rt_ca_channel : Ch;
  rt_ca_receiver_taken : bool;
  rt_channels : gmap nat Ch;
  rt_next_channel : nat;
}.

Definition with_offline_store (maximum online_depth ca_queue_depth : nat) (offline : Q) :
    BrokerRouter :=
  mkRouter ∅ maximum online_depth offline ca_queue_depth 1
    (mpsc_channel (ca_queue_depth `max` 1)) false ∅ 0.

Definition set_connections (c : gmap AgentId Connection) (r : BrokerRouter) : BrokerRouter :=
  mkRouter c (rt_maximum r) (rt_online_depth r) (rt_offline r) (rt_ca_depth r)
    (rt_generation r) (rt_ca_channel r) (rt_ca_receiver_taken r) (rt_channels r)
    (rt_next_channel r).
Definition set_offline (q : Q) (r : BrokerRouter) : BrokerRouter :=
  mkRouter (rt_connections r) (rt_maximum r) (rt_online_depth r) q (rt_ca_depth r)
    (rt_generation r) (rt_ca_channel r) (rt_ca_receiver_taken r) (rt_channels r)
    (rt_next_channel r).
Definition set_ca_channel (c : Ch) (r : BrokerRouter) : BrokerRouter :=
  mkRouter (rt_connections r) (rt_maximum r) (rt_online_depth r) (rt_offline r)
    (rt_ca_depth r) (rt_generation r) c (rt_ca_receiver_taken r) (rt_channels r)
    (rt_next_channel r).
Definition set_taken (b : bool) (r : BrokerRouter) : BrokerRouter :=
  mkRouter (rt_connections r) (rt_maximum r) (rt_online_depth r) (rt_offline r)
    (rt_ca_depth r) (rt_generation r) (rt_ca_channel r) b (rt_channels r) (rt_next_channel r).
Definition set_generation (g : N) (r : BrokerRouter) : BrokerRouter :=
  mkRouter (rt_connections r) (rt_maximum r) (rt_online_depth r) (rt_offline r)
    (rt_ca_depth r) g (rt_ca_channel r) (rt_ca_receiver_taken r) (rt_channels r)
    (rt_next_channel r).
Definition set_channels (c : gmap nat Ch) (r : BrokerRouter) : BrokerRouter :=
  mkRouter (rt_connections r) (rt_maximum r) (rt_online_depth r) (rt_offline r)
    (rt_ca_depth r) (rt_generation r) (rt_ca_channel r) (rt_ca_receiver_taken r) c
    (rt_next_channel r).
Definition set_next_channel (n : nat) (r : BrokerRouter) : BrokerRouter :=
  mkRouter (rt_connections r) (rt_maximum r) (rt_online_depth r) (rt_offline r)
    (rt_ca_depth r) (rt_generation r) (rt_ca_channel r) (rt_ca_receiver_taken r)
    (rt_channels r) n.

(** [take_ca_requests]: [true] the first time, when the receiver is handed out. *)
Definition take_ca_requests (r : BrokerRouter) : bool * BrokerRouter :=
  (negb (rt_ca_receiver_taken r), set_taken true r).

(** [mpsc::channel(self.online_depth)] *)
Definition new_channel : M BrokerRouter RouteError nat :=
  depth ← gets rt_online_depth;
  id ← gets rt_next_channel;
  channels ← gets rt_channels;
  modify (set_channels (<[id := mpsc_channel depth]> channels));;
  modify (set_next_channel (S id));;
  mret id.

(** [self.generation.fetch_add(1, Relaxed)], wrapping. *)
Definition fetch_add_generation : M BrokerRouter RouteError N :=
  g ← gets rt_generation;
  modify (set_generation ((g + 1) mod 2 ^ 64)%N);;
  mret g.

(** [self.offline.take(identity)] *)
Definition offline_take (identity : AgentId) : M BrokerRouter RouteError (list frame) := fun r =>
  let '(pending, q) := oq_take identity (rt_offline r) in (Ok pending, set_offline q r).

Definition register (identity : AgentId) : M BrokerRouter RouteError AgentRegistration :=
  if bool_decide (identity = AgentId_CA) then fail RouteError.ReservedIdentity else
  maximum ← gets rt_maximum;
  online_depth ← gets rt_online_depth;
  if (maximum =? 0) || (online_depth =? 0) then fail RouteError.ConnectionLimit else
  connections ← gets rt_connections;
  if bool_decide (is_Some (connections !! identity)) then fail RouteError.DuplicateConnection else
  if maximum <=? size connections then fail RouteError.ConnectionLimit else
  generation ← fetch_add_generation;
  channel ← new_channel;
  modify (set_connections (<[identity := mkConnection generation channel]> connections));;
  pending ← offline_take identity;
  mret (mkRegistration identity generation pending channel).

Definition generation_matches (identity : AgentId) (generation : N) (r : BrokerRouter) : bool :=
  match rt_connections r !! identity with
  | Some connection => bool_decide (conn_generation connection = generation)
  | None => false
  end.

Definition unregister (identity : AgentId) (generation : N) (r : BrokerRouter) : BrokerRouter :=
  if generation_matches identity generation r
  then set_connections (delete identity (rt_connections r)) r else r.

(** [self.receiver.try_recv().ok()] on the shared channel. *)
Definition channel_try_recv (id : nat) (r : BrokerRouter) : option frame * BrokerRouter :=
  match rt_channels r !! id with
  | Some ch => let '(f, ch') := mpsc_try_recv ch in
               (f, set_channels (<[id := ch']> (rt_channels r)) r)
  | None => (None, r)
  end.

(** [AgentRegistration::try_recv]; [recv_best_effort] is the same step when it
    has something to return, and waits otherwise. *)
Definition try_recv (reg : AgentRegistration) (r : BrokerRouter) :
    option frame * AgentRegistration * BrokerRouter :=
  match reg_pending reg with
  | f :: pending =>
      (Some f, mkRegistration (reg_identity reg) (reg_generation reg) pending (reg_receiver reg), r)
  | [] => let '(f, r') := channel_try_recv (reg_receiver reg) r in (f, reg, r')
  end.

(** [while let Some(frame) = registration.try_recv() { unsent.push_back(frame) }] *)
Fixpoint drain (fuel : nat) (unsent : list frame) (reg : AgentRegistration) (r : BrokerRouter) :
    list frame * AgentRegistration * BrokerRouter :=
  match fuel with
  | O => (unsent, reg, r)
  | S fuel' =>
      match try_recv reg r with
      | (Some f, reg', r') => drain fuel' (unsent ++ [f]) reg' r'
      | (None, reg', r') => (unsent, reg', r')
      end
  end.

(** The loop runs at most once per frame the registration still holds. *)
Definition drain_fuel (reg : AgentRegistration) (r : BrokerRouter) : nat :=
  S (length (reg_pending reg) + rt_online_depth r).

Definition disconnect_and_requeue (reg : AgentRegistration) (first : option frame) :
    M BrokerRouter RouteError unit := fun r =>
  let unsent := match first with Some f => [f] | None => [] end in
  if negb (generation_matches (reg_identity reg) (reg_generation reg) r) then (Ok tt, r) else
  let r := set_connections (delete (reg_identity reg) (rt_connections r)) r in
  let '(unsent, _, r) := drain (drain_fuel reg r) unsent reg r in
  let '(res, q) := oq_prepend (reg_identity reg) unsent (rt_offline r) in
  (res, set_offline q r).

Definition is_request_type (m : MessageType) : bool :=
  match m with
  | MessageType.SetEnvironment | MessageType.Subscribe
  | MessageType.SubscribePermanent | MessageType.Publish => true
  | MessageType.PublicationResponse => false
  end.

(** [self.ca_sender.try_send(frame)] *)
Definition ca_try_send (f : frame) : M BrokerRouter RouteError unit := fun r =>
  let '(sent, ch) := mpsc_try_send f (rt_ca_channel r) in
  (match sent with TrySend.Sent => Ok tt | _ => Err RouteError.CaQueueFull end,
   set_ca_channel ch r).

Definition route_agent_request (connection_identity : AgentId) (f : frame) :
    M BrokerRouter RouteError unit :=
  envelope ← lift (map_err RouteError.Protocol (parse_envelope f));
  if negb (bool_decide (env_sender envelope = connection_identity))
  then fail (RouteError.Protocol Error.BadSignature) else
  if negb (is_request_type (env_message_type envelope)
           && negb (bool_decide (env_sender envelope = AgentId_CA))
           && bool_decide (env_recipient envelope = AgentId_CA))
  then fail (RouteError.Protocol Error.WrongMessageType) else
  ca_depth ← gets rt_ca_depth;
  if ca_depth =? 0 then fail RouteError.CaQueueFull else
  ca_try_send f.

(** The part of [route_ca_delivery] under the state lock: [None] when the frame
    was queued for a live connection, and otherwise what is left to be stored
    offline after the lock is dropped. *)
Definition route_ca_delivery_locked (f : frame) :
    M BrokerRouter RouteError (option (AgentId * frame)) :=
  envelope ← lift (map_err RouteError.Protocol (parse_envelope f));
  if negb (bool_decide (env_sender envelope = AgentId_CA))
     || bool_decide (env_recipient envelope = AgentId_CA)
     || negb (bool_decide (env_message_type envelope = MessageType.PublicationResponse))
  then fail (RouteError.Protocol Error.WrongMessageType) else
  let recipient := env_recipient envelope in
  connections ← gets rt_connections;
  match connections !! recipient with
  | None => mret (Some (recipient, f))
  | Some connection =>
      channels ← gets rt_channels;
      match channels !! conn_sender connection with
      | None => modify (set_connections (delete recipient connections));; mret (Some (recipient, f))
      | Some ch =>
          let '(sent, ch') := mpsc_try_send f ch in
          modify (set_channels (<[conn_sender connection := ch']> channels));;
          match sent with
          | TrySend.Sent => mret None
          | TrySend.Full => fail RouteError.OnlineQueueFull
          | TrySend.Closed =>
              modify (set_connections (delete recipient connections));;
              mret (Some (recipient, f))
          end
      end
  end.

(** [self.offline.enqueue(recipient, frame)] *)
Definition offline_enqueue (recipient : AgentId) (f : frame) : M BrokerRouter RouteError unit :=
  zoom rt_offline set_offline (oq_enqueue recipient f).

Definition route_ca_delivery (f : frame) : M BrokerRouter RouteError unit :=
  rest ← route_ca_delivery_locked f;
  match rest with
  | None => mret tt
  | Some (recipient, f') => offline_enqueue recipient f'
  end.

Definition route (connection_identity : AgentId) (f : frame) : M BrokerRouter RouteError unit :=
  if bool_decide (connection_identity = AgentId_CA) then route_ca_delivery f
  else route_agent_request connection_identity f.

Definition connection_count (r : BrokerRouter) : nat := size (rt_connections r).
Definition offline_len (identity : AgentId) (r : BrokerRouter) : nat :=
  oq_len identity (rt_offline r).

(** The registration is dropped: its receiver is closed. *)
Definition drop_registration (reg : AgentRegistration) (r : BrokerRouter) : BrokerRouter :=
  set_channels (alter mpsc_close (reg_receiver reg) (rt_channels r)) r.
End router.
Arguments BrokerRouter : clear implicits.

Definition DEFAULT_MAX_CONNECTIONS : nat := 1024.
Definition DEFAULT_QUEUE_DEPTH : nat := 64.
Definition DEFAULT_OFFLINE_QUEUE_DEPTH : nat := 64.
Definition DEFAULT_CA_QUEUE_DEPTH : nat := 256.

(** [BrokerRouter::with_limits] and [BrokerRouter::new] *)
Definition with_limits {Ch} `{Mpsc Ch} (maximum online_depth offline_depth ca_queue_depth : nat) :
    BrokerRouter Ch MemoryOfflineQueueStore :=
  with_offline_store maximum online_depth ca_queue_depth (MemoryOfflineQueueStore_new offline_depth).

Definition BrokerRouter_new {Ch} `{Mpsc Ch} (maximum queue_depth : nat) :
    BrokerRouter Ch MemoryOfflineQueueStore :=
  with_limits maximum queue_depth queue_depth DEFAULT_CA_QUEUE_DEPTH.

Definition BrokerRouter_default {Ch} `{Mpsc Ch} : BrokerRouter Ch MemoryOfflineQueueStore :=
  with_limits DEFAULT_MAX_CONNECTIONS DEFAULT_QUEUE_DEPTH DEFAULT_OFFLINE_QUEUE_DEPTH
    DEFAULT_CA_QUEUE_DEPTH.

(** ** The implementation of the offline store satisfies the contract *)

Definition memory_inv (s : MemoryOfflineQueueStore) : Prop :=
  forall a q, mq_queues s !! a = Some q -> length q <= mq_depth s.
Definition memory_queue (s : MemoryOfflineQueueStore) (a : AgentId) : list frame :=
  default [] (mq_queues s !! a).

#[export] Program Instance memory_offline_laws : OfflineQueueLaws MemoryOfflineQueueStore := {
  oq_inv := memory_inv;
  oq_queue := memory_queue;
  oq_depth := mq_depth;
}.
Next Obligation.
  intros q a Hq. unfold memory_queue. destruct (mq_queues q !! a) eqn:Ha; [|cbn; lia].
  by apply Hq in Ha.
Qed.
Next Obligation.
  intros q a. cbn. unfold memory_len, memory_queue. by destruct (_ !! a).
Qed.
Next Obligation.
  intros s a f r s' Hinv Hrun. cbn in Hrun. unfold memory_enqueue in Hrun.
  autorewrite with rust in Hrun. cbn [mq_depth mq_queues] in Hrun.
  destruct (Nat.eqb_spec (mq_depth s) 0) as [H0|H0].
  { injection Hrun as <- <-. split_and!; try done.
    by rewrite (proj2 (Nat.leb_le _ _)) by lia. }
  autorewrite with rust in Hrun. fold (memory_queue s a) in Hrun.
  destruct (Nat.leb_spec (mq_depth s) (length (memory_queue s a))) as [Hfull|Hroom].
  - injection Hrun as <- <-. split_and!; try done.
    + intros b q. cbn [mq_queues]. intros [[<- <-]|[_ Hb]]%lookup_insert_Some; [|by eapply Hinv].
      unfold memory_queue. cbn [mq_depth]. destruct (mq_queues s !! a) eqn:Ha; [|cbn; lia].
      by eapply Hinv.
    + intros b Hb. unfold memory_queue. cbn [mq_queues]. by rewrite lookup_insert_ne.
    + f_equal. unfold memory_queue at 1. cbn [mq_queues]. by rewrite lookup_insert_eq.
  - injection Hrun as <- <-. cbn [mq_queues mq_depth]. rewrite insert_insert_eq. split_and!; try done.
    + intros b q. cbn [mq_queues]. intros [[<- <-]|[_ Hb]]%lookup_insert_Some; [|by eapply Hinv].
      cbn [mq_depth]. rewrite length_app. cbn. lia.
    + intros b Hb. unfold memory_queue. cbn [mq_queues]. by rewrite lookup_insert_ne.
    + f_equal. unfold memory_queue at 1. cbn [mq_queues]. by rewrite lookup_insert_eq.
Qed.
Next Obligation.
  intros s a l s' Hinv [= <- <-]. split_and!; try done.
  - intros b q. cbn [mq_queues]. intros [_ Hb]%lookup_delete_Some. by eapply Hinv.
  - intros b Hb. unfold memory_queue. cbn [mq_queues]. by rewrite lookup_delete_ne.
  - unfold memory_queue. cbn [mq_queues]. by rewrite lookup_delete_eq.
Qed.
Next Obligation.
  intros s a l r s' Hinv Hrun. cbn in Hrun. unfold memory_prepend in Hrun.
  autorewrite with rust in Hrun. cbn zeta in Hrun. fold (memory_queue s a) in Hrun.
  set (kept := take (mq_depth s) (l ++ memory_queue s a)) in *.
  set (queues := match kept with [] => _ | _ => _ end) in Hrun.
  assert (Hlk : forall b, default [] (queues !! b) = if decide (b = a) then kept else memory_queue s b).
  { intros b. unfold queues. destruct (decide (b = a)) as [->|Hb].
    - destruct kept as [|x kept'] eqn:Hk; [by rewrite lookup_delete_eq|by rewrite lookup_insert_eq].
    - destruct kept as [|x kept'] eqn:Hk; [by rewrite lookup_delete_ne|].
      by rewrite lookup_insert_ne, lookup_delete_ne by done. }
  assert (Hs' : s' = mkMemoryOffline (mq_depth s) queues /\
    r = if mq_depth s <? length (l ++ memory_queue s a)
        then Err RouteError.OfflineQueueFull else Ok tt)
    by (destruct (_ <? _); by injection Hrun as <- <-).
  destruct Hs' as [-> ->]. split_and!; try done.
  - intros b q Hb. specialize (Hlk b). cbn [mq_queues mq_depth] in *. rewrite Hb in Hlk.
    cbn in Hlk. subst q. case_decide; [unfold kept; rewrite length_take; lia|].
    unfold memory_queue. destruct (mq_queues s !! b) eqn:Hq; [by eapply Hinv|cbn; lia].
  - intros b Hb. unfold memory_queue at 1. cbn [mq_queues]. by rewrite Hlk, decide_False.
  - f_equal. unfold memory_queue at 1. cbn [mq_queues]. by rewrite Hlk, decide_True.
Qed.

(** A bounded FIFO channel, an instance of the channel interface. *)
Record ListChannel := mkListChannel { lc_queue : list frame; lc_capacity : nat; lc_closed : bool }.

#[export] Instance list_mpsc : Mpsc ListChannel := {
  mpsc_channel n := mkListChannel [] n false;
  mpsc_try_send f c :=
    if lc_closed c then (TrySend.Closed, c)
    else if lc_capacity c <=? length (lc_queue c) then (TrySend.Full, c)
    else (TrySend.Sent, mkListChannel (lc_queue c ++ [f]) (lc_capacity c) (lc_closed c));
  mpsc_try_recv c :=
    match lc_queue c with
    | [] => (None, c)
    | f :: q => (Some f, mkListChannel q (lc_capacity c) (lc_closed c))
    end;
  mpsc_close c := mkListChannel [] (lc_capacity c) true;
}.

#[export] Program Instance list_mpsc_laws : MpscLaws ListChannel := {
  mpsc_queue := lc_queue;
  mpsc_capacity := lc_capacity;
  mpsc_closed := lc_closed;
}.
Next Obligation. done. Qed.
Next Obligation.
  intros f c r c' Hs. cbn in Hs. destruct (lc_closed c) eqn:Hc; [by injection Hs as <- <-|].
  destruct (_ <=? _); injection Hs as <- <-; done.
Qed.
Next Obligation.
  intros c r c' Hs. cbn in Hs. destruct (lc_queue c) eqn:Hc; injection Hs as <- <-; cbn; by rewrite ?Hc.
Qed.
Next Obligation. done. Qed.

(** ** The router with the tasks of the connected agents

    The task brokerd spawns for an agent socket owns the registration; between
    taking a delivery and learning the outcome of the socket write it holds that
    frame.  [route_ca_delivery] releases the lock of the router before it stores a
    frame offline, so it runs in two steps, between which anything can happen; the
    frames between the two are [bk_storing].  The frames written to an agent's
    sockets, and what became of each delivery accepted for it, are kept beside the
    state. *)

Record Task := mkTask { task_registration : AgentRegistration; task_undelivered : option frame }.

Section system.
Context {Ch Q : Type} `{HM : MpscLaws Ch, HQ : OfflineQueueLaws Q}.

Record Broker := mkBroker {
  bk_router : BrokerRouter Ch Q;
  bk_tasks : gmap AgentId Task;
  bk_storing : list (AgentId * frame);
  bk_ledger : AgentId -> Ledger;
  bk_written : AgentId -> list frame;
}.

Definition connected (b : Broker) (id : AgentId) : Prop := is_Some (rt_connections (bk_router b) !! id).
#[export] Instance connected_dec b id : Decision (connected b id).
Proof. unfold connected. apply _. Defined.

(** What can happen next, in any order: a socket says hello; the CA link brings a
    delivery, which goes to the agent's channel or is still to be stored; one of
    the deliveries still to be stored is; a task takes a delivery, completes a
    write, forwards a request or ends (write failure, end of stream, timeout); the
    CA link takes a request. *)
Inductive Event :=
| Hello (identity : AgentId)
| Deliver (f : frame)
| Stores (k : nat)
| Take (identity : AgentId)
| Written (identity : AgentId)
| Request (identity : AgentId) (f : frame)
| Close (identity : AgentId)
| CaTakes.

Definition append_log (id : AgentId) (f : frame) (log : AgentId -> list frame) :
    AgentId -> list frame := <[id := log id ++ [f]]> log.

(** The end of a task: [disconnect_and_requeue] and the drop of the
    registration.  The frames a failed requeue drops are marked as lost. *)
Definition close_task (id : AgentId) (t : Task) (undelivered : option frame) (b : Broker) : Broker :=
  let '(res, r) := disconnect_and_requeue (task_registration t) undelivered (bk_router b) in
  let r := drop_registration (task_registration t) r in
  let ledger :=
    match res with
    | Ok _ => bk_ledger b
    | _ => <[id := lose (length (bk_written b id) + offline_len id r) (bk_ledger b id)]> (bk_ledger b)
    end in
  mkBroker r (delete id (bk_tasks b)) (bk_storing b) ledger (bk_written b).

Definition broker_step (e : Event) (b : Broker) : Broker :=
  match e with
  | Hello id =>
      match register id (bk_router b) with
      | (Ok reg, r) =>
          mkBroker r (<[id := mkTask reg None]> (bk_tasks b)) (bk_storing b) (bk_ledger b) (bk_written b)
      | (_, r) => mkBroker r (bk_tasks b) (bk_storing b) (bk_ledger b) (bk_written b)
      end
  | Deliver f =>
      match route_ca_delivery_locked f (bk_router b) with
      | (Ok None, r) =>
          mkBroker r (bk_tasks b) (bk_storing b)
            (match parse_envelope f with
             | Ok env =>
                 let id := env_recipient env in
                 <[id := accept_online (offline_len id r) f (bk_ledger b id)]> (bk_ledger b)
             | _ => bk_ledger b
             end) (bk_written b)
      | (Ok (Some rest), r) =>
          mkBroker r (bk_tasks b) (bk_storing b ++ [rest]) (bk_ledger b) (bk_written b)
      | (_, r) => mkBroker r (bk_tasks b) (bk_storing b) (bk_ledger b) (bk_written b)
      end
  | Stores k =>
      match bk_storing b !! k with
      | Some (id, f) =>
          let '(res, r) := offline_enqueue id f (bk_router b) in
          mkBroker r (bk_tasks b) (delete k (bk_storing b))
            (match res with
             | Ok _ =>
                 <[id := accept_stored (bool_decide (connected b id)) f (bk_ledger b id)]>
                   (bk_ledger b)
             | _ => bk_ledger b
             end) (bk_written b)
      | None => b
      end
  | Take id =>
      match bk_tasks b !! id with
      | Some (mkTask reg None) =>
          let '(f, reg', r) := try_recv reg (bk_router b) in
          mkBroker r (<[id := mkTask reg' f]> (bk_tasks b)) (bk_storing b) (bk_ledger b) (bk_written b)
      | _ => b
      end
  | Written id =>
      match bk_tasks b !! id with
      | Some (mkTask reg (Some f)) =>
          mkBroker (bk_router b) (<[id := mkTask reg None]> (bk_tasks b)) (bk_storing b) (bk_ledger b)
            (append_log id f (bk_written b))
      | _ => b
      end
  | Request id f =>
      match bk_tasks b !! id with
      | Some (mkTask reg None as t) =>
          match route_agent_request id f (bk_router b) with
          | (Ok _, r) => mkBroker r (bk_tasks b) (bk_storing b) (bk_ledger b) (bk_written b)
          | (_, r) =>
              close_task id t None (mkBroker r (bk_tasks b) (bk_storing b) (bk_ledger b) (bk_written b))
          end
      | _ => b
      end
  | Close id =>
      match bk_tasks b !! id with
      | Some t => close_task id t (task_undelivered t) b
      | None => b
      end
  | CaTakes =>
      mkBroker (set_ca_channel (mpsc_try_recv (rt_ca_channel (bk_router b))).2 (bk_router b)) (bk_tasks b)
        (bk_storing b) (bk_ledger b) (bk_written b)
  end.

Definition broker_run (es : list Event) (b : Broker) : Broker :=
  foldl (fun b e => broker_step e b) b es.

Definition broker_init (maximum online_depth ca_queue_depth : nat) (q : Q) : Broker :=
  mkBroker (with_offline_store maximum online_depth ca_queue_depth q) ∅ [] (fun _ => ledger_empty)
    (fun _ => []).

(** ** Invariant *)

Definition channel_frames (r : BrokerRouter Ch Q) (id : nat) : list frame :=
  match rt_channels r !! id with Some ch => mpsc_queue ch | None => [] end.

(** The frames a task still holds for its agent, oldest first. *)
Definition task_frames (r : BrokerRouter Ch Q) (t : Task) : list frame :=
  match task_undelivered t with Some f => [f] | None => [] end
    ++ reg_pending (task_registration t)
    ++ channel_frames r (reg_receiver (task_registration t)).

(** What the broker has for an agent: with its task, and offline. *)
Definition held (b : Broker) (id : AgentId) : list frame :=
  match bk_tasks b !! id with
  | Some t => task_frames (bk_router b) t
  | None => []
  end.
Definition stored (b : Broker) (id : AgentId) : list frame := oq_queue (rt_offline (bk_router b)) id.
Definition unsent (b : Broker) (id : AgentId) : list frame := held b id ++ stored b id.

(** A live channel of the router. *)
Definition channel_ok (r : BrokerRouter Ch Q) (ch : Ch) : Prop :=
  mpsc_closed ch = false /\ mpsc_capacity ch = rt_online_depth r /\
  length (mpsc_queue ch) <= rt_online_depth r.

(** Every task has its connection and its live channel, and channels are not
    shared. *)
Record structure_inv (r : BrokerRouter Ch Q) (tasks : gmap AgentId Task) : Prop := {
  inv_offline : oq_inv (rt_offline r);
  inv_tasks id :
    rt_connections r !! id =
      (fun t => mkConnection (reg_generation (task_registration t))
                  (reg_receiver (task_registration t))) <$> tasks !! id;
  inv_identity id t : tasks !! id = Some t -> reg_identity (task_registration t) = id;
  inv_channel id t : tasks !! id = Some t -> exists ch,
    rt_channels r !! reg_receiver (task_registration t) = Some ch /\ channel_ok r ch;
  inv_fresh id t : tasks !! id = Some t ->
    reg_receiver (task_registration t) < rt_next_channel r;
  inv_distinct id1 id2 t1 t2 :
    tasks !! id1 = Some t1 -> tasks !! id2 = Some t2 ->
    reg_receiver (task_registration t1) = reg_receiver (task_registration t2) -> id1 = id2;
  inv_not_ca : tasks !! AgentId_CA = None;
  inv_maximum : size (rt_connections r) <= rt_maximum r;
  inv_ca_capacity : mpsc_capacity (rt_ca_channel r) = rt_ca_depth r `max` 1;
  inv_ca_bound : length (mpsc_queue (rt_ca_channel r)) <= mpsc_capacity (rt_ca_channel r);
}.

(** Accepted CA deliveries. *)
Definition delivery_ok (e : EnvelopeRef) : Prop :=
  env_sender e = AgentId_CA /\ env_recipient e <> AgentId_CA /\
  env_message_type e = MessageType.PublicationResponse.

#[local] Instance delivery_ok_dec e : Decision (delivery_ok e).
Proof. unfold delivery_ok. apply _. Defined.

(** A frame still to be stored is a delivery, with its recipient. *)
Definition storing_ok (rest : AgentId * frame) : Prop :=
  exists e, parse_envelope rest.2 = Ok e /\ delivery_ok e /\ env_recipient e = rest.1.

(** The ledger of each agent accounts for what was written to its sockets and for
    what the broker still has for it. *)
Definition history_inv (b : Broker) : Prop :=
  (forall id, ledger_inv (bk_ledger b id) (bk_written b id ++ held b id) (stored b id) (connected b id)) /\
  Forall storing_ok (bk_storing b).

Definition broker_inv (b : Broker) : Prop :=
  structure_inv (bk_router b) (bk_tasks b) /\ history_inv b.

Lemma broker_init_inv maximum online_depth ca_queue_depth q :
  oq_inv q -> (forall id, oq_queue q id = []) ->
  broker_inv (broker_init maximum online_depth ca_queue_depth q).
Proof.
  intros Hq Hempty. split; [|split; [|done]].
  - destruct (mpsc_channel_spec (ca_queue_depth `max` 1)) as (Hcq & Hcc & _); [lia|].
    split; try done; cbn; [rewrite map_size_empty; lia|]. rewrite Hcq. cbn. lia.
  - intros id. unfold held, stored, broker_init. cbn. rewrite lookup_empty, Hempty. apply ledger_empty_inv.
Qed.

(** ** The operations on the router *)

Lemma register_run id (r : BrokerRouter Ch Q) res r' :
  register id r = (res, r') ->
  match res with
  | Ok reg =>
      id <> AgentId_CA /\ rt_connections r !! id = None /\
      size (rt_connections r) < rt_maximum r /\ 0 < rt_online_depth r /\
      exists pending q, oq_take id (rt_offline r) = (pending, q) /\
        reg = mkRegistration id (rt_generation r) pending (rt_next_channel r) /\
        r' = mkRouter (<[id := mkConnection (rt_generation r) (rt_next_channel r)]> (rt_connections r))
               (rt_maximum r) (rt_online_depth r) q (rt_ca_depth r)
               ((rt_generation r + 1) mod 2 ^ 64)%N (rt_ca_channel r) (rt_ca_receiver_taken r)
               (<[rt_next_channel r := mpsc_channel (rt_online_depth r)]> (rt_channels r))
               (S (rt_next_channel r))
  | Err e => r' = r /\
      ~ (id <> AgentId_CA /\ rt_connections r !! id = None /\
         size (rt_connections r) < rt_maximum r /\ 0 < rt_online_depth r) /\
      e = (if decide (id = AgentId_CA) then RouteError.ReservedIdentity
       else if decide (rt_maximum r = 0 \/ rt_online_depth r = 0) then RouteError.ConnectionLimit
       else if decide (is_Some (rt_connections r !! id)) then RouteError.DuplicateConnection
       else RouteError.ConnectionLimit)
  | Panic => False
  end.
Proof.
  unfold register. case_bool_decide as Hca;
    [intros [= <- <-]; rewrite decide_True by done; naive_solver|].
  autorewrite with rust.
  destruct (_ || _) eqn:Hz; [intros [= <- <-]|].
  { apply orb_true_iff in Hz. rewrite !Nat.eqb_eq in Hz.
    rewrite decide_False, decide_True by done. split_and!; [done|lia|done]. }
  apply orb_false_iff in Hz as [Hm Hd]. rewrite Nat.eqb_neq in Hm, Hd.
  autorewrite with rust. case_bool_decide as Hin; [intros [= <- <-]|].
  { rewrite decide_False, decide_False, decide_True by (done || lia).
    split_and!; [done| |done]. intros (_ & Hn & _). rewrite Hn in Hin. by destruct Hin. }
  destruct (Nat.leb_spec (rt_maximum r) (size (rt_connections r))) as [Hfull|Hroom].
  { intros [= <- <-]. rewrite decide_False, decide_False, decide_False by (done || lia).
    split_and!; [done|lia|done]. }
  unfold fetch_add_generation, new_channel, offline_take. autorewrite with rust.
  cbn [rt_online_depth rt_next_channel rt_channels set_generation set_channels set_next_channel
    rt_offline set_connections rt_maximum rt_ca_depth rt_generation rt_ca_channel
    rt_ca_receiver_taken].
  rewrite M_bind_run. cbn [rt_offline set_connections set_next_channel set_channels set_generation].
  destruct (oq_take id (rt_offline r)) as [pending q] eqn:Htake.
  intros [= <- <-]. rewrite <-eq_None_not_Some in Hin.
  split_and!; [done|done|lia|lia|]. by exists pending, q.
Qed.

Lemma channel_try_recv_run c (r : BrokerRouter Ch Q) ch :
  rt_channels r !! c = Some ch ->
  exists ch', channel_try_recv c r
    = (head (mpsc_queue ch), set_channels (<[c := ch']> (rt_channels r)) r) /\
    mpsc_queue ch' = tail (mpsc_queue ch) /\ mpsc_capacity ch' = mpsc_capacity ch /\
    mpsc_closed ch' = mpsc_closed ch.
Proof.
  intros Hc. unfold channel_try_recv. rewrite Hc.
  destruct (mpsc_try_recv ch) as [f ch'] eqn:Hr. exists ch'.
  apply mpsc_try_recv_spec in Hr as (Hcap & Hcl & Hq).
  by destruct (mpsc_queue ch); injection Hq as -> ->.
Qed.

Lemma set_channels_twice c1 c2 (r : BrokerRouter Ch Q) :
  set_channels c2 (set_channels c1 r) = set_channels c2 r.
Proof. done. Qed.

Lemma drain_run fuel acc reg (r : BrokerRouter Ch Q) ch :
  rt_channels r !! reg_receiver reg = Some ch ->
  length (reg_pending reg) + length (mpsc_queue ch) < fuel ->
  exists reg' ch',
    drain fuel acc reg r
    = (acc ++ reg_pending reg ++ mpsc_queue ch, reg',
       set_channels (<[reg_receiver reg := ch']> (rt_channels r)) r).
Proof.
  intros Hc Hfuel. destruct reg as [id g pending c]. cbn [reg_pending reg_receiver] in *.
  revert fuel acc Hfuel. induction pending as [|f pending IH]; intros fuel acc Hfuel.
  - cbn [length app] in *. remember (mpsc_queue ch) as q eqn:Hq. symmetry in Hq.
    revert r ch Hc Hq fuel acc Hfuel.
    induction q as [|f q IH]; intros r ch Hc Hq [|fuel] acc Hfuel; cbn [length] in Hfuel; [lia| |lia|];
      cbn [drain try_recv reg_pending reg_receiver];
      destruct (channel_try_recv_run c r ch Hc) as (ch' & Hr & Hq' & _); rewrite Hr, Hq; cbn [head].
    + do 2 eexists. by rewrite app_nil_r.
    + rewrite Hq in Hq'. cbn [tail] in Hq'.
      destruct (IH (set_channels (<[c:=ch']> (rt_channels r)) r) ch'
        (lookup_insert_eq _ _ _) Hq' fuel (acc ++ [f]) ltac:(lia)) as (reg' & ch2 & Hd).
      exists reg', ch2. rewrite Hd, set_channels_twice, <-app_assoc. cbn [rt_channels set_channels].
      by rewrite insert_insert_eq.
  - destruct fuel as [|fuel]; cbn [length] in Hfuel; [lia|].
    cbn [drain try_recv reg_pending reg_identity reg_generation reg_receiver].
    destruct (IH fuel (acc ++ [f]) ltac:(lia)) as (reg' & ch2 & Hd).
    exists reg', ch2. by rewrite Hd, <-app_assoc.
Qed.

Lemma disconnect_run reg first (r : BrokerRouter Ch Q) ch :
  rt_channels r !! reg_receiver reg = Some ch ->
  length (mpsc_queue ch) <= rt_online_depth r ->
  if generation_matches (reg_identity reg) (reg_generation reg) r then
    exists res q ch',
      oq_prepend (reg_identity reg)
        (match first with Some f => [f] | None => [] end ++ reg_pending reg ++ mpsc_queue ch)
        (rt_offline r) = (res, q) /\
      disconnect_and_requeue reg first r
      = (res, set_offline q (set_channels (<[reg_receiver reg := ch']> (rt_channels r))
           (set_connections (delete (reg_identity reg) (rt_connections r)) r)))
  else disconnect_and_requeue reg first r = (Ok tt, r).
Proof.
  intros Hc Hlen. unfold disconnect_and_requeue.
  destruct (generation_matches _ _ r); cbn [negb]; [|done].
  set (r1 := set_connections _ r).
  destruct (drain_run (drain_fuel reg r1) (match first with Some f => [f] | None => [] end)
    reg r1 ch) as (reg' & ch' & Hd); [done|unfold drain_fuel; cbn; lia|].
  rewrite Hd. cbn [rt_offline set_channels set_connections].
  destruct (oq_prepend _ _ _) as [res q] eqn:Hp. by exists res, q, ch'.
Qed.

Lemma delivery_locked_run f (r : BrokerRouter Ch Q) :
  match parse_envelope f with
  | Err x => route_ca_delivery_locked f r = (Err (RouteError.Protocol x), r)
  | Panic => False
  | Ok e =>
      if decide (delivery_ok e) then
        match rt_connections r !! env_recipient e with
        | None => route_ca_delivery_locked f r = (Ok (Some (env_recipient e, f)), r)
        | Some c =>
            forall ch sent ch', rt_channels r !! conn_sender c = Some ch ->
            mpsc_try_send f ch = (sent, ch') ->
            let r' := set_channels (<[conn_sender c := ch']> (rt_channels r)) r in
            route_ca_delivery_locked f r =
              match sent with
              | TrySend.Sent => (Ok None, r')
              | TrySend.Full => (Err RouteError.OnlineQueueFull, r')
              | TrySend.Closed =>
                  (Ok (Some (env_recipient e, f)),
                   set_connections (delete (env_recipient e) (rt_connections r)) r')
              end
        end
      else route_ca_delivery_locked f r
           = (Err (RouteError.Protocol Error.WrongMessageType), r)
  end.
Proof.
  unfold route_ca_delivery_locked.
  destruct (parse_envelope f) as [e| |] eqn:Hparse; cbn [map_err]; autorewrite with rust.
  - case_decide as Hok.
    + destruct Hok as (Hs & Hr & Ht).
      rewrite (bool_decide_eq_true_2 _ Hs), (bool_decide_eq_false_2 _ Hr),
        (bool_decide_eq_true_2 _ Ht). cbn [negb orb]. autorewrite with rust.
      destruct (rt_connections r !! env_recipient e) as [c|] eqn:Hc; [|done].
      intros ch sent ch' Hch Hsend. autorewrite with rust. rewrite Hch, Hsend.
      autorewrite with rust. destruct sent; [done|done|]. by autorewrite with rust.
    + destruct (_ || _ || _) eqn:Hg; [done|]. exfalso. apply Hok.
      rewrite !orb_false_iff, !negb_false_iff, !bool_decide_eq_true, bool_decide_eq_false in Hg.
      by destruct Hg as [[? ?] ?].
  - done.
  - by apply parse_envelope_no_panic in Hparse.
Qed.

(** ** Preservation of the structure *)

Section structure.
Context (r : BrokerRouter Ch Q) (tasks : gmap AgentId Task).
Hypothesis (Hs : structure_inv r tasks).

Lemma struct_channel id t ch :
  tasks !! id = Some t -> channel_ok r ch ->
  structure_inv
    (set_channels (<[reg_receiver (task_registration t) := ch]> (rt_channels r)) r) tasks.
Proof.
  intros Ht Hch. destruct Hs. split; try done.
  intros id' t' Ht'. cbn [rt_channels set_channels].
  destruct (decide (reg_receiver (task_registration t) = reg_receiver (task_registration t')))
    as [<-|Hne]; [exists ch; by rewrite lookup_insert_eq|].
  rewrite lookup_insert_ne by done. by apply (inv_channel0 id').
Qed.

Lemma struct_offline q :
  oq_inv q -> structure_inv (set_offline q r) tasks.
Proof. intros Hq. destruct Hs. by split. Qed.

Lemma struct_ca ch :
  mpsc_capacity ch = mpsc_capacity (rt_ca_channel r) ->
  length (mpsc_queue ch) <= mpsc_capacity ch ->
  structure_inv (set_ca_channel ch r) tasks.
Proof. intros Hcap Hlen. destruct Hs. split; try done. cbn. congruence. Qed.

Lemma struct_task id t t' :
  tasks !! id = Some t ->
  reg_identity (task_registration t') = reg_identity (task_registration t) ->
  reg_generation (task_registration t') = reg_generation (task_registration t) ->
  reg_receiver (task_registration t') = reg_receiver (task_registration t) ->
  structure_inv r (<[id := t']> tasks).
Proof.
  intros Ht Hi Hg Hr. destruct Hs.
  assert (Hlk : forall id' t2, <[id := t']> tasks !! id' = Some t2 -> exists t1,
    tasks !! id' = Some t1 /\
    reg_identity (task_registration t2) = reg_identity (task_registration t1) /\
    reg_receiver (task_registration t2) = reg_receiver (task_registration t1)).
  { intros id' t2 [[<- <-]|[_ H2]]%lookup_insert_Some; [by exists t|by exists t2]. }
  split; try done.
  - intros id'. rewrite inv_tasks0. destruct (decide (id = id')) as [<-|].
    + rewrite Ht, lookup_insert_eq. cbn. by rewrite Hg, Hr.
    + by rewrite lookup_insert_ne.
  - intros id' t2 (t1 & H1 & -> & _)%Hlk. by eapply inv_identity0.
  - intros id' t2 (t1 & H1 & _ & ->)%Hlk. by eapply inv_channel0.
  - intros id' t2 (t1 & H1 & _ & ->)%Hlk. by eapply inv_fresh0.
  - intros id1 id2 t1 t2 (t3 & H1 & _ & ->)%Hlk (t4 & H2 & _ & ->)%Hlk. by eapply inv_distinct0.
  - destruct (decide (id = AgentId_CA)) as [->|]; [congruence|by rewrite lookup_insert_ne].
Qed.

Lemma struct_delete id :
  structure_inv (set_connections (delete id (rt_connections r)) r) (delete id tasks).
Proof.
  destruct Hs. split; cbn [rt_connections rt_offline rt_channels rt_next_channel rt_maximum
    set_connections]; try done.
  - intros id'. destruct (decide (id = id')) as [<-|].
    + by rewrite !lookup_delete_eq.
    + by rewrite !lookup_delete_ne.
  - intros id' t [_ Ht]%lookup_delete_Some. by apply inv_identity0.
  - intros id' t [_ Ht]%lookup_delete_Some. by eapply inv_channel0.
  - intros id' t [_ Ht]%lookup_delete_Some. by eapply inv_fresh0.
  - intros id1 id2 t1 t2 [_ H1]%lookup_delete_Some [_ H2]%lookup_delete_Some.
    by apply inv_distinct0.
  - by apply lookup_delete_None; right.
  - etrans; [|exact inv_maximum0]. apply map_subseteq_size, delete_subseteq.
Qed.

(** Channels no task receives from do not matter. *)
Lemma struct_unused_channel k ch :
  (forall id t, tasks !! id = Some t -> reg_receiver (task_registration t) <> k) ->
  structure_inv (set_channels (<[k := ch]> (rt_channels r)) r) tasks.
Proof.
  intros Hk. destruct Hs. split; try done.
  intros id t Ht. cbn [rt_channels set_channels].
  rewrite lookup_insert_ne by (intros ->; by eapply Hk). by eapply inv_channel0.
Qed.
End structure.

(** The frames of a task after its own channel changed. *)
Lemma task_frames_set_channel r (t t' : Task) ch :
  task_frames (set_channels (<[reg_receiver (task_registration t) := ch]> (rt_channels r)) r) t'
  = if decide (reg_receiver (task_registration t) = reg_receiver (task_registration t'))
    then match task_undelivered t' with Some f => [f] | None => [] end
           ++ reg_pending (task_registration t') ++ mpsc_queue ch
    else task_frames r t'.
Proof.
  unfold task_frames, channel_frames. cbn [rt_channels set_channels]. case_decide as Heq.
  - by rewrite Heq, lookup_insert_eq.
  - by rewrite lookup_insert_ne.
Qed.

Lemma broker_eta (b : Broker) :
  mkBroker (bk_router b) (bk_tasks b) (bk_storing b) (bk_ledger b) (bk_written b) = b.
Proof. by destruct b. Qed.

(** ** What an event means for one agent *)

(** The events that may end the agent's connection. *)
Definition closes (id : AgentId) (e : Event) : Prop :=
  match e with Close id' | Request id' _ => id' = id | _ => False end.

(** What was written to its sockets or waits in its queues, what is stored offline for
    it, and its ledger. *)
Inductive agent_step (e : Event) (id : AgentId) (b b' : Broker) : Prop :=
| step_quiet :
    bk_written b' id ++ held b' id = bk_written b id ++ held b id -> stored b' id = stored b id ->
    bk_ledger b' id = bk_ledger b id -> (connected b' id <-> connected b id) -> agent_step e id b b'
| step_opened :
    e = Hello id -> ~ connected b id ->
    bk_written b' id ++ held b' id = (bk_written b id ++ held b id) ++ stored b id -> stored b' id = [] ->
    bk_ledger b' id = bk_ledger b id -> agent_step e id b b'
| step_online f :
    e = Deliver f -> connected b id -> connected b' id ->
    bk_written b' id ++ held b' id = (bk_written b id ++ held b id) ++ [f] -> stored b' id = stored b id ->
    bk_ledger b' id = accept_online (length (stored b id)) f (bk_ledger b id) -> agent_step e id b b'
| step_stored k f :
    e = Stores k -> bk_storing b !! k = Some (id, f) ->
    bk_written b' id ++ held b' id = bk_written b id ++ held b id -> stored b' id = stored b id ++ [f] ->
    bk_ledger b' id = accept_stored (bool_decide (connected b id)) f (bk_ledger b id) ->
    (connected b' id <-> connected b id) -> agent_step e id b b'
| step_closed :
    closes id e -> ~ connected b' id -> bk_written b' id = bk_written b id -> held b' id = [] ->
    stored b' id = take (oq_depth (rt_offline (bk_router b))) (unsent b id) ->
    bk_ledger b' id =
      (if oq_depth (rt_offline (bk_router b)) <? length (unsent b id)
       then lose (length (bk_written b id) + length (stored b' id)) (bk_ledger b id) else bk_ledger b id) ->
    agent_step e id b b'.

Lemma step_same e id b b' :
  held b' id = held b id -> bk_written b' id = bk_written b id -> stored b' id = stored b id ->
  bk_ledger b' id = bk_ledger b id ->
  rt_connections (bk_router b') !! id = rt_connections (bk_router b) !! id -> agent_step e id b b'.
Proof. intros Hh Hw Hs Hl Hc. apply step_quiet; unfold connected; by rewrite ?Hh, ?Hw, ?Hc. Qed.

(** The frames of an agent whose task and channel are as before. *)
Lemma held_same b b' id :
  bk_tasks b' !! id = bk_tasks b !! id ->
  (forall t, bk_tasks b !! id = Some t ->
     rt_channels (bk_router b') !! reg_receiver (task_registration t)
     = rt_channels (bk_router b) !! reg_receiver (task_registration t)) ->
  held b' id = held b id.
Proof.
  intros Ht Hc. unfold held. rewrite Ht. destruct (bk_tasks b !! id) as [t|]; [|done].
  unfold task_frames, channel_frames. by rewrite Hc.
Qed.

Abbreviation structured b := (structure_inv (bk_router b) (bk_tasks b)).

Lemma connected_task b id : structured b -> connected b id <-> is_Some (bk_tasks b !! id).
Proof. intros Hs. unfold connected. by rewrite (inv_tasks _ _ Hs), fmap_is_Some. Qed.

Lemma task_generation b id t :
  structured b -> bk_tasks b !! id = Some t ->
  generation_matches (reg_identity (task_registration t))
    (reg_generation (task_registration t)) (bk_router b) = true.
Proof.
  intros Hs Ht. unfold generation_matches.
  rewrite (inv_identity _ _ Hs id t Ht), (inv_tasks _ _ Hs), Ht. by apply bool_decide_eq_true_2.
Qed.

(** A change of one task's channel concerns no other task. *)
Lemma other_channel b id t id' t' : structured b -> bk_tasks b !! id = Some t -> bk_tasks b !! id' = Some t' ->
  id <> id' -> reg_receiver (task_registration t) <> reg_receiver (task_registration t').
Proof. intros Hs Ht Ht' Hne Heq. apply Hne. by eapply inv_distinct. Qed.

(** What one event does to the router and to every agent. *)
Definition step_ok (e : Event) (b b' : Broker) : Prop :=
  structured b' /\ forall id, agent_step e id b b'.

Lemma step_ok_same e b : structured b -> step_ok e b b.
Proof. intros Hs. split; [done|]. intros id. by apply step_same. Qed.

Lemma step_take b id : structured b -> step_ok (Take id) b (broker_step (Take id) b).
Proof.
  intros Hs. cbn [broker_step].
  destruct (bk_tasks b !! id) as [[reg [f|]]|] eqn:Ht; [by apply step_ok_same| |by apply step_ok_same].
  unfold try_recv. destruct (reg_pending reg) as [|f pending] eqn:Hp.
  - destruct (inv_channel _ _ Hs id _ Ht) as (ch & Hch & Hopen & Hcap & Hlen).
    cbn [task_registration] in Hch.
    destruct (channel_try_recv_run _ _ _ Hch) as (ch' & -> & Hq & Hcap' & Hcl').
    pose proof (struct_channel _ _ Hs id _ ch' Ht) as Hs'. cbn [task_registration] in Hs'. split.
    + eapply struct_task; [|exact Ht|done..]. apply Hs'.
      split_and!; [congruence|congruence|]. rewrite Hq.
      destruct (mpsc_queue ch); cbn [tail length] in *; lia.
    + intros id'. apply step_same; try done. destruct (decide (id = id')) as [<-|Hne].
      * unfold held. cbn [bk_tasks bk_router]. rewrite Ht, lookup_insert_eq.
        rewrite (task_frames_set_channel _ (mkTask reg None)), decide_True by done.
        unfold task_frames, channel_frames. cbn [task_undelivered task_registration]. rewrite Hp, Hq, Hch.
        by destruct (mpsc_queue ch).
      * apply held_same; cbn [bk_tasks bk_router rt_channels set_channels]; [by rewrite lookup_insert_ne|].
        intros t' Ht'. rewrite lookup_insert_ne; [done|]. by apply (other_channel b id (mkTask reg None) id').
  - split; [by eapply struct_task|]. intros id'. apply step_same; try done.
    unfold held. cbn [bk_tasks bk_router]. destruct (decide (id = id')) as [<-|Hne].
    + rewrite lookup_insert_eq, Ht. unfold task_frames. cbn. by rewrite Hp.
    + by rewrite lookup_insert_ne.
Qed.

Lemma step_written b id : structured b -> step_ok (Written id) b (broker_step (Written id) b).
Proof.
  intros Hs. cbn [broker_step].
  destruct (bk_tasks b !! id) as [[reg [f|]]|] eqn:Ht; [|by apply step_ok_same..].
  split; [by eapply struct_task|]. intros id'. apply step_quiet; try done.
  unfold append_log, held. cbn [bk_written bk_tasks bk_router]. destruct (decide (id = id')) as [<-|Hne].
  - by rewrite lookup_insert_eq, fn_lookup_insert, Ht, <-app_assoc.
  - by rewrite lookup_insert_ne, fn_lookup_insert_ne.
Qed.

Lemma step_hello b id : structured b -> step_ok (Hello id) b (broker_step (Hello id) b).
Proof.
  intros Hs. cbn [broker_step].
  destruct (register id (bk_router b)) as [res r'] eqn:Hreg.
  apply register_run in Hreg.
  destruct res as [reg|e|]; [|destruct Hreg as [-> _]; rewrite broker_eta; by apply step_ok_same|done].
  destruct Hreg as (Hca & Hnone & Hmax & Hdepth & pending & q & Htake & -> & ->).
  pose proof (inv_tasks _ _ Hs id) as Hid. rewrite Hnone in Hid.
  destruct (bk_tasks b !! id) as [t|] eqn:Ht; [done|]. clear Hid.
  apply oq_take_spec in Htake as (Hq & _ & Hother & -> & Hempty); [|by eapply inv_offline].
  destruct (mpsc_channel_spec (rt_online_depth (bk_router b)) Hdepth) as (Hcq & Hcc & Hco).
  split; cbn [bk_router bk_tasks].
  - destruct Hs. split; cbn [rt_connections rt_offline rt_channels rt_next_channel rt_maximum
      rt_online_depth]; try done.
    + intros id'. destruct (decide (id = id')) as [<-|]; [by rewrite !lookup_insert_eq|].
      by rewrite !lookup_insert_ne.
    + intros id' t [[<- <-]|[_ H']]%lookup_insert_Some; [done|by apply inv_identity0].
    + intros id' t [[<- <-]|[_ H']]%lookup_insert_Some; cbn [task_registration reg_receiver].
      * rewrite lookup_insert_eq. eexists. split; [done|]. split_and!; [done..|].
        rewrite Hcq. cbn. lia.
      * rewrite lookup_insert_ne by (apply inv_fresh0 in H'; lia). by eapply inv_channel0.
    + intros id' t [[<- <-]|[_ H']]%lookup_insert_Some; cbn [task_registration reg_receiver]; [lia|].
      apply inv_fresh0 in H'. lia.
    + intros id1 id2 t1 t2 [[<- <-]|[_ H1]]%lookup_insert_Some [[<- <-]|[_ H2]]%lookup_insert_Some;
        cbn [task_registration reg_receiver]; [done| | |by eapply inv_distinct0];
        intros Heq; [apply inv_fresh0 in H2|apply inv_fresh0 in H1]; lia.
    + by rewrite lookup_insert_ne.
    + rewrite map_size_insert_None by done. lia.
  - intros id'. destruct (decide (id = id')) as [<-|Hne].
    + apply step_opened; try done; [by unfold connected; rewrite Hnone; intros [? [=]]|].
      * unfold held, stored. cbn [bk_tasks bk_router bk_written]. rewrite lookup_insert_eq, Ht.
        unfold task_frames, channel_frames.
        cbn [task_undelivered task_registration reg_pending reg_receiver rt_channels].
        by rewrite lookup_insert_eq, Hcq, !app_nil_r.
    + apply step_same; unfold stored; cbn [bk_router rt_offline rt_connections bk_written bk_ledger]; try done;
        [|by apply Hother; congruence|by rewrite lookup_insert_ne].
      apply held_same; cbn [bk_tasks bk_router rt_channels]; [by rewrite lookup_insert_ne|].
      intros t' Ht'. rewrite lookup_insert_ne; [done|]. pose proof (inv_fresh _ _ Hs id' t' Ht'). lia.
Qed.

Lemma close_structure r tasks id t ch' q :
  structure_inv r tasks -> tasks !! id = Some t -> oq_inv q ->
  structure_inv
    (drop_registration (task_registration t)
      (set_offline q (set_channels
        (<[reg_receiver (task_registration t) := ch']> (rt_channels r))
        (set_connections (delete id (rt_connections r)) r)))) (delete id tasks).
Proof.
  intros Hs Ht Hq.
  pose proof (struct_delete r tasks Hs id) as H1.
  assert (structure_inv (set_offline q (set_connections (delete id (rt_connections r)) r))
    (delete id tasks)) as H2 by by apply struct_offline.
  unfold drop_registration. cbn [rt_channels set_offline set_channels set_connections].
  rewrite alter_insert_eq.
  pose proof (struct_unused_channel _ _ H2 (reg_receiver (task_registration t)) (mpsc_close ch')) as H3.
  apply H3. intros id' t' [Hne H']%lookup_delete_Some Heq. apply Hne.
  by eapply (inv_distinct _ _ Hs id id' t t').
Qed.

Lemma step_close_task e b id t :
  structured b -> bk_tasks b !! id = Some t -> closes id e ->
  step_ok e b (close_task id t (task_undelivered t) b).
Proof.
  intros Hs Ht He. unfold close_task.
  destruct (inv_channel _ _ Hs id _ Ht) as (ch & Hch & _ & _ & Hlen).
  pose proof (disconnect_run (task_registration t) (task_undelivered t) _ _ Hch Hlen) as Hd.
  rewrite (task_generation b id t Hs Ht), (inv_identity _ _ Hs id t Ht) in Hd.
  destruct Hd as (res & q & ch' & Hp & Hd). rewrite Hd.
  apply oq_prepend_spec in Hp as (Hq & Hdq & Hother & Hres); [|by eapply inv_offline].
  split; [by apply close_structure|]. intros id'. destruct (decide (id = id')) as [<-|Hne].
  - assert (unsent b id = (match task_undelivered t with Some f => [f] | None => [] end
      ++ reg_pending (task_registration t) ++ mpsc_queue ch) ++ oq_queue (rt_offline (bk_router b)) id) as Hunsent.
    { unfold unsent, held, task_frames, channel_frames. by rewrite Ht, Hch. }
    rewrite <-Hunsent in Hres. apply step_closed; try done.
    + unfold connected, drop_registration. cbn. rewrite lookup_delete_eq. by intros [? [=]].
    + unfold held. cbn. by rewrite lookup_delete_eq.
    + unfold stored. cbn. by injection Hres.
    + unfold stored, offline_len. cbn [bk_ledger bk_router rt_offline drop_registration set_channels set_offline].
      rewrite oq_len_spec. destruct (_ <? _); injection Hres as -> _; [by rewrite fn_lookup_insert|done].
  - apply step_same; unfold stored, drop_registration; cbn; try done; [| | |by rewrite lookup_delete_ne].
    + apply held_same; cbn; [by rewrite lookup_delete_ne|]. intros t' Ht'.
      pose proof (other_channel b id t id' t' Hs Ht Ht' Hne). by rewrite lookup_alter_ne, lookup_insert_ne.
    + by apply Hother; congruence.
    + destruct res; [done|by rewrite fn_lookup_insert_ne..].
Qed.

Lemma ca_try_send_run f (r : BrokerRouter Ch Q) :
  exists ch', ca_try_send f r
    = (if mpsc_closed (rt_ca_channel r)
          || (mpsc_capacity (rt_ca_channel r) <=? length (mpsc_queue (rt_ca_channel r)))
       then Err RouteError.CaQueueFull else Ok tt, set_ca_channel ch' r) /\
    mpsc_capacity ch' = mpsc_capacity (rt_ca_channel r) /\
    mpsc_queue ch' = mpsc_queue (rt_ca_channel r)
      ++ (if mpsc_closed (rt_ca_channel r)
             || (mpsc_capacity (rt_ca_channel r) <=? length (mpsc_queue (rt_ca_channel r)))
          then [] else [f]).
Proof.
  unfold ca_try_send. destruct (mpsc_try_send f (rt_ca_channel r)) as [sent ch'] eqn:Hsend.
  apply mpsc_try_send_spec in Hsend as (Hcap & Hcl & Hq). exists ch'.
  destruct (mpsc_closed (rt_ca_channel r)); [|destruct (_ <=? _)]; injection Hq as -> ->;
    cbn [orb]; by rewrite ?app_nil_r.
Qed.

(** What [route_agent_request] accepts. *)
Definition request_ok (id : AgentId) (e : EnvelopeRef) : Prop :=
  env_sender e = id /\ env_sender e <> AgentId_CA /\ env_recipient e = AgentId_CA /\
  is_request_type (env_message_type e) = true.

Lemma route_agent_request_run id f (r : BrokerRouter Ch Q) :
  match parse_envelope f with
  | Err x => route_agent_request id f r = (Err (RouteError.Protocol x), r)
  | Panic => False
  | Ok e =>
      (env_sender e <> id ->
       route_agent_request id f r = (Err (RouteError.Protocol Error.BadSignature), r)) /\
      (env_sender e = id -> ~ request_ok id e ->
       route_agent_request id f r = (Err (RouteError.Protocol Error.WrongMessageType), r)) /\
      (request_ok id e -> rt_ca_depth r = 0 ->
       route_agent_request id f r = (Err RouteError.CaQueueFull, r)) /\
      (request_ok id e -> rt_ca_depth r <> 0 -> route_agent_request id f r = ca_try_send f r)
  end.
Proof.
  unfold route_agent_request.
  destruct (parse_envelope f) as [e| |] eqn:Hparse; cbn [map_err]; autorewrite with rust;
    [|done|by apply parse_envelope_no_panic in Hparse].
  split; [|split; [|split]].
  - intros Hs. by rewrite bool_decide_eq_false_2.
  - intros Hs Hno. rewrite bool_decide_eq_true_2 by done. cbn [negb].
    destruct (_ && _ && _) eqn:Hg; [|done]. exfalso. apply Hno.
    rewrite !andb_true_iff, negb_true_iff, bool_decide_eq_false, bool_decide_eq_true in Hg.
    by destruct Hg as [[? ?] ?].
  - intros (Hs & Hca & Hr & Ht) Hz. rewrite (bool_decide_eq_true_2 _ Hs), Ht,
      (bool_decide_eq_false_2 _ Hca), (bool_decide_eq_true_2 _ Hr). cbn [negb andb].
    autorewrite with rust. by rewrite Hz.
  - intros (Hs & Hca & Hr & Ht) Hz. rewrite (bool_decide_eq_true_2 _ Hs), Ht,
      (bool_decide_eq_false_2 _ Hca), (bool_decide_eq_true_2 _ Hr). cbn [negb andb].
    autorewrite with rust. by rewrite (proj2 (Nat.eqb_neq _ _)).
Qed.

Lemma route_agent_request_router id f (r : BrokerRouter Ch Q) :
  (route_agent_request id f r).2 = r \/
  exists ch', (route_agent_request id f r).2 = set_ca_channel ch' r /\
    mpsc_capacity ch' = mpsc_capacity (rt_ca_channel r) /\
    (length (mpsc_queue (rt_ca_channel r)) <= mpsc_capacity (rt_ca_channel r) ->
     length (mpsc_queue ch') <= mpsc_capacity ch').
Proof.
  pose proof (route_agent_request_run id f r) as Hrun.
  destruct (parse_envelope f) as [e| |]; [|left; by rewrite Hrun|done].
  destruct Hrun as (H1 & H2 & H3 & H4).
  destruct (decide (env_sender e = id)) as [Hs|Hs]; [|left; by rewrite H1].
  destruct (decide (request_ok id e)) as [Hok|Hno]; [|left; by rewrite H2].
  destruct (decide (rt_ca_depth r = 0)) as [Hz|Hz]; [left; by rewrite H3|].
  right. rewrite H4 by done. destruct (ca_try_send_run f r) as (ch' & -> & Hcap & Hq).
  exists ch'. split; [done|]. split; [done|]. intros Hlen. rewrite Hq, Hcap, length_app.
  destruct (mpsc_closed _); cbn [orb length]; [lia|].
  destruct (Nat.leb_spec (mpsc_capacity (rt_ca_channel r)) (length (mpsc_queue (rt_ca_channel r))));
    cbn; lia.
Qed.

Lemma step_ca e b ch :
  structured b -> mpsc_capacity ch = mpsc_capacity (rt_ca_channel (bk_router b)) ->
  length (mpsc_queue ch) <= mpsc_capacity ch ->
  step_ok e b (mkBroker (set_ca_channel ch (bk_router b)) (bk_tasks b) (bk_storing b) (bk_ledger b) (bk_written b)).
Proof. intros Hs Hcap Hlen. split; [by apply struct_ca|]. intros id. by apply step_same. Qed.

Lemma step_ok_ca e b ch b' :
  step_ok e (mkBroker (set_ca_channel ch (bk_router b)) (bk_tasks b) (bk_storing b) (bk_ledger b) (bk_written b)) b' ->
  step_ok e b b'.
Proof.
  intros [Hs Ha]. split; [done|]. intros id.
  destruct (Ha id); [by eapply step_quiet|by eapply step_opened|by eapply step_online|by eapply step_stored|by eapply step_closed].
Qed.

(** A request that is refused ends the task: only the channel to the CA can have
    changed before. *)
Lemma step_request b id f : structured b -> step_ok (Request id f) b (broker_step (Request id f) b).
Proof.
  intros Hs. cbn [broker_step].
  destruct (bk_tasks b !! id) as [[reg [|]]|] eqn:Ht; [by apply step_ok_same| |by apply step_ok_same].
  pose proof (route_agent_request_router id f (bk_router b)) as Hr.
  destruct (route_agent_request id f (bk_router b)) as [res r'] eqn:Hres. cbn [snd] in Hr.
  set (b1 := mkBroker r' (bk_tasks b) (bk_storing b) (bk_ledger b) (bk_written b)).
  assert (step_ok (Request id f) b b1 /\ exists ch', r' = set_ca_channel ch' (bk_router b)) as [H1 [ch' Hr']].
  { destruct Hr as [->|(ch' & -> & Hcap & Hlen)]; cycle 1.
    - split; [|by eexists]. apply step_ca; [done..|]. apply Hlen. by eapply inv_ca_bound.
    - unfold b1. rewrite broker_eta. split; [by apply step_ok_same|]. exists (rt_ca_channel (bk_router b)).
      by destruct (bk_router b). }
  clear Hr Hres.
  assert (step_ok (Request id f) b1 (close_task id (mkTask reg None) None b1)) as Hclose.
  { apply (step_close_task _ b1 id (mkTask reg None)); [apply H1|done..]. }
  subst b1 r'. destruct res; [exact H1|by apply step_ok_ca in Hclose..].
Qed.

(** [route_ca_delivery_locked] in a state of the invariant: a connected agent's
    delivery goes to its channel, and any other one is to be stored. *)
Lemma delivery_locked_inv b f e :
  structured b -> parse_envelope f = Ok e -> delivery_ok e ->
  match bk_tasks b !! env_recipient e with
  | Some t => exists ch ch',
      let k := reg_receiver (task_registration t) in
      rt_channels (bk_router b) !! k = Some ch /\ channel_ok (bk_router b) ch' /\
      let full := rt_online_depth (bk_router b) <=? length (mpsc_queue ch) in
      mpsc_queue ch' = mpsc_queue ch ++ (if full then [] else [f]) /\
      route_ca_delivery_locked f (bk_router b)
      = (if full then Err RouteError.OnlineQueueFull else Ok None,
         set_channels (<[k := ch']> (rt_channels (bk_router b))) (bk_router b))
  | None => route_ca_delivery_locked f (bk_router b) = (Ok (Some (env_recipient e, f)), bk_router b)
  end.
Proof.
  intros Hs Hparse Hok.
  pose proof (delivery_locked_run f (bk_router b)) as Hrun. rewrite Hparse, decide_True in Hrun by done.
  rewrite (inv_tasks _ _ Hs) in Hrun.
  destruct (bk_tasks b !! env_recipient e) as [t|] eqn:Ht; cbn [fmap option_fmap option_map] in Hrun; [|done].
  destruct (inv_channel _ _ Hs _ _ Ht) as (ch & Hch & Hopen & Hcap & Hlen).
  destruct (mpsc_try_send f ch) as [sent ch'] eqn:Hsend. cbn [conn_sender] in Hrun.
  specialize (Hrun ch sent ch' Hch Hsend). cbn zeta in Hrun.
  apply mpsc_try_send_spec in Hsend as (Hcap' & Hcl' & Hq). rewrite Hopen, Hcap in Hq.
  exists ch, ch'. cbn zeta. split; [done|].
  destruct (Nat.leb_spec (rt_online_depth (bk_router b)) (length (mpsc_queue ch)));
    injection Hq as -> Hq; rewrite Hrun, Hq.
  - split; [split_and!; [congruence|congruence|rewrite Hq; lia]|]. by rewrite app_nil_r.
  - split; [|done]. split_and!; [congruence|congruence|]. rewrite Hq, length_app. cbn. lia.
Qed.

Lemma locked_refused f (r : BrokerRouter Ch Q) :
  (forall e, parse_envelope f = Ok e -> ~ delivery_ok e) ->
  exists x, route_ca_delivery_locked f r = (Err (RouteError.Protocol x), r).
Proof.
  intros Hno. pose proof (delivery_locked_run f r) as Hrun.
  destruct (parse_envelope f) as [e|x|] eqn:Hparse; [|by exists x|done].
  rewrite decide_False in Hrun by by apply Hno. by eexists.
Qed.

(** A frame is a delivery or is refused. *)
Lemma delivery_cases f : (exists e, parse_envelope f = Ok e /\ delivery_ok e) \/
  forall e, parse_envelope f = Ok e -> ~ delivery_ok e.
Proof.
  destruct (parse_envelope f) as [e| |] eqn:Hparse; [|by right..].
  destruct (decide (delivery_ok e)); [left; by exists e|right; by intros e' [= <-]].
Qed.

(** Frames sent to the channel of an agent are held for it, and for nobody else. *)
Lemma held_after_send b id0 t ch ch' sent st l w id :
  structured b -> bk_tasks b !! id0 = Some t ->
  rt_channels (bk_router b) !! reg_receiver (task_registration t) = Some ch ->
  mpsc_queue ch' = mpsc_queue ch ++ sent ->
  held (mkBroker (set_channels (<[reg_receiver (task_registration t) := ch']> (rt_channels (bk_router b)))
    (bk_router b)) (bk_tasks b) st l w) id
  = held b id ++ (if bool_decide (id = id0) then sent else []).
Proof.
  intros Hs Ht Hch Hq. destruct (decide (id = id0)) as [->|Hne].
  - rewrite bool_decide_eq_true_2 by done. unfold held. cbn [bk_tasks bk_router].
    rewrite Ht, task_frames_set_channel, decide_True, Hq by done.
    unfold task_frames, channel_frames. by rewrite Hch, !app_assoc.
  - rewrite bool_decide_eq_false_2, app_nil_r by done. apply held_same; [done|]. intros t' Ht'. cbn.
    rewrite lookup_insert_ne; [done|]. by apply (other_channel b id0 t id t').
Qed.

Lemma step_deliver b f : structured b ->
  step_ok (Deliver f) b (broker_step (Deliver f) b) /\
  (Forall storing_ok (bk_storing b) -> Forall storing_ok (bk_storing (broker_step (Deliver f) b))).
Proof.
  intros Hs. cbn [broker_step]. destruct (delivery_cases f) as [(e & Hparse & Hok)|Hno]; cycle 1.
  { destruct (locked_refused f (bk_router b) Hno) as [y ->]. rewrite broker_eta. split; [by apply step_ok_same|done]. }
  pose proof (delivery_locked_inv b f e Hs Hparse Hok) as Hrun.
  destruct (bk_tasks b !! env_recipient e) as [t|] eqn:Ht; cycle 1.
  { rewrite Hrun. split; [split; [done|]; intros id; by apply step_same|].
    intros Hst. apply Forall_app. split; [done|]. constructor; [by exists e|constructor]. }
  destruct Hrun as (ch & ch' & Hch & Hch' & Hq & ->).
  pose proof (struct_channel _ _ Hs _ t ch' Ht Hch') as Hs'.
  destruct (_ <=? _); (split; [split; [exact Hs'|]|done]); intros id.
  - apply step_same; try done. rewrite (held_after_send b _ t ch ch' []) by done.
    by destruct (bool_decide _); rewrite app_nil_r.
  - rewrite Hparse. cbn zeta. destruct (decide (id = env_recipient e)) as [->|Hne].
    + eapply step_online; try done.
      * apply connected_task; [done|]. by eexists.
      * apply (connected_task b); [done|]. by eexists.
      * rewrite (held_after_send b _ t ch ch' [f]), bool_decide_eq_true_2 by done. by rewrite app_assoc.
      * cbn [bk_ledger]. rewrite fn_lookup_insert. unfold offline_len, stored. by rewrite oq_len_spec.
    + apply step_same; try done; [|by cbn [bk_ledger]; rewrite fn_lookup_insert_ne].
      rewrite (held_after_send b _ t ch ch' [f]), bool_decide_eq_false_2 by done. by rewrite app_nil_r.
Qed.

Lemma step_stores b k : structured b ->
  step_ok (Stores k) b (broker_step (Stores k) b) /\
  (Forall storing_ok (bk_storing b) -> Forall storing_ok (bk_storing (broker_step (Stores k) b))).
Proof.
  intros Hs. cbn [broker_step]. destruct (bk_storing b !! k) as [[id f]|] eqn:Hk; [|split; [by apply step_ok_same|done]].
  unfold offline_enqueue, zoom. destruct (oq_enqueue id f (rt_offline (bk_router b))) as [res q] eqn:He.
  apply oq_enqueue_spec in He as (Hq & _ & Hother & Hres); [|by eapply inv_offline].
  split; [|by intros Hst; apply Forall_delete]. split; [by apply struct_offline|].
  intros id'. destruct (decide (id = id')) as [<-|Hne].
  - destruct (_ <=? _); injection Hres as -> Hqid; [by apply step_same|].
    eapply step_stored; try done. cbn [bk_ledger rt_connections set_offline]. by rewrite fn_lookup_insert.
  - apply step_same; try done; [by unfold stored; cbn; apply Hother; congruence|].
    cbn [bk_ledger]. destruct res; [by rewrite fn_lookup_insert_ne|done..].
Qed.

Lemma step_ca_takes b : structured b -> step_ok CaTakes b (broker_step CaTakes b).
Proof.
  intros Hs. cbn [broker_step]. destruct (mpsc_try_recv _) as [res ch] eqn:Hrecv.
  apply mpsc_try_recv_spec in Hrecv as (Hcap & _ & Hq). apply step_ca; [done..|]. cbn [snd].
  rewrite Hcap. etrans; [|by eapply inv_ca_bound].
  destruct (mpsc_queue (rt_ca_channel (bk_router b))); injection Hq as _ ->; cbn; lia.
Qed.

Lemma close_task_storing id t undelivered b : bk_storing (close_task id t undelivered b) = bk_storing b.
Proof. unfold close_task. by destruct (disconnect_and_requeue _ _ _). Qed.

Lemma broker_step_ok e b : structured b ->
  step_ok e b (broker_step e b) /\
  (Forall storing_ok (bk_storing b) -> Forall storing_ok (bk_storing (broker_step e b))).
Proof.
  intros Hs. destruct e as [id|f|k|id|id|id f|id|].
  - split; [by apply step_hello|]. cbn. by destruct (register id (bk_router b)) as [[] ?].
  - by apply step_deliver.
  - by apply step_stores.
  - split; [by apply step_take|]. cbn. destruct (bk_tasks b !! id) as [[reg [f|]]|]; [done| |done].
    by destruct (try_recv reg (bk_router b)) as [[f reg'] r].
  - split; [by apply step_written|]. cbn. by destruct (bk_tasks b !! id) as [[reg [f|]]|].
  - split; [by apply step_request|]. cbn. destruct (bk_tasks b !! id) as [[reg [g|]]|]; [done| |done].
    destruct (route_agent_request id f (bk_router b)) as [[] r]; [done|by rewrite close_task_storing..].
  - cbn. destruct (bk_tasks b !! id) as [t|] eqn:Ht; [|split; [by apply step_ok_same|done]].
    rewrite close_task_storing. split; [by apply step_close_task|done].
  - split; [by apply step_ca_takes|done].
Qed.

(** The ledger keeps up with what happens. *)
Lemma agent_step_ledger e id b b' : agent_step e id b b' ->
  ledger_inv (bk_ledger b id) (bk_written b id ++ held b id) (stored b id) (connected b id) ->
  ledger_inv (bk_ledger b' id) (bk_written b' id ++ held b' id) (stored b' id) (connected b' id).
Proof.
  intros Hst Hl. destruct Hst as [Hf Hs Hled Hc| -> Hc Hf Hs Hled|f -> Hc _ Hf Hs Hled|k f -> Hk Hf Hs Hled Hc
    |He Hc Hw Hh Hs Hled]; rewrite Hled.
  - rewrite Hf, Hs. eapply ledger_connected; [exact Hl|tauto].
  - rewrite Hf, Hs. by eapply ledger_opened.
  - rewrite Hf, Hs. eapply ledger_connected; [by apply ledger_online|done].
  - rewrite Hf, Hs. eapply ledger_connected; [apply ledger_stored; [exact Hl|apply bool_decide_eq_true_2]|tauto].
  - rewrite Hh, Hw, app_nil_r.
    pose proof (ledger_closed _ _ _ _ _ (oq_depth (rt_offline (bk_router b))) Hl) as Hclosed.
    fold (unsent b id) in Hclosed. cbn zeta in Hclosed. rewrite <-Hs in Hclosed.
    eapply ledger_connected; [|exact Hc]. destruct (Nat.ltb_spec (oq_depth (rt_offline (bk_router b))) (length (unsent b id)));
      [exact Hclosed|].
    rewrite (lose_nothing _ _ _ _ _ Hl) in Hclosed; [done|].
    rewrite Hs, take_ge by lia. unfold unsent. rewrite !length_app. lia.
Qed.

Lemma broker_step_inv e b : broker_inv b -> broker_inv (broker_step e b).
Proof.
  intros [Hs [Hh Hst]]. destruct (broker_step_ok e b Hs) as [[Hs' Ha] Hst']. split; [done|].
  split; [|by apply Hst']. intros id. eapply agent_step_ledger; [apply Ha|apply Hh].
Qed.

Lemma broker_run_inv es b : broker_inv b -> broker_inv (broker_run es b).
Proof.
  revert b. induction es as [|e es IH]; intros b Hb; [done|]. by apply IH, broker_step_inv.
Qed.

(** While an agent's connection lasts, its frames are only added to. *)
Lemma front_grows id es : forall b, structured b -> connected b id -> Forall (fun e => ~ closes id e) es ->
  (bk_written b id ++ held b id) `prefix_of` (bk_written (broker_run es b) id ++ held (broker_run es b) id) /\
  connected (broker_run es b) id.
Proof.
  induction es as [|e es IH]; intros b Hs Hc Hall; [done|]. apply Forall_cons in Hall as [He Hall].
  destruct (broker_step_ok e b Hs) as [[Hs' Ha] _]. cbn [broker_run foldl].
  assert ((bk_written b id ++ held b id) `prefix_of` (bk_written (broker_step e b) id ++ held (broker_step e b) id) /\
    connected (broker_step e b) id) as [Hp Hc'].
  { destruct (Ha id) as [Hf _ _ Hiff|_ Hno _ _ _|f _ _ Hc' Hf _ _|k f _ _ Hf _ _ Hiff|Hcl _ _ _ _ _]; try done;
      rewrite Hf; (split; [done || by apply prefix_app_r|tauto]). }
  destruct (IH _ Hs' Hc' Hall) as [Hp' ?]. split; [|done]. by etrans.
Qed.

(** ** The configuration never changes *)

Definition config (r : BrokerRouter Ch Q) : nat * nat * nat * nat :=
  (rt_maximum r, rt_online_depth r, rt_ca_depth r, oq_depth (rt_offline r)).

Lemma close_config b id t undelivered :
  structured b -> bk_tasks b !! id = Some t ->
  config (bk_router (close_task id t undelivered b)) = config (bk_router b).
Proof.
  intros Hs Ht. unfold close_task.
  destruct (inv_channel _ _ Hs id _ Ht) as (ch & Hch & _ & _ & Hlen).
  pose proof (disconnect_run (task_registration t) undelivered _ _ Hch Hlen) as Hd.
  rewrite (task_generation b id t Hs Ht) in Hd.
  destruct Hd as (res & q & ch' & Hp & Hd). rewrite Hd.
  apply oq_prepend_spec in Hp as (_ & Hdq & _); [|by eapply inv_offline].
  unfold config. cbn. by rewrite Hdq.
Qed.

Lemma broker_step_config e b :
  structured b -> config (bk_router (broker_step e b)) = config (bk_router b).
Proof.
  intros Hs. destruct e as [id|f|k|id|id|id f|id|]; cbn [broker_step]; [..|done].
  - destruct (register id (bk_router b)) as [res r'] eqn:Hreg. apply register_run in Hreg.
    destruct res as [reg|e|]; [|by destruct Hreg as [-> _]|done].
    destruct Hreg as (_ & _ & _ & _ & pending & q & Htake & _ & ->).
    apply oq_take_spec in Htake as (_ & Hdq & _); [|by eapply inv_offline].
    unfold config. cbn. by rewrite Hdq.
  - destruct (delivery_cases f) as [(e & Hparse & Hok)|Hno]; cycle 1.
    { by destruct (locked_refused f (bk_router b) Hno) as [y ->]. }
    pose proof (delivery_locked_inv b f e Hs Hparse Hok) as Hrun.
    destruct (bk_tasks b !! env_recipient e) as [t|]; [|by rewrite Hrun].
    destruct Hrun as (ch & ch' & _ & _ & _ & ->). by destruct (_ <=? _).
  - destruct (bk_storing b !! k) as [[id f]|]; [|done]. unfold offline_enqueue, zoom.
    destruct (oq_enqueue _ _ _) as [res q] eqn:He.
    apply oq_enqueue_spec in He as (_ & Hdq & _); [|by eapply inv_offline].
    unfold config. cbn. by rewrite Hdq.
  - destruct (bk_tasks b !! id) as [[reg [f|]]|]; [done| |done].
    unfold try_recv, channel_try_recv. destruct (reg_pending reg); [|done].
    destruct (rt_channels _ !! _); [|done]. by destruct (mpsc_try_recv _).
  - by destruct (bk_tasks b !! id) as [[reg [f|]]|].
  - destruct (bk_tasks b !! id) as [[reg [f'|]]|] eqn:Ht; [done| |done].
    pose proof (route_agent_request_router id f (bk_router b)) as Hr.
    destruct (route_agent_request id f (bk_router b)) as [res r'] eqn:Hres. cbn [snd] in Hr.
    set (b1 := mkBroker r' (bk_tasks b) (bk_storing b) (bk_ledger b) (bk_written b)).
    assert (structured b1 /\ config r' = config (bk_router b)) as [Hb' Hc].
    { destruct Hr as [->|(ch' & -> & Hcap & Hlen)]; [done|]. split; [|done].
      apply struct_ca; [done..|]. apply Hlen. by eapply inv_ca_bound. }
    destruct res; [done|rewrite <-Hc; by apply (close_config b1)..].
  - destruct (bk_tasks b !! id) as [t|] eqn:Ht; [|done]. by apply close_config.
Qed.

Lemma broker_run_config es b :
  structured b -> config (bk_router (broker_run es b)) = config (bk_router b).
Proof.
  revert b. induction es as [|e es IH]; intros b Hs; [done|].
  cbn [broker_run foldl] in *. destruct (broker_step_ok e b Hs) as [[Hs' _] _].
  etrans; [by apply IH|]. by apply broker_step_config.
Qed.

Lemma broker_run_app es es' b : broker_run (es ++ es') b = broker_run es' (broker_run es b).
Proof. apply foldl_app. Qed.

(** ** The call of the link

    The one task of the link calls [route_ca_delivery], for one delivery after the
    other: the call ends the one that is between its two steps, if it is for the
    same frame, and is made as a whole otherwise. *)

Definition looked_up (f : frame) (b : Broker) : bool :=
  match bk_storing b with (_, f') :: _ => bool_decide (f' = f) | [] => false end.

Definition delivery_events (f : frame) (b : Broker) : list Event :=
  if looked_up f b then [Stores 0] else
  match (route_ca_delivery_locked f (bk_router b)).1 with
  | Ok (Some _) => [Deliver f; Stores (length (bk_storing b))]
  | _ => [Deliver f]
  end.

(** Whether [route_ca_delivery] returns with success, and the broker after it. *)
Definition broker_deliver (f : frame) (b : Broker) : bool * Broker :=
  (match bk_storing b with
   | (id, f') :: _ =>
       if bool_decide (f' = f) then is_ok (offline_enqueue id f' (bk_router b)).1
       else is_ok (route_ca_delivery f (bk_router b)).1
   | [] => is_ok (route_ca_delivery f (bk_router b)).1
   end, broker_run (delivery_events f b) b).

(** The first step alone, of a delivery that is to be stored. *)
Definition broker_look_up (f : frame) (b : Broker) : Broker :=
  match (route_ca_delivery_locked f (bk_router b)).1 with
  | Ok (Some _) => broker_step (Deliver f) b
  | _ => b
  end.

(** The two steps together are [route_ca_delivery]. *)
Lemma whole_delivery f b : looked_up f b = false ->
  bk_router (broker_run (delivery_events f b) b) = (route_ca_delivery f (bk_router b)).2 /\
  bk_storing (broker_run (delivery_events f b) b) = bk_storing b.
Proof.
  intros Hl. unfold delivery_events, route_ca_delivery. rewrite Hl, M_bind_run.
  destruct (route_ca_delivery_locked f (bk_router b)) as [[ [[id f'] | ] |e| ] r] eqn:Hrun; cbn [fst];
    cbn [broker_run foldl broker_step]; rewrite Hrun; [|done..].
  cbn [bk_storing bk_router]. rewrite list_lookup_middle by done. unfold offline_enqueue, zoom.
  destruct (oq_enqueue id f' (rt_offline r)) as [res q]. cbn. by rewrite delete_middle, app_nil_r.
Qed.

(** What is left to be stored is the frame, for its recipient. *)
Lemma locked_rest f (r r' : BrokerRouter Ch Q) i f' : route_ca_delivery_locked f r = (Ok (Some (i, f')), r') ->
  f' = f /\ env_recipient <$> result_ok (parse_envelope f) = Some i.
Proof.
  unfold route_ca_delivery_locked. destruct (parse_envelope f) as [e|x|]; cbn [map_err]; autorewrite with rust;
    [|done..]. case_match; [done|]. autorewrite with rust.
  destruct (rt_connections r !! env_recipient e) as [c|]; [|by intros [= <- <- <-]].
  autorewrite with rust. destruct (rt_channels r !! conn_sender c) as [ch|]; autorewrite with rust;
    [|by intros [= <- <- <-]].
  destruct (mpsc_try_send f ch) as [[] ch']; autorewrite with rust; [done|done|by intros [= <- <- <-]].
Qed.

(** Storing a delivery adds it to its recipient's ledger. *)
Lemma stores_accepted k i f b id : bk_storing b !! k = Some (i, f) ->
  lg_accepted (bk_ledger (broker_step (Stores k) b) id) = lg_accepted (bk_ledger b id) ++
    (if is_ok (offline_enqueue i f (bk_router b)).1 && bool_decide (i = id) then [f] else []).
Proof.
  intros Hk. cbn [broker_step]. rewrite Hk. destruct (offline_enqueue i f (bk_router b)) as [[[]|e|] r];
    cbn [fst is_ok andb bk_ledger]; rewrite ?app_nil_r; [|done..].
  destruct (decide (i = id)) as [<-|Hne].
  - by rewrite fn_lookup_insert, (bool_decide_eq_true_2 (i = i)).
  - by rewrite fn_lookup_insert_ne, (bool_decide_eq_false_2 (i = id)), app_nil_r.
Qed.

(** A delivery that was acknowledged, and no other one, adds to the ledger of its
    recipient. *)
Lemma delivery_accepted f b id : Forall storing_ok (bk_storing b) ->
  lg_accepted (bk_ledger (broker_deliver f b).2 id) = lg_accepted (bk_ledger b id) ++
    (if (broker_deliver f b).1 && bool_decide (env_recipient <$> result_ok (parse_envelope f) = Some id)
     then [f] else []).
Proof.
  intros Hst. unfold broker_deliver, delivery_events. cbn [fst snd].
  destruct (looked_up f b) eqn:Hl; unfold looked_up in Hl.
  - destruct (bk_storing b) as [|[i f'] rest] eqn:Hb; [done|]. rewrite Hl. apply bool_decide_eq_true in Hl as ->.
    cbn [broker_run foldl]. rewrite (stores_accepted 0 i f) by by rewrite Hb.
    apply Forall_cons in Hst as [(e & Hparse & _ & Hi) _]. cbn [fst snd] in *. rewrite Hparse, <-Hi. cbn.
    by rewrite (bool_decide_ext (Some (env_recipient e) = Some id) (env_recipient e = id)) by naive_solver.
  - assert ((match bk_storing b with
      | (id0, f') :: _ => if bool_decide (f' = f) then is_ok (offline_enqueue id0 f' (bk_router b)).1
          else is_ok (route_ca_delivery f (bk_router b)).1
      | [] => is_ok (route_ca_delivery f (bk_router b)).1 end) = is_ok (route_ca_delivery f (bk_router b)).1) as ->.
    { destruct (bk_storing b) as [|[i f'] rest]; [done|by rewrite Hl]. }
    unfold route_ca_delivery. rewrite M_bind_run.
    destruct (route_ca_delivery_locked f (bk_router b)) as [[ [[i f'] | ] |x| ] r] eqn:Hlocked; cbn [fst];
      cbn [broker_run foldl]; [|cbn [broker_step]; rewrite Hlocked..].
    + assert (f' = f /\ env_recipient <$> result_ok (parse_envelope f) = Some i) as [-> ->].
      { by eapply locked_rest. }
      set (b1 := broker_step (Deliver f) b).
      assert (bk_router b1 = r /\ bk_ledger b1 = bk_ledger b /\ bk_storing b1 = bk_storing b ++ [(i, f)]) as (Hr & Hled & Hs1)
        by (unfold b1; cbn [broker_step]; by rewrite Hlocked).
      rewrite (stores_accepted _ i f) by (by rewrite Hs1, list_lookup_middle). rewrite Hr, Hled.
      by rewrite (bool_decide_ext (Some i = Some id) (i = id)) by naive_solver.
    + cbn [is_ok bk_ledger]. destruct (parse_envelope f) as [e|x|] eqn:Hparse; cbn; rewrite ?app_nil_r; [|done..].
      destruct (decide (env_recipient e = id)) as [<-|Hne].
      * by rewrite fn_lookup_insert, bool_decide_eq_true_2.
      * rewrite fn_lookup_insert_ne by done. rewrite bool_decide_eq_false_2 by congruence. by rewrite app_nil_r.
    + by rewrite app_nil_r.
    + by rewrite app_nil_r.
Qed.

(** ** Room for deliveries *)

(** What [route_ca_delivery] can accept. *)
Definition ca_delivery (f : frame) : Prop := exists e, parse_envelope f = Ok e /\ delivery_ok e.

(** Every agent has room for [n] more, whether it is connected or not. *)
Record broker_room (n : nat) (r : BrokerRouter Ch Q) : Prop := mkBrokerRoom {
  room_store : oq_inv (rt_offline r);
  room_offline id : length (oq_queue (rt_offline r) id) + n <= oq_depth (rt_offline r);
  room_online id c : rt_connections r !! id = Some c -> exists ch,
    rt_channels r !! conn_sender c = Some ch /\ mpsc_closed ch = false /\
    length (mpsc_queue ch) + n <= mpsc_capacity ch;
}.

Lemma room_less n r : broker_room (S n) r -> broker_room n r.
Proof.
  intros [Hs Ho Hc]. split; [done|intros id; specialize (Ho id); lia|].
  intros id c Hid. destruct (Hc id c Hid) as (ch & ? & ? & ?). exists ch. split_and!; [done|done|lia].
Qed.

Lemma enqueue_room n id f r : broker_room (S n) r ->
  exists r', offline_enqueue id f r = (Ok tt, r') /\ broker_room n r'.
Proof.
  intros Hr. pose proof (room_less _ _ Hr) as [_ _ Hc]. destruct Hr as [Hs Ho _]. unfold offline_enqueue, zoom.
  destruct (oq_enqueue id f (rt_offline r)) as [res q] eqn:He.
  apply oq_enqueue_spec in He as (Hq & Hd & Hother & Hres); [|done].
  pose proof (Ho id) as Hid. rewrite (proj2 (Nat.leb_gt _ _)) in Hres by lia. injection Hres as -> Hown.
  eexists. split; [done|]. split; [done| |done]. intros id'. cbn. rewrite Hd.
  destruct (decide (id = id')) as [<-|Hne].
  - rewrite Hown, length_app. cbn. lia.
  - rewrite Hother by congruence. specialize (Ho id'). lia.
Qed.

(** A delivery is accepted where there is room. *)
Lemma delivery_room n f r : broker_room (S n) r -> ca_delivery f ->
  exists r', route_ca_delivery f r = (Ok tt, r') /\ broker_room n r'.
Proof.
  intros Hr (e & Hparse & Hok). pose proof (delivery_locked_run f r) as Hrun.
  rewrite Hparse, decide_True in Hrun by done. unfold route_ca_delivery. rewrite M_bind_run.
  destruct (rt_connections r !! env_recipient e) as [c|] eqn:Hc; cycle 1.
  { rewrite Hrun. by apply enqueue_room. }
  destruct (room_online _ _ Hr _ _ Hc) as (ch & Hch & Hopen & Hroom).
  destruct (mpsc_try_send f ch) as [sent ch'] eqn:Hsend. specialize (Hrun ch sent ch' Hch Hsend).
  apply mpsc_try_send_spec in Hsend as (Hcap & Hcl & Hq). rewrite Hopen, (proj2 (Nat.leb_gt _ _)) in Hq by lia.
  injection Hq as -> Hq. rewrite Hrun. eexists. split; [done|].
  pose proof (room_less _ _ Hr) as [Hs Ho Hcs]. split; [done|done|].
  intros id' c' Hid'. cbn. destruct (decide (conn_sender c = conn_sender c')) as [<-|Hne].
  - exists ch'. rewrite lookup_insert_eq. split; [done|]. split; [congruence|]. rewrite Hq, Hcap, length_app. cbn. lia.
  - rewrite lookup_insert_ne by done. by eapply Hcs.
Qed.

Lemma broker_deliver_room n f b : broker_room (S n) (bk_router b) -> ca_delivery f ->
  (broker_deliver f b).1 = true /\ broker_room n (bk_router (broker_deliver f b).2).
Proof.
  intros Hr Hf. destruct (delivery_room n f _ Hr Hf) as (r' & Hrun & Hr').
  unfold broker_deliver. cbn [fst snd]. destruct (looked_up f b) eqn:Hl.
  - unfold delivery_events. rewrite Hl. unfold looked_up in Hl. cbn [broker_run foldl broker_step].
    destruct (bk_storing b) as [|[id f'] rest]; [done|]. rewrite Hl. cbn [lookup list_lookup].
    destruct (enqueue_room n id f' _ Hr) as (r2 & -> & ?). done.
  - destruct (whole_delivery f b Hl) as [-> _]. unfold looked_up in Hl. rewrite Hrun.
    split; [|done]. destruct (bk_storing b) as [|[id f'] rest]; [done|by rewrite Hl].
Qed.

(** ** What a run tells of an agent *)

(** After the events [es] from the state [b0], every delivery accepted for the agent is
    either one of [sent] or lost, never both, and none is more than once. The frames of
    [sent] are in the order of their acceptance but for late ones; late is only what was
    stored when the agent was connected, between the two steps of [route_ca_delivery];
    and lost is only what the agent's connection left behind when it ended with more
    than the offline queue can hold. *)
Record accounted (b0 : Broker) (es : list Event) (id : AgentId) (sent : list frame) : Prop := mkAccounted {
  ac_frames : let l := bk_ledger (broker_run es b0) id in
    Forall2 (fun n f => lg_accepted l !! n = Some f) (lg_order l) sent;
  ac_places : let l := bk_ledger (broker_run es b0) id in
    lg_order l ++ lg_lost l ≡ₚ seq 0 (length (lg_accepted l));
  ac_sorted : let l := bk_ledger (broker_run es b0) id in
    StronglySorted lt (filter (fun n => n ∉ lg_late l) (lg_order l));
  ac_late n : n ∈ lg_late (bk_ledger (broker_run es b0) id) -> exists before k f after,
    es = before ++ Stores k :: after /\ let b := broker_run before b0 in
    bk_storing b !! k = Some (id, f) /\ connected b id /\ n = length (lg_accepted (bk_ledger b id));
  ac_lost n : n ∈ lg_lost (bk_ledger (broker_run es b0) id) -> exists before e after,
    es = before ++ e :: after /\ closes id e /\ let b := broker_run before b0 in
    oq_depth (rt_offline (bk_router b0)) < length (unsent b id) /\ n ∈ lg_order (bk_ledger b id);
}.

Lemma accounted_run b0 es id : broker_inv b0 -> bk_ledger b0 id = ledger_empty ->
  let b := broker_run es b0 in accounted b0 es id (bk_written b id ++ unsent b id).
Proof.
  intros Hb0 Hempty b. pose proof (broker_run_inv es b0 Hb0) as [_ [Hh _]]. fold b in Hh.
  destruct (Hh id) as [Hf Hp Hs Hbound _]. unfold unsent. rewrite app_assoc. split; [done..| |].
  - clear -Hb0 Hempty. induction es as [|e es IH] using rev_ind; intros n; [cbn; rewrite Hempty; by intros ?%elem_of_nil|].
    intros Hn. rewrite broker_run_app in Hn. cbn [broker_run foldl] in Hn.
    change (foldl _ b0 es) with (broker_run es b0) in Hn.
    assert (n ∈ lg_late (bk_ledger (broker_run es b0) id) -> exists before k f after,
      es ++ [e] = before ++ Stores k :: after /\ let b := broker_run before b0 in
      bk_storing b !! k = Some (id, f) /\ connected b id /\ n = length (lg_accepted (bk_ledger b id))) as Hold.
    { intros (before & k & f & after & -> & Hrest)%IH. exists before, k, f, (after ++ [e]). by rewrite <-app_assoc. }
    destruct (broker_run_inv es b0 Hb0) as [Hst _]. destruct (broker_step_ok e _ Hst) as [[_ Ha] _].
    destruct (Ha id) as [_ _ Hled _|_ _ _ _ Hled|f _ _ _ _ _ Hled|k f -> Hk _ _ Hled _|_ _ _ _ _ Hled];
      rewrite Hled in Hn; [by apply Hold..| |by case_match; apply Hold].
    cbn [lg_late accept_stored] in Hn. apply elem_of_app in Hn as [Hn|Hn]; [by apply Hold|].
    case_bool_decide as Hc; [|by apply elem_of_nil in Hn]. apply list_elem_of_singleton in Hn as ->.
    by exists es, k, f, [].
  - clear -Hb0 Hempty. induction es as [|e es IH] using rev_ind; intros n; [cbn; rewrite Hempty; by intros ?%elem_of_nil|].
    intros Hn. rewrite broker_run_app in Hn. cbn [broker_run foldl] in Hn.
    change (foldl _ b0 es) with (broker_run es b0) in Hn.
    assert (n ∈ lg_lost (bk_ledger (broker_run es b0) id) -> exists before e0 after,
      es ++ [e] = before ++ e0 :: after /\ closes id e0 /\ let b := broker_run before b0 in
      oq_depth (rt_offline (bk_router b0)) < length (unsent b id) /\ n ∈ lg_order (bk_ledger b id)) as Hold.
    { intros (before & e0 & after & -> & Hrest)%IH. exists before, e0, (after ++ [e]). by rewrite <-app_assoc. }
    destruct (broker_run_inv es b0 Hb0) as [Hst _]. destruct (broker_step_ok e _ Hst) as [[_ Ha] _].
    destruct (Ha id) as [_ _ Hled _|_ _ _ _ Hled|f _ _ _ _ _ Hled|k f -> Hk _ _ Hled _|He _ _ _ _ Hled];
      rewrite Hled in Hn; [by apply Hold..|].
    destruct (Nat.ltb_spec (oq_depth (rt_offline (bk_router (broker_run es b0)))) (length (unsent (broker_run es b0) id)))
      as [Hlt|_]; [|by apply Hold].
    cbn [lg_lost lose] in Hn. apply elem_of_app in Hn as [Hn|Hn]; [by apply Hold|].
    exists es, e, []. split; [done|]. split; [done|]. cbn zeta.
    destruct Hb0 as [Hs0 _]. pose proof (broker_run_config es b0 Hs0) as Hcfg. unfold config in Hcfg.
    injection Hcfg as _ _ _ <-. split; [done|].
    rewrite <-(take_drop (length (bk_written (broker_run es b0) id) + length (stored (broker_step e (broker_run es b0)) id))
      (lg_order _)). apply elem_of_app. by right.
Qed.
End system.
Arguments Broker : clear implicits.

(** ** Properties *)

(** C15: Per-agent delivery in order, with nothing lost but what a requeue reports,
    nothing duplicated and nothing made up. In every interleaving of connections, the two
    steps of CA deliveries, socket writes, agent requests and disconnections, from an empty
    store, the frames written to an agent's sockets followed by those still held for it
    (the one being written, those captured at registration, its channel and its offline
    queue) account for the deliveries accepted for it: each is there once, or was dropped
    when a connection ended with more than the offline queue can hold, and they are in the
    order of their acceptance but for late ones, which were stored after the agent had
    connected, between the two steps of [route_ca_delivery]. An agent that is connected has
    nothing but late deliveries in the offline store. With none late and none dropped, what
    was accepted is exactly what was written followed by what is held. *)
Theorem broker_fifo {Ch Q} `{MpscLaws Ch, OfflineQueueLaws Q} maximum online_depth ca_depth (q : Q)
    (es : list Event) :
  oq_inv q -> (forall id, oq_queue q id = []) ->
  let start := broker_init (Ch:=Ch) maximum online_depth ca_depth q in
  let b := broker_run es start in
  forall id, let l := bk_ledger b id in
    accounted start es id (bk_written b id ++ unsent b id) /\
    (connected b id ->
     Forall (fun n => n ∈ lg_late l) (drop (length (bk_written b id ++ held b id)) (lg_order l))) /\
    (lg_late l = [] -> lg_lost l = [] -> lg_accepted l = bk_written b id ++ unsent b id).
Proof.
  intros Hq Hempty start b id l.
  pose proof (broker_init_inv (Ch:=Ch) maximum online_depth ca_depth q Hq Hempty) as Hinit.
  destruct (broker_run_inv es _ Hinit) as [_ [Hh _]]. fold start b in Hh.
  split; [by apply accounted_run|]. split; [apply (li_stored _ _ _ _ (Hh id))|].
  intros Hlate Hlost. unfold unsent. rewrite app_assoc.
  eapply ledger_in_order; [exact (Hh id)|done|done].
Qed.

(** The memory store, by its entries. *)
Lemma memory_inv_dec (s : MemoryOfflineQueueStore) n :
  forallb (fun kv => length kv.2 + n <=? mq_depth s) (map_to_list (mq_queues s)) = true -> n <= mq_depth s ->
  memory_inv s /\ forall id, length (memory_queue s id) + n <= mq_depth s.
Proof.
  intros Hall Hn. rewrite forallb_forall in Hall.
  assert (forall id q, mq_queues s !! id = Some q -> length q + n <= mq_depth s) as Hq.
  { intros id q Hq. apply elem_of_map_to_list, list_elem_of_In in Hq. by apply Hall, Nat.leb_le in Hq. }
  split.
  - intros id q Hid. apply Hq in Hid. lia.
  - intros id. unfold memory_queue. destruct (mq_queues s !! id) as [q|] eqn:Hid; [by eapply Hq|]. cbn. lia.
Qed.

(** A delivery of the CA to the agent [01..], with [k] as its one-byte body. *)
Definition sample_delivery (k : byte) : frame :=
  header_bytes MessageType.PublicationResponse AgentId_CA (mkAgentId (vreplicate 16 x01))
    HandlerId_NONE (mkSessionId (vreplicate 16 x02)) (vreplicate 32 x03) (vreplicate 32 x04) 1
    ++ [k] ++ replicate 80 x00.

(** The agent connects while its first delivery is being stored: the second one overtakes
    it, and it is written once the agent has connected again. *)
Module BrokerExample.
Definition agent : AgentId := mkAgentId (vreplicate 16 x01).
Definition events : list Event :=
  [Deliver (sample_delivery x01); Hello agent; Stores 0; Deliver (sample_delivery x02); Take agent; Written agent;
   Take agent; Close agent; Deliver (sample_delivery x03); Stores 0; Hello agent; Take agent; Written agent].
Abbreviation start := (broker_init (Ch:=ListChannel) 4 2 2 (MemoryOfflineQueueStore_new 2)).
Abbreviation final := (broker_run events start).

Lemma final_written : bk_written final agent = [sample_delivery x02; sample_delivery x01] /\
  unsent final agent = [sample_delivery x03].
Proof. split; vm_compute; reflexivity. Qed.
Lemma final_ledger : bk_ledger final agent =
  mkLedger [sample_delivery x01; sample_delivery x02; sample_delivery x03] [1; 0; 2] [] [0].
Proof. vm_compute. reflexivity. Qed.
End BrokerExample.

Lemma broker_fifo_witness :
  bk_ledger BrokerExample.final BrokerExample.agent =
    mkLedger [sample_delivery x01; sample_delivery x02; sample_delivery x03] [1; 0; 2] [] [0] /\
  accounted BrokerExample.start BrokerExample.events BrokerExample.agent
    [sample_delivery x02; sample_delivery x01; sample_delivery x03].
Proof.
  split; [exact BrokerExample.final_ledger|].
  destruct (broker_fifo (Ch:=ListChannel) 4 2 2 (MemoryOfflineQueueStore_new 2) BrokerExample.events) with
    (id := BrokerExample.agent) as [Hacc _].
  - intros x y Hxy. discriminate Hxy.
  - reflexivity.
  - rewrite (proj1 BrokerExample.final_written), (proj2 BrokerExample.final_written) in Hacc. exact Hacc.
Defined.

(** The router is bounded in every reachable state: at most [maximum] agents
    are connected and the CA is never one of them, a connected agent's channel
    holds at most [online_depth] frames, an offline queue at most the store's
    depth, and the queue to the CA at most its capacity; none of these bounds ever
    changes. *)
Theorem broker_bounded {Ch Q} `{MpscLaws Ch, OfflineQueueLaws Q} maximum online_depth ca_depth (q : Q)
    (es : list Event) :
  oq_inv q -> (forall id, oq_queue q id = []) ->
  let r := bk_router (broker_run (Ch:=Ch) es (broker_init maximum online_depth ca_depth q)) in
  connection_count r <= maximum /\ rt_connections r !! AgentId_CA = None /\
  (forall id c, rt_connections r !! id = Some c ->
     length (channel_frames r (conn_sender c)) <= online_depth) /\
  (forall id, offline_len id r <= oq_depth q) /\
  length (mpsc_queue (rt_ca_channel r)) <= ca_depth `max` 1.
Proof.
  intros Hq Hempty.
  pose proof (broker_init_inv (Ch:=Ch) maximum online_depth ca_depth q Hq Hempty) as Hinit.
  pose proof (broker_run_config es _ (proj1 Hinit)) as Hc.
  destruct (broker_run_inv es _ Hinit) as [Hs _]. intros r. fold r in Hs, Hc.
  unfold config in Hc. cbn in Hc. injection Hc as Hmax Hdepth Hca Hoff.
  split; [rewrite <-Hmax; by eapply inv_maximum|].
  split; [rewrite (inv_tasks _ _ Hs); by rewrite (inv_not_ca _ _ Hs)|].
  split; [|split].
  - intros id c Hid. rewrite (inv_tasks _ _ Hs) in Hid. apply fmap_Some in Hid as (t & Ht & ->).
    destruct (inv_channel _ _ Hs id t Ht) as (ch & Hch & _ & _ & Hlen).
    unfold channel_frames. cbn [conn_sender]. rewrite Hch. by rewrite <-Hdepth.
  - intros id. unfold offline_len. rewrite oq_len_spec, <-Hoff. apply oq_bounded. by eapply inv_offline.
  - rewrite <-Hca, <-(inv_ca_capacity _ _ Hs). by eapply inv_ca_bound.
Qed.

Lemma broker_bounded_witness :
  let a := mkAgentId (vreplicate 16 x01) in
  let b := broker_run (Ch:=ListChannel)
    [Hello a; Deliver (sample_delivery x01); Deliver (sample_delivery x02); Deliver (sample_delivery x03)]
    (broker_init 4 2 2 (MemoryOfflineQueueStore_new 2)) in
  connection_count (bk_router b) <= 4 /\
  lg_accepted (bk_ledger b a) = [sample_delivery x01; sample_delivery x02].
Proof.
  cbn zeta. split; [|vm_compute; reflexivity].
  refine (proj1 (broker_bounded (Ch:=ListChannel) 4 2 2 (MemoryOfflineQueueStore_new 2) _ _ _)).
  - intros x y Hxy. discriminate Hxy.
  - reflexivity.
Defined.

(** An agent can only speak for itself and only to the CA: a request is
    queued for the CA exactly when it parses as an envelope whose sender is the
    identity of its connection and not the CA's, whose recipient is the CA and
    whose type is one of the four requests, and the queue is enabled, open and not
    full.  Then it is the last frame of that queue; otherwise no queue changes. *)
Theorem agent_request_routing {Ch Q} `{MpscLaws Ch, OfflineQueueLaws Q} id f (r : BrokerRouter Ch Q) :
  let ca := rt_ca_channel r in
  let '(res, r') := route_agent_request id f r in
  (res = Ok tt <-> exists e, parse_envelope f = Ok e /\ request_ok id e /\ rt_ca_depth r <> 0 /\
     mpsc_closed ca = false /\ length (mpsc_queue ca) < mpsc_capacity ca) /\
  mpsc_queue (rt_ca_channel r') = mpsc_queue ca ++ (if is_ok res then [f] else []) /\
  r' = set_ca_channel (rt_ca_channel r') r /\ res <> Panic.
Proof.
  intros ca. pose proof (route_agent_request_run id f r) as Hrun.
  assert (Hnil : mpsc_queue ca = mpsc_queue ca ++ []) by by rewrite app_nil_r.
  assert (Heta : r = set_ca_channel (rt_ca_channel r) r) by by destruct r.
  destruct (parse_envelope f) as [e|x|] eqn:Hparse; [|rewrite Hrun|done].
  - destruct Hrun as (H1' & H2' & H3' & H4').
    destruct (decide (env_sender e = id)) as [Hse|Hse];
      [|rewrite H1' by done; split_and!; [split; [done|]|done..]].
    + destruct (decide (request_ok id e)) as [Hok|Hno];
        [|rewrite H2' by done; split_and!; [split; [done|]|done..]].
      * destruct (decide (rt_ca_depth r = 0)) as [Hz|Hz];
          [rewrite H3' by done; split_and!; [split; [done|]|done..]|].
        { intros (e' & _ & _ & ? & _). done. }
        rewrite H4' by done. destruct (ca_try_send_run f r) as (ch' & -> & Hcap & Hq).
        cbn [rt_ca_channel set_ca_channel]. fold ca in Hcap, Hq |- *.
        destruct (mpsc_closed ca) eqn:Hclosed; cbn [orb] in *.
        { split_and!; try done. split; [done|]. naive_solver. }
        destruct (Nat.leb_spec (mpsc_capacity ca) (length (mpsc_queue ca))); split_and!; try done.
        { split; [done|]. intros (e' & _ & _ & _ & _ & ?). lia. }
        split; [|done]. intros _. by exists e.
      * intros (e' & [= <-] & ? & _). done.
    + intros (e' & [= <-] & (? & _) & _). done.
  - split_and!; try done. split; [done|]. by intros (e & ? & _).
Qed.

(** Routing a delivery of the CA with no other event between its two steps, in any
    reachable state: it is accepted exactly when it parses as a publication response of
    the CA for an agent and that agent's queue has room, its channel if it is connected
    and its offline queue otherwise; an accepted frame becomes the last one held for its
    recipient, or the last one stored for it, and nothing changes for the other agents; a
    refused one changes nothing for anyone. *)
Theorem delivery_routing {Ch Q} `{MpscLaws Ch, OfflineQueueLaws Q} (b : Broker Ch Q) f :
  broker_inv b -> bk_storing b = [] ->
  let r := bk_router b in
  let '(ok, b') := broker_deliver f b in
  (ok, bk_router b') = (is_ok (route_ca_delivery f r).1, (route_ca_delivery f r).2) /\ bk_storing b' = [] /\
  (ok = true <-> exists e, parse_envelope f = Ok e /\ delivery_ok e /\
     match bk_tasks b !! env_recipient e with
     | Some t => length (channel_frames r (reg_receiver (task_registration t))) < rt_online_depth r
     | None => length (stored b (env_recipient e)) < oq_depth (rt_offline r)
     end) /\
  forall id, let mine := ok && bool_decide (env_recipient <$> result_ok (parse_envelope f) = Some id) in
    held b' id = held b id ++ (if mine && bool_decide (connected b id) then [f] else []) /\
    stored b' id = stored b id ++ (if mine && negb (bool_decide (connected b id)) then [f] else []).
Proof.
  intros [Hs _] Hst. cbv zeta. assert (looked_up f b = false) as Hl by by (unfold looked_up; rewrite Hst).
  destruct (whole_delivery f b Hl) as [Hr Hst']. unfold broker_deliver. rewrite Hst in *.
  rewrite Hr. split; [done|]. split; [done|]. clear Hr Hst'.
  unfold delivery_events, route_ca_delivery. rewrite Hl, M_bind_run.
  destruct (delivery_cases f) as [(e & Hparse & Hok)|Hno]; cycle 1.
  { destruct (locked_refused f (bk_router b) Hno) as [y Hy]. rewrite Hy. cbn [fst is_ok andb broker_run foldl broker_step].
    rewrite Hy, broker_eta. split; [split; [done|]; intros (e & He & Hok & _); by eapply Hno in He|].
    intros id. by rewrite !app_nil_r. }
  pose proof (delivery_locked_inv b f e Hs Hparse Hok) as Hrun. rewrite Hparse. cbn [result_ok].
  assert (forall id, bool_decide (env_recipient <$> Some e = Some id) = bool_decide (id = env_recipient e)) as Hid.
  { intros id. apply bool_decide_ext. cbn. split; congruence. }
  pose proof (connected_task b (env_recipient e) Hs) as Hconn.
  destruct (bk_tasks b !! env_recipient e) as [t|] eqn:Ht.
  - destruct Hrun as (ch & ch' & Hch & _ & Hq & Hrun). rewrite Hrun.
    assert (connected b (env_recipient e)) as Hc by (apply Hconn; by eexists).
    destruct (Nat.leb_spec (rt_online_depth (bk_router b)) (length (mpsc_queue ch))) as [Hfull|Hroom];
      cbn [fst is_ok andb broker_run foldl broker_step]; rewrite Hrun.
    + split; [split; [done|]; intros (e' & [= <-] & _ & Hlt); rewrite Ht in Hlt; unfold channel_frames in Hlt;
        rewrite Hch in Hlt; lia|].
      intros id.  rewrite (held_after_send b _ t ch ch' []) by done.
      by destruct (bool_decide _); rewrite !app_nil_r.
    + split; [split; [intros _|done]; exists e; rewrite Ht; unfold channel_frames; by rewrite Hch|].
      intros id. rewrite Hid.  rewrite (held_after_send b _ t ch ch' [f]) by done.
      case_bool_decide as Heq; cbn [andb]; [|by rewrite !app_nil_r].
      subst id. rewrite bool_decide_eq_true_2 by done. by rewrite app_nil_r.
  - rewrite Hrun. cbn [fst broker_run foldl]. unfold offline_enqueue, zoom.
    assert (~ connected b (env_recipient e)) as Hc by (rewrite Hconn; by intros [? [=]]).
    assert (broker_step (Deliver f) b = mkBroker (bk_router b) (bk_tasks b) [(env_recipient e, f)] (bk_ledger b) (bk_written b)) as ->.
    { cbn [broker_step]. by rewrite Hrun, Hst. }
    cbn [broker_step bk_storing]. rewrite Hst. cbn [length lookup list_lookup]. unfold offline_enqueue, zoom. cbn [bk_router].
    destruct (oq_enqueue (env_recipient e) f (rt_offline (bk_router b))) as [res q] eqn:He.
    apply oq_enqueue_spec in He as (_ & _ & Hother & Hres); [|by eapply inv_offline].
    assert ((is_ok res = true <-> length (stored b (env_recipient e)) < oq_depth (rt_offline (bk_router b))) /\
      oq_queue q (env_recipient e) = stored b (env_recipient e) ++ (if is_ok res then [f] else [])) as [Hiff Hown].
    { unfold stored. destruct (Nat.leb_spec (oq_depth (rt_offline (bk_router b))) (length (oq_queue (rt_offline (bk_router b)) (env_recipient e))));
        injection Hres as -> ->; cbn; (split; [split; intros ?; (done || lia)|by rewrite ?app_nil_r]). }
    cbn [fst]. split; [rewrite Hiff; split; [intros Hlt; exists e; by rewrite Ht|]; by intros (e' & [= <-] & _ & Hlt); rewrite Ht in Hlt|].
    intros id. rewrite Hid. split.
    + rewrite (held_same b) by done. case_bool_decide as Heq; [subst id; rewrite bool_decide_eq_false_2 by done|];
        by rewrite ?andb_false_r, app_nil_r.
    + unfold stored at 1. cbn [bk_router rt_offline set_offline]. case_bool_decide as Heq.
      * subst id. rewrite Hown, bool_decide_eq_false_2 by done. by rewrite !andb_true_r.
      * rewrite andb_false_r, app_nil_r. by apply Hother; congruence.
Qed.

Lemma delivery_routing_witness :
  let b := broker_init (Ch:=ListChannel) 4 2 2 (MemoryOfflineQueueStore_new 2) in
  let a := mkAgentId (vreplicate 16 x01) in
  exists b', broker_deliver (sample_delivery x01) b = (true, b') /\ stored b' a = [sample_delivery x01].
Proof.
  intros b a. pose proof (delivery_routing b (sample_delivery x01)) as Hd. cbn zeta in Hd.
  assert (Hok : (broker_deliver (sample_delivery x01) b).1 = true) by (vm_compute; reflexivity).
  destruct (broker_deliver (sample_delivery x01) b) as [ok b']. cbn [fst] in Hok. subst ok.
  exists b'. split; [reflexivity|]. destruct Hd as (_ & _ & _ & Hd).
  - apply broker_init_inv; [|done]. intros x y Hxy. discriminate Hxy.
  - reflexivity.
  - destruct (Hd a) as [_ Hs]. assert (Hr : env_recipient <$> result_ok (parse_envelope (sample_delivery x01)) = Some a)
      by (vm_compute; reflexivity).
    rewrite Hr in Hs. exact Hs.
Defined.


(** A registration captures the agent's whole offline queue at once: it
    succeeds exactly for an identity that is not the CA's and not connected, below
    the connection limit and with a non-zero channel depth; then the pending
    frames are the offline queue in order, which becomes empty, the connection
    carries the registration's generation, and no other agent's state changes.  A
    refused registration changes nothing. *)
Theorem register_captures_offline {Ch Q} `{MpscLaws Ch, OfflineQueueLaws Q} id (r : BrokerRouter Ch Q) :
  oq_inv (rt_offline r) ->
  let '(res, r') := register id r in
  (is_ok res = true <-> id <> AgentId_CA /\ rt_connections r !! id = None /\
     size (rt_connections r) < rt_maximum r /\ 0 < rt_online_depth r) /\
  (is_ok res = false -> r' = r) /\
  (forall reg, res = Ok reg ->
     reg_pending reg = oq_queue (rt_offline r) id /\ oq_queue (rt_offline r') id = [] /\
     channel_frames r' (reg_receiver reg) = [] /\
     generation_matches id (reg_generation reg) r' = true /\
     forall id', id' <> id ->
       rt_connections r' !! id' = rt_connections r !! id' /\
       oq_queue (rt_offline r') id' = oq_queue (rt_offline r) id').
Proof.
  intros Hinv. destruct (register id r) as [res r'] eqn:Hreg. apply register_run in Hreg.
  destruct res as [reg|e|]; [|destruct Hreg as (-> & Hno & _)|done].
  - destruct Hreg as (Hca & Hnone & Hmax & Hdepth & pending & q & Htake & -> & ->).
    apply oq_take_spec in Htake as (_ & _ & Hother & -> & Hempty); [|done].
    destruct (mpsc_channel_spec (rt_online_depth r) Hdepth) as (Hcq & _).
    split; [done|]. split; [done|]. intros reg [= <-].
    cbn [reg_pending reg_receiver reg_generation rt_offline]. unfold channel_frames, generation_matches.
    cbn [rt_channels rt_connections]. rewrite !lookup_insert_eq, Hcq.
    split_and!; [done..|by apply bool_decide_eq_true_2|].
    intros id' Hne. by rewrite lookup_insert_ne, Hother.
  - split; [|done]. split; [done|]. by intros ?%Hno.
Qed.

Lemma register_captures_offline_witness :
  let a := mkAgentId (vreplicate 16 x01) in
  let r := bk_router (broker_run (Ch:=ListChannel) [Deliver (sample_delivery x01); Stores 0]
             (broker_init 4 2 2 (MemoryOfflineQueueStore_new 2))) in
  exists reg r', register a r = (Ok reg, r') /\ reg_pending reg = [sample_delivery x01].
Proof.
  intros a r. pose proof (register_captures_offline (Ch:=ListChannel) a r) as Hr.
  assert (Hok : is_ok (register a r).1 = true) by (vm_compute; reflexivity).
  apply is_ok_run in Hok as (reg & r' & Hreg). exists reg, r'. split; [exact Hreg|].
  rewrite Hreg in Hr. destruct Hr as (_ & _ & Hp).
  - refine (proj1 (memory_inv_dec _ 0 _ _)); [vm_compute; reflexivity|vm_compute; lia].
  - destruct (Hp reg eq_refl) as (-> & _). vm_compute. reflexivity.
Defined.

(** Stale cleanup is harmless: when the connection of an identity is gone or
    belongs to a later generation, [unregister] and [disconnect_and_requeue]
    change nothing, whatever the registration still holds; with the current
    generation [unregister] removes that connection and no other. *)
Theorem stale_cleanup_harmless {Ch Q} `{MpscLaws Ch, OfflineQueueLaws Q} reg first
    (r : BrokerRouter Ch Q) :
  let id := reg_identity reg in let g := reg_generation reg in
  (generation_matches id g r = true <-> exists k, rt_connections r !! id = Some (mkConnection g k)) /\
  if generation_matches id g r
  then unregister id g r = set_connections (delete id (rt_connections r)) r
  else unregister id g r = r /\ disconnect_and_requeue reg first r = (Ok tt, r).
Proof.
  intros id g. split.
  - unfold generation_matches. destruct (rt_connections r !! id) as [[g' k]|]; cbn.
    + rewrite bool_decide_eq_true. split; [intros ->; by exists k|]. by intros [k' [= -> _]].
    + split; [done|]. by intros [? ?].
  - unfold unregister, disconnect_and_requeue. fold id g. by destruct (generation_matches id g r).
Qed.

(** The two halves of [route_ca_delivery] run under different locks.  When a
    registration comes between them, the delivery is stored offline for an agent
    that is connected: the next delivery overtakes it. *)
Example route_ca_delivery_race :
  let a := mkAgentId (vreplicate 16 x01) in
  let r0 : BrokerRouter ListChannel MemoryOfflineQueueStore := with_limits 4 2 2 2 in
  let f := sample_delivery x01 in let g := sample_delivery x02 in
  match route_ca_delivery_locked f r0 with
  | (Ok (Some (a', f')), r1) =>
      match register a r1 with
      | (Ok reg, r2) =>
          let '(stored, r3) := offline_enqueue a' f' r2 in
          let '(second, r4) := route_ca_delivery g r3 in
          let '(next, _, r5) := try_recv reg r4 in
          (stored, second, next, offline_len a r5) = (Ok tt, Ok tt, Some g, 1)
      | _ => False
      end
  | _ => False
  end.
Proof. vm_compute. reflexivity. Qed.
