(* ===== verification/Transport.v ===== *)
(** embassy-transport/src/lib.rs and transport/src/lib.rs: the length-prefixed framing
    of the agents' connections, allocation-free over an Embassy stream and over the
    Tokio codec, and that the two understand each other. *)

From S2P Require Export Agent.

(** ** The streams

    An operation that waits may be cancelled by the deadline of the frame: its error
    is then [None]. *)

(** What embassy-transport uses of [embedded_io_async::{Read, Write}]; the deadline is
    that of the frame being sent or received. *)
Class EmbassyIo (St E : Type) := {
  io_read : option N -> nat -> M St (option E) (list byte);
  io_write_all : option N -> list byte -> M St (option E) unit;
  io_flush : option N -> M St (option E) unit;
}.

(** What a full-duplex stream is documented to do: [read] fills a prefix of the
    buffer with the bytes that come next and returns 0 only at the end of the stream,
    [write_all] sends all of its bytes unless it fails. *)
Class EmbassyIoLaws (St E : Type) `{EmbassyIo St E} := {
  io_inv : St -> Prop;
  io_input : St -> list byte;
  io_output : St -> list byte;
  io_read_law d n s r s' : io_inv s -> io_read d n s = (r, s') ->
    io_inv s' /\ io_output s' = io_output s /\ r <> Panic /\
    match r with
    | Ok bytes => length bytes <= n /\ io_input s = bytes ++ io_input s' /\
        (0 < n -> bytes = [] -> io_input s = [])
    | _ => True
    end;
  io_write_law d bytes s r s' : io_inv s -> io_write_all d bytes s = (r, s') ->
    io_inv s' /\ io_input s' = io_input s /\ r <> Panic /\
    (r = Ok tt -> io_output s' = io_output s ++ bytes);
  io_flush_law d s r s' : io_inv s -> io_flush d s = (r, s') ->
    io_inv s' /\ io_input s' = io_input s /\ r <> Panic /\ io_output s' = io_output s;
}.

(** ** embassy-transport *)

Module EmbassyTransportError.
Inductive t (E : Type) :=
| Io (e : E)
| Timeout
| Disconnected
| InvalidFrame.
Arguments Io {E} e.
Arguments Timeout {E}.
Arguments Disconnected {E}.
Arguments InvalidFrame {E}.
End EmbassyTransportError.
Abbreviation EmbassyTransportError := EmbassyTransportError.t.

Module ReadFailure.
Inductive t (E : Type) :=
| Io (e : E)
| Disconnected
| InvalidFrame.
Arguments Io {E} e.
Arguments Disconnected {E}.
Arguments InvalidFrame {E}.
End ReadFailure.
Abbreviation ReadFailure := ReadFailure.t.

Record EmbassyFramedTransport (St : Type) := mkEmbassyTransport {
  et_stream : St;
  et_deadline : option N;
}.
Arguments mkEmbassyTransport {St} _ _.
Arguments et_stream {St} _.
Arguments et_deadline {St} _.

Definition EmbassyFramedTransport_new {St} (stream : St) : EmbassyFramedTransport St :=
  mkEmbassyTransport stream None.
Definition EmbassyFramedTransport_with_timeout {St} (stream : St) (deadline : N) : EmbassyFramedTransport St :=
  mkEmbassyTransport stream (Some deadline).

Section embassy.
Context {St E : Type} `{EmbassyIo St E}.

(** [(frame.len() as u32).to_be_bytes()], which truncates. *)
Definition length_prefix (frame : list byte) : list byte := to_be 4 (N.of_nat (length frame)).

Definition write_frame (d : option N) (frame : list byte) : M St (option E) unit :=
  io_write_all d (length_prefix frame);;
  io_write_all d frame;;
  io_flush d.

(** The loop of [read_exact] on [output[start..stop]]. *)
Fixpoint read_exact_loop (fuel : nat) (d : option N) (start stop : nat) :
    M (list byte * St) (option (ReadFailure E)) unit := fun '(output, s) =>
  if stop <=? start then (Ok tt, (output, s)) else
  match fuel with
  | 0 => (Panic, (output, s))
  | S fuel =>
      match io_read d (stop - start) s with
      | (Ok bytes, s') =>
          if length bytes =? 0 then (Err (Some ReadFailure.Disconnected), (output, s')) else
          if stop - start <? length bytes then (Panic, (output, s')) else
          match write_range (E:=E) output start (start + length bytes) bytes with
          | Ok output' => read_exact_loop fuel d (start + length bytes) stop (output', s')
          | _ => (Panic, (output, s'))
          end
      | (Err e, s') => (Err (option_map ReadFailure.Io e), (output, s'))
      | (Panic, s') => (Panic, (output, s'))
      end
  end.

(** Every round reads a byte, or it is the last. *)
Definition read_exact (d : option N) (start stop : nat) :
    M (list byte * St) (option (ReadFailure E)) unit := read_exact_loop (stop - start) d start stop.

Definition read_frame (d : option N) : M (list byte * St) (option (ReadFailure E)) nat := fun '(output, s) =>
  match read_exact d 0 4 (replicate 4 x00, s) with
  | (Ok _, (prefix, s1)) =>
      let frame_len := from_be prefix in
      if (N.of_nat MAX_FRAME_LEN <? frame_len)%N || (N.of_nat (length output) <? frame_len)%N
      then (Err (Some ReadFailure.InvalidFrame), (output, s1))
      else
        match read_exact d 0 (N.to_nat frame_len) (output, s1) with
        | (Ok _, w) => (Ok (N.to_nat frame_len), w)
        | (Err e, w) => (Err e, w)
        | (Panic, w) => (Panic, w)
        end
  | (Err e, (_, s1)) => (Err e, (output, s1))
  | (Panic, (_, s1)) => (Panic, (output, s1))
  end.

(** [with_timeout(..).await.map_err(|_| Timeout)?] and the conversion of the error. *)
Definition settle {F} (f : F -> EmbassyTransportError E) (e : option F) : EmbassyTransportError E :=
  match e with Some e => f e | None => EmbassyTransportError.Timeout end.

Definition embassy_send (frame : list byte) : M (EmbassyFramedTransport St) (EmbassyTransportError E) unit :=
  fun t =>
  if MAX_FRAME_LEN <? length frame then (Err EmbassyTransportError.InvalidFrame, t) else
  let '(r, s) := write_frame (et_deadline t) frame (et_stream t) in
  (map_err (settle EmbassyTransportError.Io) r, mkEmbassyTransport s (et_deadline t)).

Definition embassy_receive :
    M (list byte * EmbassyFramedTransport St) (EmbassyTransportError E) nat := fun '(output, t) =>
  let '(r, (output, s)) := read_frame (et_deadline t) (output, et_stream t) in
  (map_err (settle (fun e => match e with
     | ReadFailure.Io e => EmbassyTransportError.Io e
     | ReadFailure.Disconnected => EmbassyTransportError.Disconnected
     | ReadFailure.InvalidFrame => EmbassyTransportError.InvalidFrame
     end)) r, (output, mkEmbassyTransport s (et_deadline t))).

Definition embassy_send_hello (identity : AgentId) :
    M (EmbassyFramedTransport St) (EmbassyTransportError E) unit :=
  embassy_send (vec_to_list (agent_bytes identity)).

#[export] Instance embassy_transport : AsyncTransport (EmbassyFramedTransport St) (EmbassyTransportError E) := {
  transport_send := embassy_send;
  transport_receive := embassy_receive;
}.
End embassy.

(** ** transport

    [Framed<TcpStream, LengthDelimitedCodec>] is third-party: a parameter, with what
    it is documented to do for the codec [FramedTransport::new] builds, a big-endian
    [u32] length and [MAX_FRAME_LEN]. *)

Definition HELLO_LEN : nat := 16.

Class TokioFramed (St E : Type) := {
  framed_send : N -> list byte -> M St (option E) unit;
  (** [None]: the peer closed the stream. *)
  framed_next : N -> M St (option E) (option (list byte));
}.

(** A frame on the wire. *)
Definition frame_wire (frame : list byte) : list byte := length_prefix frame ++ frame.

Class TokioFramedLaws (St E : Type) `{TokioFramed St E} := {
  framed_inv : St -> Prop;
  framed_input : St -> list byte;
  framed_output : St -> list byte;
  framed_send_law d frame s r s' : framed_inv s -> framed_send d frame s = (r, s') ->
    framed_inv s' /\ framed_input s' = framed_input s /\ r <> Panic /\
    framed_output s `prefix_of` framed_output s' /\
    (r = Ok tt -> framed_output s' = framed_output s ++ frame_wire frame);
  framed_next_law d s r s' frame rest : framed_inv s -> framed_next d s = (r, s') ->
    length frame <= MAX_FRAME_LEN -> framed_input s = frame_wire frame ++ rest ->
    framed_inv s' /\ framed_output s' = framed_output s /\
    (r = Ok (Some frame) /\ framed_input s' = rest \/ exists e, r = Err e);
  framed_next_output d s r s' : framed_inv s -> framed_next d s = (r, s') ->
    framed_inv s' /\ framed_output s' = framed_output s;
}.

Module TransportError.
Inductive t (E : Type) :=
| Random
| Io (e : E)
| Timeout
| InvalidFrame
| Disconnected.
Arguments Random {E}.
Arguments Io {E} e.
Arguments Timeout {E}.
Arguments InvalidFrame {E}.
Arguments Disconnected {E}.
End TransportError.
Abbreviation TransportError := TransportError.t.

Record FramedTransport (St : Type) := mkFramedTransport { ft_framed : St; ft_deadline : N }.
Arguments mkFramedTransport {St} _ _.
Arguments ft_framed {St} _.
Arguments ft_deadline {St} _.

Section tokio.
Context {St E : Type} `{TokioFramed St E}.

Definition framed_error (e : option E) : TransportError E :=
  match e with Some e => TransportError.Io e | None => TransportError.Timeout end.

Definition tokio_send (frame : list byte) : M (FramedTransport St) (TransportError E) unit := fun t =>
  if MAX_FRAME_LEN <? length frame then (Err TransportError.InvalidFrame, t) else
  let '(r, s) := framed_send (ft_deadline t) frame (ft_framed t) in
  (map_err framed_error r, mkFramedTransport s (ft_deadline t)).

Definition tokio_receive : M (FramedTransport St) (TransportError E) (list byte) := fun t =>
  let '(r, s) := framed_next (ft_deadline t) (ft_framed t) in
  (match r with
   | Err e => Err (framed_error e)
   | Ok None => Err TransportError.Disconnected
   | Ok (Some bytes) =>
       if length bytes <=? MAX_FRAME_LEN then Ok bytes else Err TransportError.InvalidFrame
   | Panic => Panic
   end, mkFramedTransport s (ft_deadline t)).

Definition tokio_receive_into :
    M (list byte * FramedTransport St) (TransportError E) nat := fun '(output, t) =>
  match tokio_receive t with
  | (Ok bytes, t') =>
      match get_range output 0 (length bytes) with
      | Some _ =>
          match write_range (E:=E) output 0 (length bytes) bytes with
          | Ok output' => (Ok (length bytes), (output', t'))
          | _ => (Panic, (output, t'))
          end
      | None => (Err TransportError.InvalidFrame, (output, t'))
      end
  | (Err e, t') => (Err e, (output, t'))
  | (Panic, t') => (Panic, (output, t'))
  end.

Definition tokio_send_hello (identity : AgentId) : M (FramedTransport St) (TransportError E) unit :=
  tokio_send (vec_to_list (agent_bytes identity)).

Definition receive_hello : M (FramedTransport St) (TransportError E) AgentId :=
  bytes ← tokio_receive;
  lift (match to_array 16 bytes with
        | Some identity => Ok (mkAgentId identity)
        | None => Err TransportError.InvalidFrame
        end).

#[export] Instance tokio_transport : AsyncTransport (FramedTransport St) (TransportError E) := {
  transport_send := tokio_send;
  transport_receive := tokio_receive_into;
}.
End tokio.

(** ** The loop of [read_exact] *)

Section embassy_facts.
Context {St E : Type} `{EmbassyIo St E}.

(** The [while] loop of [read_exact] as it is written, without fuel: [read_loop d stop
    start w pieces r w'] when from [start] it ends with [r], having read [pieces]. *)
Inductive read_loop (d : option N) (stop : nat) : nat -> list byte * St -> list (list byte) ->
    result (option (ReadFailure E)) unit -> list byte * St -> Prop :=
  | read_loop_full start w :
      stop <= start -> read_loop d stop start w [] (Ok tt) w
  | read_loop_failed start output s e s' :
      start < stop -> io_read d (stop - start) s = (Err e, s') ->
      read_loop d stop start (output, s) [] (Err (option_map ReadFailure.Io e)) (output, s')
  | read_loop_panicked start output s s' :
      start < stop -> io_read d (stop - start) s = (Panic, s') ->
      read_loop d stop start (output, s) [] Panic (output, s')
  | read_loop_closed start output s s' :
      start < stop -> io_read d (stop - start) s = (Ok [], s') ->
      read_loop d stop start (output, s) [] (Err (Some ReadFailure.Disconnected)) (output, s')
  | read_loop_overrun start output s bytes s' :
      start < stop -> io_read d (stop - start) s = (Ok bytes, s') -> stop - start < length bytes ->
      read_loop d stop start (output, s) [] Panic (output, s')
  | read_loop_next start output s bytes s' pieces r w :
      start < stop -> io_read d (stop - start) s = (Ok bytes, s') ->
      bytes <> [] -> length bytes <= stop - start ->
      read_loop d stop (start + length bytes)
        (take start output ++ bytes ++ drop (start + length bytes) output, s') pieces r w ->
      read_loop d stop start (output, s) (bytes :: pieces) r w.

Lemma write_range_next (output : list byte) start stop (bytes : list byte) :
  start + length bytes <= stop -> stop <= length output ->
  write_range (E:=E) output start (start + length bytes) bytes
  = Ok (take start output ++ bytes ++ drop (start + length bytes) output).
Proof.
  intros Hle Hstop. unfold write_range.
  rewrite (proj2 (Nat.leb_le _ _)), (proj2 (Nat.leb_le _ _)), (proj2 (Nat.eqb_eq _ _)) by lia. done.
Qed.

Lemma read_loop_functional d stop start w pieces r w1 :
  read_loop d stop start w pieces r w1 ->
  forall pieces' r' w2, read_loop d stop start w pieces' r' w2 -> pieces' = pieces /\ r' = r /\ w2 = w1.
Proof.
  induction 1; intros pieces' r' w2 Hrun2;
    inversion Hrun2; subst; try lia; try done;
    match goal with
    | H1 : io_read _ _ _ = _, H2 : io_read _ _ _ = _ |- _ => rewrite H1 in H2; simplify_eq
    end; cbn [length] in *; try lia; try done.
  match goal with
  | IH : forall _ _ _, read_loop _ _ _ _ _ _ _ -> _, Hr : read_loop _ _ _ _ _ _ _ |- _ =>
      by destruct (IH _ _ _ Hr) as (-> & -> & ->)
  end.
Qed.

(** It ends, after at most a read per byte, as the fuelled loop does. *)
Lemma read_loop_total d stop fuel start output s :
  stop - start <= fuel -> start <= stop -> stop <= length output ->
  exists pieces r w, read_loop d stop start (output, s) pieces r w /\
    read_exact_loop fuel d start stop (output, s) = (r, w) /\
    length pieces <= stop - start /\ Forall (fun piece => piece <> []) pieces /\
    length (w.1) = length output /\
    (r = Ok tt <-> length (concat pieces) = stop - start) /\
    w.1 = take start output ++ concat pieces ++ drop (start + length (concat pieces)) output.
Proof.
  revert start output s. induction fuel as [|fuel IH]; intros start output s Hf Hle Hstop;
    cbn [read_exact_loop]; destruct (Nat.leb_spec stop start) as [Hge|Hlt]; try lia.
  1, 2: exists [], (Ok tt), (output, s); split; [by apply read_loop_full|]; cbn; rewrite Nat.add_0_r, take_drop;
    split_and!; [done|lia|constructor|done|split; [lia|done]|done].
  destruct (io_read d (stop - start) s) as [[bytes|e|] s'] eqn:Hread; cycle 1.
  { eexists [], _, _. split; [by eapply read_loop_failed|]. cbn. rewrite Nat.add_0_r, take_drop.
    split_and!; [done|lia|constructor|done|split; [done|lia]|done]. }
  { eexists [], _, _. split; [by eapply read_loop_panicked|]. cbn. rewrite Nat.add_0_r, take_drop.
    split_and!; [done|lia|constructor|done|split; [done|lia]|done]. }
  destruct (Nat.eqb_spec (length bytes) 0) as [H0|H0].
  { apply nil_length_inv in H0 as ->. eexists [], _, _. split; [by eapply read_loop_closed|]. cbn.
    rewrite Nat.add_0_r, take_drop. split_and!; [done|lia|constructor|done|split; [done|lia]|done]. }
  destruct (Nat.ltb_spec (stop - start) (length bytes)) as [Hover|Hfit].
  { eexists [], _, _. split; [by eapply read_loop_overrun|]. cbn. rewrite Nat.add_0_r, take_drop.
    split_and!; [done|lia|constructor|done|split; [done|lia]|done]. }
  rewrite (write_range_next _ _ stop) by lia.
  destruct (IH (start + length bytes) (take start output ++ bytes ++ drop (start + length bytes) output) s')
    as (pieces & r & w & Hrun & Heq & Hlen & Hne & Hl & Hok & Hw); [lia..| |].
  { rewrite !length_app, length_take, length_drop. lia. }
  exists (bytes :: pieces), r, w. split; [apply read_loop_next with s'; try done; by destruct bytes|].
  split; [done|]. split; [cbn; lia|]. split; [constructor; [by destruct bytes|done]|].
  cbn [concat]. rewrite length_app.
  split; [rewrite Hl, !length_app, length_take, length_drop; lia|]. split; [rewrite Hok; lia|].
  rewrite Hw, (app_assoc (take start output)), take_app_length' by (rewrite length_app, length_take; lia).
  rewrite drop_app_ge by (rewrite length_app, length_take; lia).
  rewrite drop_drop, length_app, length_take_le, <-!app_assoc by lia. do 4 f_equal. lia.
Qed.

Context {HL : EmbassyIoLaws St E}.

Lemma read_exact_loop_spec fuel d start stop output s r output' s' :
  stop - start <= fuel -> start <= stop -> stop <= length output -> io_inv s ->
  read_exact_loop fuel d start stop (output, s) = (r, (output', s')) ->
  io_inv s' /\ io_output s' = io_output s /\ r <> Panic /\ length output' = length output /\
  match r with
  | Ok _ => exists got, io_input s = got ++ io_input s' /\ length got = stop - start /\
      output' = take start output ++ got ++ drop stop output
  | Err (Some ReadFailure.Disconnected) => length (io_input s) < stop - start /\ io_input s' = []
  | Err (Some ReadFailure.InvalidFrame) => False
  | _ => True
  end.
Proof.
  revert start output s r output' s'. induction fuel as [|fuel IH];
    intros start output s r output' s' Hf Hle Hstop Hs Hrun.
  all: cbn [read_exact_loop] in Hrun; destruct (Nat.leb_spec stop start) as [Heq|Hlt]; [|try lia].
  1, 2: injection Hrun as <- <- <-; do 4 (split; [done|]); exists []; replace stop with start by lia;
    rewrite Nat.sub_diag; cbn [app]; by rewrite take_drop.
  destruct (io_read _ _ _) as [r0 s1] eqn:Hread.
  apply io_read_law in Hread as (Hs1 & Ho1 & Hnp & Hr0); [|done].
  destruct r0 as [bytes|[e|]|]; [|by injection Hrun as <- <- <-..|done].
  destruct Hr0 as (Hlen & Hin & Hend).
  destruct (Nat.eqb_spec (length bytes) 0) as [H0|H0].
  { apply nil_length_inv in H0 as ->. injection Hrun as <- <- <-. do 4 (split; [done|]).
    cbn [app] in Hin. rewrite <-Hin, Hend by (done || lia). cbn. split; [lia|done]. }
  rewrite (proj2 (Nat.ltb_ge _ _)), (write_range_next _ _ stop) in Hrun by lia.
  apply IH in Hrun as (? & ? & ? & Hl & Hr); [|lia| |rewrite !length_app, length_take, length_drop; lia|done];
    [|lia].
  do 2 (split; [congruence|]). split; [done|].
  split; [rewrite Hl, !length_app, length_take, length_drop; lia|].
  destruct r as [[]|[[| |]|]|]; try done; cycle 1.
  { destruct Hr as [Hr ->]. rewrite Hin, length_app. split; [lia|done]. }
  destruct Hr as (got & Hgot & Hg & ->). exists (bytes ++ got). rewrite Hin, Hgot, length_app.
  split; [by rewrite app_assoc|]. split; [lia|]. rewrite (app_assoc (take start output)).
  rewrite take_app_length' by (rewrite length_app, length_take; lia).
  rewrite drop_app_ge by (rewrite length_app, length_take; lia).
  rewrite drop_drop, length_app, length_take_le by lia. rewrite <-!app_assoc. do 4 f_equal. lia.
Qed.

Lemma read_exact_spec d n output s r output' s' :
  n <= length output -> io_inv s -> read_exact d 0 n (output, s) = (r, (output', s')) ->
  io_inv s' /\ io_output s' = io_output s /\ r <> Panic /\ length output' = length output /\
  match r with
  | Ok _ => exists got, io_input s = got ++ io_input s' /\ length got = n /\ output' = got ++ drop n output
  | Err (Some ReadFailure.Disconnected) => length (io_input s) < n /\ io_input s' = []
  | Err (Some ReadFailure.InvalidFrame) => False
  | _ => True
  end.
Proof.
  intros Hn Hs Hrun. apply read_exact_loop_spec in Hrun; [|lia..|done]. by rewrite Nat.sub_0_r in Hrun.
Qed.

(** ** Frames *)

Lemma max_frame_u32 : (N.of_nat MAX_FRAME_LEN < 256 ^ N.of_nat 4)%N.
Proof. vm_compute. reflexivity. Qed.

Lemma length_prefix_value (frame : list byte) : length frame <= MAX_FRAME_LEN ->
  from_be (length_prefix frame) = N.of_nat (length frame).
Proof. intros Hle. apply from_be_to_be_small. pose proof max_frame_u32. lia. Qed.

Lemma frame_prefix (p frame : list byte) : length p = 4 -> from_be p = N.of_nat (length frame) ->
  p = length_prefix frame.
Proof. intros Hp Hv. unfold length_prefix. by rewrite <-Hv, <-Hp, to_be_from_be. Qed.

(** What [receive] gives is determined by the bytes on the stream: a frame exactly
    when they start with its length and its bytes and it is within bounds. *)
Lemma embassy_receive_spec output (t : EmbassyFramedTransport St) r output' t' :
  io_inv (et_stream t) -> embassy_receive (output, t) = (r, (output', t')) ->
  io_inv (et_stream t') /\ io_output (et_stream t') = io_output (et_stream t) /\
  length output' = length output /\ r <> Panic /\
  match r with
  | Ok n => exists frame, n = length frame /\ n <= MAX_FRAME_LEN /\
      io_input (et_stream t) = frame_wire frame ++ io_input (et_stream t') /\
      output' = frame ++ drop n output
  | Err EmbassyTransportError.InvalidFrame => output' = output /\ exists prefix, length prefix = 4 /\
      io_input (et_stream t) = prefix ++ io_input (et_stream t') /\
      (N.of_nat MAX_FRAME_LEN < from_be prefix \/ N.of_nat (length output) < from_be prefix)%N
  | Err EmbassyTransportError.Disconnected => io_input (et_stream t') = [] /\
      forall frame rest, length frame <= MAX_FRAME_LEN -> io_input (et_stream t) <> frame_wire frame ++ rest
  | _ => True
  end.
Proof.
  intros Hs. unfold embassy_receive, read_frame.
  destruct (read_exact _ 0 4 _) as [r1 [p s1]] eqn:Hprefix.
  apply read_exact_spec in Hprefix as (Hs1 & Ho1 & Hnp1 & Hp & Hr1); [|cbn; lia|done].
  destruct r1 as [[]|[[e| |]|]|]; cbn [map_err settle]; [|by intros [= <- <- <-]| |done|by intros [= <- <- <-]|done];
    cycle 1.
  { destruct Hr1 as [Hshort Hend]. intros [= <- <- <-]. do 4 (split; [done|]). split; [done|].
    intros frame rest _ Heq. apply (f_equal length) in Heq. unfold frame_wire, length_prefix in Heq.
    rewrite !length_app, length_to_be in Heq. lia. }
  destruct Hr1 as (got & Hin & Hgot & ->). rewrite drop_ge, app_nil_r in * by (cbn; lia).
  destruct (_ || _)%bool eqn:Hguard; cbn [map_err settle].
  { intros [= <- <- <-]. do 4 (split; [done|]). split; [done|]. exists got.
    autorewrite with bool_prop in Hguard. done. }
  autorewrite with bool_prop in Hguard. destruct Hguard as [Hmax Hroom].
  destruct (read_exact _ 0 _ _) as [r2 [output2 s2]] eqn:Hbody.
  apply read_exact_spec in Hbody as (Hs2 & Ho2 & Hnp2 & Hl2 & Hr2); [|lia|done].
  destruct r2 as [[]|[[e| |]|]|]; cbn [map_err settle];
    [|by intros [= <- <- <-]; cbn [et_stream]; rewrite Ho2| |done
     |by intros [= <- <- <-]; cbn [et_stream]; rewrite Ho2|done];
    intros [= <- <- <-]; cbn [et_stream]; rewrite Ho2; do 4 (split; [done|]).
  - destruct Hr2 as (frame & Hin2 & Hframe & ->). exists frame. split; [done|]. split; [lia|].
    split; [|done]. cbn [et_stream]. unfold frame_wire.
    rewrite <-(frame_prefix got frame) by (done || lia). by rewrite Hin, Hin2, app_assoc.
  - destruct Hr2 as [Hshort Hend]. split; [done|]. intros frame rest Hle Heq.
    rewrite Hin in Heq. unfold frame_wire in Heq. rewrite <-app_assoc in Heq.
    apply app_inj_1 in Heq as [-> Heq]; [|by unfold length_prefix; rewrite length_to_be].
    rewrite length_prefix_value in Hshort by done. rewrite Heq, length_app in Hshort. lia.
Qed.

Lemma frame_wire_inj (f1 f2 r1 r2 : list byte) :
  length f1 <= MAX_FRAME_LEN -> length f2 <= MAX_FRAME_LEN ->
  frame_wire f1 ++ r1 = frame_wire f2 ++ r2 -> f1 = f2 /\ r1 = r2.
Proof.
  intros H1 H2. unfold frame_wire. rewrite <-!app_assoc. intros [Hp Heq]%app_inj_1.
  - apply (f_equal from_be) in Hp. rewrite !length_prefix_value in Hp by done.
    apply app_inj_1 in Heq; [done|lia].
  - unfold length_prefix. by rewrite !length_to_be.
Qed.

Lemma embassy_send_spec frame (t : EmbassyFramedTransport St) r t' :
  io_inv (et_stream t) -> embassy_send frame t = (r, t') ->
  io_inv (et_stream t') /\ r <> Panic /\ io_input (et_stream t') = io_input (et_stream t) /\
  match r with
  | Ok _ => length frame <= MAX_FRAME_LEN /\
      io_output (et_stream t') = io_output (et_stream t) ++ frame_wire frame
  | Err EmbassyTransportError.InvalidFrame => MAX_FRAME_LEN < length frame /\ t' = t
  | Err EmbassyTransportError.Disconnected => False
  | _ => True
  end.
Proof.
  intros Hs. unfold embassy_send, write_frame. destruct (Nat.ltb_spec MAX_FRAME_LEN (length frame)) as [|Hle].
  { by intros [= <- <-]. }
  rewrite M_bind_run. destruct (io_write_all _ _ _) as [r1 s1] eqn:Hw1.
  apply io_write_law in Hw1 as (Hs1 & Hi1 & Hnp1 & Ho1); [|done].
  destruct r1 as [[]|[e|]|]; [|by intros [= <- <-]..|done].
  rewrite M_bind_run. destruct (io_write_all _ frame s1) as [r2 s2] eqn:Hw2.
  apply io_write_law in Hw2 as (Hs2 & Hi2 & Hnp2 & Ho2); [|done].
  destruct r2 as [[]|[e|]|]; [|by intros [= <- <-]; cbn [et_stream]; rewrite Hi2..|done].
  destruct (io_flush _ s2) as [r3 s3] eqn:Hw3. apply io_flush_law in Hw3 as (Hs3 & Hi3 & Hnp3 & Ho3); [|done].
  destruct r3 as [[]|[e|]|]; [|by intros [= <- <-]; cbn [et_stream]; rewrite Hi3, Hi2..|done].
  intros [= <- <-]. cbn [et_stream]. rewrite Hi3, Hi2. do 3 (split; [done|]). split; [done|].
  rewrite Ho3, (Ho2 eq_refl), (Ho1 eq_refl). unfold frame_wire. by rewrite app_assoc.
Qed.

(** A frame that is on the stream is what is received, unless the stream fails. *)
Lemma embassy_receive_frame output (t : EmbassyFramedTransport St) frame rest r output' t' :
  io_inv (et_stream t) -> length frame <= MAX_FRAME_LEN -> length frame <= length output ->
  io_input (et_stream t) = frame_wire frame ++ rest ->
  embassy_receive (output, t) = (r, (output', t')) ->
  io_inv (et_stream t') /\ length output' = length output /\
  (r = Ok (length frame) /\ take (length frame) output' = frame /\ io_input (et_stream t') = rest \/
   r = Err EmbassyTransportError.Timeout \/ exists e, r = Err (EmbassyTransportError.Io e)).
Proof.
  intros Hs Hmax Hroom Hin Hrun.
  apply embassy_receive_spec in Hrun as (Hs' & _ & Hl & Hnp & Hr); [|done].
  do 2 (split; [done|]). destruct r as [n|[e| | |]|]; [|eauto..|done].
  - destruct Hr as (f & -> & Hf & Hin' & ->). rewrite Hin in Hin'.
    apply frame_wire_inj in Hin' as [-> ->]; [|done..]. left. split; [done|]. by rewrite take_app_length.
  - destruct Hr as [_ Hno]. by destruct (Hno frame rest Hmax).
  - destruct Hr as (_ & prefix & Hp & Hin' & Hbad). exfalso. rewrite Hin in Hin'.
    unfold frame_wire in Hin'. rewrite <-app_assoc in Hin'.
    apply app_inj_1 in Hin' as [<- _]; [|by unfold length_prefix; rewrite length_to_be].
    rewrite length_prefix_value in Hbad by done. lia.
Qed.
End embassy_facts.

Section tokio_facts.
Context {St E : Type} `{HL : TokioFramedLaws St E}.

Lemma tokio_send_spec frame (t : FramedTransport St) t' :
  framed_inv (ft_framed t) -> tokio_send frame t = (Ok tt, t') ->
  framed_inv (ft_framed t') /\ framed_input (ft_framed t') = framed_input (ft_framed t) /\
  length frame <= MAX_FRAME_LEN /\
  framed_output (ft_framed t') = framed_output (ft_framed t) ++ frame_wire frame.
Proof.
  intros Hs. unfold tokio_send. destruct (Nat.ltb_spec MAX_FRAME_LEN (length frame)); [done|].
  destruct (framed_send _ _ _) as [r s] eqn:Hrun. apply framed_send_law in Hrun as (? & ? & _ & _ & Ho); [|done].
  destruct r as [[]| |]; [|done..]. intros [= <-]. cbn [ft_framed]. auto.
Qed.

Lemma tokio_receive_frame (t : FramedTransport St) frame rest r t' :
  framed_inv (ft_framed t) -> length frame <= MAX_FRAME_LEN ->
  framed_input (ft_framed t) = frame_wire frame ++ rest -> tokio_receive t = (r, t') ->
  framed_inv (ft_framed t') /\
  (r = Ok frame /\ framed_input (ft_framed t') = rest \/
   r = Err TransportError.Timeout \/ exists e, r = Err (TransportError.Io e)).
Proof.
  intros Hs Hmax Hin. unfold tokio_receive. destruct (framed_next _ _) as [r0 s] eqn:Hrun.
  destruct (framed_next_law _ _ _ _ frame rest Hs Hrun Hmax Hin) as (Hs' & _ & [[-> Hrest]|[e ->]]).
  - rewrite (proj2 (Nat.leb_le _ _)) by done. intros [= <- <-]. cbn [ft_framed]. auto.
  - intros [= <- <-]. cbn [ft_framed]. split; [done|]. right. destruct e; cbn; eauto.
Qed.
End tokio_facts.

(** ** Sequences of frames *)

Section frames.
Context {St E : Type} `{EmbassyIo St E}.

Fixpoint embassy_send_all (frames : list (list byte)) :
    M (EmbassyFramedTransport St) (EmbassyTransportError E) unit :=
  match frames with
  | [] => mret tt
  | frame :: frames' => embassy_send frame;; embassy_send_all frames'
  end.

(** Receives [n] frames into one buffer. *)
Fixpoint embassy_receive_all (n : nat) :
    M (list byte * EmbassyFramedTransport St) (EmbassyTransportError E) (list (list byte)) :=
  match n with
  | 0 => mret []
  | S n' =>
      len ← embassy_receive;
      frame ← gets (fun w => take len w.1);
      frames ← embassy_receive_all n';
      mret (frame :: frames)
  end.
End frames.

Section frames_facts.
Context {St E : Type} `{HL : EmbassyIoLaws St E}.

Lemma embassy_send_all_spec frames (t : EmbassyFramedTransport St) t' :
  io_inv (et_stream t) -> embassy_send_all frames t = (Ok tt, t') ->
  Forall (fun f => length f <= MAX_FRAME_LEN) frames /\
  io_output (et_stream t') = io_output (et_stream t) ++ concat (frame_wire <$> frames).
Proof.
  revert t. induction frames as [|frame frames IH]; intros t Hs; cbn [embassy_send_all].
  { intros [= <-]. split; [constructor|]. cbn. by rewrite app_nil_r. }
  rewrite M_bind_run. destruct (embassy_send frame t) as [r t1] eqn:Hrun.
  apply embassy_send_spec in Hrun as (Hs1 & _ & _ & Hr); [|done].
  destruct r as [[]|e|]; [|done..]. destruct Hr as [Hle Ho1].
  intros (Hall & Ho)%IH; [|done]. split; [by constructor|].
  cbn [fmap list_fmap concat]. by rewrite Ho, Ho1, <-app_assoc.
Qed.

Lemma embassy_receive_all_spec frames rest output (t : EmbassyFramedTransport St) r w :
  io_inv (et_stream t) ->
  Forall (fun f => length f <= MAX_FRAME_LEN /\ length f <= length output) frames ->
  io_input (et_stream t) = concat (frame_wire <$> frames) ++ rest ->
  embassy_receive_all (length frames) (output, t) = (r, w) ->
  (r = Ok frames /\ io_input (et_stream w.2) = rest) \/
  r = Err EmbassyTransportError.Timeout \/ exists e, r = Err (EmbassyTransportError.Io e).
Proof.
  revert output t r w. induction frames as [|frame frames IH]; intros output t r w Hs Hall Hin;
    cbn [embassy_receive_all length].
  { intros [= <- <-]. by left. }
  apply Forall_cons in Hall as [[Hmax Hroom] Hall]. cbn [fmap list_fmap concat] in Hin.
  rewrite <-app_assoc in Hin. rewrite M_bind_run.
  destruct (embassy_receive (output, t)) as [r1 [output1 t1]] eqn:Hrun.
  eapply embassy_receive_frame in Hrun as (Hs1 & Hl & Hr); [|done..].
  destruct Hr as [(-> & Htake & Hrest)|[->|[e ->]]]; [|by intros [= <- <-]; eauto..].
  rewrite bind_gets. cbn [fst]. rewrite Htake, M_bind_run.
  destruct (embassy_receive_all (length frames) (output1, t1)) as [r2 w2] eqn:Hall'.
  apply IH in Hall' as [[-> Hin2]|[->|[e ->]]]; [| | |done|by rewrite Hl|done];
    intros [= <- <-]; eauto.
Qed.
End frames_facts.

(** A stream that hands out at most [chunk] bytes at a time. *)
Record FragmentedIo := mkFragmentedIo { fio_input : list byte; fio_output : list byte; fio_chunk : nat }.

#[export] Instance FragmentedIo_io : EmbassyIo FragmentedIo Empty_set := {
  io_read _ n io :=
    let count := Nat.min (Nat.min n (fio_chunk io)) (length (fio_input io)) in
    (Ok (take count (fio_input io)), mkFragmentedIo (drop count (fio_input io)) (fio_output io) (fio_chunk io));
  io_write_all _ bytes io :=
    (Ok tt, mkFragmentedIo (fio_input io) (fio_output io ++ bytes) (fio_chunk io));
  io_flush _ io := (Ok tt, io);
}.

#[export] Program Instance FragmentedIo_laws : EmbassyIoLaws FragmentedIo Empty_set := {
  io_inv io := 0 < fio_chunk io;
  io_input := fio_input;
  io_output := fio_output;
}.
Next Obligation.
  intros d n [i o c] r s' Hc [= <- <-]. cbn in *. do 3 (split; [done|]).
  rewrite take_drop, length_take. split; [lia|]. split; [done|].
  intros Hn Hnil. apply (f_equal length) in Hnil. rewrite length_take in Hnil. cbn in Hnil.
  destruct i; [done|]. cbn in Hnil. lia.
Qed.
Next Obligation. by intros d bytes io r s' Hc [= <- <-]. Qed.
Next Obligation. by intros d io r s' Hc [= <- <-]. Qed.

(** ** The properties *)

(** C33: The receive loop terminates, with the reads it needs and no more. Whatever the
    stream does, the [while] loop of [read_exact] on [output[start..stop]] comes to an
    end after at most as many reads as there are bytes to fill, with one outcome, and it
    is the one the fuelled definition computes; when it succeeds the pieces it read, put
    together, fill exactly that range. An end of the stream is an error, never a loop
    that goes on reading nothing. *)
Theorem read_exact_terminates {St E} `{EmbassyIo St E} d start stop (output : list byte) (s : St) :
  start <= stop -> stop <= length output ->
  exists pieces r w,
    read_loop (E:=E) d stop start (output, s) pieces r w /\
    (forall pieces' r' w', read_loop (E:=E) d stop start (output, s) pieces' r' w' ->
       pieces' = pieces /\ r' = r /\ w' = w) /\
    read_exact (E:=E) d start stop (output, s) = (r, w) /\
    length pieces <= stop - start /\ Forall (fun piece => piece <> []) pieces /\
    length (w.1) = length output /\
    (r = Ok tt <-> length (concat pieces) = stop - start) /\
    w.1 = take start output ++ concat pieces ++ drop (start + length (concat pieces)) output.
Proof.
  intros Hle Hstop. destruct (read_loop_total d stop (stop - start) start output s) as
    (pieces & r & w & Hrun & Hfuel & Hw); [lia..|].
  exists pieces, r, w. split; [done|]. split; [by apply read_loop_functional|].
  split; [done|]. exact Hw.
Qed.

Lemma read_exact_terminates_witness :
  exists pieces r w,
    read_loop (E:=Empty_set) None 4 1 (replicate 5 x00, mkFragmentedIo [x01; x02; x03] [] 2) pieces r w /\
    r = Ok tt /\ length pieces <= 3.
Proof.
  destruct (read_exact_terminates (E:=Empty_set) None 1 4 (replicate 5 x00)
    (mkFragmentedIo [x01; x02; x03] [] 2)) as (pieces & r & w & Hrun & _ & Heq & Hlen & _); [cbn; lia..|].
  exists pieces, r, w. split; [exact Hrun|]. split; [|exact Hlen].
  vm_compute in Heq. by injection Heq as <- _.
Defined.

(** C32: Frames survive any fragmentation of the stream. What the Embassy transport
    writes for a sequence of frames is their length-prefixed concatenation, and only
    frames within the protocol's bound are sent; and from a stream that carries such
    a concatenation, in pieces of any size, it receives exactly those frames, one per
    call, and leaves what follows; it can otherwise only report a failure of the
    stream or the deadline. *)
Theorem framing_roundtrip {St E} `{HL : EmbassyIoLaws St E} frames (t u : EmbassyFramedTransport St) :
  io_inv (et_stream t) -> io_inv (et_stream u) ->
  (forall t', embassy_send_all frames t = (Ok tt, t') ->
     Forall (fun f => length f <= MAX_FRAME_LEN) frames /\
     io_output (et_stream t') = io_output (et_stream t) ++ concat (frame_wire <$> frames)) /\
  (forall output rest r w,
     Forall (fun f => length f <= MAX_FRAME_LEN /\ length f <= length output) frames ->
     io_input (et_stream u) = concat (frame_wire <$> frames) ++ rest ->
     embassy_receive_all (length frames) (output, u) = (r, w) ->
     (r = Ok frames /\ io_input (et_stream w.2) = rest) \/
     r = Err EmbassyTransportError.Timeout \/ exists e, r = Err (EmbassyTransportError.Io e)).
Proof.
  intros Ht Hu. split.
  - intros t'. by apply embassy_send_all_spec.
  - intros output rest r w Hall Hin. by apply embassy_receive_all_spec.
Qed.

(** A receive never accepts anything else and never panics: it returns a frame
    only if the stream starts with exactly that frame behind its length, within the
    protocol's bound and the caller's buffer; a length beyond either is rejected
    before any byte of the payload is read and with the buffer untouched; and it
    reports a disconnection only when the stream ended before a complete frame. *)
Theorem receive_exact {St E} `{HL : EmbassyIoLaws St E} output (t : EmbassyFramedTransport St) r output' t' :
  io_inv (et_stream t) -> embassy_receive (output, t) = (r, (output', t')) ->
  length output' = length output /\
  match r with
  | Ok n => exists frame, n = length frame /\ n <= MAX_FRAME_LEN /\
      io_input (et_stream t) = frame_wire frame ++ io_input (et_stream t') /\
      output' = frame ++ drop n output
  | Err EmbassyTransportError.InvalidFrame => output' = output /\ exists prefix, length prefix = 4 /\
      io_input (et_stream t) = prefix ++ io_input (et_stream t') /\
      (N.of_nat MAX_FRAME_LEN < from_be prefix \/ N.of_nat (length output) < from_be prefix)%N
  | Err EmbassyTransportError.Disconnected => io_input (et_stream t') = [] /\
      forall frame rest, length frame <= MAX_FRAME_LEN -> io_input (et_stream t) <> frame_wire frame ++ rest
  | Err _ => True
  | Panic => False
  end.
Proof.
  intros Ht Hrun. apply embassy_receive_spec in Hrun as (_ & _ & Hl & Hnp & Hr); [|done].
  split; [done|]. by destruct r as [n|[e| | |]|].
Qed.

(** C35: The two transports understand each other. A frame the Embassy transport sends
    is the one the Tokio transport of the broker receives, and the other way around,
    and the hello of an agent is received as its identity; otherwise the receiver
    reports a failure of its stream or the deadline. *)
Theorem transports_interoperate {St1 St2 E1 E2} `{HE : EmbassyIoLaws St1 E1} `{HT : TokioFramedLaws St2 E2}
    (t t' : EmbassyFramedTransport St1) (u u' : FramedTransport St2) frame :
  io_inv (et_stream t) -> framed_inv (ft_framed u) ->
  (forall rest r u1, embassy_send frame t = (Ok tt, t') -> io_output (et_stream t) = [] ->
     framed_input (ft_framed u) = io_output (et_stream t') ++ rest -> tokio_receive u = (r, u1) ->
     (r = Ok frame /\ framed_input (ft_framed u1) = rest) \/
     r = Err TransportError.Timeout \/ exists e, r = Err (TransportError.Io e)) /\
  (forall output rest r output1 t1, tokio_send frame u = (Ok tt, u') -> framed_output (ft_framed u) = [] ->
     length frame <= length output ->
     io_input (et_stream t) = framed_output (ft_framed u') ++ rest ->
     embassy_receive (output, t) = (r, (output1, t1)) ->
     (r = Ok (length frame) /\ take (length frame) output1 = frame /\ io_input (et_stream t1) = rest) \/
     r = Err EmbassyTransportError.Timeout \/ exists e, r = Err (EmbassyTransportError.Io e)) /\
  (forall identity rest r u1, embassy_send_hello identity t = (Ok tt, t') -> io_output (et_stream t) = [] ->
     framed_input (ft_framed u) = io_output (et_stream t') ++ rest -> receive_hello u = (r, u1) ->
     r = Ok identity \/ r = Err TransportError.Timeout \/ exists e, r = Err (TransportError.Io e)).
Proof.
  intros Ht Hu. split; [|split].
  - intros rest r u1 (_ & _ & _ & Hmax & Ho)%embassy_send_spec Hnil Hin Hrun; [|done].
    rewrite Hnil in Ho. rewrite Ho in Hin.
    by destruct (tokio_receive_frame u frame rest r u1 Hu Hmax Hin Hrun) as [_ ?].
  - intros output rest r output1 t1 (_ & _ & Hmax & Ho)%tokio_send_spec Hnil Hroom Hin Hrun; [|done].
    rewrite Hnil in Ho. rewrite Ho in Hin.
    by destruct (embassy_receive_frame output t frame rest r output1 t1 Ht Hmax Hroom Hin Hrun) as (_ & _ & ?).
  - intros identity rest r u1 (_ & _ & _ & Hmax & Ho)%embassy_send_spec Hnil Hin; [|done].
    rewrite Hnil in Ho. rewrite Ho in Hin. unfold receive_hello. rewrite M_bind_run.
    destruct (tokio_receive u) as [r1 u2] eqn:Hrun.
    destruct (tokio_receive_frame u _ rest r1 u2 Hu Hmax Hin Hrun) as [_ [[-> _]|[->|[e ->]]]];
      unfold lift; rewrite ?to_array_to_list; intros [= <- <-]; [left; by destruct identity|eauto..].
Qed.

Module TransportExample.
(** The agent writes two frames; the reader gets them a byte at a time. *)
Definition frames : list (list byte) := [[x07; x08; x09]; []; [x01]].
Definition written := (embassy_send_all frames (EmbassyFramedTransport_new (mkFragmentedIo [] [] 1))).2.
Definition reader := EmbassyFramedTransport_with_timeout (mkFragmentedIo (fio_output (et_stream written)) [] 1) 5.

(** A codec that reads and writes its own buffers. *)
#[global] Instance tokio : TokioFramed (list byte * list byte) Empty_set := {
  framed_send _ frame s := (Ok tt, (s.1, s.2 ++ frame_wire frame));
  framed_next _ s :=
    let n := N.to_nat (from_be (take 4 s.1)) in
    (Ok (if length s.1 <? 4 + n then None else Some (take n (drop 4 s.1))), (drop (4 + n) s.1, s.2));
}.
#[global, program] Instance tokio_laws : TokioFramedLaws (list byte * list byte) Empty_set := {
  framed_inv _ := True;
  framed_input := fst;
  framed_output := snd;
}.
Next Obligation.
  intros d frame s r s' _ [= <- <-]. do 3 (split; [done|]). split; [|done]. by apply prefix_app_r.
Qed.
Next Obligation.
  intros d [i o] r s' frame rest _ [= <- <-] Hmax. cbn [fst snd]. intros ->. do 2 (split; [done|]). left.
  unfold frame_wire. rewrite <-app_assoc, take_app_length' by (unfold length_prefix; by rewrite length_to_be).
  rewrite length_prefix_value, Nat2N.id by done.
  assert (length (length_prefix frame) = 4) as Hp by (unfold length_prefix; by rewrite length_to_be).
  rewrite !length_app, Hp, (proj2 (Nat.ltb_ge _ _)) by lia.
  rewrite (drop_app_length' _ _ 4), take_app_length by done.
  rewrite app_assoc, drop_app_length' by (rewrite length_app; lia). done.
Qed.
Next Obligation. by intros d [i o] r s' _ [= <- <-]. Qed.
End TransportExample.

Lemma framing_roundtrip_witness :
  exists w, embassy_receive_all (length TransportExample.frames) (replicate 8 x00, TransportExample.reader)
            = (Ok TransportExample.frames, w) /\ fio_input (et_stream w.2) = [].
Proof.
  destruct (framing_roundtrip TransportExample.frames
    (EmbassyFramedTransport_new (mkFragmentedIo [] [] 1)) TransportExample.reader) as [_ Hr]; [cbn; lia..|].
  destruct (embassy_receive_all (length TransportExample.frames) (replicate 8 x00, TransportExample.reader)) as [r w] eqn:Hrun.
  exists w.
  assert (Forall (fun f => length f <= MAX_FRAME_LEN /\ length f <= length (replicate 8 x00))
            TransportExample.frames) as Hall by (apply (bool_decide_unpack _); vm_compute; reflexivity).
  assert (io_input (et_stream TransportExample.reader)
          = concat (frame_wire <$> TransportExample.frames) ++ []) as Hin by (vm_compute; reflexivity).
  destruct (Hr _ _ _ _ Hall Hin Hrun) as [[-> Hrest]|[->|[[] _]]]; [split; [reflexivity|exact Hrest]|].
  vm_compute in Hrun. discriminate Hrun.
Defined.

Lemma receive_exact_witness :
  exists frame, frame = [x07; x08; x09] /\ 3 <= MAX_FRAME_LEN.
Proof.
  destruct (embassy_receive (replicate 8 x00, TransportExample.reader)) as [r [output' t']] eqn:Hrun.
  destruct (receive_exact (replicate 8 x00) TransportExample.reader r output' t') as [_ Hr];
    [cbn; lia|exact Hrun|].
  assert (r = Ok 3) as -> by (vm_compute in Hrun; by injection Hrun as <- _ _).
  destruct Hr as (frame & Hlen & Hmax & Hin & _). exists frame. split; [|exact Hmax].
  vm_compute in Hin.
  destruct frame as [|a [|b [|c [|? ?]]]]; try discriminate Hlen.
  by injection Hin as <- <- <-.
Defined.

Lemma transports_interoperate_witness :
  (receive_hello (mkFramedTransport
     (frame_wire (vec_to_list (agent_bytes AgentId_CA)), []) 5%N)).1 = Ok AgentId_CA.
Proof.
  destruct (receive_hello (mkFramedTransport
     (frame_wire (vec_to_list (agent_bytes AgentId_CA)), []) 5%N)) as [r u1] eqn:Hrun.
  destruct (transports_interoperate (EmbassyFramedTransport_new (mkFragmentedIo [] [] 1))
    (embassy_send_hello AgentId_CA (EmbassyFramedTransport_new (mkFragmentedIo [] [] 1))).2
    (mkFramedTransport (frame_wire (vec_to_list (agent_bytes AgentId_CA)), []) 5%N)
    (mkFramedTransport ([], []) 5%N) []) as (_ & _ & Hhello); [vm_compute; lia|done|].
  destruct (Hhello AgentId_CA [] r u1) as [-> |[->|[[] _]]];
    [vm_compute; reflexivity|reflexivity|vm_compute; reflexivity|exact Hrun|reflexivity|].
  vm_compute in Hrun. discriminate Hrun.
Defined.
