(* ===== verification/Link.v ===== *)
(** infrastructure-link/src/lib.rs: the framing, the authentication and the
    bounded retransmission state of the link between the broker and the CA. *)

From S2P Require Export Types.

(** ** Data *)

(** [b"SPLK"] *)
Definition LINK_MAGIC : list byte := [x53; x50; x4c; x4b].
Definition LINK_VERSION : byte := x01.
Definition LINK_HEADER_LEN : nat := 28.
Definition MAX_LINK_FRAME_LEN : nat := LINK_HEADER_LEN + MAX_FRAME_LEN.

Record MessageId := mkMessageId { message_bytes : array 16 }.

#[export] Instance MessageId_eq_dec : EqDecision MessageId.
Proof. solve_decision. Defined.
#[export] Instance MessageId_countable : Countable MessageId.
Proof. by apply (inj_countable' message_bytes mkMessageId); intros []. Defined.

Module FrameKind.
Inductive t := Request | Delivery | Ack | AuthChallenge | AuthResponse | AuthOk.

#[global] Instance eq_dec : EqDecision t.
Proof. solve_decision. Defined.
End FrameKind.
Abbreviation FrameKind := FrameKind.t.

Module LinkError.
Inductive t := InvalidFrame | Oversized | QueueFull | Authentication.

#[global] Instance eq_dec : EqDecision t.
Proof. solve_decision. Defined.
End LinkError.
Abbreviation LinkError := LinkError.t.

Record LinkFrame := mkLinkFrame {
  link_kind : FrameKind;
  link_id : MessageId;
  link_payload : list byte;
}.

(** [kind as u8] *)
Definition frame_kind_u8 (k : FrameKind) : byte :=
  match k with
  | FrameKind.Request => x01
  | FrameKind.Delivery => x02
  | FrameKind.Ack => x03
  | FrameKind.AuthChallenge => x04
  | FrameKind.AuthResponse => x05
  | FrameKind.AuthOk => x06
  end.

(** [FrameKind::parse] *)
Definition frame_kind_parse (value : byte) : result LinkError FrameKind :=
  match value with
  | x01 => Ok FrameKind.Request
  | x02 => Ok FrameKind.Delivery
  | x03 => Ok FrameKind.Ack
  | x04 => Ok FrameKind.AuthChallenge
  | x05 => Ok FrameKind.AuthResponse
  | x06 => Ok FrameKind.AuthOk
  | _ => Err LinkError.InvalidFrame
  end.

(** [matches!(kind, FrameKind::Ack | FrameKind::AuthOk)] *)
Definition is_empty_kind (k : FrameKind) : bool :=
  match k with FrameKind.Ack | FrameKind.AuthOk => true | _ => false end.

Definition is_empty_list {A} (l : list A) : bool := match l with [] => true | _ => false end.

(** ** Codec *)

Definition encode (kind : FrameKind) (id : MessageId) (payload : list byte) :
    result LinkError (list byte) :=
  if MAX_FRAME_LEN <? length payload then Err LinkError.Oversized else
  if is_empty_kind kind && negb (is_empty_list payload) then Err LinkError.InvalidFrame else
  payload_len ← ok_or (try_from_usize u32_max (length payload)) LinkError.Oversized;
  Ok (LINK_MAGIC ++ [LINK_VERSION] ++ [frame_kind_u8 kind] ++ to_be 2 0
        ++ vec_to_list (message_bytes id) ++ to_be 4 payload_len ++ payload).

Definition decode (input : list byte) : result LinkError LinkFrame :=
  if length input <? LINK_HEADER_LEN then Err LinkError.InvalidFrame else
  if MAX_LINK_FRAME_LEN <? length input then Err LinkError.Oversized else
  magic ← slice input 0 4;
  version ← index input 4;
  reserved ← slice input 6 8;
  if negb (bool_decide (magic = LINK_MAGIC)) || negb (bool_decide (version = LINK_VERSION))
     || negb (bool_decide (reserved = [x00; x00]))
  then Err LinkError.InvalidFrame else
  code ← index input 5;
  kind ← frame_kind_parse code;
  id_bytes ← slice input 8 24;
  id ← ok_or (to_array 16 id_bytes) LinkError.InvalidFrame;
  len_bytes ← slice input 24 28;
  len_array ← ok_or (to_array 4 len_bytes) LinkError.InvalidFrame;
  let payload_len := N.to_nat (from_be (vec_to_list len_array)) in
  expected ← ok_or (checked_add LINK_HEADER_LEN payload_len) LinkError.Oversized;
  if negb (expected =? length input) || (MAX_FRAME_LEN <? payload_len)
  then Err LinkError.InvalidFrame else
  payload ← slice input LINK_HEADER_LEN (length input);
  if is_empty_kind kind && negb (is_empty_list payload) then Err LinkError.InvalidFrame else
  Ok (mkLinkFrame kind (mkMessageId id) payload).

(** ** Authentication *)

(** [sha2::Sha256] is third-party code: the digest of the bytes fed to it. *)
Class Sha256 := { sha256 : list byte -> array 32 }.

(** [a ^= b] on [u8] *)
Definition byte_xor (a b : byte) : byte := byte_of (N.lxor (byte_val a) (byte_val b)).

(** [b"SecurePubSub/Broker-CA/v1"] *)
Definition AUTH_LABEL : list byte :=
  [x53; x65; x63; x75; x72; x65; x50; x75; x62; x53; x75; x62; x2f; x42; x72; x6f; x6b; x65;
   x72; x2d; x43; x41; x2f; x76; x31].

(** The loop of [authentication_mac] over [0..secret.len()]: both keys are
    updated in place, byte by byte. *)
Fixpoint mac_keys (n index : nat) (secret inner_key outer_key : list byte) :
    result LinkError (list byte * list byte) :=
  match n with
  | O => Ok (inner_key, outer_key)
  | S n' =>
      s ← Bytes.index secret index;
      i ← Bytes.index inner_key index;
      inner_key' ← write_index inner_key index (byte_xor i s);
      o ← Bytes.index outer_key index;
      outer_key' ← write_index outer_key index (byte_xor o s);
      mac_keys n' (S index) secret inner_key' outer_key'
  end.

Section authentication.
Context `{Sha256}.

Definition authentication_mac (secret challenge : array 32) : result LinkError (array 32) :=
  keys ← mac_keys 32 0 (vec_to_list secret) (replicate 64 x36) (replicate 64 x5c);
  let inner := sha256 (keys.1 ++ AUTH_LABEL ++ vec_to_list challenge) in
  Ok (sha256 (keys.2 ++ vec_to_list inner)).

Definition verify_authentication (secret challenge : array 32) (response : list byte) :
    result LinkError unit :=
  expected ← authentication_mac secret challenge;
  if (length response =? 32) && bool_decide (response = vec_to_list expected)
  then Ok tt else Err LinkError.Authentication.

(** Reference: HMAC-SHA256 with a 64-byte block, for a key of at most a block. *)
Definition hmac_sha256 (key message : list byte) : array 32 :=
  let block := key ++ replicate (64 - length key) x00 in
  sha256 (((byte_xor x5c) <$> block)
    ++ vec_to_list (sha256 (((byte_xor x36) <$> block) ++ message))).
End authentication.

(** ** Unacknowledged frames *)

Record PendingFrames := mkPending {
  pf_maximum : nat;
  pf_frames : gmap MessageId (list byte);
  pf_order : list MessageId;
}.

Definition PendingFrames_new (maximum : nat) : PendingFrames := mkPending maximum ∅ [].

Definition pending_insert (id : MessageId) (encoded : list byte) : M PendingFrames LinkError unit :=
  frames ← gets pf_frames;
  maximum ← gets pf_maximum;
  if bool_decide (is_Some (frames !! id)) then fail LinkError.InvalidFrame else
  if maximum <=? size frames then fail LinkError.QueueFull else
  modify (fun p => mkPending (pf_maximum p) (<[id := encoded]> (pf_frames p)) (pf_order p));;
  modify (fun p => mkPending (pf_maximum p) (pf_frames p) (pf_order p ++ [id])).

Definition pending_acknowledge (id : MessageId) (p : PendingFrames) : bool * PendingFrames :=
  let removed := bool_decide (is_Some (pf_frames p !! id)) in
  let frames := delete id (pf_frames p) in
  (removed, mkPending (pf_maximum p) frames
     (if removed then filter (fun candidate => candidate <> id) (pf_order p) else pf_order p)).

Definition pending_snapshot (p : PendingFrames) : list (list byte) :=
  omap (fun id => pf_frames p !! id) (pf_order p).

Definition pending_len (p : PendingFrames) : nat := size (pf_frames p).
Definition pending_is_empty (p : PendingFrames) : bool := size (pf_frames p) =? 0.
Definition pending_is_full (p : PendingFrames) : bool := pf_maximum p <=? size (pf_frames p).
Definition pending_remaining (p : PendingFrames) : nat := pf_maximum p - size (pf_frames p).

(** ** Deduplication *)

Record DedupWindow := mkDedup {
  dw_maximum : nat;
  dw_order : list MessageId;
  dw_ids : gset MessageId;
}.

Definition DedupWindow_new (maximum : nat) : DedupWindow := mkDedup maximum [] ∅.

Definition dedup_contains (id : MessageId) (w : DedupWindow) : bool := bool_decide (id ∈ dw_ids w).

Definition dedup_insert (id : MessageId) : M DedupWindow LinkError unit :=
  maximum ← gets dw_maximum;
  if maximum =? 0 then fail LinkError.QueueFull else
  ids ← gets dw_ids;
  if bool_decide (id ∈ ids) then mret tt else
  modify (fun w =>
    if size (dw_ids w) =? dw_maximum w then
      match dw_order w with
      | oldest :: order => mkDedup (dw_maximum w) order (dw_ids w ∖ {[oldest]})
      | [] => w
      end
    else w);;
  modify (fun w => mkDedup (dw_maximum w) (dw_order w ++ [id]) (dw_ids w));;
  modify (fun w => mkDedup (dw_maximum w) (dw_order w) ({[id]} ∪ dw_ids w)).

(** ** The codec *)

Lemma frame_kind_roundtrip k : frame_kind_parse (frame_kind_u8 k) = Ok k.
Proof. by destruct k. Qed.

Lemma frame_kind_parse_Ok b k : frame_kind_parse b = Ok k -> b = frame_kind_u8 k.
Proof. destruct b; cbn; intros [= <-]; done. Qed.

Definition link_segments (kind : FrameKind) (id : MessageId) (payload : list byte) :
    list (list byte) :=
  [LINK_MAGIC; [LINK_VERSION]; [frame_kind_u8 kind]; to_be 2 0; vec_to_list (message_bytes id);
   to_be 4 (N.of_nat (length payload)); payload].

(** The frames the link can carry. *)
Definition link_wf (kind : FrameKind) (payload : list byte) : Prop :=
  length payload <= MAX_FRAME_LEN /\ (is_empty_kind kind = true -> payload = []).

Lemma encode_Ok kind id payload input :
  encode kind id payload = Ok input <->
  link_wf kind payload /\ input = concat (link_segments kind id payload).
Proof.
  unfold encode, link_wf, link_segments, try_from_usize. cbn [concat]. rewrite !app_nil_r.
  destruct (Nat.ltb_spec MAX_FRAME_LEN (length payload)) as [Hlt|Hle].
  { split; [done|]. intros [[? _] _]. lia. }
  rewrite (proj2 (N.leb_le _ _))
    by (unfold MAX_FRAME_LEN, MAX_PLAINTEXT_LEN, HEADER_LEN, TAG_LEN, SIGNATURE_LEN in Hle;
        unfold u32_max; lia).
  cbn [ok_or]. rewrite bind_Ok.
  destruct (is_empty_kind kind), payload as [|x payload]; cbn [is_empty_list negb andb];
    (split; [intros [= <-]; naive_solver|intros [[? Hn] ->]; done || by specialize (Hn eq_refl)]).
Qed.

Section decoding.
Variables (m r l payload : list byte) (v k : byte) (id : array 16).
Hypotheses (Hm : length m = 4) (Hr : length r = 2) (Hl : length l = 4)
  (Hp : length payload <= MAX_FRAME_LEN).

Let segs := [m; [v]; [k]; r; vec_to_list id; l; payload].

Lemma decode_segments :
  decode (concat segs) =
  if negb (bool_decide (m = LINK_MAGIC)) || negb (bool_decide (v = LINK_VERSION))
     || negb (bool_decide (r = [x00; x00]))
  then Err LinkError.InvalidFrame else
  kind ← frame_kind_parse k;
  if negb (from_be l =? N.of_nat (length payload))%N then Err LinkError.InvalidFrame else
  if is_empty_kind kind && negb (is_empty_list payload) then Err LinkError.InvalidFrame else
  Ok (mkLinkFrame kind (mkMessageId id) payload).
Proof.
  assert (Hlen : length (concat segs) = 28 + length payload) by (subst segs; seg_len).
  assert (Hll : (from_be l < 4294967296)%N).
  { pose proof (from_be_lt l) as Hlt. rewrite Hl in Hlt. exact Hlt. }
  unfold MAX_FRAME_LEN, MAX_PLAINTEXT_LEN, HEADER_LEN, TAG_LEN, SIGNATURE_LEN in Hp.
  unfold decode. rewrite Hlen.
  rewrite (proj2 (Nat.ltb_ge _ LINK_HEADER_LEN)) by (unfold LINK_HEADER_LEN; lia).
  rewrite (proj2 (Nat.ltb_ge MAX_LINK_FRAME_LEN _))
    by (unfold MAX_LINK_FRAME_LEN, LINK_HEADER_LEN, MAX_FRAME_LEN, MAX_PLAINTEXT_LEN,
        HEADER_LEN, TAG_LEN, SIGNATURE_LEN; lia).
  subst segs. get_step 0 0. get_step 4 1. get_step 6 3. get_step 5 2. get_step 8 4. get_step 24 5.
  cbn [mbind result_bind]. destruct (_ || _ || _); [done|].
  destruct (frame_kind_parse k) as [kind| |]; [|done..].
  rewrite to_array_to_list.
  destruct (to_array_length 4 l) as [_ [la Hla]]; [done|]. rewrite Hla.
  apply to_array_Some in Hla as ->. cbn [ok_or mbind result_bind].
  rewrite (proj2 (checked_add_Some LINK_HEADER_LEN _ _))
    by (split; [reflexivity|unfold LINK_HEADER_LEN, u64_max; lia]).
  cbn [ok_or]. unfold LINK_HEADER_LEN.
  destruct (N.eqb_spec (from_be (vec_to_list la)) (N.of_nat (length payload))) as [Heq|Hne].
  - rewrite Heq, Nat2N.id, bind_Ok, Nat.eqb_refl.
    rewrite (proj2 (Nat.ltb_ge MAX_FRAME_LEN _))
      by (unfold MAX_FRAME_LEN, MAX_PLAINTEXT_LEN, HEADER_LEN, TAG_LEN, SIGNATURE_LEN; lia).
    cbn [negb orb]. get_step 28 6. done.
  - rewrite bind_Ok, (proj2 (Nat.eqb_neq _ _)) by lia. done.
Qed.
End decoding.

Lemma concat_snoc {A} (ls : list (list A)) l : concat ls ++ l = concat (ls ++ [l]).
Proof. rewrite concat_app. cbn [concat]. by rewrite app_nil_r. Qed.

Lemma link_frame_segments input :
  LINK_HEADER_LEN <= length input -> length input <= MAX_LINK_FRAME_LEN ->
  exists m v k r (id : array 16) l payload,
    input = concat [m; [v]; [k]; r; vec_to_list id; l; payload] /\
    length m = 4 /\ length r = 2 /\ length l = 4 /\ length payload <= MAX_FRAME_LEN.
Proof.
  unfold MAX_LINK_FRAME_LEN, LINK_HEADER_LEN. intros Hge Hle.
  destruct (segments_exist [4;1;1;2;16;4] input) as (segs & rest & -> & Hw); [simpl; lia|].
  cut_segments segs Hw.
  repeat match goal with
  | H : length ?l = 1 |- _ => destruct l as [|? [|]]; [discriminate H| |discriminate H]; clear H
  | H : length ?l = 16 |- _ => apply to_array_length in H as [? ->%to_array_Some]
  end.
  rewrite length_app in Hle. cbn [concat] in Hle.
  rewrite !length_app, length_vec_to_list in Hle. cbn [length] in Hle.
  rewrite concat_snoc. cbn [app]. do 7 eexists. split; [reflexivity|].
  split_and!; [done..|]. lia.
Qed.

Lemma decode_iff input kind id payload :
  decode input = Ok (mkLinkFrame kind id payload) <-> encode kind id payload = Ok input.
Proof.
  rewrite encode_Ok. split.
  - intros Hd.
    assert (LINK_HEADER_LEN <= length input /\ length input <= MAX_LINK_FRAME_LEN) as [Hge Hle].
    { unfold decode in Hd. destruct (Nat.ltb_spec (length input) LINK_HEADER_LEN); [done|].
      by destruct (Nat.ltb_spec MAX_LINK_FRAME_LEN (length input)). }
    destruct (link_frame_segments input Hge Hle)
      as (m & v & k & r & i & l & p & -> & Hm & Hr & Hl & Hp).
    rewrite decode_segments in Hd by done. res_inv Hd.
    apply frame_kind_parse_Ok in Ha as ->. destruct Hg as [[-> ->] ->].
    split.
    + split; [done|]. intros Hk. rewrite Hk in *. by destruct payload, Hg1.
    + assert (l = to_be 4 (N.of_nat (length payload))) as ->
        by (rewrite <-Hg0, <-(to_be_from_be l), Hl; f_equal; by rewrite <-Hl, to_be_from_be).
      reflexivity.
  - intros [[Hp Hk] ->]. unfold link_segments. destruct id as [id]. cbn [message_bytes].
    rewrite decode_segments by (done || by rewrite length_to_be).
    rewrite !bool_decide_eq_true_2 by done. cbn [negb orb]. rewrite frame_kind_roundtrip, bind_Ok.
    rewrite from_be_to_be_small
      by (unfold MAX_FRAME_LEN, MAX_PLAINTEXT_LEN, HEADER_LEN, TAG_LEN, SIGNATURE_LEN in Hp;
          change (256 ^ N.of_nat 4)%N with 4294967296%N; lia).
    rewrite N.eqb_refl. cbn [negb].
    destruct (is_empty_kind kind); cbn [andb]; [|done]. by rewrite (Hk eq_refl).
Qed.

Lemma decode_no_panic input : decode input <> Panic.
Proof.
  destruct (decide (length input < LINK_HEADER_LEN)) as [Hlt|Hge];
    [|destruct (decide (MAX_LINK_FRAME_LEN < length input)) as [Hgt|Hle]].
  - unfold decode. by rewrite (proj2 (Nat.ltb_lt _ _)).
  - unfold decode. by rewrite (proj2 (Nat.ltb_ge _ _)), (proj2 (Nat.ltb_lt _ _)) by lia.
  - destruct (link_frame_segments input) as (m & v & k & r & i & l & p & -> & Hm & Hr & Hl & Hp);
      [lia..|].
    rewrite decode_segments by done.
    destruct (_ || _ || _); [done|].
    destruct (frame_kind_parse k) as [kind| |] eqn:Hk; [|done|by destruct k].
    rewrite bind_Ok. destruct (negb _); [done|]. by destruct (_ && _).
Qed.

(** ** Authentication *)

Lemma index_middle {E} (l1 : list byte) x l2 n :
  n = length l1 -> Bytes.index (E:=E) (l1 ++ x :: l2) n = Ok x.
Proof. intros ->. apply index_eq. by apply list_lookup_middle. Qed.

Lemma write_middle {E} (l1 : list byte) x y l2 n :
  n = length l1 -> write_index (E:=E) (l1 ++ x :: l2) n y = Ok (l1 ++ y :: l2).
Proof.
  intros ->. rewrite write_index_eq by (rewrite length_app; cbn; lia).
  by rewrite insert_app_r_alt, Nat.sub_diag.
Qed.

Lemma mac_keys_run (s2 : list byte) : forall s1 i1 i2 i3 o1 o2 o3,
  length i1 = length s1 -> length o1 = length s1 ->
  length i2 = length s2 -> length o2 = length s2 ->
  mac_keys (length s2) (length s1) (s1 ++ s2) (i1 ++ i2 ++ i3) (o1 ++ o2 ++ o3)
  = Ok (i1 ++ zip_with byte_xor i2 s2 ++ i3, o1 ++ zip_with byte_xor o2 s2 ++ o3).
Proof.
  induction s2 as [|s s2 IH]; intros s1 i1 [|i i2] i3 o1 [|o o2] o3 H1 H2 H3 H4; try done.
  cbn [length mac_keys zip_with app].
  rewrite (index_middle s1) by done. rewrite bind_Ok.
  rewrite (index_middle i1) by done. rewrite bind_Ok.
  rewrite (write_middle i1) by done. rewrite bind_Ok.
  rewrite (index_middle o1) by done. rewrite bind_Ok.
  rewrite (write_middle o1) by done. rewrite bind_Ok.
  specialize (IH (s1 ++ [s]) (i1 ++ [byte_xor i s]) i2 i3 (o1 ++ [byte_xor o s]) o2 o3).
  rewrite !length_app, !Nat.add_1_r, <-!app_assoc in IH. cbn [length app] in IH, H3, H4.
  by rewrite IH by lia.
Qed.

Lemma zip_xor_pad c (secret : list byte) n :
  byte_xor c x00 = c ->
  zip_with byte_xor (replicate (length secret) c) secret ++ replicate n c
  = (byte_xor c) <$> (secret ++ replicate n x00).
Proof.
  intros Hc. rewrite fmap_app. f_equal.
  - induction secret as [|s secret IH]; cbn; [done|]. by rewrite IH.
  - induction n as [|n IH]; cbn; [done|]. by rewrite Hc, <-IH.
Qed.

Lemma authentication_mac_hmac `{Sha256} secret challenge :
  authentication_mac secret challenge
  = Ok (hmac_sha256 (vec_to_list secret) (AUTH_LABEL ++ vec_to_list challenge)).
Proof.
  unfold authentication_mac, hmac_sha256.
  pose proof (mac_keys_run (vec_to_list secret) [] [] (replicate 32 x36) (replicate 32 x36) []
    (replicate 32 x5c) (replicate 32 x5c)) as Hk.
  rewrite length_vec_to_list in Hk.
  change (mac_keys 32 0 (vec_to_list secret) (replicate 64 x36) (replicate 64 x5c)
    = _) with (mac_keys 32 0 ([] ++ vec_to_list secret) ([] ++ replicate 32 x36 ++ replicate 32 x36)
    ([] ++ replicate 32 x5c ++ replicate 32 x5c) = _) in Hk.
  change (mac_keys 32 0 (vec_to_list secret) (replicate 64 x36) (replicate 64 x5c))
    with (mac_keys 32 0 ([] ++ vec_to_list secret) ([] ++ replicate 32 x36 ++ replicate 32 x36)
    ([] ++ replicate 32 x5c ++ replicate 32 x5c)).
  change (length (@nil byte)) with 0 in Hk. rewrite Hk by done. rewrite bind_Ok. cbn [fst snd app].
  pose proof (zip_xor_pad x36 (vec_to_list secret) 32 eq_refl) as H36.
  pose proof (zip_xor_pad x5c (vec_to_list secret) 32 eq_refl) as H5c.
  rewrite length_vec_to_list in H36, H5c. rewrite H36, H5c.
  by rewrite length_vec_to_list.
Qed.

(** ** Pending frames as a list *)

(** The unacknowledged frames, oldest first. *)
Definition pending_view (p : PendingFrames) : list (MessageId * list byte) :=
  omap (fun id => pair id <$> pf_frames p !! id) (pf_order p).

Definition pending_inv (p : PendingFrames) : Prop :=
  NoDup (pf_order p) /\ dom (pf_frames p) = list_to_set (pf_order p).

Module PendingOp.
Inductive t := Insert (id : MessageId) (encoded : list byte) | Acknowledge (id : MessageId).
End PendingOp.
Abbreviation PendingOp := PendingOp.t.

Definition pending_step (op : PendingOp) (p : PendingFrames) :
    (result LinkError unit + bool) * PendingFrames :=
  match op with
  | PendingOp.Insert id encoded => let '(r, p') := pending_insert id encoded p in (inl r, p')
  | PendingOp.Acknowledge id => let '(b, p') := pending_acknowledge id p in (inr b, p')
  end.

(** Reference: a bounded list of the frames in the order they were acquired. *)
Definition list_step (maximum : nat) (op : PendingOp) (l : list (MessageId * list byte)) :
    (result LinkError unit + bool) * list (MessageId * list byte) :=
  match op with
  | PendingOp.Insert id encoded =>
      if bool_decide (id ∈ l.*1) then (inl (Err LinkError.InvalidFrame), l)
      else if maximum <=? length l then (inl (Err LinkError.QueueFull), l)
      else (inl (Ok tt), l ++ [(id, encoded)])
  | PendingOp.Acknowledge id =>
      (inr (bool_decide (id ∈ l.*1)), filter (fun kv => kv.1 <> id) l)
  end.

Fixpoint run_steps {S O R} (step : O -> S -> R * S) (ops : list O) (s : S) : list R * S :=
  match ops with
  | [] => ([], s)
  | op :: ops' =>
      let '(r, s') := step op s in
      let '(rs, s'') := run_steps step ops' s' in (r :: rs, s'')
  end.

Lemma pending_keys p : pending_inv p -> (pending_view p).*1 = pf_order p.
Proof.
  intros [_ Hdom]. unfold pending_view.
  assert (Hall : Forall (fun id => is_Some (pf_frames p !! id)) (pf_order p)).
  { apply Forall_forall. intros id Hid. apply elem_of_dom. rewrite Hdom. by apply elem_of_list_to_set. }
  clear Hdom. induction Hall as [|id l [f Hf] Hl IH]; [done|].
  cbn [omap list_omap]. rewrite Hf. cbn. by rewrite IH.
Qed.

Lemma pending_member p id :
  pending_inv p -> is_Some (pf_frames p !! id) <-> id ∈ (pending_view p).*1.
Proof.
  intros Hp. rewrite pending_keys by done. destruct Hp as [_ Hdom].
  by rewrite <-elem_of_dom, Hdom, elem_of_list_to_set.
Qed.

Lemma pending_size p : pending_inv p -> size (pf_frames p) = length (pending_view p).
Proof.
  intros Hp. rewrite <-(length_fmap fst (pending_view p)), pending_keys by done.
  destruct Hp as [Hnd Hdom]. rewrite <-size_dom, Hdom. by apply size_list_to_set.
Qed.

Lemma pending_snapshot_view p : pending_snapshot p = (pending_view p).*2.
Proof.
  unfold pending_snapshot, pending_view. induction (pf_order p) as [|id l IH]; [done|].
  cbn [omap list_omap]. destruct (pf_frames p !! id); cbn; [by rewrite IH|done].
Qed.

Lemma list_filter_all {A} (P : A -> Prop) `{!forall x, Decision (P x)} (l : list A) :
  (forall x, x ∈ l -> P x) -> filter P l = l.
Proof.
  induction l as [|x l IH]; intros Hl; [done|].
  rewrite filter_cons, decide_True by (apply Hl; left). f_equal. apply IH.
  intros y Hy. apply Hl. by right.
Qed.

(** The view does not see identifiers that are not in the order. *)
Lemma view_insert_fresh (m : gmap MessageId (list byte)) id f (l : list MessageId) :
  id ∉ l ->
  omap (fun i => pair i <$> <[id := f]> m !! i) l = omap (fun i => pair i <$> m !! i) l.
Proof.
  induction l as [|i l IH]; [done|]. intros [Hi Hl]%not_elem_of_cons.
  cbn [omap list_omap]. by rewrite lookup_insert_ne, IH.
Qed.

Lemma view_delete (m : gmap MessageId (list byte)) id (l : list MessageId) :
  omap (fun i => pair i <$> delete id m !! i) (filter (fun c => c <> id) l)
  = filter (fun kv => kv.1 <> id) (omap (fun i => pair i <$> m !! i) l).
Proof.
  induction l as [|i l IH]; [done|]. rewrite filter_cons. case_decide as Hi.
  - cbn [omap list_omap]. rewrite lookup_delete_ne by done.
    destruct (m !! i); cbn [fmap option_fmap option_map]; [|done].
    rewrite filter_cons, decide_True by done. by f_equal.
  - subst i. cbn [omap list_omap]. rewrite IH.
    destruct (m !! id); cbn [fmap option_fmap option_map]; [|done].
    by rewrite filter_cons, decide_False by auto.
Qed.

Lemma pending_refines op p :
  pending_inv p ->
  let '(r, p') := pending_step op p in
  pending_inv p' /\ pf_maximum p' = pf_maximum p /\
  list_step (pf_maximum p) op (pending_view p) = (r, pending_view p').
Proof.
  intros Hp. pose proof Hp as [Hnd Hdom]. destruct op as [id f|id]; cbn [pending_step list_step].
  - unfold pending_insert. autorewrite with rust. cbn zeta.
    rewrite (bool_decide_ext _ _ (pending_member p id Hp)).
    case_bool_decide as Hin; [done|]. rewrite (pending_size p Hp).
    destruct (_ <=? _); [done|]. autorewrite with rust. cbn [modify].
    unfold modify. cbn [pf_maximum pf_frames pf_order].
    rewrite pending_keys in Hin by done.
    split; [|split; [done|]].
    + split; cbn [pf_order pf_frames].
      * apply NoDup_app. split_and!; [done| |apply NoDup_singleton]. set_solver.
      * rewrite dom_insert_L, Hdom, list_to_set_app_L. set_solver.
    + f_equal. unfold pending_view. cbn [pf_order pf_frames].
      rewrite omap_app, view_insert_fresh by done. f_equal.
      cbn [omap list_omap]. by rewrite lookup_insert_eq.
  - unfold pending_acknowledge. cbn zeta. rewrite (bool_decide_ext _ _ (pending_member p id Hp)).
    case_bool_decide as Hin.
    + split; [|split; [done|]].
      * split; cbn [pf_order pf_frames]; [by apply NoDup_filter|].
        rewrite dom_delete_L, Hdom. apply set_eq. intros x.
        rewrite elem_of_difference, !elem_of_list_to_set, list_elem_of_filter. set_solver.
      * f_equal. unfold pending_view. cbn [pf_order pf_frames]. by rewrite view_delete.
    + assert (Hnone : pf_frames p !! id = None)
        by (apply eq_None_not_Some; by rewrite (pending_member p id Hp)).
      rewrite delete_id by done. split; [by split|]. split; [done|]. f_equal.
      unfold pending_view at 2. cbn [pf_order pf_frames]. fold (pending_view p).
      apply list_filter_all. intros kv Hkv Heq. apply Hin. rewrite <-Heq. by apply list_elem_of_fmap_2.
Qed.

Lemma pending_run_refines ops p :
  pending_inv p ->
  pending_inv (run_steps pending_step ops p).2 /\
  run_steps (list_step (pf_maximum p)) ops (pending_view p)
  = ((run_steps pending_step ops p).1, pending_view (run_steps pending_step ops p).2).
Proof.
  revert p. induction ops as [|op ops IH]; intros p Hp; cbn [run_steps]; [done|].
  pose proof (pending_refines op p Hp) as Hop.
  destruct (pending_step op p) as [r p']. destruct Hop as (Hp' & Hmax & ->).
  specialize (IH p' Hp'). rewrite Hmax in IH.
  destruct (run_steps pending_step ops p') as [rs p'']. cbn [fst snd] in *.
  destruct IH as [Hp'' ->]. done.
Qed.

Lemma list_run_bounded maximum ops l :
  length l <= maximum -> length (run_steps (list_step maximum) ops l).2 <= maximum.
Proof.
  revert l. induction ops as [|op ops IH]; intros l Hl; cbn [run_steps]; [done|].
  assert (Hstep : length (list_step maximum op l).2 <= maximum).
  { destruct op as [id f|id]; cbn [list_step].
    - case_bool_decide; [done|]. destruct (Nat.leb_spec maximum (length l)); [done|].
      cbn. rewrite length_app. cbn. lia.
    - cbn. etrans; [apply length_filter|done]. }
  destruct (list_step maximum op l) as [r l']. specialize (IH l' Hstep).
  by destruct (run_steps (list_step maximum) ops l').
Qed.

(** ** The deduplication window *)

Definition dedup_inv (w : DedupWindow) : Prop :=
  NoDup (dw_order w) /\ dw_ids w = list_to_set (dw_order w) /\ length (dw_order w) <= dw_maximum w.

Lemma dedup_contains_order w id :
  dedup_inv w -> dedup_contains id w = bool_decide (id ∈ dw_order w).
Proof.
  intros (_ & Hids & _). unfold dedup_contains. rewrite Hids.
  apply bool_decide_ext, elem_of_list_to_set.
Qed.

(** Reference: the [maximum] identifiers acquired last, oldest first; an
    identifier already present is not moved. *)
Definition window_insert (maximum : nat) (id : MessageId) (l : list MessageId) : list MessageId :=
  if bool_decide (id ∈ l) then l
  else drop (S (length l) - maximum) (l ++ [id]).

Lemma dedup_refines id w :
  dedup_inv w ->
  let '(r, w') := dedup_insert id w in
  dedup_inv w' /\ dw_maximum w' = dw_maximum w /\
  r = (if dw_maximum w =? 0 then Err LinkError.QueueFull else Ok tt) /\
  dw_order w' = if dw_maximum w =? 0 then dw_order w else window_insert (dw_maximum w) id (dw_order w).
Proof.
  intros Hw. pose proof Hw as (Hnd & Hids & Hlen). unfold dedup_insert. autorewrite with rust.
  destruct (Nat.eqb_spec (dw_maximum w) 0) as [H0|H0]; [done|]. autorewrite with rust.
  unfold window_insert.
  rewrite (bool_decide_ext (id ∈ dw_ids w) (id ∈ dw_order w))
    by (rewrite Hids; apply elem_of_list_to_set).
  case_bool_decide as Hin; [done|]. autorewrite with rust.
  rewrite Hids, size_list_to_set by done. unfold modify.
  destruct (Nat.eqb_spec (length (dw_order w)) (dw_maximum w)) as [Hfull|Hroom].
  - destruct (dw_order w) as [|oldest order] eqn:Ho; [cbn in Hfull; lia|].
    cbn [dw_maximum dw_order dw_ids]. apply NoDup_cons in Hnd as [Hold Hnd].
    apply not_elem_of_cons in Hin as [Hne Hin]. cbn [length] in *.
    split; [|split; [done|split; [done|]]].
    + split_and!; cbn [dw_order dw_ids dw_maximum].
      * apply NoDup_app. split_and!; [done|set_solver|apply NoDup_singleton].
      * apply set_eq. intros x. rewrite list_to_set_app_L, elem_of_union, elem_of_singleton,
          elem_of_difference, elem_of_union, !elem_of_list_to_set, elem_of_cons, elem_of_singleton,
          list_elem_of_singleton. split; [intuition|]. intros [Hx| ->]; [|by left]. right.
        split; [by right|]. by intros ->.
      * rewrite length_app. cbn. lia.
    + replace (S (S (length order)) - dw_maximum w) with 1 by lia. done.
  - cbn [dw_maximum dw_order dw_ids]. split; [|split; [done|split; [done|]]].
    + split_and!; cbn [dw_order dw_ids dw_maximum].
      * apply NoDup_app. split_and!; [done|set_solver|apply NoDup_singleton].
      * rewrite list_to_set_app_L. set_solver.
      * rewrite length_app. cbn. lia.
    + by replace (S (length (dw_order w)) - dw_maximum w) with 0 by lia.
Qed.

Definition dedup_run (ids : list MessageId) (w : DedupWindow) : DedupWindow :=
  foldl (fun w id => (dedup_insert id w).2) w ids.

Lemma dedup_run_inv ids w :
  dedup_inv w -> dedup_inv (dedup_run ids w) /\ dw_maximum (dedup_run ids w) = dw_maximum w.
Proof.
  revert w. induction ids as [|id ids IH]; intros w Hw; [done|]. cbn [dedup_run foldl].
  pose proof (dedup_refines id w Hw) as Hr. destruct (dedup_insert id w) as [r w'].
  destruct Hr as (Hw' & Hmax & _). cbn [snd]. destruct (IH w' Hw') as [? Hm].
  split; [done|]. unfold dedup_run in Hm. congruence.
Qed.

(** An identifier with room behind it survives one insertion. *)
Lemma window_insert_keeps maximum id x l1 l2 :
  length l2 + 1 < maximum ->
  exists l1' l2', window_insert maximum x (l1 ++ id :: l2) = l1' ++ id :: l2' /\
    length l2' <= S (length l2).
Proof.
  intros Hlen. unfold window_insert. case_bool_decide; [exists l1, l2; auto|].
  set (k := S (length (l1 ++ id :: l2)) - maximum).
  assert (Hk : k <= length l1) by (subst k; rewrite length_app; cbn; lia).
  exists (drop k l1), (l2 ++ [x]).
  rewrite <-app_assoc, drop_app_le by done. split; [done|]. rewrite length_app. cbn. lia.
Qed.

Lemma dedup_run_keeps ids w id l1 l2 :
  dedup_inv w -> dw_order w = l1 ++ id :: l2 -> length l2 + length ids < dw_maximum w ->
  id ∈ dw_order (dedup_run ids w).
Proof.
  revert w l1 l2. induction ids as [|x ids IH]; intros w l1 l2 Hw Ho Hlen; cbn [dedup_run foldl].
  - rewrite Ho. set_solver.
  - cbn [length] in Hlen. pose proof (dedup_refines x w Hw) as Hr.
    destruct (dedup_insert x w) as [r w']. destruct Hr as (Hw' & Hmax & _ & Ho'). cbn [snd].
    rewrite (proj2 (Nat.eqb_neq _ _)), Ho in Ho' by lia.
    destruct (window_insert_keeps (dw_maximum w) id x l1 l2) as (l1' & l2' & Heq & Hl); [lia|].
    rewrite Heq in Ho'. eapply IH; [done|exact Ho'|]. lia.
Qed.

Lemma dedup_run_sound ids w id :
  dedup_inv w -> id ∈ dw_order (dedup_run ids w) -> id ∈ dw_order w \/ id ∈ ids.
Proof.
  revert w. induction ids as [|x ids IH]; intros w Hw; cbn [dedup_run foldl]; [auto|].
  pose proof (dedup_refines x w Hw) as Hr.
  destruct (dedup_insert x w) as [r w']. destruct Hr as (Hw' & Hmax & _ & Ho'). cbn [snd].
  intros [Hin|Hin]%IH; [|by right; right|done]. rewrite Ho' in Hin.
  destruct (_ =? _); [by left|]. unfold window_insert in Hin.
  case_bool_decide; [by left|].
  assert (Hin' : id ∈ dw_order w ++ [x]).
  { rewrite <-(take_drop (S (length (dw_order w)) - dw_maximum w) (dw_order w ++ [x])).
    apply elem_of_app. by right. }
  apply elem_of_app in Hin' as [?|Hx%list_elem_of_singleton]; [by left|].
  right. rewrite Hx. left.
Qed.

(** ** Properties *)

(** C40: The link codec is canonical: decoding gives a frame exactly when encoding
    that frame gives the input, so every frame round-trips, no two inputs decode
    to the same frame, payloads are bounded by [MAX_FRAME_LEN] and empty for the
    two marker kinds; decoding never panics, whatever the input. *)
Theorem link_codec_canonical input kind id payload :
  decode input <> Panic /\
  (decode input = Ok (mkLinkFrame kind id payload) <-> encode kind id payload = Ok input) /\
  (is_ok (encode kind id payload) = true <->
     length payload <= MAX_FRAME_LEN /\ (is_empty_kind kind = true -> payload = [])).
Proof.
  split; [apply decode_no_panic|]. split; [apply decode_iff|].
  pose proof (encode_Ok kind id payload) as He. split.
  - destruct (encode kind id payload) as [input'| |]; [|done..]. intros _.
    by destruct (proj1 (He input') eq_refl) as [? _].
  - intros Hwf. by rewrite (proj2 (He _) (conj Hwf eq_refl)).
Qed.

(** The challenge response is HMAC-SHA256: [authentication_mac] never panics
    and computes the HMAC of the protocol label and the challenge under the shared
    secret, for any digest function; a response is accepted exactly when it is
    that MAC, byte for byte. *)
Theorem authentication_is_hmac `{Sha256} secret challenge response :
  let mac := hmac_sha256 (vec_to_list secret) (AUTH_LABEL ++ vec_to_list challenge) in
  authentication_mac secret challenge = Ok mac /\
  verify_authentication secret challenge response
  = (if bool_decide (response = vec_to_list mac) then Ok tt else Err LinkError.Authentication).
Proof.
  intros mac. pose proof (authentication_mac_hmac secret challenge) as Hmac. fold mac in Hmac.
  split; [done|]. unfold verify_authentication. rewrite Hmac, bind_Ok.
  case_bool_decide as Heq.
  - rewrite Heq, length_vec_to_list. done.
  - by rewrite andb_false_r.
Qed.

(** The retransmission state is a bounded list of the unacknowledged frames in
    the order they were acquired: from an empty collection, every sequence of
    insertions and acknowledgements gives the results of the list, the snapshot
    that is retransmitted is the list of its frames in order, and its length is
    [len], never more than the maximum. *)
Theorem pending_frames_refine_list maximum ops :
  let '(rs, p) := run_steps pending_step ops (PendingFrames_new maximum) in
  let '(rs', l) := run_steps (list_step maximum) ops [] in
  rs = rs' /\ pending_snapshot p = l.*2 /\ pending_len p = length l /\ length l <= maximum /\
  NoDup l.*1.
Proof.
  assert (Hinit : pending_inv (PendingFrames_new maximum)).
  { split; [constructor|]. cbn. by rewrite dom_empty_L. }
  pose proof (pending_run_refines ops _ Hinit) as [Hinv Hrun].
  destruct (run_steps pending_step ops _) as [rs p]. cbn [fst snd] in *.
  change (pf_maximum (PendingFrames_new maximum)) with maximum in Hrun.
  change (pending_view (PendingFrames_new maximum)) with (@nil (MessageId * list byte)) in Hrun.
  pose proof (list_run_bounded maximum ops [] (Nat.le_0_l _)) as Hb.
  rewrite Hrun in Hb |- *. cbn [snd] in Hb. split; [done|].
  split; [apply pending_snapshot_view|]. split; [by apply pending_size|]. split; [done|].
  rewrite pending_keys by done. by destruct Hinv.
Qed.

(** The deduplication window recognises acquired identifiers and only those:
    it never holds more than [maximum]; an identifier that entered it is recognised
    until at least [maximum] other insertions have followed; and an identifier it
    recognises was acquired before. *)
Theorem dedup_window_remembers maximum before id after :
  0 < maximum ->
  let w := dedup_run before (DedupWindow_new maximum) in
  let w' := dedup_run after (dedup_insert id w).2 in
  size (dw_ids w') <= maximum /\
  (dedup_contains id w = false -> length after < maximum -> dedup_contains id w' = true) /\
  (forall x, dedup_contains x w' = true -> x ∈ before ++ id :: after).
Proof.
  intros Hmax w w'.
  assert (Hinit : dedup_inv (DedupWindow_new maximum)).
  { split_and!; cbn; [constructor|done|lia]. }
  destruct (dedup_run_inv before _ Hinit) as [Hw Hm]. fold w in Hw, Hm. cbn in Hm.
  pose proof (dedup_refines id w Hw) as Hr. unfold w'.
  destruct (dedup_insert id w) as [r w1]. destruct Hr as (Hw1 & Hm1 & _ & Ho1). cbn [snd].
  rewrite Hm, (proj2 (Nat.eqb_neq _ _)) in Ho1 by lia. unfold window_insert in Ho1.
  destruct (dedup_run_inv after w1 Hw1) as [Hw2 Hm2].
  split; [|split].
  - destruct Hw2 as (Hnd & -> & Hlen). rewrite size_list_to_set by done. lia.
  - intros Hnew Hlen. rewrite dedup_contains_order in * by done.
    apply bool_decide_eq_true_2. rewrite Hnew in Ho1.
    assert (Hk : S (length (dw_order w)) - maximum <= length (dw_order w)) by lia.
    rewrite drop_app_le in Ho1 by done.
    by eapply (dedup_run_keeps after w1 id _ [] Hw1 Ho1); cbn; lia.
  - intros x. rewrite dedup_contains_order by done. intros Hx%bool_decide_eq_true.
    apply dedup_run_sound in Hx as [Hx|Hx]; [|set_solver|done]. rewrite Ho1 in Hx.
    assert (Hx' : x ∈ dw_order w ++ [id]).
    { case_bool_decide; [set_solver|].
      rewrite <-(take_drop (S (length (dw_order w)) - maximum) (dw_order w ++ [id])).
      apply elem_of_app. by right. }
    apply elem_of_app in Hx' as [Hx'|Hx']; [|set_solver].
    apply dedup_run_sound in Hx' as [Hx'|Hx']; [by apply not_elem_of_nil in Hx'|set_solver|done].
Qed.

Lemma dedup_window_remembers_witness :
  let id k := mkMessageId (vreplicate 16 k) in
  dedup_contains (id x01) (dedup_run [id x02] (dedup_insert (id x01)
    (dedup_run [] (DedupWindow_new 2))).2) = true.
Proof.
  refine (proj1 (proj2 (dedup_window_remembers 2 [] (mkMessageId (vreplicate 16 x01))
    [mkMessageId (vreplicate 16 x02)] _)) _ _).
  - lia.
  - vm_compute. reflexivity.
  - cbn. lia.
Defined.
