(* ===== verification/Handshake.v ===== *)
(** The authentication of the link: [authenticate_ca] of apps/brokerd/src/main.rs and
    [authenticate_broker] of apps/cad/src/main.rs. *)

From S2P Require Export Transport.
From S2P Require Export Link.

Section handshake.
Context `{Sha256} {St E : Type} `{TokioFramed St E}.

Abbreviation Session := (M St LinkError).

(** [timeout(deadline, framed.next()).await], every failure and the end of the stream
    as [LinkError::Authentication]. *)
Definition next_frame (deadline : N) : Session (list byte) := fun s =>
  match framed_next deadline s with
  | (Ok (Some bytes), s') => (Ok bytes, s')
  | (Ok None, s') | (Err _, s') => (Err LinkError.Authentication, s')
  | (Panic, s') => (Panic, s')
  end.

(** A send whose failures are the error [e]. *)
Definition send_or (e : LinkError) (deadline : N) (frame : list byte) : Session unit := fun s =>
  let '(r, s') := framed_send deadline frame s in (map_err (fun _ => e) r, s').

(** *** brokerd *)

Definition authenticate_ca (psk : array 32) (deadline : N) : Session unit :=
  incoming ← next_frame deadline;
  challenge ← lift (decode incoming);
  if negb (bool_decide (link_kind challenge = FrameKind.AuthChallenge))
     || negb (length (link_payload challenge) =? 32)
  then fail LinkError.Authentication else
  challenge_bytes ← lift (ok_or (to_array 32 (link_payload challenge)) LinkError.Authentication);
  mac ← lift (authentication_mac psk challenge_bytes);
  response ← lift (encode FrameKind.AuthResponse (link_id challenge) (vec_to_list mac));
  send_or LinkError.Authentication deadline response;;
  incoming ← next_frame deadline;
  accepted ← lift (decode incoming);
  if bool_decide (link_kind accepted = FrameKind.AuthOk)
     && bool_decide (link_id accepted = link_id challenge)
  then mret tt else fail LinkError.Authentication.

(** *** cad *)

(** [send_link_frame] *)
Definition send_link_frame (deadline : N) (frame : list byte) : Session unit :=
  send_or LinkError.InvalidFrame deadline frame.

(** [challenge] and [challenge_bytes] are the outcomes of the system's randomness. *)
Definition authenticate_broker (challenge : option MessageId) (challenge_bytes : option (array 32))
    (psk : array 32) (deadline : N) : Session unit :=
  challenge ← lift (ok_or challenge LinkError.Authentication);
  challenge_bytes ← lift (ok_or challenge_bytes LinkError.Authentication);
  encoded ← lift (encode FrameKind.AuthChallenge challenge (vec_to_list challenge_bytes));
  send_link_frame deadline encoded;;
  response ← next_frame deadline;
  response ← lift (decode response);
  if negb (bool_decide (link_kind response = FrameKind.AuthResponse))
     || negb (bool_decide (link_id response = challenge))
  then fail LinkError.Authentication else
  lift (verify_authentication psk challenge_bytes (link_payload response));;
  ok ← lift (encode FrameKind.AuthOk challenge []);
  send_link_frame deadline ok.
End handshake.

(** ** What the handshake establishes *)

(** The frames of a handshake. *)
Definition handshake_wire (kind : FrameKind) (id : MessageId) (payload : list byte) : list byte :=
  frame_wire (concat (link_segments kind id payload)).

Section facts.
Context `{Sha256} {St E : Type} `{HL : TokioFramedLaws St E}.

Lemma handshake_frame kind id (payload : list byte) :
  length payload <= 32 -> (is_empty_kind kind = true -> payload = []) ->
  let bytes := concat (link_segments kind id payload) in
  encode kind id payload = Ok bytes /\ decode bytes = Ok (mkLinkFrame kind id payload) /\
  length bytes <= MAX_FRAME_LEN.
Proof.
  intros Hlen Hempty bytes.
  assert (encode kind id payload = Ok bytes) as Henc.
  { apply encode_Ok. split; [|done]. split; [|done]. etrans; [exact Hlen|].
    apply (bool_decide_unpack _). vm_compute. reflexivity. }
  split; [done|]. split; [by apply decode_iff|]. unfold bytes, link_segments. cbn [concat].
  rewrite !length_app, !length_to_be, length_vec_to_list. cbn [length].
  assert (60 <= MAX_FRAME_LEN) by (apply (bool_decide_unpack _); vm_compute; reflexivity).
  unfold LINK_MAGIC. cbn [length]. lia.
Qed.

(** An operation of the stream failed, or its deadline elapsed. *)
Definition stream_fails : Prop :=
  (exists d frame s e s', framed_send d frame s = (Err e, s')) \/
  (exists d s e s', framed_next d s = (Err e, s')).

(** The next frame of a stream that carries it. *)
Lemma next_frame_run d kind id payload rest s r s' : framed_inv s ->
  length payload <= 32 -> (is_empty_kind kind = true -> payload = []) ->
  framed_input s = handshake_wire kind id payload ++ rest -> next_frame d s = (r, s') ->
  framed_inv s' /\ framed_output s' = framed_output s /\
  (r = Ok (concat (link_segments kind id payload)) /\ framed_input s' = rest \/
   r = Err LinkError.Authentication /\ stream_fails).
Proof.
  intros Hs Hlen Hempty Hin. destruct (handshake_frame kind id payload Hlen Hempty) as (_ & _ & Hmax).
  unfold next_frame. destruct (framed_next d s) as [r0 s0] eqn:Hrun.
  destruct (framed_next_law _ _ _ _ _ rest Hs Hrun Hmax Hin) as (Hs0 & Ho & [[-> Hrest]|[e ->]]);
    intros [= <- <-]; [auto|]. do 2 (split; [done|]). right. split; [done|]. right. by exists d, s, e, s0.
Qed.

Lemma send_or_run e d frame s r s' : framed_inv s -> send_or e d frame s = (r, s') ->
  framed_inv s' /\ framed_input s' = framed_input s /\
  (r = Ok tt /\ framed_output s' = framed_output s ++ frame_wire frame \/ r = Err e /\ stream_fails).
Proof.
  intros Hs. unfold send_or. destruct (framed_send d frame s) as [r0 s0] eqn:Hrun.
  destruct (framed_send_law _ _ _ _ _ Hs Hrun) as (? & ? & Hnp & _ & Ho).
  intros [= <- <-]. do 2 (split; [done|]).
  destruct r0 as [[]|x|]; cbn [map_err]; [left; auto| |done].
  right. split; [done|]. left. by exists d, frame, s, x, s0.
Qed.

Definition answer (psk challenge : array 32) : list byte :=
  vec_to_list (hmac_sha256 (vec_to_list psk) (AUTH_LABEL ++ vec_to_list challenge)).

Lemma length_answer psk challenge : length (answer psk challenge) <= 32.
Proof. unfold answer. by rewrite length_vec_to_list. Qed.

(** The side of the broker, whatever its key. *)
Lemma authenticate_ca_run psk d id (challenge : array 32) rest s r s' : framed_inv s ->
  framed_input s = handshake_wire FrameKind.AuthChallenge id (vec_to_list challenge)
    ++ handshake_wire FrameKind.AuthOk id [] ++ rest ->
  authenticate_ca psk d s = (r, s') ->
  r = Ok tt /\ framed_input s' = rest /\
    framed_output s' = framed_output s
      ++ handshake_wire FrameKind.AuthResponse id (answer psk challenge) \/
  r = Err LinkError.Authentication /\ stream_fails.
Proof.
  intros Hs Hin. assert (length (vec_to_list challenge) <= 32) as Hc by by rewrite length_vec_to_list.
  destruct (handshake_frame FrameKind.AuthChallenge id (vec_to_list challenge)) as (_ & Hdec & _); [done..|].
  destruct (handshake_frame FrameKind.AuthResponse id (answer psk challenge)) as (Henc & _ & _);
    [apply length_answer|done|].
  destruct (handshake_frame FrameKind.AuthOk id []) as (_ & Hdec3 & _); [apply Nat.le_0_l|done|].
  unfold authenticate_ca. rewrite M_bind_run. destruct (next_frame d s) as [r1 s1] eqn:Hrun1.
  apply (next_frame_run d FrameKind.AuthChallenge id (vec_to_list challenge)
    (handshake_wire FrameKind.AuthOk id [] ++ rest)) in Hrun1 as (Hs1 & Ho1 & [[-> Hin1]|[-> Hf]]);
    [|intros [= <- <-]; by right|done..].
  rewrite Hdec, bind_lift_ok. cbn [link_kind link_payload link_id].
  rewrite bool_decide_eq_true_2, length_vec_to_list by done. cbn [negb orb Nat.eqb].
  rewrite to_array_to_list. cbn [ok_or]. rewrite bind_lift_ok, authentication_mac_hmac, bind_lift_ok.
  fold (answer psk challenge). rewrite Henc, bind_lift_ok, M_bind_run.
  destruct (send_or _ d _ s1) as [r2 s2] eqn:Hrun2.
  apply send_or_run in Hrun2 as (Hs2 & Hin2 & [[-> Ho2]|[-> Hf]]); [|intros [= <- <-]; by right|done].
  rewrite M_bind_run. destruct (next_frame d s2) as [r3 s3] eqn:Hrun3. rewrite Hin1 in Hin2.
  apply (next_frame_run d FrameKind.AuthOk id [] rest) in Hrun3 as (Hs3 & Ho3 & [[-> Hin3]|[-> Hf]]);
    [|intros [= <- <-]; by right|done|apply Nat.le_0_l|done..].
  rewrite Hdec3, bind_lift_ok. cbn [link_kind link_id]. rewrite !bool_decide_eq_true_2 by done.
  intros [= <- <-]. left. split; [done|]. split; [done|]. rewrite Ho3, Ho2, Ho1. done.
Qed.

(** The side of the CA: it accepts exactly the answer under its own key. *)
Lemma authenticate_broker_run psk d id (challenge : array 32) (mac : array 32) rest s r s' : framed_inv s ->
  framed_input s = handshake_wire FrameKind.AuthResponse id (vec_to_list mac) ++ rest ->
  authenticate_broker (Some id) (Some challenge) psk d s = (r, s') ->
  (r = Ok tt /\ vec_to_list mac = answer psk challenge /\ framed_input s' = rest /\
    framed_output s' = framed_output s
      ++ handshake_wire FrameKind.AuthChallenge id (vec_to_list challenge)
      ++ handshake_wire FrameKind.AuthOk id []) \/
  (r = Err LinkError.Authentication /\ vec_to_list mac <> answer psk challenge) \/
  ((r = Err LinkError.Authentication \/ r = Err LinkError.InvalidFrame) /\ stream_fails).
Proof.
  intros Hs Hin. assert (length (vec_to_list challenge) <= 32) as Hc by by rewrite length_vec_to_list.
  assert (length (vec_to_list mac) <= 32) as Hm by by rewrite length_vec_to_list.
  destruct (handshake_frame FrameKind.AuthChallenge id (vec_to_list challenge)) as (Henc & _ & _); [done..|].
  destruct (handshake_frame FrameKind.AuthResponse id (vec_to_list mac)) as (_ & Hdec & _); [done..|].
  destruct (handshake_frame FrameKind.AuthOk id []) as (Henc3 & _ & _); [apply Nat.le_0_l|done|].
  unfold authenticate_broker, send_link_frame. cbn [ok_or]. rewrite !bind_lift_ok, Henc, bind_lift_ok, M_bind_run.
  destruct (send_or _ d _ s) as [r1 s1] eqn:Hrun1.
  apply send_or_run in Hrun1 as (Hs1 & Hin1 & [[-> Ho1]|[-> Hf]]); [|intros [= <- <-]; do 2 right; auto|done].
  rewrite M_bind_run. destruct (next_frame d s1) as [r2 s2] eqn:Hrun2. rewrite Hin in Hin1.
  apply (next_frame_run d FrameKind.AuthResponse id (vec_to_list mac) rest)
    in Hrun2 as (Hs2 & Ho2 & [[-> Hin2]|[-> Hf]]); [|intros [= <- <-]; do 2 right; auto|done..].
  rewrite Hdec, bind_lift_ok. cbn [link_kind link_id link_payload].
  rewrite !bool_decide_eq_true_2 by done. cbn [negb orb].
  unfold verify_authentication. rewrite authentication_mac_hmac, bind_Ok. fold (answer psk challenge).
  rewrite length_vec_to_list, Nat.eqb_refl. cbn [andb].
  case_bool_decide as Hmac; [|rewrite bind_lift_err; intros [= <- <-]; by right; left].
  rewrite bind_lift_ok, Henc3, bind_lift_ok. intros Hrun3.
  apply send_or_run in Hrun3 as (Hs3 & Hin3 & [[-> Ho3]|[-> Hf]]); [left|do 2 right; auto|done].
  split; [done|]. split; [done|]. split; [by rewrite Hin3|]. by rewrite Ho3, Ho2, Ho1, <-app_assoc.
Qed.
End facts.

(** C31: The handshake authenticates the broker to the CA. On the stream of the CA that
    carries an answer to its challenge, it accepts exactly when the answer is the
    HMAC of the protocol label and the challenge under its own key, and then it has
    sent the challenge and the acceptance; the broker answers any challenge under its
    own key and accepts as soon as the acceptance names it. So with one key both
    sides accept and the frames fit, with two keys whose answers differ the CA never
    does, and only a failure of the stream or the deadline changes that. The broker
    gets no proof of the CA's key: its side is the same for every peer. *)
Theorem handshake_authenticates `{Sha256} `{HA : TokioFramedLaws StA EA} `{HB : TokioFramedLaws StB EB}
    psk_ca psk_broker d d' id (challenge : array 32) (s : StA) (b : StB) :
  framed_inv s -> framed_inv b ->
  (forall (mac : array 32) rest r s',
     framed_input s = handshake_wire FrameKind.AuthResponse id (vec_to_list mac) ++ rest ->
     authenticate_broker (Some id) (Some challenge) psk_ca d s = (r, s') ->
     (r = Ok tt /\ vec_to_list mac = answer psk_ca challenge /\ framed_input s' = rest /\
       framed_output s' = framed_output s
         ++ handshake_wire FrameKind.AuthChallenge id (vec_to_list challenge)
         ++ handshake_wire FrameKind.AuthOk id []) \/
     (r = Err LinkError.Authentication /\ vec_to_list mac <> answer psk_ca challenge) \/
     ((r = Err LinkError.Authentication \/ r = Err LinkError.InvalidFrame) /\
       stream_fails (St:=StA) (E:=EA))) /\
  (forall rest r b',
     framed_input b = handshake_wire FrameKind.AuthChallenge id (vec_to_list challenge)
       ++ handshake_wire FrameKind.AuthOk id [] ++ rest ->
     authenticate_ca psk_broker d' b = (r, b') ->
     (r = Ok tt /\ framed_input b' = rest /\
       framed_output b' = framed_output b
         ++ handshake_wire FrameKind.AuthResponse id (answer psk_broker challenge)) \/
     (r = Err LinkError.Authentication /\ stream_fails (St:=StB) (E:=EB))).
Proof.
  intros Hs Hb. split.
  - intros mac rest r s'. by apply authenticate_broker_run.
  - intros rest r b'. by apply authenticate_ca_run.
Qed.

Module HandshakeExample.
#[local] Instance sha : Sha256 := {
  sha256 bytes := vreplicate 32 (byte_of (foldr (fun b n => byte_val b + 3 * n)%N 7%N bytes));
}.
Definition psk : array 32 := vreplicate 32 x2a.
Definition challenge : array 32 := vreplicate 32 x05.
Definition id : MessageId := mkMessageId (vreplicate 16 x09).

(** The stream of either side, with what the other sends. *)
Definition ca_stream : list byte * list byte :=
  (handshake_wire FrameKind.AuthResponse id (answer psk challenge), []).
Definition broker_stream : list byte * list byte :=
  (handshake_wire FrameKind.AuthChallenge id (vec_to_list challenge) ++ handshake_wire FrameKind.AuthOk id [] ++ [], []).

Lemma reliable : ~ stream_fails (St:=list byte * list byte) (E:=Empty_set).
Proof. intros [(d & frame & s & e & s' & Hrun)|(d & s & e & s' & Hrun)]; discriminate Hrun. Qed.
End HandshakeExample.

Lemma handshake_authenticates_witness :
  exists r s' r' b',
    authenticate_broker (H:=HandshakeExample.sha) (Some HandshakeExample.id) (Some HandshakeExample.challenge)
      HandshakeExample.psk 5 HandshakeExample.ca_stream = (r, s') /\
    authenticate_ca (H:=HandshakeExample.sha) HandshakeExample.psk 5 HandshakeExample.broker_stream = (r', b') /\
    r = Ok tt /\ r' = Ok tt.
Proof.
  destruct (authenticate_broker (H:=HandshakeExample.sha) (Some HandshakeExample.id) (Some HandshakeExample.challenge)
    HandshakeExample.psk 5 HandshakeExample.ca_stream) as [r s'] eqn:Hca.
  destruct (authenticate_ca (H:=HandshakeExample.sha) HandshakeExample.psk 5 HandshakeExample.broker_stream) as [r' b'] eqn:Hbroker.
  destruct (handshake_authenticates (H:=HandshakeExample.sha) HandshakeExample.psk HandshakeExample.psk 5 5 HandshakeExample.id
    HandshakeExample.challenge HandshakeExample.ca_stream HandshakeExample.broker_stream) as [Hc Hb]; [done..|].
  exists r, s', r', b'. do 2 (split; [reflexivity|]). split.
  - destruct (Hc (hmac_sha256 (H:=HandshakeExample.sha) (vec_to_list HandshakeExample.psk)
      (AUTH_LABEL ++ vec_to_list HandshakeExample.challenge)) [] r s') as [[-> _]|[[_ []]|[_ []%HandshakeExample.reliable]]];
      [|exact Hca|reflexivity|reflexivity].
    unfold HandshakeExample.ca_stream. cbn [fst framed_input TransportExample.tokio_laws].
    symmetry. apply app_nil_r.
  - destruct (Hb [] r' b') as [[-> _]|[_ []%HandshakeExample.reliable]]; [reflexivity|exact Hbroker|reflexivity].
Defined.
