(* ===== verification/Policy.v ===== *)
(** ca-core/src/lib.rs: environment policies, the checks on what agents may
    declare about themselves and on which deliveries are allowed. *)

From S2P Require Export Payload.

(** ** Data *)

Module AttributeType.
Inductive t := Bool | I64 | Bytes.

#[global] Instance eq_dec : EqDecision t.
Proof. solve_decision. Defined.
End AttributeType.
Abbreviation AttributeType := AttributeType.t.

Module AttributeAuthority.
Inductive t := SelfDeclared | CaIssued.

#[global] Instance eq_dec : EqDecision t.
Proof. solve_decision. Defined.
End AttributeAuthority.
Abbreviation AttributeAuthority := AttributeAuthority.t.

Module AttributeValue.
Inductive t := Bool (b : bool) | I64 (z : Z) | Bytes (l : list byte).

#[global] Instance eq_dec : EqDecision t.
Proof. solve_decision. Defined.
End AttributeValue.
Abbreviation AttributeValue := AttributeValue.t.

Module EnvironmentPolicyError.
Inductive t :=
| UnknownAttribute
| WrongAttributeType
| CaApprovalRequired
| ValueNotAllowed
| InvalidConfiguration.

#[global] Instance eq_dec : EqDecision t.
Proof. solve_decision. Defined.
End EnvironmentPolicyError.
Abbreviation EnvironmentPolicyError := EnvironmentPolicyError.t.

(** [AttributeType::matches] *)
Definition type_matches (t : AttributeType) (value : ValueRef) : bool :=
  match t, value with
  | AttributeType.Bool, ValueRef.Bool _ => true
  | AttributeType.I64, ValueRef.I64 _ => true
  | AttributeType.Bytes, ValueRef.Bytes _ => true
  | _, _ => false
  end.

(** [AttributeValue::bytes] *)
Definition AttributeValue_bytes (value : list byte) : result EnvironmentPolicyError AttributeValue :=
  if MAX_ATTRIBUTE_BYTES <? length value then Err EnvironmentPolicyError.InvalidConfiguration
  else Ok (AttributeValue.Bytes value).

(** [AttributeValue::attribute_type] *)
Definition attribute_type (v : AttributeValue) : AttributeType :=
  match v with
  | AttributeValue.Bool _ => AttributeType.Bool
  | AttributeValue.I64 _ => AttributeType.I64
  | AttributeValue.Bytes _ => AttributeType.Bytes
  end.

(** [AttributeValue::matches_ref] *)
Definition matches_ref (v : AttributeValue) (other : ValueRef) : bool :=
  match v, other with
  | AttributeValue.Bool l, ValueRef.Bool r => bool_decide (l = r)
  | AttributeValue.I64 l, ValueRef.I64 r => bool_decide (l = r)
  | AttributeValue.Bytes l, ValueRef.Bytes r => bool_decide (l = r)
  | _, _ => false
  end.

(** ** The interface *)

(** [trait EnvironmentPolicy] *)
Class EnvironmentPolicy (P : Type) := {
  validate_environment : P -> AgentId -> option EnvironmentRef -> EnvironmentRef ->
                         result EnvironmentPolicyError unit;
  allows_delivery : P -> TypeId -> EnvironmentRef -> EnvironmentRef -> bool;
  authorize_delivery : P -> AgentId -> EnvironmentRef -> AgentId -> EnvironmentRef -> TypeId -> bool;
}.

(** The provided method [authorize_delivery]. *)
Definition default_authorize_delivery
    (validate : AgentId -> option EnvironmentRef -> EnvironmentRef ->
                result EnvironmentPolicyError unit)
    (allows : TypeId -> EnvironmentRef -> EnvironmentRef -> bool)
    (publisher_id : AgentId) (publisher : EnvironmentRef)
    (subscriber_id : AgentId) (subscriber : EnvironmentRef) (type_id : TypeId) : bool :=
  is_ok (validate publisher_id None publisher)
  && is_ok (validate subscriber_id None subscriber)
  && allows type_id publisher subscriber.

(** [AllowAllEnvironmentPolicy] *)
Inductive AllowAllEnvironmentPolicy := AllowAll.

#[export] Instance allow_all_policy : EnvironmentPolicy AllowAllEnvironmentPolicy := {
  validate_environment _ _ _ _ := Ok tt;
  allows_delivery _ _ _ _ := true;
  authorize_delivery _ :=
    default_authorize_delivery (fun _ _ _ => Ok tt) (fun _ _ _ => true);
}.

(** ** The static policy *)

Record AttributeRule := mkRule {
  rule_type : AttributeType;
  rule_authority : AttributeAuthority;
}.

Record StaticEnvironmentPolicy := mkPolicy {
  pol_rules : gmap AttributeId AttributeRule;
  pol_allowed_values : gmap AttributeId (list AttributeValue);
  pol_approvals : gmap (AgentId * AttributeId) AttributeValue;
  pol_isolation : gmap TypeId (list AttributeId);
  pol_subscriber_requirements : gmap (TypeId * AttributeId) (list AttributeValue);
}.

Definition StaticEnvironmentPolicy_new : StaticEnvironmentPolicy := mkPolicy ∅ ∅ ∅ ∅ ∅.

Abbreviation PolicyM := (M StaticEnvironmentPolicy EnvironmentPolicyError).

Definition register_rule (attribute : AttributeId) (attribute_type : AttributeType)
    (authority : AttributeAuthority) : PolicyM unit :=
  rules ← gets pol_rules;
  match rules !! attribute with
  | Some existing =>
      if negb (bool_decide (rule_type existing = attribute_type))
         || negb (bool_decide (rule_authority existing = authority))
      then fail EnvironmentPolicyError.InvalidConfiguration else mret tt
  | None =>
      modify (fun p => mkPolicy (<[attribute := mkRule attribute_type authority]> (pol_rules p))
        (pol_allowed_values p) (pol_approvals p) (pol_isolation p) (pol_subscriber_requirements p))
  end.

Definition register_self_declared (attribute : AttributeId) (attribute_type : AttributeType) :
    PolicyM unit := register_rule attribute attribute_type AttributeAuthority.SelfDeclared.

Definition register_ca_issued (attribute : AttributeId) (attribute_type : AttributeType) :
    PolicyM unit := register_rule attribute attribute_type AttributeAuthority.CaIssued.

(** [self.rules.get(&attribute).ok_or(InvalidConfiguration)?] *)
Definition get_rule (attribute : AttributeId) : PolicyM AttributeRule :=
  rules ← gets pol_rules;
  lift (ok_or (rules !! attribute) EnvironmentPolicyError.InvalidConfiguration).

(** [if !values.contains(&value) { values.push(value) }] *)
Definition push_distinct (value : AttributeValue) (values : list AttributeValue) :
    list AttributeValue :=
  if bool_decide (value ∈ values) then values else values ++ [value].

Definition allow_value (attribute : AttributeId) (value : AttributeValue) : PolicyM unit :=
  rule ← get_rule attribute;
  if negb (bool_decide (rule_type rule = attribute_type value))
  then fail EnvironmentPolicyError.InvalidConfiguration else
  modify (fun p => mkPolicy (pol_rules p)
    (<[attribute := push_distinct value (default [] (pol_allowed_values p !! attribute))]>
       (pol_allowed_values p))
    (pol_approvals p) (pol_isolation p) (pol_subscriber_requirements p)).

(** An allow-list that is present and not empty excludes the values it lacks. *)
Definition excluded_by (allowed : option (list AttributeValue)) (holds : AttributeValue -> bool) : bool :=
  match allowed with
  | Some (v :: values) => negb (existsb holds (v :: values))
  | _ => false
  end.

Definition validate_configured_value (attribute : AttributeId) (value : AttributeValue) :
    PolicyM unit :=
  rule ← get_rule attribute;
  if negb (bool_decide (rule_type rule = attribute_type value))
  then fail EnvironmentPolicyError.InvalidConfiguration else
  allowed ← gets pol_allowed_values;
  if excluded_by (allowed !! attribute) (fun v => bool_decide (v = value))
  then fail EnvironmentPolicyError.ValueNotAllowed else mret tt.

Definition approve (agent : AgentId) (attribute : AttributeId) (value : AttributeValue) :
    PolicyM unit :=
  rule ← get_rule attribute;
  if negb (bool_decide (rule_authority rule = AttributeAuthority.CaIssued))
  then fail EnvironmentPolicyError.InvalidConfiguration else
  validate_configured_value attribute value;;
  modify (fun p => mkPolicy (pol_rules p) (pol_allowed_values p)
    (<[(agent, attribute) := value]> (pol_approvals p)) (pol_isolation p)
    (pol_subscriber_requirements p)).

(** The loop of [isolate] over the attributes. *)
Fixpoint isolate_check (attributes : list AttributeId) : PolicyM unit :=
  match attributes with
  | [] => mret tt
  | attribute :: attributes' =>
      rule ← get_rule attribute;
      if negb (bool_decide (rule_authority rule = AttributeAuthority.CaIssued))
      then fail EnvironmentPolicyError.InvalidConfiguration else
      isolate_check attributes'
  end.

Definition isolate (type_id : TypeId) (attributes : list AttributeId) : PolicyM unit :=
  if (length attributes =? 0) || (MAX_CLAUSES <? length attributes)
  then fail EnvironmentPolicyError.InvalidConfiguration else
  isolate_check attributes;;
  modify (fun p => mkPolicy (pol_rules p) (pol_allowed_values p) (pol_approvals p)
    (<[type_id := attributes]> (pol_isolation p)) (pol_subscriber_requirements p)).

Definition allow_subscriber_value (type_id : TypeId) (attribute : AttributeId)
    (value : AttributeValue) : PolicyM unit :=
  rule ← get_rule attribute;
  if negb (bool_decide (rule_authority rule = AttributeAuthority.CaIssued))
     || negb (bool_decide (rule_type rule = attribute_type value))
  then fail EnvironmentPolicyError.InvalidConfiguration else
  validate_configured_value attribute value;;
  modify (fun p => mkPolicy (pol_rules p) (pol_allowed_values p) (pol_approvals p)
    (pol_isolation p)
    (<[(type_id, attribute) :=
         push_distinct value (default [] (pol_subscriber_requirements p !! (type_id, attribute)))]>
       (pol_subscriber_requirements p))).

(** ** Validation *)

(** The body of the loop over [proposed.iter()]. *)
Definition validate_attribute (p : StaticEnvironmentPolicy) (agent : AgentId) (a : AttributeRef) :
    result EnvironmentPolicyError unit :=
  rule ← ok_or (pol_rules p !! attr_id a) EnvironmentPolicyError.UnknownAttribute;
  if negb (type_matches (rule_type rule) (attr_value a))
  then Err EnvironmentPolicyError.WrongAttributeType else
  if excluded_by (pol_allowed_values p !! attr_id a) (fun v => matches_ref v (attr_value a))
  then Err EnvironmentPolicyError.ValueNotAllowed else
  if bool_decide (rule_authority rule = AttributeAuthority.CaIssued)
     && negb (match pol_approvals p !! (agent, attr_id a) with
              | Some approved => matches_ref approved (attr_value a)
              | None => false
              end)
  then Err EnvironmentPolicyError.CaApprovalRequired else Ok tt.

Fixpoint validate_attributes (p : StaticEnvironmentPolicy) (agent : AgentId)
    (items : list AttributeRef) : result EnvironmentPolicyError unit :=
  match items with
  | [] => Ok tt
  | a :: items' => validate_attribute p agent a;; validate_attributes p agent items'
  end.

(** The loop over the approvals. *)
Fixpoint validate_approvals (agent : AgentId) (proposed : EnvironmentRef)
    (approvals : list ((AgentId * AttributeId) * AttributeValue)) :
    result EnvironmentPolicyError unit :=
  match approvals with
  | [] => Ok tt
  | ((approved_agent, attribute), value) :: approvals' =>
      if bool_decide (approved_agent = agent)
         && negb (match environment_get proposed attribute with
                  | Some candidate => matches_ref value candidate
                  | None => false
                  end)
      then Err EnvironmentPolicyError.CaApprovalRequired
      else validate_approvals agent proposed approvals'
  end.

Definition static_validate_environment (p : StaticEnvironmentPolicy) (agent : AgentId)
    (_current : option EnvironmentRef) (proposed : EnvironmentRef) :
    result EnvironmentPolicyError unit :=
  validate_attributes p agent (environment_items proposed);;
  validate_approvals agent proposed (map_to_list (pol_approvals p)).

Definition static_allows_delivery (p : StaticEnvironmentPolicy) (type_id : TypeId)
    (publisher subscriber : EnvironmentRef) : bool :=
  let isolated :=
    match pol_isolation p !! type_id with
    | None => true
    | Some attributes =>
        forallb (fun attribute =>
          match environment_get publisher attribute, environment_get subscriber attribute with
          | Some l, Some r => bool_decide (l = r)
          | _, _ => false
          end) attributes
    end in
  isolated
  && forallb (fun '((_, attribute), values) =>
       match environment_get subscriber attribute with
       | Some candidate => existsb (fun value => matches_ref value candidate) values
       | None => false
       end)
     (filter (fun kv => kv.1.1 = type_id) (map_to_list (pol_subscriber_requirements p))).

#[export] Instance static_policy : EnvironmentPolicy StaticEnvironmentPolicy := {
  validate_environment := static_validate_environment;
  allows_delivery := static_allows_delivery;
  authorize_delivery p :=
    default_authorize_delivery (static_validate_environment p) (static_allows_delivery p);
}.

(** ** The reloadable policy *)

Record DynamicEnvironmentPolicy := mkDynamic { dyn_inner : StaticEnvironmentPolicy }.

Definition DynamicEnvironmentPolicy_new (p : StaticEnvironmentPolicy) : DynamicEnvironmentPolicy :=
  mkDynamic p.

(** [replace]: the complete snapshot is exchanged under the write lock. *)
Definition dynamic_replace (p : StaticEnvironmentPolicy) (_ : DynamicEnvironmentPolicy) :
    DynamicEnvironmentPolicy := mkDynamic p.

Definition dynamic_authorize_delivery (d : DynamicEnvironmentPolicy) (publisher_id : AgentId)
    (publisher : EnvironmentRef) (subscriber_id : AgentId) (subscriber : EnvironmentRef)
    (type_id : TypeId) : bool :=
  let policy := dyn_inner d in
  is_ok (validate_environment policy publisher_id None publisher)
  && is_ok (validate_environment policy subscriber_id None subscriber)
  && allows_delivery policy type_id publisher subscriber.

#[export] Instance dynamic_policy : EnvironmentPolicy DynamicEnvironmentPolicy := {
  validate_environment d := validate_environment (dyn_inner d);
  allows_delivery d := allows_delivery (dyn_inner d);
  authorize_delivery := dynamic_authorize_delivery;
}.

(** ** What validation means *)

(** The wire value a configured value stands for. *)
Definition as_ref (v : AttributeValue) : ValueRef :=
  match v with
  | AttributeValue.Bool b => ValueRef.Bool b
  | AttributeValue.I64 z => ValueRef.I64 z
  | AttributeValue.Bytes l => ValueRef.Bytes l
  end.

#[export] Instance as_ref_inj : Inj (=) (=) as_ref.
Proof. intros [] []; cbn; congruence. Qed.

Lemma matches_ref_true v r : matches_ref v r = true <-> as_ref v = r.
Proof.
  destruct v, r; cbn; rewrite ?bool_decide_eq_true; split; congruence.
Qed.

Lemma type_matches_as_ref ty v : type_matches ty (as_ref v) = bool_decide (ty = attribute_type v).
Proof. by destruct ty, v. Qed.

(** A value is admitted by an allow-list: there is none, it is empty, or it
    lists the value. *)
Definition admitted (allowed : option (list AttributeValue)) (value : ValueRef) : Prop :=
  match allowed with
  | Some (v :: values) => value ∈ as_ref <$> v :: values
  | _ => True
  end.

Lemma existsb_matches values r :
  existsb (fun v => matches_ref v r) values = true <-> r ∈ as_ref <$> values.
Proof.
  rewrite existsb_exists, list_elem_of_fmap. setoid_rewrite matches_ref_true.
  setoid_rewrite <-list_elem_of_In. naive_solver.
Qed.

Lemma excluded_by_false allowed r :
  excluded_by allowed (fun v => matches_ref v r) = false <-> admitted allowed r.
Proof.
  destruct allowed as [[|v values]|]; [done| |done]. unfold excluded_by, admitted.
  by rewrite negb_false_iff, existsb_matches.
Qed.

(** The policy accepts this entry of this agent's environment. *)
Definition attribute_accepted (p : StaticEnvironmentPolicy) (agent : AgentId) (a : AttributeRef) : Prop :=
  exists rule, pol_rules p !! attr_id a = Some rule /\
    type_matches (rule_type rule) (attr_value a) = true /\
    admitted (pol_allowed_values p !! attr_id a) (attr_value a) /\
    (rule_authority rule = AttributeAuthority.CaIssued ->
     as_ref <$> pol_approvals p !! (agent, attr_id a) = Some (attr_value a)).

Lemma approved_matches (o : option AttributeValue) r :
  match o with Some v => matches_ref v r | None => false end = true <-> as_ref <$> o = Some r.
Proof. destruct o; cbn; [rewrite matches_ref_true|]; naive_solver. Qed.

Lemma validate_attribute_Ok p agent a :
  validate_attribute p agent a = Ok tt <-> attribute_accepted p agent a.
Proof.
  unfold validate_attribute, attribute_accepted.
  destruct (pol_rules p !! attr_id a) as [rule|]; [|naive_solver].
  cbn [ok_or]. rewrite bind_Ok, !guard_Ok, excluded_by_false, negb_false_iff.
  rewrite andb_false_iff, bool_decide_eq_false, negb_false_iff, approved_matches.
  destruct (decide (rule_authority rule = AttributeAuthority.CaIssued)); naive_solver.
Qed.

Lemma validate_attributes_Ok p agent l :
  validate_attributes p agent l = Ok tt <-> Forall (attribute_accepted p agent) l.
Proof.
  induction l as [|a l IH]; cbn [validate_attributes]; [by rewrite Forall_nil|].
  rewrite Forall_cons, <-IH, <-validate_attribute_Ok, result_bind_Ok.
  split; [intros ([] & ? & ?); done|]. intros []. by exists tt.
Qed.

Lemma validate_approvals_Ok agent e l :
  validate_approvals agent e l = Ok tt <->
  forall attribute v, ((agent, attribute), v) ∈ l ->
    environment_get e attribute = Some (as_ref v).
Proof.
  induction l as [|[[agent' attribute] v] l IH]; cbn [validate_approvals].
  - split; [|done]. by intros _ ? ? ?%not_elem_of_nil.
  - rewrite guard_Ok, IH, andb_false_iff, bool_decide_eq_false, negb_false_iff.
    setoid_rewrite elem_of_cons.
    assert (match environment_get e attribute with Some c => matches_ref v c | None => false end
              = true <-> environment_get e attribute = Some (as_ref v)) as ->.
    { destruct (environment_get e attribute); rewrite ?matches_ref_true; naive_solver. }
    destruct (decide (agent' = agent)); naive_solver.
Qed.

(** The policy accepts the whole environment of this agent. *)
Definition environment_accepted (p : StaticEnvironmentPolicy) (agent : AgentId) (e : EnvironmentRef) : Prop :=
  (forall id value, environment_get e id = Some value ->
     attribute_accepted p agent (mkAttribute id value)) /\
  (forall id approved, pol_approvals p !! (agent, id) = Some approved ->
     environment_get e id = Some (as_ref approved)).

Lemma static_validate_Ok p agent current e :
  static_validate_environment p agent current e = Ok tt <->
  Forall (attribute_accepted p agent) (environment_items e) /\
  forall attribute v, pol_approvals p !! (agent, attribute) = Some v ->
    environment_get e attribute = Some (as_ref v).
Proof.
  unfold static_validate_environment. rewrite result_bind_Ok.
  setoid_rewrite validate_approvals_Ok. setoid_rewrite elem_of_map_to_list.
  rewrite <-validate_attributes_Ok.
  split; [intros ([] & ? & ?); done|]. intros []. by exists tt.
Qed.

Lemma static_validate_no_panic p agent current e :
  static_validate_environment p agent current e <> Panic.
Proof.
  unfold static_validate_environment.
  assert (validate_attributes p agent (environment_items e) <> Panic) as H1.
  { induction (environment_items e) as [|a l IH]; cbn [validate_attributes]; [done|].
    unfold validate_attribute. destruct (pol_rules p !! _); cbn [ok_or]; [|done].
    rewrite bind_Ok. repeat case_match; done. }
  assert (forall l, validate_approvals agent e l <> Panic) as H2.
  { induction l as [|[[] ?] l IH]; cbn [validate_approvals]; [done|]. by case_match. }
  destruct (validate_attributes _ _ _); [apply H2|done|done].
Qed.

Lemma static_validate_view p agent current env :
  Operation.environment_wf env ->
  static_validate_environment p agent current (Operation.environment_view env) = Ok tt <->
  environment_accepted p agent (Operation.environment_view env).
Proof.
  intros Henv. rewrite static_validate_Ok, environment_items_view by done.
  apply and_iff_compat_r. rewrite Forall_forall.
  setoid_rewrite environment_get_view; [|done].
  setoid_rewrite lookup_attribute_elem; [|apply Henv].
  split; [naive_solver|]. intros Hall [id v]. apply Hall.
Qed.

(** The static policy accepts an environment of an agent exactly when every
    entry is a registered attribute of the registered type, within its
    allow-list and, if CA-issued, equal to the value approved for this very
    agent, and moreover no approval of the agent is withheld: each appears in
    the environment with the approved value. Any other environment is rejected
    with an error, never a panic, and the stored environment does not matter. *)
Theorem static_validation_exact p agent current input e :
  parse_operation input = Ok (OperationRef.SetEnvironment e) ->
  (validate_environment p agent current e = Ok tt <-> environment_accepted p agent e) /\
  (~ environment_accepted p agent e ->
   exists reason, validate_environment p agent current e = Err reason).
Proof.
  intros ([env| | | |] & Henv & -> & [= ->])%parse_operation_iff.
  cbn [validate_environment static_policy]. rewrite <-static_validate_view by done.
  split; [done|].
  pose proof (static_validate_no_panic p agent current (Operation.environment_view env)) as Hp.
  destruct (static_validate_environment _ _ _ _) as [[]|reason|]; [done| |done].
  intros _. by exists reason.
Qed.

(** ** Configured policies *)

(** The builder methods an application calls while it configures a policy. *)
Inductive Configuration :=
| RegisterSelfDeclared (attribute : AttributeId) (ty : AttributeType)
| RegisterCaIssued (attribute : AttributeId) (ty : AttributeType)
| AllowValue (attribute : AttributeId) (value : AttributeValue)
| Approve (agent : AgentId) (attribute : AttributeId) (value : AttributeValue)
| Isolate (type_id : TypeId) (attributes : list AttributeId)
| AllowSubscriberValue (type_id : TypeId) (attribute : AttributeId) (value : AttributeValue).

Definition configure (c : Configuration) : PolicyM unit :=
  match c with
  | RegisterSelfDeclared attribute ty => register_self_declared attribute ty
  | RegisterCaIssued attribute ty => register_ca_issued attribute ty
  | AllowValue attribute value => allow_value attribute value
  | Approve agent attribute value => approve agent attribute value
  | Isolate type_id attributes => isolate type_id attributes
  | AllowSubscriberValue type_id attribute value => allow_subscriber_value type_id attribute value
  end.

(** A new policy after these calls, whether each succeeded or not. *)
Definition configured (calls : list Configuration) : StaticEnvironmentPolicy :=
  foldl (fun p c => (configure c p).2) StaticEnvironmentPolicy_new calls.

(** Only the CA can establish values of this attribute. *)
Definition ca_issued (p : StaticEnvironmentPolicy) (attribute : AttributeId) : Prop :=
  exists ty, pol_rules p !! attribute = Some (mkRule ty AttributeAuthority.CaIssued).

Record policy_inv (p : StaticEnvironmentPolicy) : Prop := mkPolicyInv {
  inv_approvals agent attribute v :
    pol_approvals p !! (agent, attribute) = Some v -> ca_issued p attribute;
  inv_isolation type_id attributes :
    pol_isolation p !! type_id = Some attributes ->
    0 < length attributes <= MAX_CLAUSES /\ Forall (ca_issued p) attributes;
  inv_requirements type_id attribute values :
    pol_subscriber_requirements p !! (type_id, attribute) = Some values ->
    ca_issued p attribute /\ 0 < length values /\ NoDup values;
}.

Lemma policy_inv_new : policy_inv StaticEnvironmentPolicy_new.
Proof. split; cbn; intros *; by rewrite lookup_empty. Qed.

Lemma push_distinct_nodup v l : NoDup l -> NoDup (push_distinct v l).
Proof.
  unfold push_distinct. case_bool_decide as Hv; [done|]. intros Hl.
  apply NoDup_app. split; [done|]. split; [|apply NoDup_singleton].
  by intros w Hw ->%list_elem_of_singleton.
Qed.

Lemma push_distinct_length v l : 0 < length (push_distinct v l).
Proof.
  unfold push_distinct. case_bool_decide as Hv; [|rewrite length_app; cbn; lia].
  destruct l; [by apply not_elem_of_nil in Hv|cbn; lia].
Qed.

Lemma get_rule_run attribute p :
  get_rule attribute p =
    (ok_or (pol_rules p !! attribute) EnvironmentPolicyError.InvalidConfiguration, p).
Proof. reflexivity. Qed.

Lemma validate_configured_run attribute v p : exists r, validate_configured_value attribute v p = (r, p).
Proof.
  unfold validate_configured_value. rewrite M_bind_run, get_rule_run.
  destruct (pol_rules p !! attribute); cbn [ok_or]; [|by eexists].
  case_match; [by eexists|]. autorewrite with rust. case_match; by eexists.
Qed.

(** The attribute's rule was read, and it is CA-issued. *)
Lemma ca_issued_rule p attribute rule :
  pol_rules p !! attribute = Some rule -> rule_authority rule = AttributeAuthority.CaIssued ->
  ca_issued p attribute.
Proof. destruct rule as [ty au]. cbn. intros ? ->. by exists ty. Qed.

Lemma isolate_check_run attributes p :
  exists r, isolate_check attributes p = (r, p) /\ (r = Ok tt -> Forall (ca_issued p) attributes).
Proof.
  induction attributes as [|a l [r [IH Hr]]]; cbn [isolate_check]; [by exists (Ok tt)|].
  rewrite M_bind_run, get_rule_run.
  destruct (pol_rules p !! a) as [rule|] eqn:Ha; cbn [ok_or]; [|by eexists].
  case_match eqn:Hau; [by eexists|]. rewrite IH. eexists. split; [done|].
  autorewrite with bool_prop in Hau. intros Hok. constructor; [|by apply Hr].
  by apply (ca_issued_rule p a rule).
Qed.

(** Each builder method leaves the policy as it was or makes one change. *)
Lemma register_rule_inv attribute ty au p :
  policy_inv p -> policy_inv (register_rule attribute ty au p).2.
Proof.
  intros [Ha Hi Hr]. unfold register_rule. autorewrite with rust.
  destruct (pol_rules p !! attribute) as [existing|] eqn:Hnone.
  - by destruct (_ || _).
  - assert (forall a, ca_issued p a ->
      ca_issued (mkPolicy (<[attribute:=mkRule ty au]> (pol_rules p)) (pol_allowed_values p)
        (pol_approvals p) (pol_isolation p) (pol_subscriber_requirements p)) a) as Hmono.
    { intros a [ty' Hty]. exists ty'. cbn. rewrite lookup_insert_ne; congruence. }
    split; cbn [modify snd pol_approvals pol_isolation pol_subscriber_requirements].
    + intros agent a v Hv. eauto.
    + intros ty' l Hl. destruct (Hi ty' l Hl) as [? HF]. split; [done|].
      eapply Forall_impl; [exact HF|exact Hmono].
    + intros ty' a l Hl. destruct (Hr ty' a l Hl). eauto.
Qed.

Lemma allow_value_inv attribute v p : policy_inv p -> policy_inv (allow_value attribute v p).2.
Proof.
  intros [Ha Hi Hr]. unfold allow_value. rewrite M_bind_run, get_rule_run.
  destruct (pol_rules p !! attribute); cbn [ok_or]; [|done]. by case_match.
Qed.

Lemma approve_inv agent attribute v p : policy_inv p -> policy_inv (approve agent attribute v p).2.
Proof.
  intros [Ha Hi Hr]. unfold approve. rewrite M_bind_run, get_rule_run.
  destruct (pol_rules p !! attribute) as [rule|] eqn:Hrule; cbn [ok_or]; [|done].
  case_match eqn:Hau; [done|]. autorewrite with bool_prop in Hau.
  destruct (validate_configured_run attribute v p) as [[[]|e|] Hrun];
    rewrite M_bind_run, Hrun; [|done..].
  split; cbn [modify snd pol_approvals]; [|done..].
  intros agent' a w. rewrite lookup_insert_Some. intros [[[= <- <-] <-]|[_ Hw]].
  - by apply (ca_issued_rule p attribute rule).
  - by apply (Ha agent' a w).
Qed.

Lemma isolate_inv type_id attributes p : policy_inv p -> policy_inv (isolate type_id attributes p).2.
Proof.
  intros [Ha Hi Hr]. unfold isolate. case_match eqn:Hlen; [done|].
  autorewrite with bool_prop in Hlen.
  destruct (isolate_check_run attributes p) as [[[]|e|] [Hrun Hok]];
    rewrite M_bind_run, Hrun; [|done..].
  split; cbn [modify snd pol_isolation]; [done| |done].
  intros ty' l. rewrite lookup_insert_Some. intros [[<- <-]|[_ Hl]]; [|by apply (Hi ty' l)].
  split; [lia|by apply Hok].
Qed.

Lemma allow_subscriber_value_inv type_id attribute v p :
  policy_inv p -> policy_inv (allow_subscriber_value type_id attribute v p).2.
Proof.
  intros [Ha Hi Hr]. unfold allow_subscriber_value. rewrite M_bind_run, get_rule_run.
  destruct (pol_rules p !! attribute) as [rule|] eqn:Hrule; cbn [ok_or]; [|done].
  case_match eqn:Hau; [done|]. autorewrite with bool_prop in Hau. destruct Hau as [Hau _].
  destruct (validate_configured_run attribute v p) as [[[]|e|] Hrun];
    rewrite M_bind_run, Hrun; [|done..].
  split; cbn [modify snd pol_subscriber_requirements]; [done..|].
  intros ty' a l. rewrite lookup_insert_Some. intros [[[= <- <-] <-]|[_ Hl]]; [|by apply (Hr ty' a l)].
  split; [by apply (ca_issued_rule p attribute rule)|]. split; [apply push_distinct_length|].
  apply push_distinct_nodup. destruct (pol_subscriber_requirements p !! _) as [l|] eqn:Hl.
  - by apply (Hr type_id attribute l).
  - apply NoDup_nil_2.
Qed.

Lemma configure_inv c p : policy_inv p -> policy_inv (configure c p).2.
Proof.
  destruct c; cbn [configure].
  - apply register_rule_inv.
  - apply register_rule_inv.
  - apply allow_value_inv.
  - apply approve_inv.
  - apply isolate_inv.
  - apply allow_subscriber_value_inv.
Qed.

Lemma configured_inv calls : policy_inv (configured calls).
Proof.
  unfold configured. generalize policy_inv_new. generalize StaticEnvironmentPolicy_new.
  induction calls as [|c calls IH]; intros p Hp; [done|]. cbn. by apply IH, configure_inv.
Qed.

(** ** What a delivery rests on *)

Lemma accepted_ca_issued p agent e attribute value :
  environment_accepted p agent e -> ca_issued p attribute ->
  environment_get e attribute = Some value ->
  exists v, pol_approvals p !! (agent, attribute) = Some v /\ value = as_ref v.
Proof.
  intros [Hacc _] [ty Hty] (rule & Hrule & _ & _ & Happ)%Hacc. cbn in *.
  rewrite Hty in Hrule. injection Hrule as <-. specialize (Happ eq_refl).
  destruct (pol_approvals p !! (agent, attribute)) as [v|]; [|done].
  exists v. split; [done|]. by injection Happ as ->.
Qed.

Lemma is_ok_validate p agent env :
  Operation.environment_wf env ->
  is_ok (static_validate_environment p agent None (Operation.environment_view env)) = true ->
  environment_accepted p agent (Operation.environment_view env).
Proof.
  intros Henv Hok. apply (static_validate_view p agent None env Henv).
  destruct (static_validate_environment _ _ _ _) as [[]| |]; [reflexivity|discriminate Hok..].
Qed.

Lemma static_allows_iff p type_id publisher subscriber :
  static_allows_delivery p type_id publisher subscriber = true <->
  (forall attributes attribute, pol_isolation p !! type_id = Some attributes ->
     attribute ∈ attributes ->
     exists value, environment_get publisher attribute = Some value /\
                   environment_get subscriber attribute = Some value) /\
  (forall attribute values, pol_subscriber_requirements p !! (type_id, attribute) = Some values ->
     exists v, v ∈ values /\ environment_get subscriber attribute = Some (as_ref v)).
Proof.
  unfold static_allows_delivery. rewrite andb_true_iff. apply Morphisms_Prop.and_iff_morphism.
  - destruct (pol_isolation p !! type_id) as [attributes|]; [|naive_solver].
    rewrite forallb_forall. setoid_rewrite <-list_elem_of_In. split.
    + intros H ? attribute [= <-] Hin. specialize (H attribute Hin).
      destruct (environment_get publisher _) as [l|], (environment_get subscriber _) as [r|];
        try done. apply bool_decide_eq_true in H as ->. by exists r.
    + intros H attribute Hin. destruct (H attributes attribute eq_refl Hin) as (v & -> & ->).
      by apply bool_decide_eq_true.
  - rewrite forallb_forall. setoid_rewrite <-list_elem_of_In.
    setoid_rewrite list_elem_of_filter. split.
    + intros H attribute values Hv. specialize (H (type_id, attribute, values)). cbn in H.
      rewrite elem_of_map_to_list in H. specialize (H (conj eq_refl Hv)).
      destruct (environment_get subscriber attribute) as [c|]; [|done].
      apply existsb_matches, list_elem_of_fmap in H as (v & -> & Hin). by exists v.
    + intros H [[ty attribute] values] [Hty Hin]. cbn in Hty. subst ty.
      apply elem_of_map_to_list in Hin. destruct (H _ _ Hin) as (v & Hv & ->).
      apply existsb_matches. by apply list_elem_of_fmap_2.
Qed.

(** What a well-formed policy authorises rests on approvals. *)
Lemma authorized_by_inv p publisher_id subscriber_id pin sin publisher subscriber type_id : policy_inv p ->
  parse_operation pin = Ok (OperationRef.SetEnvironment publisher) ->
  parse_operation sin = Ok (OperationRef.SetEnvironment subscriber) ->
  authorize_delivery p publisher_id publisher subscriber_id subscriber type_id = true ->
  (forall attributes attribute, pol_isolation p !! type_id = Some attributes ->
     attribute ∈ attributes ->
     exists v, pol_approvals p !! (publisher_id, attribute) = Some v /\
               pol_approvals p !! (subscriber_id, attribute) = Some v) /\
  (forall attribute values, pol_subscriber_requirements p !! (type_id, attribute) = Some values ->
     exists v, v ∈ values /\ pol_approvals p !! (subscriber_id, attribute) = Some v).
Proof.
  intros [_ Hiso Hreq].
  intros ([penv| | | |] & Hpenv & -> & [= ->])%parse_operation_iff.
  intros ([senv| | | |] & Hsenv & -> & [= ->])%parse_operation_iff.
  cbn [authorize_delivery static_policy]. unfold default_authorize_delivery.
  rewrite !andb_true_iff. intros [[Hp Hs] Hallow].
  apply is_ok_validate in Hp; [|done]. apply is_ok_validate in Hs; [|done].
  apply static_allows_iff in Hallow as [Hi Hr]. split.
  - intros attributes attribute Hl Hin. destruct (Hi _ _ Hl Hin) as (value & Hvp & Hvs).
    apply Hiso in Hl as [_ Hl]. rewrite Forall_forall in Hl. apply Hl in Hin.
    destruct (accepted_ca_issued _ _ _ _ _ Hp Hin Hvp) as (v & ? & ->).
    destruct (accepted_ca_issued _ _ _ _ _ Hs Hin Hvs) as (w & ? & <-%as_ref_inj).
    by exists v.
  - intros attribute values Hl. destruct (Hr _ _ Hl) as (v & Hin & Hv).
    apply Hreq in Hl as [Hca _].
    destruct (accepted_ca_issued _ _ _ _ _ Hs Hca Hv) as (w & ? & <-%as_ref_inj).
    by exists v.
Qed.

(** However a policy was configured, a delivery it authorises rests only on
    values the CA approved: for every isolation attribute of the publication
    type the CA approved the same value for publisher and subscriber, and for
    every subscriber requirement the CA approved for the subscriber one of the
    values the requirement lists. What the two agents declare about themselves
    cannot open either check. *)
Theorem authorized_delivery_approved calls publisher_id subscriber_id pin sin publisher subscriber type_id :
  parse_operation pin = Ok (OperationRef.SetEnvironment publisher) ->
  parse_operation sin = Ok (OperationRef.SetEnvironment subscriber) ->
  let p := configured calls in
  authorize_delivery p publisher_id publisher subscriber_id subscriber type_id = true ->
  (forall attributes attribute, pol_isolation p !! type_id = Some attributes ->
     attribute ∈ attributes ->
     exists v, pol_approvals p !! (publisher_id, attribute) = Some v /\
               pol_approvals p !! (subscriber_id, attribute) = Some v) /\
  (forall attribute values, pol_subscriber_requirements p !! (type_id, attribute) = Some values ->
     exists v, v ∈ values /\ pol_approvals p !! (subscriber_id, attribute) = Some v).
Proof. intros Hpin Hsin p. by apply (authorized_by_inv p _ _ pin sin), Hsin; [apply configured_inv|]. Qed.

Module PolicyExample.
Definition role := mkAttributeId 1.
Definition tenant := mkAttributeId 2.
Definition temperature := mkTypeId 7.
Definition alice := mkAgentId (vreplicate 16 x01).
Definition bob := mkAgentId (vreplicate 16 x02).

Definition calls : list Configuration :=
  [RegisterCaIssued role AttributeType.I64; RegisterCaIssued tenant AttributeType.Bytes;
   RegisterSelfDeclared role AttributeType.I64;
   Approve alice tenant (AttributeValue.Bytes [x61]); Approve bob tenant (AttributeValue.Bytes [x61]);
   Approve bob role (AttributeValue.I64 3); Isolate temperature [tenant];
   AllowSubscriberValue temperature role (AttributeValue.I64 3)].

Definition alice_env := [mkAttribute tenant (ValueRef.Bytes [x61])].
Definition bob_env := [mkAttribute role (ValueRef.I64 3); mkAttribute tenant (ValueRef.Bytes [x61])].
End PolicyExample.

Lemma static_validation_exact_witness :
  let p := configured PolicyExample.calls in
  let e := Operation.environment_view PolicyExample.bob_env in
  validate_environment p PolicyExample.bob None e = Ok tt /\ environment_accepted p PolicyExample.bob e.
Proof.
  cbn zeta. set (p := configured _). set (e := Operation.environment_view _).
  destruct (static_validation_exact p PolicyExample.bob None
    (Operation.wire (Operation.SetEnvironment PolicyExample.bob_env)) e) as [Hiff _];
    [vm_compute; reflexivity|].
  assert (validate_environment p PolicyExample.bob None e = Ok tt) as H by (vm_compute; reflexivity).
  split; [exact H|]. apply Hiff. exact H.
Defined.

Lemma authorized_delivery_approved_witness :
  let p := configured PolicyExample.calls in
  authorize_delivery p PolicyExample.alice (Operation.environment_view PolicyExample.alice_env)
    PolicyExample.bob (Operation.environment_view PolicyExample.bob_env) PolicyExample.temperature = true /\
  exists v, pol_approvals p !! (PolicyExample.alice, PolicyExample.tenant) = Some v /\
            pol_approvals p !! (PolicyExample.bob, PolicyExample.tenant) = Some v.
Proof.
  cbn zeta. set (p := configured _).
  assert (authorize_delivery p PolicyExample.alice (Operation.environment_view PolicyExample.alice_env)
    PolicyExample.bob (Operation.environment_view PolicyExample.bob_env) PolicyExample.temperature = true)
    as H by (vm_compute; reflexivity).
  split; [exact H|].
  destruct (authorized_delivery_approved PolicyExample.calls PolicyExample.alice PolicyExample.bob
    (Operation.wire (Operation.SetEnvironment PolicyExample.alice_env))
    (Operation.wire (Operation.SetEnvironment PolicyExample.bob_env))
    (Operation.environment_view PolicyExample.alice_env)
    (Operation.environment_view PolicyExample.bob_env) PolicyExample.temperature) as [Hiso _];
    [vm_compute; reflexivity..|exact H|].
  apply (Hiso [PolicyExample.tenant] PolicyExample.tenant); [vm_compute; reflexivity|].
  apply list_elem_of_here.
Defined.
