(* ===== verification/CaStore.v ===== *)
(** ca-core/src/lib.rs: the storage interfaces of the CA and the bounded
    in-memory store. *)

From S2P Require Export Payload Replay.

(** ** Data *)

Record PublicKeys := mkPublicKeys { pk_ed25519 : array 32; pk_x25519 : array 32 }.

#[export] Instance PublicKeys_eq_dec : EqDecision PublicKeys.
Proof. solve_decision. Defined.

Module SubscriptionKind.
Inductive t := OneShot | Permanent.

#[global] Instance eq_dec : EqDecision t.
Proof. solve_decision. Defined.
End SubscriptionKind.
Abbreviation SubscriptionKind := SubscriptionKind.t.

Record StoredSubscription := mkSubscription {
  sub_subscriber : AgentId;
  sub_type_id : TypeId;
  sub_handler : HandlerId;
  sub_kind : SubscriptionKind;
  sub_encoded : list byte;
}.

#[export] Instance StoredSubscription_eq_dec : EqDecision StoredSubscription.
Proof. solve_decision. Defined.

(** ** The interfaces *)

(** [trait KeyDirectory] *)
Class KeyDirectory (S : Type) := {
  keys : AgentId -> M S Error PublicKeys;
  provision : AgentId -> PublicKeys -> M S Error unit;
}.

(** [trait EnvironmentStore] *)
Class EnvironmentStore (S : Type) := {
  environment : AgentId -> M S Error (option (list byte));
  set_environment : AgentId -> list byte -> M S Error unit;
}.

(** [trait SubscriptionStore] *)
Class SubscriptionStore (S : Type) := {
  put_subscription : StoredSubscription -> M S Error unit;
  subscriptions_for : TypeId -> M S Error (list StoredSubscription);
  claim_subscription : StoredSubscription -> M S Error bool;
}.

(** [trait CaStore]: the bundle; [ReplayStore] is [ReplayProtector]. *)
Class CaStore (S : Type) := {
  ca_directory :: KeyDirectory S;
  ca_environments :: EnvironmentStore S;
  ca_subscriptions :: SubscriptionStore S;
  ca_replay :: ReplayProtector S;
}.

(** ** The in-memory store *)

Definition DEFAULT_MAX_AGENTS : nat := 1024.
Definition DEFAULT_MAX_ENVIRONMENTS : nat := 1024.
Definition DEFAULT_MAX_SUBSCRIPTIONS : nat := 4096.
Definition DEFAULT_MAX_REPLAYS : nat := 128 * 128.

Record StoreLimits := mkLimits {
  lim_agents : nat;
  lim_environments : nat;
  lim_subscriptions : nat;
  lim_replays : nat;
  lim_replay_ttl_seconds : N;
}.

Definition StoreLimits_default : StoreLimits :=
  mkLimits DEFAULT_MAX_AGENTS DEFAULT_MAX_ENVIRONMENTS DEFAULT_MAX_SUBSCRIPTIONS
    DEFAULT_MAX_REPLAYS 600.

(** Each field is behind its own lock, held for one method call. *)
Record MemoryStore := mkMemoryStore {
  ms_keys : gmap AgentId PublicKeys;
  ms_environments : gmap AgentId (list byte);
  ms_subscriptions : gmap TypeId (list StoredSubscription);
  ms_replay : ReplayCache;
  ms_limits : StoreLimits;
}.

Definition MemoryStore_new (limits : StoreLimits) : MemoryStore :=
  mkMemoryStore ∅ ∅ ∅ (ReplayCache_new (lim_replays limits) (lim_replay_ttl_seconds limits)) limits.

Definition MemoryStore_default : MemoryStore := MemoryStore_new StoreLimits_default.

Definition MemoryStore_keys (agent : AgentId) : M MemoryStore Error PublicKeys :=
  directory ← gets ms_keys;
  lift (ok_or (directory !! agent) Error.BadSignature).

Definition MemoryStore_provision (agent : AgentId) (k : PublicKeys) : M MemoryStore Error unit :=
  if bool_decide (agent = AgentId_CA) then fail Error.Malformed else
  directory ← gets ms_keys;
  limits ← gets ms_limits;
  if negb (bool_decide (is_Some (directory !! agent))) && (lim_agents limits <=? size directory)
  then fail Error.Capacity else
  modify (fun s => mkMemoryStore (<[agent := k]> (ms_keys s)) (ms_environments s)
                     (ms_subscriptions s) (ms_replay s) (ms_limits s)).

Definition MemoryStore_environment (agent : AgentId) : M MemoryStore Error (option (list byte)) :=
  environments ← gets ms_environments;
  mret (environments !! agent).

Definition MemoryStore_set_environment (agent : AgentId) (encoded : list byte) :
    M MemoryStore Error unit :=
  environments ← gets ms_environments;
  limits ← gets ms_limits;
  if negb (bool_decide (is_Some (environments !! agent)))
     && (lim_environments limits <=? size environments)
  then fail Error.Capacity else
  modify (fun s => mkMemoryStore (ms_keys s) (<[agent := encoded]> (ms_environments s))
                     (ms_subscriptions s) (ms_replay s) (ms_limits s)).

(** *** Buckets of subscriptions *)

(** The sort key [(entry.subscriber, entry.handler)] with the derived order of
    the tuple. *)
Definition slot_key (entry : StoredSubscription) : AgentId * HandlerId :=
  (sub_subscriber entry, sub_handler entry).

Definition key_compare (a b : AgentId * HandlerId) : comparison :=
  match bytes_compare (vec_to_list (agent_bytes a.1)) (vec_to_list (agent_bytes b.1)) with
  | Eq => bytes_compare (vec_to_list (handler_bytes a.2)) (vec_to_list (handler_bytes b.2))
  | o => o
  end.

Definition slot_le (a b : StoredSubscription) : Prop := key_compare (slot_key a) (slot_key b) <> Gt.

#[export] Instance slot_le_dec : RelDecision slot_le.
Proof. intros a b. unfold slot_le. solve_decision. Defined.

(** [bucket.sort_by_key(..)], a stable merge sort. *)
Definition sort_bucket (bucket : list StoredSubscription) : list StoredSubscription :=
  merge_sort slot_le bucket.

(** [iter_mut().find(|entry| entry.subscriber == .. && entry.handler == ..)] *)
Definition find_entry (subscription : StoredSubscription) (bucket : list StoredSubscription) :
    option nat :=
  fst <$> list_find (fun entry => sub_subscriber entry = sub_subscriber subscription /\
                                  sub_handler entry = sub_handler subscription) bucket.

(** [iter().position(|entry| entry == subscription)] *)
Definition position (subscription : StoredSubscription) (bucket : list StoredSubscription) :
    option nat :=
  fst <$> list_find (fun entry => entry = subscription) bucket.

(** [subscriptions.values().map(Vec::len).sum()] *)
Definition count_subscriptions (m : gmap TypeId (list StoredSubscription)) : nat :=
  map_fold (fun _ bucket n => length bucket + n) 0 m.

Definition set_bucket (type_id : TypeId) (bucket : list StoredSubscription) : M MemoryStore Error unit :=
  modify (fun s => mkMemoryStore (ms_keys s) (ms_environments s)
                     (<[type_id := bucket]> (ms_subscriptions s)) (ms_replay s) (ms_limits s)).

Definition MemoryStore_put_subscription (subscription : StoredSubscription) :
    M MemoryStore Error unit :=
  subscriptions ← gets ms_subscriptions;
  limits ← gets ms_limits;
  let count := count_subscriptions subscriptions in
  let type_id := sub_type_id subscription in
  let bucket := default [] (subscriptions !! type_id) in
  (* [entry(..).or_default()] creates the bucket before any check *)
  set_bucket type_id bucket;;
  match find_entry subscription bucket with
  | Some index => set_bucket type_id (<[index := subscription]> bucket)
  | None =>
      if lim_subscriptions limits <=? count then fail Error.Capacity else
      set_bucket type_id (sort_bucket (bucket ++ [subscription]))
  end.

Definition MemoryStore_subscriptions_for (type_id : TypeId) :
    M MemoryStore Error (list StoredSubscription) :=
  subscriptions ← gets ms_subscriptions;
  mret (default [] (subscriptions !! type_id)).

Definition MemoryStore_claim_subscription (subscription : StoredSubscription) :
    M MemoryStore Error bool :=
  subscriptions ← gets ms_subscriptions;
  match subscriptions !! sub_type_id subscription with
  | None => mret false
  | Some bucket =>
      match position subscription bucket with
      | None => mret false
      | Some index =>
          (if bool_decide (sub_kind subscription = SubscriptionKind.OneShot)
           then set_bucket (sub_type_id subscription) (delete index bucket)
           else mret tt);;
          mret true
      end
  end.

Definition MemoryStore_check_and_mark (sender : AgentId) (session : SessionId)
    (now_seconds : N) : M MemoryStore Error unit :=
  zoom ms_replay
    (fun r s => mkMemoryStore (ms_keys s) (ms_environments s) (ms_subscriptions s) r (ms_limits s))
    (ReplayCache_check_and_mark sender session now_seconds).

#[export] Instance MemoryStore_ca : CaStore MemoryStore := {
  ca_directory := {| keys := MemoryStore_keys; provision := MemoryStore_provision |};
  ca_environments := {| environment := MemoryStore_environment;
                        set_environment := MemoryStore_set_environment |};
  ca_subscriptions := {| put_subscription := MemoryStore_put_subscription;
                         subscriptions_for := MemoryStore_subscriptions_for;
                         claim_subscription := MemoryStore_claim_subscription |};
  ca_replay := {| check_and_mark := MemoryStore_check_and_mark |};
}.

(** ** Abstract specification *)

(** Where a subscription is stored. *)
Definition slot : Type := TypeId * (AgentId * HandlerId).
Definition sub_slot (s : StoredSubscription) : slot := (sub_type_id s, slot_key s).

(** What a store holds. *)
Record StoreView := mkView {
  view_keys : gmap AgentId PublicKeys;
  view_environments : gmap AgentId (list byte);
  view_stored : slot -> option StoredSubscription;
  view_sessions : gmap replay_key N;
}.

#[export] Instance StoreView_equiv : Equiv StoreView := fun v w =>
  view_keys v = view_keys w /\ view_environments v = view_environments w /\
  (forall k, view_stored v k = view_stored w k) /\ view_sessions v = view_sessions w.

#[export] Instance StoreView_equivalence : Equivalence (≡@{StoreView}).
Proof.
  split.
  - done.
  - intros v w (Hk & He & H & Hr). split_and!; [done..| |done]. intros k. by rewrite H.
  - intros u v w (Hk & He & H & Hr) (Hk' & He' & H' & Hr'). split_and!; [congruence..| |congruence].
    intros k. by rewrite H.
Qed.

Definition add_key (a : AgentId) (k : PublicKeys) (v : StoreView) : StoreView :=
  mkView (<[a := k]> (view_keys v)) (view_environments v) (view_stored v) (view_sessions v).
Definition add_environment (a : AgentId) (e : list byte) (v : StoreView) : StoreView :=
  mkView (view_keys v) (<[a := e]> (view_environments v)) (view_stored v) (view_sessions v).
Definition set_slot (k : slot) (o : option StoredSubscription) (v : StoreView) : StoreView :=
  mkView (view_keys v) (view_environments v)
    (fun k' => if decide (k' = k) then o else view_stored v k') (view_sessions v).
Definition set_sessions (m : gmap replay_key N) (v : StoreView) : StoreView :=
  mkView (view_keys v) (view_environments v) (view_stored v) m.

#[export] Instance set_slot_proper k o : Proper ((≡) ==> (≡)) (set_slot k o).
Proof.
  intros v w (? & ? & H & ?). split_and!; [done..| |done].
  intros k'. unfold set_slot. cbn. by case_decide.
Qed.

(** A call either fails without effect or has exactly the effect [w]. *)
Definition mutation (r : Res unit) (v v' w : StoreView) : Prop :=
  (r = Ok tt /\ v' ≡ w) \/ (exists e, r = Err e /\ v' ≡ v).

(** What the CA relies on in a store. *)
Class CaStoreLaws (S : Type) `{CaStore S} := {
  store_inv : S -> Prop;
  store_view : S -> StoreView;
  keys_law a s : store_inv s ->
    keys a s = (ok_or (view_keys (store_view s) !! a) Error.BadSignature, s);
  ca_law s : store_inv s -> view_keys (store_view s) !! AgentId_CA = None;
  slot_law s k sub : store_inv s -> view_stored (store_view s) k = Some sub -> sub_slot sub = k;
  provision_law a k s r s' : store_inv s -> provision a k s = (r, s') ->
    store_inv s' /\ mutation r (store_view s) (store_view s') (add_key a k (store_view s));
  environment_law a s : store_inv s ->
    environment a s = (Ok (view_environments (store_view s) !! a), s);
  set_environment_law a e s r s' : store_inv s -> set_environment a e s = (r, s') ->
    store_inv s' /\ mutation r (store_view s) (store_view s') (add_environment a e (store_view s));
  put_subscription_law sub s r s' : store_inv s -> put_subscription sub s = (r, s') ->
    store_inv s' /\
    mutation r (store_view s) (store_view s') (set_slot (sub_slot sub) (Some sub) (store_view s));
  (** The snapshot lists each stored subscription of the type once, in the order
      of subscriber and handler. *)
  subscriptions_for_law ty s : store_inv s ->
    exists l, subscriptions_for ty s = (Ok l, s) /\ NoDup (slot_key <$> l) /\
      StronglySorted slot_le l /\
      forall sub, sub ∈ l <->
        sub_type_id sub = ty /\ view_stored (store_view s) (sub_slot sub) = Some sub;
  claim_law sub s r s' : store_inv s -> claim_subscription sub s = (r, s') ->
    store_inv s' /\
    ((exists e, r = Err e /\ store_view s' ≡ store_view s) \/
     (view_stored (store_view s) (sub_slot sub) = Some sub /\ r = Ok true /\
      store_view s' ≡ match sub_kind sub with
                      | SubscriptionKind.OneShot => set_slot (sub_slot sub) None (store_view s)
                      | SubscriptionKind.Permanent => store_view s
                      end) \/
     (view_stored (store_view s) (sub_slot sub) <> Some sub /\ r = Ok false /\
      store_view s' ≡ store_view s));
  store_ttl : S -> N;
  check_law sender session now s r s' : store_inv s -> check_and_mark sender session now s = (r, s') ->
    let live := retain_live now (view_sessions (store_view s)) in
    store_inv s' /\ store_ttl s' = store_ttl s /\
    ((live !! (sender, session) = None /\ r = Ok tt /\
      store_view s' ≡ set_sessions
        (<[(sender, session) := saturating_add now (store_ttl s)]> live) (store_view s)) \/
     (exists e, r = Err e /\ (is_Some (live !! (sender, session)) -> e = Error.Replay) /\
      (store_view s' ≡ store_view s \/ store_view s' ≡ set_sessions live (store_view s))));
}.

(** ** Sorting buckets *)

Lemma key_compare_antisym a b : key_compare b a = CompOpp (key_compare a b).
Proof.
  unfold key_compare. rewrite (bytes_compare_antisym (vec_to_list (agent_bytes a.1))).
  rewrite (bytes_compare_antisym (vec_to_list (handler_bytes a.2))).
  by destruct (bytes_compare (vec_to_list (agent_bytes a.1)) _).
Qed.

#[export] Instance slot_le_total : Total slot_le.
Proof.
  intros a b. unfold slot_le. rewrite (key_compare_antisym (slot_key a)).
  destruct (key_compare (slot_key a) (slot_key b)); cbn; [by left|by left|by right].
Qed.

#[export] Instance slot_le_trans : Transitive slot_le.
Proof.
  intros a b c. unfold slot_le, key_compare.
  set (xa := vec_to_list (agent_bytes (slot_key a).1)).
  set (xb := vec_to_list (agent_bytes (slot_key b).1)).
  set (xc := vec_to_list (agent_bytes (slot_key c).1)).
  intros Hab Hbc.
  pose proof (bytes_compare_le_trans xa xb xc) as Ht.
  destruct (bytes_compare xa xb) eqn:E1; [apply bytes_compare_eq in E1 as <-| |done].
  - destruct (bytes_compare xa xc); [|done..]. by eapply bytes_compare_le_trans.
  - destruct (bytes_compare xb xc) eqn:E2; [apply bytes_compare_eq in E2 as <-; by rewrite E1| |done].
    destruct (bytes_compare xa xc) eqn:E3; [|done|by destruct Ht].
    apply bytes_compare_eq in E3. rewrite <-E3 in E2.
    rewrite bytes_compare_antisym, E1 in E2. discriminate E2.
Qed.

(** Entries of one bucket: of its type, in order, in distinct slots. *)
Record bucket_ok (type_id : TypeId) (bucket : list StoredSubscription) : Prop := mkBucketOk {
  bucket_type : Forall (fun e => sub_type_id e = type_id) bucket;
  bucket_keys : NoDup (slot_key <$> bucket);
  bucket_sorted : StronglySorted slot_le bucket;
}.

Lemma bucket_ok_nil type_id : bucket_ok type_id [].
Proof. split; [done|apply NoDup_nil_2|constructor]. Qed.

Lemma StronglySorted_keys l k :
  slot_key <$> l = slot_key <$> k -> StronglySorted slot_le l -> StronglySorted slot_le k.
Proof.
  revert k. induction l as [|a l IH]; intros [|b k] Heq; try done.
  cbn in Heq. injection Heq as Hab Hd Heq. rewrite !StronglySorted_cons. intros [Ha Hl].
  assert (slot_key a = slot_key b) as Hk by (unfold slot_key; congruence).
  split; [|by apply IH]. apply Forall_forall. intros x Hx.
  apply (list_elem_of_fmap_2 slot_key) in Hx. rewrite <-Heq in Hx.
  apply list_elem_of_fmap in Hx as (y & Hy & Hin). rewrite Forall_forall in Ha.
  specialize (Ha y Hin). unfold slot_le in *. by rewrite <-Hk, Hy.
Qed.

Lemma sublist_Forall {A} (P : A -> Prop) l k : sublist l k -> Forall P k -> Forall P l.
Proof. rewrite !Forall_forall. intros Hs HP x Hx. by eapply HP, elem_of_sublist. Qed.

Lemma sublist_StronglySorted {A} (R : relation A) l k :
  sublist l k -> StronglySorted R k -> StronglySorted R l.
Proof.
  induction 1 as [|x l k Hs IH|x l k Hs IH]; [done| |]; rewrite ?StronglySorted_cons.
  - intros [Hx Hk]. split; [|by apply IH]. by eapply sublist_Forall.
  - intros [_ Hk]. by apply IH.
Qed.

Lemma find_entry_Some sub bucket i :
  find_entry sub bucket = Some i -> exists old, bucket !! i = Some old /\ slot_key old = slot_key sub.
Proof.
  unfold find_entry. intros ([j old] & Hf & ->)%fmap_Some.
  apply list_find_Some in Hf as (Hi & [Ha Hh] & _). exists old. split; [done|].
  unfold slot_key. by rewrite Ha, Hh.
Qed.

Lemma find_entry_None sub bucket :
  find_entry sub bucket = None -> slot_key sub ∉ slot_key <$> bucket.
Proof.
  unfold find_entry. intros Hf%fmap_None. apply list_find_None in Hf.
  rewrite Forall_forall in Hf. intros (x & Hk & Hx)%list_elem_of_fmap.
  apply (Hf x Hx). unfold slot_key in Hk. by injection Hk as -> ->.
Qed.

Lemma position_Some sub bucket i : position sub bucket = Some i -> bucket !! i = Some sub.
Proof.
  unfold position. intros ([j old] & Hf & ->)%fmap_Some.
  by apply list_find_Some in Hf as (Hi & -> & _).
Qed.

Lemma position_None sub bucket : position sub bucket = None -> sub ∉ bucket.
Proof.
  unfold position. intros Hf%fmap_None. apply list_find_None in Hf.
  rewrite Forall_forall in Hf. intros Hin. by apply (Hf sub Hin).
Qed.

(** The entry of a slot. *)
Definition entry_of (k : AgentId * HandlerId) (bucket : list StoredSubscription) :
    option StoredSubscription :=
  snd <$> list_find (fun e => slot_key e = k) bucket.

Lemma entry_of_Some k bucket x :
  NoDup (slot_key <$> bucket) ->
  entry_of k bucket = Some x <-> x ∈ bucket /\ slot_key x = k.
Proof.
  intros Hnd. unfold entry_of. rewrite fmap_Some. split.
  - intros ([i y] & Hf & ->). apply list_find_Some in Hf as (Hi & Hk & _).
    split; [by eapply list_elem_of_lookup_2|done].
  - intros [Hin Hk]. destruct (list_find_elem_of (fun e => slot_key e = k) bucket x Hin Hk)
      as [[i y] Hf]. exists (i, y). split; [done|]. cbn.
    apply list_find_Some in Hf as (Hi & Hy & _).
    apply list_elem_of_lookup in Hin as [j Hj].
    assert (i = j) as <-; [|by simplify_eq].
    eapply (NoDup_lookup _ _ _ k Hnd); rewrite list_lookup_fmap;
      [by rewrite Hi; cbn; rewrite Hy|by rewrite Hj; cbn; rewrite Hk].
Qed.

Lemma entry_of_None k bucket : entry_of k bucket = None <-> k ∉ slot_key <$> bucket.
Proof.
  unfold entry_of. rewrite fmap_None, list_find_None, Forall_forall, list_elem_of_fmap.
  split; [intros H (x & -> & Hx); by apply (H x)|intros H x Hx Hk; apply H; by exists x].
Qed.

(** Two lookups agree when they find the same entries. *)
Lemma entry_of_ext k bucket o :
  NoDup (slot_key <$> bucket) ->
  (forall x, o = Some x <-> x ∈ bucket /\ slot_key x = k) -> entry_of k bucket = o.
Proof.
  intros Hnd Ho. apply option_eq. intros x. by rewrite entry_of_Some, Ho.
Qed.

(** Replacing the entry of an occupied slot. *)
Lemma bucket_replace type_id bucket i sub :
  bucket_ok type_id bucket -> sub_type_id sub = type_id -> find_entry sub bucket = Some i ->
  bucket_ok type_id (<[i := sub]> bucket) /\
  forall k, entry_of k (<[i := sub]> bucket)
            = if decide (k = slot_key sub) then Some sub else entry_of k bucket.
Proof.
  intros [Hty Hnd Hs] Hsub (old & Hi & Hkey)%find_entry_Some.
  assert (slot_key <$> <[i := sub]> bucket = slot_key <$> bucket) as Heq.
  { rewrite list_fmap_insert. apply list_insert_id. rewrite list_lookup_fmap, Hi. cbn. by rewrite Hkey. }
  assert (i < length bucket) as Hlt by by eapply lookup_lt_Some.
  split.
  - split; [by apply Forall_insert|by rewrite Heq|by eapply StronglySorted_keys].
  - intros k. apply entry_of_ext; [by rewrite Heq|]. intros x.
    assert (x ∈ <[i := sub]> bucket /\ slot_key x = k <->
      (x = sub \/ (x ∈ bucket /\ slot_key x <> slot_key sub)) /\ slot_key x = k) as ->.
    { apply and_iff_compat_r. rewrite !list_elem_of_lookup. split.
      - intros [j [(-> & -> & _)|(Hne & Hj)]%list_lookup_insert_Some]; [by left|right].
        split; [by exists j|]. intros Hk. apply Hne.
        eapply (NoDup_lookup _ _ _ (slot_key x) Hnd); rewrite list_lookup_fmap;
          [by rewrite Hi; cbn; rewrite Hkey, Hk|by rewrite Hj].
      - intros [->|[[j Hj] Hk]]; [exists i; by apply list_lookup_insert_eq|]. exists j.
        rewrite list_lookup_insert_ne; [done|]. intros <-. apply Hk. rewrite Hi in Hj. by injection Hj as <-. }
    case_decide as Hk; [subst k|].
    + split; [intros [= <-]; auto|]. intros [[->|[_ Hk]] Hk']; [done|by destruct Hk].
    + rewrite entry_of_Some by done. split; [|by intros [[->|[? ?]] <-]].
      intros [Hx <-]. auto.
Qed.

(** Adding an entry in a free slot. *)
Lemma bucket_add type_id bucket sub :
  bucket_ok type_id bucket -> sub_type_id sub = type_id -> find_entry sub bucket = None ->
  bucket_ok type_id (sort_bucket (bucket ++ [sub])) /\
  length (sort_bucket (bucket ++ [sub])) = S (length bucket) /\
  forall k, entry_of k (sort_bucket (bucket ++ [sub]))
            = if decide (k = slot_key sub) then Some sub else entry_of k bucket.
Proof.
  intros [Hty Hnd Hs] Hsub Hnone%find_entry_None. unfold sort_bucket.
  pose proof (merge_sort_Permutation slot_le (bucket ++ [sub])) as Hperm.
  assert (NoDup (slot_key <$> bucket ++ [sub])) as Hnd'.
  { rewrite fmap_app. apply NoDup_app. split; [done|]. split; [|apply NoDup_singleton].
    by intros k Hk ->%list_elem_of_singleton. }
  assert (NoDup (slot_key <$> merge_sort slot_le (bucket ++ [sub]))) as Hnd''
    by (by rewrite Hperm).
  split; [split|split].
  - rewrite Hperm. apply Forall_app. split; [exact Hty|by apply Forall_singleton].
  - done.
  - apply StronglySorted_merge_sort; apply _.
  - rewrite Hperm, length_app. cbn. lia.
  - intros k. apply entry_of_ext; [done|]. intros x. rewrite Hperm, elem_of_app, list_elem_of_singleton.
    case_decide as Hk; [subst k|].
    + split; [intros [= <-]; auto|]. intros [[Hin| ->] Hk]; [|done].
      apply (list_elem_of_fmap_2 slot_key) in Hin. by rewrite Hk in Hin.
    + rewrite entry_of_Some by done. split; [intros [? <-]; auto|].
      intros [[?| ->] <-]; [done|by destruct Hk].
Qed.

(** Removing an entry. *)
Lemma bucket_remove type_id bucket i sub :
  bucket_ok type_id bucket -> bucket !! i = Some sub ->
  bucket_ok type_id (delete i bucket) /\
  forall k, entry_of k (delete i bucket)
            = if decide (k = slot_key sub) then None else entry_of k bucket.
Proof.
  intros [Hty Hnd Hs] Hi.
  assert (sublist (delete i bucket) bucket) as Hsub by apply sublist_delete.
  assert (NoDup (slot_key <$> delete i bucket)) as Hnd'
    by (eapply sublist_NoDup; [exact Hnd|by apply fmap_sublist]).
  pose proof (list_elem_of_fmap_2 slot_key) as Hfmap.
  pose proof (delete_Permutation bucket i sub Hi) as Hperm.
  split; [split; [by eapply sublist_Forall|done|by eapply sublist_StronglySorted]|].
  intros k. apply entry_of_ext; [done|]. intros x.
  rewrite Hperm in Hnd. apply NoDup_cons in Hnd as [Hno _].
  case_decide as Hk; [subst k|].
  - split; [done|]. intros [Hin Hk]. apply (Hfmap _ x) in Hin. by rewrite Hk in Hin.
  - assert (NoDup (slot_key <$> bucket)) as Hnd by (rewrite Hperm; by constructor).
    rewrite entry_of_Some by done.
    assert (x ∈ bucket <-> x = sub \/ x ∈ delete i bucket) as ->
      by (by rewrite <-elem_of_cons, <-Hperm).
    split; [|tauto]. intros [[->|?] <-]; [by destruct Hk|done].
Qed.

(** ** Maps of buckets *)

Abbreviation buckets := (gmap TypeId (list StoredSubscription)).

Definition stored_in (m : buckets) (k : slot) : option StoredSubscription :=
  entry_of k.2 (default [] (m !! k.1)).

Definition buckets_ok (m : buckets) : Prop := forall ty b, m !! ty = Some b -> bucket_ok ty b.

Lemma buckets_ok_empty : buckets_ok ∅.
Proof. intros ty b. by rewrite lookup_empty. Qed.

Lemma buckets_default m ty : buckets_ok m -> bucket_ok ty (default [] (m !! ty)).
Proof. intros Hm. destruct (m !! ty) eqn:Hty; [by apply Hm|apply bucket_ok_nil]. Qed.

Lemma buckets_ok_insert m ty b : buckets_ok m -> bucket_ok ty b -> buckets_ok (<[ty := b]> m).
Proof. intros Hm Hb ty' b' [[<- <-]|[_ ?]]%lookup_insert_Some; [done|by apply Hm]. Qed.

Lemma stored_in_insert m ty b k :
  stored_in (<[ty := b]> m) k = if decide (k.1 = ty) then entry_of k.2 b else stored_in m k.
Proof.
  unfold stored_in. case_decide as Hk; [rewrite Hk, lookup_insert_eq; done|].
  by rewrite lookup_insert_ne by congruence.
Qed.

(** Inserting a bucket that answers like the old one except in one slot. *)
Lemma stored_in_update m ty b x o :
  (forall k, entry_of k b = if decide (k = x) then o else entry_of k (default [] (m !! ty))) ->
  forall k, stored_in (<[ty := b]> m) k = if decide (k = (ty, x)) then o else stored_in m k.
Proof.
  intros Hb [ty' k]. rewrite stored_in_insert. cbn [fst snd]. case_decide as Hty.
  - subst ty'. rewrite Hb. unfold stored_in. cbn [fst snd].
    destruct (decide (k = x)) as [->|Hk]; [by rewrite decide_True|].
    rewrite decide_False; [done|congruence].
  - rewrite decide_False; [done|congruence].
Qed.

Lemma stored_in_slot m k sub : buckets_ok m -> stored_in m k = Some sub -> sub_slot sub = k.
Proof.
  intros Hm Hk. destruct k as [ty k]. unfold stored_in in Hk. cbn [fst snd] in Hk.
  destruct (buckets_default m ty Hm) as [Hty Hnd _].
  apply entry_of_Some in Hk as [Hin <-]; [|done].
  rewrite Forall_forall in Hty. unfold sub_slot. by rewrite (Hty sub Hin).
Qed.

Lemma stored_in_noop m ty k : stored_in (<[ty := default [] (m !! ty)]> m) k = stored_in m k.
Proof.
  rewrite stored_in_insert. case_decide as Hk; [|done]. unfold stored_in. by rewrite Hk.
Qed.

Lemma count_empty : count_subscriptions ∅ = 0.
Proof. reflexivity. Qed.

Lemma count_insert m ty b :
  count_subscriptions (<[ty := b]> m) + length (default [] (m !! ty))
  = count_subscriptions m + length b.
Proof.
  assert (forall (m' : buckets) b', m' !! ty = None ->
    count_subscriptions (<[ty := b']> m') = length b' + count_subscriptions m') as Hnew.
  { intros m' b' Hno. unfold count_subscriptions.
    rewrite (map_fold_insert_L (fun _ bucket n => length bucket + n)); [done| |done].
    intros. lia. }
  destruct (m !! ty) as [b0|] eqn:Hty; cbn [default from_option id]; [|rewrite Hnew by done; cbn; lia].
  rewrite <-(insert_delete_eq m ty b). rewrite <-(insert_delete_id m ty b0 Hty) at 2.
  rewrite !Hnew by apply lookup_delete_eq. lia.
Qed.

(** The listing of a type. *)
Lemma bucket_listing m ty : buckets_ok m ->
  let l := default [] (m !! ty) in
  NoDup (slot_key <$> l) /\ StronglySorted slot_le l /\
  forall sub, sub ∈ l <-> sub_type_id sub = ty /\ stored_in m (sub_slot sub) = Some sub.
Proof.
  intros Hm. pose proof (buckets_default m ty Hm) as [Hty Hnd Hs]. cbn zeta.
  do 2 (split; [done|]). intros sub. unfold stored_in, sub_slot. cbn [fst snd]. split.
  - intros Hin. rewrite Forall_forall in Hty. pose proof (Hty sub Hin) as <-. split; [done|].
    by apply entry_of_Some.
  - intros [<- Hsub]. by apply entry_of_Some in Hsub as [? _].
Qed.

(** Putting a subscription: replace or add. *)
Lemma put_cases m sub : buckets_ok m ->
  let ty := sub_type_id sub in
  let bucket := default [] (m !! ty) in
  match find_entry sub bucket with
  | Some index =>
      let m' := <[ty := <[index := sub]> bucket]> m in
      buckets_ok m' /\ count_subscriptions m' = count_subscriptions m /\
      forall k, stored_in m' k = if decide (k = sub_slot sub) then Some sub else stored_in m k
  | None =>
      let m' := <[ty := sort_bucket (bucket ++ [sub])]> m in
      buckets_ok m' /\ count_subscriptions m' = S (count_subscriptions m) /\
      forall k, stored_in m' k = if decide (k = sub_slot sub) then Some sub else stored_in m k
  end.
Proof.
  intros Hm ty bucket. pose proof (buckets_default m ty Hm) as Hb. fold bucket in Hb.
  destruct (find_entry sub bucket) as [index|] eqn:Hf; cbn zeta.
  - destruct (bucket_replace ty bucket index sub Hb eq_refl Hf) as [Hb' He].
    split; [by apply buckets_ok_insert|]. split; [|by apply stored_in_update].
    pose proof (count_insert m ty (<[index := sub]> bucket)) as Hc.
    rewrite length_insert in Hc. fold bucket in Hc. lia.
  - destruct (bucket_add ty bucket sub Hb eq_refl Hf) as (Hb' & Hlen & He).
    split; [by apply buckets_ok_insert|]. split; [|by apply stored_in_update].
    pose proof (count_insert m ty (sort_bucket (bucket ++ [sub]))) as Hc.
    rewrite Hlen in Hc. fold bucket in Hc. lia.
Qed.

(** Claiming: the entry is found exactly when it is stored. *)
Lemma claim_cases m sub : buckets_ok m ->
  match m !! sub_type_id sub with
  | None => stored_in m (sub_slot sub) <> Some sub
  | Some bucket =>
      match position sub bucket with
      | None => stored_in m (sub_slot sub) <> Some sub
      | Some index =>
          stored_in m (sub_slot sub) = Some sub /\
          let m' := <[sub_type_id sub := delete index bucket]> m in
          buckets_ok m' /\ count_subscriptions m = S (count_subscriptions m') /\
          forall k, stored_in m' k = if decide (k = sub_slot sub) then None else stored_in m k
      end
  end.
Proof.
  intros Hm.
  assert (stored_in m (sub_slot sub)
    = entry_of (slot_key sub) (default [] (m !! sub_type_id sub))) as Hst by reflexivity.
  destruct (m !! sub_type_id sub) as [bucket|] eqn:Hty; cbn [default from_option id] in Hst; [|by rewrite Hst].
  pose proof (Hm _ _ Hty) as Hb. destruct (position sub bucket) as [i|] eqn:Hp.
  - apply position_Some in Hp. split.
    { rewrite Hst. apply entry_of_Some; [apply Hb|]. split; [by eapply list_elem_of_lookup_2|done]. }
    destruct (bucket_remove _ bucket i sub Hb Hp) as [Hb' He]. cbn zeta.
    split; [by apply buckets_ok_insert|]. split.
    + pose proof (count_insert m (sub_type_id sub) (delete i bucket)) as Hc.
      rewrite Hty in Hc. cbn [default from_option id] in Hc.
      rewrite length_delete in Hc by eauto. apply lookup_lt_Some in Hp. lia.
    + apply stored_in_update. by rewrite Hty.
  - apply position_None in Hp. rewrite Hst, entry_of_Some by apply Hb. by intros [].
Qed.

(** ** The in-memory store implements the specification *)

Definition memory_view (s : MemoryStore) : StoreView :=
  mkView (ms_keys s) (ms_environments s) (stored_in (ms_subscriptions s))
    (rc_entries (ms_replay s)).

Record memory_inv (s : MemoryStore) : Prop := mkMemoryInv {
  minv_agents : size (ms_keys s) <= lim_agents (ms_limits s);
  minv_environments : size (ms_environments s) <= lim_environments (ms_limits s);
  minv_subscriptions : count_subscriptions (ms_subscriptions s) <= lim_subscriptions (ms_limits s);
  minv_replays : size (rc_entries (ms_replay s)) <= lim_replays (ms_limits s);
  minv_replay_limit : rc_maximum (ms_replay s) = lim_replays (ms_limits s);
  minv_buckets : buckets_ok (ms_subscriptions s);
  minv_ca : ms_keys s !! AgentId_CA = None;
}.

Lemma memory_inv_new limits : memory_inv (MemoryStore_new limits).
Proof.
  split; cbn; rewrite ?map_size_empty, ?count_empty; try lia; try done.
Qed.

(** Replacing or adding a binding under a capacity check. *)
Lemma size_insert_le {V} (m : gmap AgentId V) a v n :
  negb (bool_decide (is_Some (m !! a))) && (n <=? size m) = false ->
  size m <= n -> size (<[a := v]> m) <= n.
Proof.
  intros Hg Hn. autorewrite with bool_prop in Hg. rewrite map_size_insert.
  destruct (m !! a); [cbn; lia|]. destruct Hg as [[? Hsome]|Hlt]; [done|]. cbn. lia.
Qed.

Lemma mutation_ok (v v' w : StoreView) : v' ≡ w -> mutation (Ok tt) v v' w.
Proof. by left. Qed.
Lemma mutation_err e (v v' w : StoreView) : v' ≡ v -> mutation (Err e) v v' w.
Proof. right. by exists e. Qed.

Lemma memory_provision a k s r s' : memory_inv s -> MemoryStore_provision a k s = (r, s') ->
  memory_inv s' /\ mutation r (memory_view s) (memory_view s') (add_key a k (memory_view s)).
Proof.
  intros Hs Hrun. unfold MemoryStore_provision in Hrun.
  destruct (bool_decide _) eqn:Hca; [injection Hrun as <- <-; by split; [|by apply mutation_err]|].
  autorewrite with rust in Hrun. destruct (_ && _) eqn:Hcap; injection Hrun as <- <-.
  - split; [done|by apply mutation_err].
  - apply bool_decide_eq_false in Hca. destruct Hs.
    split; [split; cbn; try done|by apply mutation_ok].
    + by apply size_insert_le.
    + by rewrite lookup_insert_ne.
Qed.

Lemma memory_set_environment a e s r s' : memory_inv s -> MemoryStore_set_environment a e s = (r, s') ->
  memory_inv s' /\ mutation r (memory_view s) (memory_view s') (add_environment a e (memory_view s)).
Proof.
  intros Hs Hrun. unfold MemoryStore_set_environment in Hrun.
  autorewrite with rust in Hrun. destruct (_ && _) eqn:Hcap; injection Hrun as <- <-.
  - split; [done|by apply mutation_err].
  - destruct Hs. split; [split; cbn; try done|by apply mutation_ok].
    by apply size_insert_le.
Qed.

(** A store that differs from [s] in its buckets only. *)
Definition with_buckets (m : buckets) (s : MemoryStore) : MemoryStore :=
  mkMemoryStore (ms_keys s) (ms_environments s) m (ms_replay s) (ms_limits s).

Lemma memory_inv_buckets m s :
  memory_inv s -> buckets_ok m -> count_subscriptions m <= lim_subscriptions (ms_limits s) ->
  memory_inv (with_buckets m s).
Proof. intros [] ? ?. by split. Qed.

Lemma memory_view_buckets m s v :
  (forall k, stored_in m k = view_stored v k) ->
  view_keys v = ms_keys s -> view_environments v = ms_environments s ->
  view_sessions v = rc_entries (ms_replay s) ->
  memory_view (with_buckets m s) ≡ v.
Proof. intros. split_and!; cbn; done. Qed.

Lemma memory_put_subscription sub s r s' :
  memory_inv s -> MemoryStore_put_subscription sub s = (r, s') ->
  memory_inv s' /\
  mutation r (memory_view s) (memory_view s') (set_slot (sub_slot sub) (Some sub) (memory_view s)).
Proof.
  intros Hs Hrun. unfold MemoryStore_put_subscription in Hrun.
  autorewrite with rust in Hrun. unfold set_bucket in Hrun. autorewrite with rust in Hrun.
  pose proof (put_cases _ sub (minv_buckets s Hs)) as Hput.
  pose proof (minv_subscriptions s Hs) as Hcount. cbn zeta in *.
  destruct (find_entry sub _) as [index|].
  - destruct Hput as (Hok & Hc & Hst). injection Hrun as <- <-. cbn [ms_subscriptions] in *.
    rewrite insert_insert_eq.
    split; [apply (memory_inv_buckets _ s); [done..|lia]|].
    apply mutation_ok. by apply (memory_view_buckets _ s).
  - destruct Hput as (Hok & Hc & Hst).
    destruct (_ <=? _) eqn:Hfull; injection Hrun as <- <-; cbn [ms_subscriptions] in *.
    + split; [apply (memory_inv_buckets _ s); [done| |]|].
      * apply buckets_ok_insert; [apply Hs|apply buckets_default, Hs].
      * pose proof (count_insert (ms_subscriptions s) (sub_type_id sub)
          (default [] (ms_subscriptions s !! sub_type_id sub))). lia.
      * apply mutation_err. apply (memory_view_buckets _ s); [|done..]. intros k. apply stored_in_noop.
    + autorewrite with bool_prop in Hfull. rewrite insert_insert_eq.
      split; [apply (memory_inv_buckets _ s); [done..|lia]|].
      apply mutation_ok. by apply (memory_view_buckets _ s).
Qed.

Lemma memory_claim sub s r s' : memory_inv s -> MemoryStore_claim_subscription sub s = (r, s') ->
  memory_inv s' /\
  ((view_stored (memory_view s) (sub_slot sub) = Some sub /\ r = Ok true /\
    memory_view s' ≡ match sub_kind sub with
                     | SubscriptionKind.OneShot => set_slot (sub_slot sub) None (memory_view s)
                     | SubscriptionKind.Permanent => memory_view s
                     end) \/
   (view_stored (memory_view s) (sub_slot sub) <> Some sub /\ r = Ok false /\
    memory_view s' ≡ memory_view s)).
Proof.
  intros Hs Hrun. unfold MemoryStore_claim_subscription in Hrun.
  autorewrite with rust in Hrun. cbn [view_stored memory_view].
  pose proof (claim_cases _ sub (minv_buckets s Hs)) as Hclaim.
  pose proof (minv_subscriptions s Hs) as Hcount. cbn zeta in *.
  destruct (ms_subscriptions s !! sub_type_id sub) as [bucket|]; cycle 1.
  { injection Hrun as <- <-. split; [done|right]. done. }
  destruct (position sub bucket) as [i|]; cycle 1.
  { injection Hrun as <- <-. split; [done|right]. done. }
  destruct Hclaim as (Hst & Hok & Hc & Hst').
  destruct (sub_kind sub); cbn in Hrun; injection Hrun as <- <-.
  - split; [apply (memory_inv_buckets _ s); [done..|lia]|]. left. split; [done|].
    split; [done|]. by apply (memory_view_buckets _ s).
  - split; [done|]. by left.
Qed.

Lemma spec_check_cases capacity ttl k now m r m' :
  spec_check capacity ttl k now m = (r, m') ->
  let live := retain_live now m in
  (live !! k = None /\ r = Ok tt /\ m' = <[k := saturating_add now ttl]> live /\
   size live < capacity) \/
  (exists e, r = Err e /\ (is_Some (live !! k) -> e = Error.Replay) /\ m' = live).
Proof.
  unfold spec_check. cbn zeta. case_bool_decide as Hk.
  - intros [= <- <-]. right. by exists Error.Replay.
  - destruct (_ <=? _) eqn:Hcap; intros [= <- <-]; autorewrite with bool_prop in Hcap.
    + right. by exists Error.Capacity.
    + left. rewrite eq_None_not_Some. done.
Qed.

Lemma size_retain_live (now : N) (m : gmap replay_key N) : size (retain_live now m) <= size m.
Proof. apply map_subseteq_size, map_filter_subseteq. Qed.

Lemma memory_check sender session now s r s' :
  memory_inv s -> MemoryStore_check_and_mark sender session now s = (r, s') ->
  let live := retain_live now (view_sessions (memory_view s)) in
  memory_inv s' /\ rc_ttl_seconds (ms_replay s') = rc_ttl_seconds (ms_replay s) /\
  ((live !! (sender, session) = None /\ r = Ok tt /\
    memory_view s' ≡ set_sessions
      (<[(sender, session) := saturating_add now (rc_ttl_seconds (ms_replay s))]> live)
      (memory_view s)) \/
   (exists e, r = Err e /\ (is_Some (live !! (sender, session)) -> e = Error.Replay) /\
    (memory_view s' ≡ memory_view s \/ memory_view s' ≡ set_sessions live (memory_view s)))).
Proof.
  intros Hs Hrun. unfold MemoryStore_check_and_mark, zoom in Hrun.
  destruct (ReplayCache_check_and_mark sender session now (ms_replay s)) as [r0 c'] eqn:Hc.
  injection Hrun as <- <-.
  destruct (replay_refines (S:=ReplayCache) sender session now (ms_replay s) r0 c')
    as (_ & Hcap & Httl & Hspec); [done|exact Hc|]. cbn in Hcap, Httl, Hspec. cbn zeta.
  apply spec_check_cases in Hspec.
  pose proof (size_retain_live now (rc_entries (ms_replay s))) as Hsize.
  destruct Hs. cbn [view_sessions memory_view].
  assert (memory_inv (mkMemoryStore (ms_keys s) (ms_environments s) (ms_subscriptions s) c'
    (ms_limits s))) as Hinv.
  { split; cbn; try done; [|congruence].
    destruct Hspec as [(Hno & _ & -> & Hlt)|(e & _ & _ & ->)]; [|lia].
    rewrite map_size_insert, Hno. cbn. lia. }
  split; [done|]. split; [done|].
  destruct Hspec as [(Hno & -> & Hm & _)|(e & -> & He & Hm)].
  - left. split; [done|]. split; [done|]. by split_and!.
  - right. exists e. split; [done|]. split; [done|]. right. by split_and!.
Qed.

#[export] Program Instance MemoryStore_laws : CaStoreLaws MemoryStore := {
  store_inv := memory_inv;
  store_view := memory_view;
  store_ttl s := rc_ttl_seconds (ms_replay s);
  provision_law := memory_provision;
  set_environment_law := memory_set_environment;
  put_subscription_law := memory_put_subscription;
  check_law := memory_check;
}.
Next Obligation. reflexivity. Qed.
Next Obligation. intros s []. done. Qed.
Next Obligation. intros s k sub Hs. apply stored_in_slot, Hs. Qed.
Next Obligation. reflexivity. Qed.
Next Obligation.
  intros ty s Hs. eexists. split; [reflexivity|]. apply bucket_listing. apply Hs.
Qed.
Next Obligation.
  intros sub s r s' Hs Hrun. destruct (memory_claim sub s r s' Hs Hrun) as [? [?|?]]; tauto.
Qed.

(** ** Interleavings of calls

    Every method holds its lock for the whole call, so concurrent requests are
    sequences of calls. *)

Inductive StoreCall :=
| CallProvision (a : AgentId) (k : PublicKeys)
| CallSetEnvironment (a : AgentId) (e : list byte)
| CallPut (sub : StoredSubscription)
| CallClaim (sub : StoredSubscription)
| CallMark (sender : AgentId) (session : SessionId) (now : N).

#[export] Instance StoreCall_eq_dec : EqDecision StoreCall.
Proof. solve_decision. Defined.

(** Whether the call took effect, and the new store. *)
Definition store_call {S} `{CaStore S} (c : StoreCall) (s : S) : bool * S :=
  match c with
  | CallProvision a k => let '(r, s') := provision a k s in (is_ok r, s')
  | CallSetEnvironment a e => let '(r, s') := set_environment a e s in (is_ok r, s')
  | CallPut sub => let '(r, s') := put_subscription sub s in (is_ok r, s')
  | CallClaim sub =>
      let '(r, s') := claim_subscription sub s in
      (match r with Ok claimed => claimed | _ => false end, s')
  | CallMark sender session now =>
      let '(r, s') := check_and_mark sender session now s in (is_ok r, s')
  end.

Fixpoint store_run {S} `{CaStore S} (calls : list StoreCall) (s : S) : list (StoreCall * bool) * S :=
  match calls with
  | [] => ([], s)
  | c :: calls' =>
      let '(b, s1) := store_call c s in
      let '(log, s2) := store_run calls' s1 in ((c, b) :: log, s2)
  end.

(** How often a call took effect. *)
Definition times (c : StoreCall) (log : list (StoreCall * bool)) : nat :=
  length (filter (fun e => e = (c, true)) log).

Lemma times_cons c c' b log :
  times c ((c', b) :: log) = (if decide ((c', b) = (c, true)) then 1 else 0) + times c log.
Proof. unfold times. rewrite filter_cons. by case_decide. Qed.

Section interleavings.
Context `{HL : CaStoreLaws T}.
Implicit Types s : T.

Lemma store_call_inv c s : store_inv s -> store_inv (store_call c s).2.
Proof.
  intros Hs. destruct c; cbn [store_call].
  - destruct (provision a k s) eqn:Hc. by apply provision_law in Hc as [].
  - destruct (set_environment a e s) eqn:Hc. by apply set_environment_law in Hc as [].
  - destruct (put_subscription sub s) eqn:Hc. by apply put_subscription_law in Hc as [].
  - destruct (claim_subscription sub s) eqn:Hc. by apply claim_law in Hc as [].
  - destruct (check_and_mark sender session now s) eqn:Hc. by apply check_law in Hc as [].
Qed.

Lemma store_run_inv calls s : store_inv s -> store_inv (store_run calls s).2.
Proof.
  revert s. induction calls as [|c calls IH]; intros s Hs; [done|]. cbn [store_run].
  pose proof (store_call_inv c s Hs) as H1. destruct (store_call c s) as [b s1].
  specialize (IH s1 H1). by destruct (store_run calls s1).
Qed.

(** A slot changes only by a put into it or a claim of what it holds. *)
Lemma store_call_slot c s k : store_inv s ->
  let '(b, s') := store_call c s in
  view_stored (store_view s') k = view_stored (store_view s) k \/
  (exists sub, c = CallPut sub /\ b = true /\ sub_slot sub = k /\
     view_stored (store_view s') k = Some sub) \/
  (exists sub, c = CallClaim sub /\ b = true /\ sub_slot sub = k /\
     view_stored (store_view s) k = Some sub /\ sub_kind sub = SubscriptionKind.OneShot /\
     view_stored (store_view s') k = None).
Proof.
  intros Hs. destruct c; cbn [store_call].
  - destruct (provision a k0 s) eqn:Hc. apply provision_law in Hc as [_ Hm]; [|done].
    left. destruct Hm as [(_ & _ & _ & Hst & _)|(e & _ & _ & _ & Hst & _)]; apply Hst.
  - destruct (set_environment a e s) eqn:Hc. apply set_environment_law in Hc as [_ Hm]; [|done].
    left. destruct Hm as [(_ & _ & _ & Hst & _)|(x & _ & _ & _ & Hst & _)]; apply Hst.
  - destruct (put_subscription sub s) as [r s'] eqn:Hc.
    apply put_subscription_law in Hc as [_ Hm]; [|done].
    destruct Hm as [(-> & _ & _ & Hst & _)|(e & -> & _ & _ & Hst & _)]; [|by left].
    specialize (Hst k). unfold set_slot in Hst. cbn in Hst. case_decide; [|by left].
    right. left. exists sub. by subst.
  - destruct (claim_subscription sub s) as [r s'] eqn:Hc. apply claim_law in Hc as [_ Hm]; [|done].
    destruct Hm as [(e & _ & _ & _ & Hst & _)|[(Hs' & -> & Hv)|(_ & _ & _ & _ & Hst & _)]];
      [by left| |by left].
    destruct (sub_kind sub) eqn:Hkind; destruct Hv as (_ & _ & Hst & _); [|by left].
    specialize (Hst k). unfold set_slot in Hst. cbn in Hst. case_decide; [|by left].
    right. right. exists sub. by subst.
  - destruct (check_and_mark sender session now s) eqn:Hc. apply check_law in Hc as (_ & _ & Hm); [|done].
    left. destruct Hm as [(_ & _ & _ & _ & Hst & _)|
      (e & _ & _ & [(_ & _ & Hst & _)|(_ & _ & Hst & _)])]; apply Hst.
Qed.

(** One for a subscription that is stored. *)
Definition stock (sub : StoredSubscription) (s : T) : nat :=
  if decide (view_stored (store_view s) (sub_slot sub) = Some sub) then 1 else 0.

Lemma store_call_stock sub c s : store_inv s -> sub_kind sub = SubscriptionKind.OneShot ->
  let '(b, s') := store_call c s in
  (if decide ((c, b) = (CallClaim sub, true)) then 1 else 0) + stock sub s' <=
  (if decide ((c, b) = (CallPut sub, true)) then 1 else 0) + stock sub s.
Proof.
  intros Hs Hkind. pose proof (store_call_slot c s (sub_slot sub) Hs) as Hslot.
  assert (forall s', c = CallClaim sub -> store_call c s = (true, s') ->
    view_stored (store_view s) (sub_slot sub) = Some sub /\
    view_stored (store_view s') (sub_slot sub) = None) as Hclaim.
  { intros s' -> Hc. cbn [store_call] in Hc.
    destruct (claim_subscription sub s) as [r s1] eqn:Hr. apply claim_law in Hr as [_ Hm]; [|done].
    destruct Hm as [(e & -> & _)|[(Hst & -> & Hv)|(_ & -> & _)]]; [done| |done].
    injection Hc as <-. split; [done|]. rewrite Hkind in Hv. destruct Hv as (_ & _ & Hv & _).
    rewrite Hv. unfold set_slot. cbn. by rewrite decide_True. }
  destruct (store_call c s) as [b s'].
  unfold stock. case_decide as Hev; [injection Hev as -> ->|].
  - destruct (Hclaim s') as [Hs1 Hs2]; [done..|]. rewrite Hs1, Hs2.
    rewrite (decide_False (P:=None = Some sub)) by done. rewrite (decide_True (P:=Some sub = _)) by done. lia.
  - destruct Hslot as [->|[(sub' & -> & -> & Hk & Hst)|(sub' & -> & -> & _ & _ & _ & ->)]].
    + destruct (decide (_ = Some sub)); destruct (decide _); lia.
    + rewrite Hst. destruct (decide (Some sub' = Some sub)) as [[= ->]|];
        [rewrite (decide_True (P:=(_, _) = _)) by done; lia|]. lia.
    + rewrite (decide_False (P:=None = Some sub)) by done. lia.
Qed.

Lemma claims_le_puts sub calls s : store_inv s -> sub_kind sub = SubscriptionKind.OneShot ->
  let '(log, s') := store_run calls s in
  times (CallClaim sub) log + stock sub s' <= times (CallPut sub) log + stock sub s.
Proof.
  intros Hs Hkind. revert s Hs. induction calls as [|c calls IH]; intros s Hs; [cbn; lia|].
  cbn [store_run]. pose proof (store_call_stock sub c s Hs Hkind) as H1.
  pose proof (store_call_inv c s Hs) as Hs1. destruct (store_call c s) as [b s1].
  specialize (IH s1 Hs1). destruct (store_run calls s1) as [log s2].
  rewrite !times_cons. cbn [fst snd] in *. lia.
Qed.
End interleavings.

(** However the calls of concurrent requests interleave, a one-shot
    subscription is claimed at most once for each time it is stored: over any
    sequence of store calls from a store that does not hold it, the successful
    claims do not outnumber the successful puts, for any store that implements
    the interface. *)
Theorem one_shot_claimed_once `{HL : CaStoreLaws T} sub calls (s : T) :
  store_inv s -> sub_kind sub = SubscriptionKind.OneShot ->
  view_stored (store_view s) (sub_slot sub) <> Some sub ->
  let log := (store_run calls s).1 in
  times (CallClaim sub) log <= times (CallPut sub) log.
Proof.
  intros Hs Hkind Hno. pose proof (claims_le_puts sub calls s Hs Hkind) as Hle.
  assert (stock sub s = 0) as H0 by (unfold stock; by rewrite decide_False).
  destruct (store_run calls s) as [log s']. cbn [fst]. lia.
Qed.

Lemma memory_limits c (s : MemoryStore) : ms_limits (store_call c s).2 = ms_limits s.
Proof.
  destruct c; cbn.
  - unfold MemoryStore_provision. destruct (bool_decide _); [done|].
    autorewrite with rust. by destruct (_ && _).
  - unfold MemoryStore_set_environment. autorewrite with rust. by destruct (_ && _).
  - unfold MemoryStore_put_subscription, set_bucket. autorewrite with rust.
    destruct (find_entry _ _); [done|]. by destruct (_ <=? _).
  - unfold MemoryStore_claim_subscription, set_bucket. autorewrite with rust.
    destruct (ms_subscriptions s !! _); [|done].
    destruct (position _ _); [|done]. by destruct (sub_kind sub).
  - unfold MemoryStore_check_and_mark, zoom. by destruct (ReplayCache_check_and_mark _ _ _ _).
Qed.

Lemma memory_run_limits calls (s : MemoryStore) : ms_limits (store_run calls s).2 = ms_limits s.
Proof.
  revert s. induction calls as [|c calls IH]; intros s; [done|]. cbn [store_run].
  pose proof (memory_limits c s) as H1. destruct (store_call c s) as [b s1].
  specialize (IH s1). destruct (store_run calls s1). cbn in *. congruence.
Qed.

(** Starting from an empty in-memory store, after any sequence of calls the
    store holds no more agents, environments, subscriptions and replay entries
    than its limits, never the CA as an agent, and its buckets are well formed:
    each entry under its type, one entry per subscriber and handler, in order. *)
Theorem memory_store_bounded limits calls :
  let s := (store_run calls (MemoryStore_new limits)).2 in
  size (ms_keys s) <= lim_agents limits /\
  size (ms_environments s) <= lim_environments limits /\
  count_subscriptions (ms_subscriptions s) <= lim_subscriptions limits /\
  size (rc_entries (ms_replay s)) <= lim_replays limits /\
  ms_keys s !! AgentId_CA = None /\
  forall type_id bucket, ms_subscriptions s !! type_id = Some bucket ->
    Forall (fun e => sub_type_id e = type_id) bucket /\
    NoDup (slot_key <$> bucket) /\ StronglySorted slot_le bucket.
Proof.
  assert (memory_inv (store_run calls (MemoryStore_new limits)).2)
    as [H1 H2 H3 H4 _ H5 H6]
    by apply (store_run_inv (HL:=MemoryStore_laws)), memory_inv_new.
  rewrite memory_run_limits in *.
  do 5 (split; [done|]). intros ty b Hb. by destruct (H5 ty b Hb).
Qed.

Module StoreExample.
Definition carol := mkAgentId (vreplicate 16 x03).
Definition sub : StoredSubscription :=
  mkSubscription carol (mkTypeId 7) (mkHandlerId (vreplicate 16 x09)) SubscriptionKind.OneShot
    (Operation.wire (Operation.Subscribe (mkTypeId 7) [])).
End StoreExample.

Lemma one_shot_claimed_once_witness :
  let calls := [CallClaim StoreExample.sub; CallPut StoreExample.sub; CallClaim StoreExample.sub;
                CallClaim StoreExample.sub] in
  let log := (store_run calls (MemoryStore_new StoreLimits_default)).1 in
  log.*2 = [false; true; true; false] /\
  times (CallClaim StoreExample.sub) log <= times (CallPut StoreExample.sub) log.
Proof.
  cbn zeta. split; [vm_compute; reflexivity|].
  apply (one_shot_claimed_once (T:=MemoryStore) StoreExample.sub
    [CallClaim StoreExample.sub; CallPut StoreExample.sub; CallClaim StoreExample.sub;
     CallClaim StoreExample.sub] (MemoryStore_new StoreLimits_default)).
  - apply memory_inv_new.
  - reflexivity.
  - vm_compute. discriminate.
Defined.
