(* ===== verification/CaConfig.v ===== *)
(** The configuration of the CA, apps/cad/src/main.rs, with the hexadecimal helpers of
    app-common/src/lib.rs: what the policy it builds enforces. *)

From S2P Require Export Policy CaStore.

(** A [String] or path is its UTF-8 bytes. *)
Abbreviation Text := (list byte).

(** [hex::decode] is third-party code. *)
Class Hex := { hex_decode : Text -> option (list byte) }.

(** [Box<dyn Error>], by what it is made from. *)
Module ConfigError.
Inductive t :=
| Policy (e : EnvironmentPolicyError)
| Store (e : Error)
| NotHex
| WrongLength
| Unreadable
| Json
| PendingDeliveries.

#[global] Instance eq_dec : EqDecision t.
Proof. solve_decision. Defined.
End ConfigError.
Abbreviation ConfigError := ConfigError.t.

(** ** app-common: hexadecimal values *)

(** The UTF-8 encodings of [char::is_whitespace]. *)
Definition whitespace : list Text :=
  [[x09]; [x0a]; [x0b]; [x0c]; [x0d]; [x20]; [xc2; x85]; [xc2; xa0]; [xe1; x9a; x80];
   [xe2; x80; x80]; [xe2; x80; x81]; [xe2; x80; x82]; [xe2; x80; x83]; [xe2; x80; x84];
   [xe2; x80; x85]; [xe2; x80; x86]; [xe2; x80; x87]; [xe2; x80; x88]; [xe2; x80; x89];
   [xe2; x80; x8a]; [xe2; x80; xa8]; [xe2; x80; xa9]; [xe2; x80; xaf]; [xe2; x81; x9f];
   [xe3; x80; x80]].

(** Drops whitespace from the front, every round at least a byte. *)
Fixpoint trim_front (fuel : nat) (spaces : list Text) (text : Text) : Text :=
  match fuel with
  | 0 => text
  | S fuel =>
      match find (fun w => bool_decide (take (length w) text = w)) spaces with
      | Some w => trim_front fuel spaces (drop (length w) text)
      | None => text
      end
  end.

(** [str::trim] *)
Definition trim (text : Text) : Text :=
  let front := trim_front (length text) whitespace text in
  reverse (trim_front (length front) (reverse <$> whitespace) (reverse front)).

Section configuration.
Context `{Hex}.

Definition decode_hex (n : nat) (value : Text) : result ConfigError (array n) :=
  bytes ← ok_or (hex_decode value) ConfigError.NotHex;
  ok_or (to_array n bytes) ConfigError.WrongLength.

(** [files] is the outcome of [fs::read_to_string]. *)
Definition read_hex_file (n : nat) (files : Text -> option Text) (path : Text) :
    result ConfigError (array n) :=
  value ← ok_or (files path) ConfigError.Unreadable;
  decode_hex n (trim value).
End configuration.

(** ** The configuration file, as serde reads it *)

Module ConfiguredValue.
Inductive t :=
| Bool (b : bool)
| I64 (z : Z)
| Bytes (text : Text)
| Hex (text : Text).
End ConfiguredValue.
Abbreviation ConfiguredValue := ConfiguredValue.t.

Module Kind.
Inductive t := Bool | I64 | Bytes.
End Kind.
Abbreviation Kind := Kind.t.

Module ConfiguredAuthority.
Inductive t := SelfDeclared | CaIssued.
End ConfiguredAuthority.
Abbreviation ConfiguredAuthority := ConfiguredAuthority.t.

Record Limits := mkConfiguredLimits {
  cfg_agents : option nat;
  cfg_environments : option nat;
  cfg_subscriptions : option nat;
  cfg_replays : option nat;
  cfg_replay_ttl_seconds : option N;
}.

Record AgentEntry := mkAgentEntry {
  ae_id : Text;
  ae_ed25519_public_file : Text;
  ae_x25519_public_file : Text;
}.

(** [AttributeRule] of the daemon. *)
Record ConfiguredRule := mkConfiguredRule {
  cr_id : N;
  cr_kind : Kind;
  cr_authority : ConfiguredAuthority;
  cr_allowed : list ConfiguredValue;
}.

Record Approval := mkApproval { ap_agent : Text; ap_attribute : N; ap_value : ConfiguredValue }.
Record Isolation := mkIsolation { is_type_id : N; is_attributes : list N }.
Record SubscriberRequirement := mkRequirement {
  sr_type_id : N;
  sr_attribute : N;
  sr_values : list ConfiguredValue;
}.

Record PolicyConfig := mkPolicyConfig {
  pc_attributes : list ConfiguredRule;
  pc_approvals : list Approval;
  pc_isolations : list Isolation;
  pc_subscriber_requirements : list SubscriberRequirement;
}.

(** [Limits::resolve] *)
Definition resolve (l : Limits) : StoreLimits :=
  let defaults := StoreLimits_default in
  mkLimits (default (lim_agents defaults) (cfg_agents l))
    (default (lim_environments defaults) (cfg_environments l))
    (default (lim_subscriptions defaults) (cfg_subscriptions l))
    (default (lim_replays defaults) (cfg_replays l))
    (default (lim_replay_ttl_seconds defaults) (cfg_replay_ttl_seconds l)).

(** ** Building the policy *)

(** A loop that stops at the first error. *)
Fixpoint for_each {St E A} (l : list A) (body : A -> M St E unit) : M St E unit :=
  match l with
  | [] => mret tt
  | a :: l' => body a;; for_each l' body
  end.

Section policy.
Context `{Hex}.

Abbreviation ConfigM := (M StaticEnvironmentPolicy ConfigError).

Definition value (v : ConfiguredValue) : result ConfigError AttributeValue :=
  match v with
  | ConfiguredValue.Bool b => Ok (AttributeValue.Bool b)
  | ConfiguredValue.I64 z => Ok (AttributeValue.I64 z)
  | ConfiguredValue.Bytes text => map_err ConfigError.Policy (AttributeValue_bytes text)
  | ConfiguredValue.Hex text =>
      bytes ← ok_or (hex_decode text) ConfigError.NotHex;
      map_err ConfigError.Policy (AttributeValue_bytes bytes)
  end.

(** A call of the policy, its error boxed by [?]. *)
Definition on_policy (m : PolicyM unit) : ConfigM unit := map_errM ConfigError.Policy m.

Definition rule_kind (rule : ConfiguredRule) : AttributeType :=
  match cr_kind rule with
  | Kind.Bool => AttributeType.Bool
  | Kind.I64 => AttributeType.I64
  | Kind.Bytes => AttributeType.Bytes
  end.

Definition configure_rule (rule : ConfiguredRule) : ConfigM unit :=
  match cr_authority rule with
  | ConfiguredAuthority.SelfDeclared =>
      on_policy (register_self_declared (mkAttributeId (cr_id rule)) (rule_kind rule))
  | ConfiguredAuthority.CaIssued =>
      on_policy (register_ca_issued (mkAttributeId (cr_id rule)) (rule_kind rule))
  end;;
  for_each (cr_allowed rule) (fun allowed =>
    v ← lift (value allowed);
    on_policy (allow_value (mkAttributeId (cr_id rule)) v)).

Definition configure_approval (approval : Approval) : ConfigM unit :=
  agent ← lift (decode_hex 16 (ap_agent approval));
  v ← lift (value (ap_value approval));
  on_policy (approve (mkAgentId agent) (mkAttributeId (ap_attribute approval)) v).

Definition configure_isolation (isolation : Isolation) : ConfigM unit :=
  on_policy (isolate (mkTypeId (is_type_id isolation)) (mkAttributeId <$> is_attributes isolation)).

Definition configure_requirement (requirement : SubscriberRequirement) : ConfigM unit :=
  for_each (sr_values requirement) (fun allowed =>
    v ← lift (value allowed);
    on_policy (allow_subscriber_value (mkTypeId (sr_type_id requirement))
      (mkAttributeId (sr_attribute requirement)) v)).

Definition build_policy (config : PolicyConfig) : result ConfigError StaticEnvironmentPolicy :=
  match (for_each (pc_attributes config) configure_rule;;
         for_each (pc_approvals config) configure_approval;;
         for_each (pc_isolations config) configure_isolation;;
         for_each (pc_subscriber_requirements config) configure_requirement)
        StaticEnvironmentPolicy_new with
  | (Ok _, policy) => Ok policy
  | (Err e, _) => Err e
  | (Panic, _) => Panic
  end.

(** [configured_agents] *)
Fixpoint configured_agents (files : Text -> option Text) (agents : list AgentEntry) :
    result ConfigError (list (AgentId * PublicKeys)) :=
  match agents with
  | [] => Ok []
  | entry :: agents' =>
      id ← decode_hex 16 (ae_id entry);
      ed25519 ← read_hex_file 32 files (ae_ed25519_public_file entry);
      x25519 ← read_hex_file 32 files (ae_x25519_public_file entry);
      rest ← configured_agents files agents';
      Ok ((mkAgentId id, mkPublicKeys ed25519 x25519) :: rest)
  end.
End policy.

(** ** What the steps change *)

Section effects.
Context `{Hex}.

Lemma on_policy_Ok m p p' : on_policy m p = (Ok tt, p') -> m p = (Ok tt, p').
Proof.
  unfold on_policy, map_errM. destruct (m p) as [[[]|e|] p1]; cbn; by intros [= <-].
Qed.

Lemma for_each_Ok {St E A} (body : A -> M St E unit) (I : list A -> St -> Prop) l s s' :
  I [] s ->
  (forall done a s1 s2, I done s1 -> body a s1 = (Ok tt, s2) -> I (done ++ [a]) s2) ->
  for_each l body s = (Ok tt, s') -> I l s'.
Proof.
  intros H0 Hstep. change l with ([] ++ l) at 2. revert H0. generalize (@nil A) as done. revert s.
  induction l as [|a l IH]; intros s done Hdone; cbn [for_each].
  - intros [= <-]. by rewrite app_nil_r.
  - rewrite M_bind_run. destruct (body a s) as [[[]|e|] s1] eqn:Hbody; [|done..].
    replace (done ++ a :: l) with ((done ++ [a]) ++ l) by by rewrite <-app_assoc.
    apply IH. by eapply Hstep.
Qed.

(** The parts of a policy a registration does not touch. *)
Definition same_decisions (p p' : StaticEnvironmentPolicy) : Prop :=
  pol_approvals p' = pol_approvals p /\ pol_isolation p' = pol_isolation p /\
  pol_subscriber_requirements p' = pol_subscriber_requirements p.

Lemma register_rule_Ok attribute ty au p p' :
  register_rule attribute ty au p = (Ok tt, p') -> same_decisions p p'.
Proof.
  unfold register_rule. autorewrite with rust. destruct (pol_rules p !! attribute).
  - case_match; by intros [= <-].
  - by intros [= <-].
Qed.

Lemma allow_value_Ok attribute v p p' : allow_value attribute v p = (Ok tt, p') -> same_decisions p p'.
Proof.
  unfold allow_value. rewrite M_bind_run, get_rule_run. destruct (pol_rules p !! attribute); cbn [ok_or]; [|done].
  case_match; by intros [= <-].
Qed.

Lemma approve_Ok agent attribute v p p' : approve agent attribute v p = (Ok tt, p') ->
  pol_approvals p' = <[(agent, attribute) := v]> (pol_approvals p) /\
  pol_isolation p' = pol_isolation p /\ pol_subscriber_requirements p' = pol_subscriber_requirements p.
Proof.
  unfold approve. rewrite M_bind_run, get_rule_run. destruct (pol_rules p !! attribute); cbn [ok_or]; [|done].
  case_match; [done|]. rewrite M_bind_run.
  destruct (validate_configured_run attribute v p) as [[[]|e|] ->]; [|done..]. by intros [= <-].
Qed.

Lemma isolate_Ok ty attributes p p' : isolate ty attributes p = (Ok tt, p') ->
  pol_approvals p' = pol_approvals p /\ pol_isolation p' = <[ty := attributes]> (pol_isolation p) /\
  pol_subscriber_requirements p' = pol_subscriber_requirements p.
Proof.
  unfold isolate. case_match; [done|]. rewrite M_bind_run.
  destruct (isolate_check_run attributes p) as [[[]|e|] [-> _]]; [|done..]. by intros [= <-].
Qed.

Lemma allow_subscriber_value_Ok ty attribute v p p' :
  allow_subscriber_value ty attribute v p = (Ok tt, p') ->
  pol_approvals p' = pol_approvals p /\ pol_isolation p' = pol_isolation p /\
  pol_subscriber_requirements p' = <[(ty, attribute) :=
    push_distinct v (default [] (pol_subscriber_requirements p !! (ty, attribute)))]>
    (pol_subscriber_requirements p).
Proof.
  unfold allow_subscriber_value. rewrite M_bind_run, get_rule_run.
  destruct (pol_rules p !! attribute); cbn [ok_or]; [|done].
  case_match; [done|]. rewrite M_bind_run.
  destruct (validate_configured_run attribute v p) as [[[]|e|] ->]; [|done..]. by intros [= <-].
Qed.

Lemma elem_of_push_distinct v w values : w ∈ push_distinct v values <-> w ∈ values \/ w = v.
Proof.
  unfold push_distinct. case_bool_decide as Hv; [|by rewrite elem_of_app, list_elem_of_singleton].
  split; [by left|]. by intros [?| ->].
Qed.

(** *** What the configuration says *)

(** The value an approval entry gives the agent for the attribute. *)
Definition approval_of (agent : AgentId) (attribute : AttributeId) (a : Approval) : option AttributeValue :=
  match decode_hex 16 (ap_agent a), value (ap_value a) with
  | Ok id, Ok v =>
      if bool_decide (mkAgentId id = agent /\ mkAttributeId (ap_attribute a) = attribute)
      then Some v else None
  | _, _ => None
  end.

(** Of several entries the last one counts. *)
Definition approved (config : PolicyConfig) (agent : AgentId) (attribute : AttributeId) :
    option AttributeValue :=
  last (omap (approval_of agent attribute) (pc_approvals config)).

Definition isolation_of (ty : TypeId) (i : Isolation) : option (list AttributeId) :=
  if bool_decide (mkTypeId (is_type_id i) = ty) then Some (mkAttributeId <$> is_attributes i) else None.

Definition isolated (config : PolicyConfig) (ty : TypeId) : option (list AttributeId) :=
  last (omap (isolation_of ty) (pc_isolations config)).

(** Of several entries every value counts. *)
Definition requirement_of (ty : TypeId) (attribute : AttributeId) (r : SubscriberRequirement) :
    list AttributeValue :=
  if bool_decide (mkTypeId (sr_type_id r) = ty /\ mkAttributeId (sr_attribute r) = attribute)
  then omap (fun v => result_ok (value v)) (sr_values r) else [].

Definition required (config : PolicyConfig) (ty : TypeId) (attribute : AttributeId) : list AttributeValue :=
  concat (requirement_of ty attribute <$> pc_subscriber_requirements config).

Lemma last_app_default {A} (l : list A) a : last (l ++ [a]) = Some a.
Proof. apply last_snoc. Qed.

Lemma approvals_stage l p p' : pol_approvals p = ∅ -> for_each l configure_approval p = (Ok tt, p') ->
  pol_isolation p' = pol_isolation p /\ pol_subscriber_requirements p' = pol_subscriber_requirements p /\
  forall agent attribute, pol_approvals p' !! (agent, attribute) = last (omap (approval_of agent attribute) l).
Proof.
  intros Hempty. apply (for_each_Ok _ (fun l q =>
    pol_isolation q = pol_isolation p /\ pol_subscriber_requirements q = pol_subscriber_requirements p /\
    forall agent attribute, pol_approvals q !! (agent, attribute) = last (omap (approval_of agent attribute) l))).
  { do 2 (split; [done|]). intros. by rewrite Hempty, lookup_empty. }
  intros done a q q' (Hi & Hr & Ha). unfold configure_approval. rewrite M_bind_run. unfold lift.
  destruct (decode_hex 16 (ap_agent a)) as [id|e|] eqn:Hid; [|done..].
  rewrite M_bind_run. destruct (value (ap_value a)) as [v|e|] eqn:Hv; [|done..].
  intros (-> & -> & Hr')%on_policy_Ok%approve_Ok. rewrite Hr'. do 2 (split; [done|]). intros agent attribute.
  rewrite omap_app. cbn [omap list_omap]. unfold approval_of at 2. rewrite Hid, Hv.
  case_bool_decide as Heq.
  - destruct Heq as [<- <-]. by rewrite lookup_insert_eq, last_snoc.
  - rewrite lookup_insert_ne, app_nil_r; [apply Ha|]. intros [= <- <-]. by apply Heq.
Qed.

Lemma isolations_stage l p p' : pol_isolation p = ∅ -> for_each l configure_isolation p = (Ok tt, p') ->
  pol_approvals p' = pol_approvals p /\ pol_subscriber_requirements p' = pol_subscriber_requirements p /\
  forall ty, pol_isolation p' !! ty = last (omap (isolation_of ty) l).
Proof.
  intros Hempty. apply (for_each_Ok _ (fun l q =>
    pol_approvals q = pol_approvals p /\ pol_subscriber_requirements q = pol_subscriber_requirements p /\
    forall ty, pol_isolation q !! ty = last (omap (isolation_of ty) l))).
  { do 2 (split; [done|]). intros. by rewrite Hempty, lookup_empty. }
  intros done i q q' (Ha & Hr & Hi) (Ha' & Hi' & Hr')%on_policy_Ok%isolate_Ok.
  rewrite Ha', Hi', Hr'. do 2 (split; [done|]). intros ty.
  rewrite omap_app. cbn [omap list_omap]. unfold isolation_of at 2.
  case_bool_decide as Heq.
  - rewrite Heq. by rewrite lookup_insert_eq, last_snoc.
  - rewrite lookup_insert_ne, app_nil_r by done. apply Hi.
Qed.

(** The values collected for a type and an attribute. *)
Definition collects (p : StaticEnvironmentPolicy) (k : TypeId * AttributeId) (values : list AttributeValue) : Prop :=
  (pol_subscriber_requirements p !! k = None <-> values = []) /\
  forall l v, pol_subscriber_requirements p !! k = Some l -> v ∈ l <-> v ∈ values.

Lemma collects_push p k ty attribute v p' values :
  collects p k values -> allow_subscriber_value ty attribute v p = (Ok tt, p') ->
  collects p' k (values ++ if bool_decide ((ty, attribute) = k) then [v] else []).
Proof.
  intros [Hnone Hsome] (_ & _ & Hr)%allow_subscriber_value_Ok. unfold collects. rewrite Hr.
  case_bool_decide as Heq; [subst k|by rewrite app_nil_r, lookup_insert_ne].
  rewrite lookup_insert_eq. split; [split; [done|intros Hnil; by destruct values]|].
  intros l w [= <-]. rewrite elem_of_push_distinct, elem_of_app, list_elem_of_singleton.
  destruct (pol_subscriber_requirements p !! _) as [l|] eqn:Hl; cbn [default from_option id].
  - by rewrite (Hsome l w).
  - rewrite (proj1 Hnone) by done. done.
Qed.

Lemma requirement_stage r ty attribute p p' values :
  collects p (ty, attribute) values -> configure_requirement r p = (Ok tt, p') ->
  collects p' (ty, attribute) (values ++ requirement_of ty attribute r) /\
  pol_approvals p' = pol_approvals p /\ pol_isolation p' = pol_isolation p.
Proof.
  intros Hk. unfold configure_requirement, requirement_of.
  rewrite (bool_decide_ext (_ /\ _) ((mkTypeId (sr_type_id r), mkAttributeId (sr_attribute r)) = (ty, attribute)))
    by (symmetry; apply pair_equal_spec).
  set (b := bool_decide _).
  assert ((if b then omap (fun v => result_ok (value v)) (sr_values r) else [])
    = omap (fun v => if b then result_ok (value v) else None) (sr_values r)) as ->.
  { destruct b; [done|]. by induction (sr_values r). }
  apply (for_each_Ok _ (fun l q =>
    collects q (ty, attribute) (values ++ omap (fun v => if b then result_ok (value v) else None) l) /\
    pol_approvals q = pol_approvals p /\ pol_isolation q = pol_isolation p)).
  { cbn. by rewrite app_nil_r. }
  intros done a q q' (Hq & Ha & Hi). rewrite M_bind_run. unfold lift.
  destruct (value a) as [v|e|] eqn:Hv; [|done..]. intros Hrun%on_policy_Ok.
  pose proof (allow_subscriber_value_Ok _ _ _ _ _ Hrun) as (-> & -> & _). split; [|done].
  apply (collects_push _ _ _ _ _ _ _ Hq) in Hrun. fold b in Hrun.
  rewrite omap_app, app_assoc. cbn [omap list_omap]. rewrite Hv. cbn [result_ok]. by destruct b.
Qed.

(** Every step keeps the policy well formed. *)
Lemma on_policy_inv m p p' : policy_inv p -> (forall q, policy_inv q -> policy_inv (m q).2) ->
  on_policy m p = (Ok tt, p') -> policy_inv p'.
Proof. intros Hp Hm Hrun%on_policy_Ok. specialize (Hm p Hp). by rewrite Hrun in Hm. Qed.

Lemma configure_rule_Ok r p p' : configure_rule r p = (Ok tt, p') ->
  (policy_inv p -> policy_inv p') /\ same_decisions p p'.
Proof.
  unfold configure_rule. rewrite M_bind_run.
  assert (exists au, match cr_authority r with
    | ConfiguredAuthority.SelfDeclared => on_policy (register_self_declared (mkAttributeId (cr_id r)) (rule_kind r))
    | ConfiguredAuthority.CaIssued => on_policy (register_ca_issued (mkAttributeId (cr_id r)) (rule_kind r))
    end = on_policy (register_rule (mkAttributeId (cr_id r)) (rule_kind r) au)) as [au ->].
  { destruct (cr_authority r); by eexists. }
  destruct (on_policy _ p) as [[[]|e|] p1] eqn:Hreg; [|done..].
  assert ((policy_inv p -> policy_inv p1) /\ same_decisions p p1) as Hfirst.
  { split; [|by apply on_policy_Ok, register_rule_Ok in Hreg]. intros Hp.
    apply (on_policy_inv _ p p1 Hp) in Hreg; [done|]. intros q. apply register_rule_inv. }
  apply (for_each_Ok _ (fun _ q => (policy_inv p -> policy_inv q) /\ same_decisions p q)); [done|].
  intros done a q q' [Hq (Ha & Hi & Hr)]. rewrite M_bind_run. unfold lift.
  destruct (value a) as [v|e|]; [|done..]. intros Hrun. split.
  - intros Hp. apply (on_policy_inv _ q q' (Hq Hp)) in Hrun; [done|]. intros x. apply allow_value_inv.
  - apply on_policy_Ok, allow_value_Ok in Hrun as (Ha' & Hi' & Hr').
    unfold same_decisions. by rewrite Ha', Hi', Hr'.
Qed.

Lemma stage_inv {A} (l : list A) (body : A -> M StaticEnvironmentPolicy ConfigError unit) p p' :
  (forall a q q', policy_inv q -> body a q = (Ok tt, q') -> policy_inv q') ->
  policy_inv p -> for_each l body p = (Ok tt, p') -> policy_inv p'.
Proof. intros Hbody Hp. apply (for_each_Ok body (fun _ q => policy_inv q)); [done|]. eauto. Qed.

Lemma configure_approval_inv a p p' :
  policy_inv p -> configure_approval a p = (Ok tt, p') -> policy_inv p'.
Proof.
  intros Hp. unfold configure_approval. rewrite M_bind_run. unfold lift.
  destruct (decode_hex 16 (ap_agent a)) as [id|e|]; [|done..].
  rewrite M_bind_run. destruct (value (ap_value a)) as [v|e|]; [|done..].
  apply on_policy_inv; [done|]. intros q. apply approve_inv.
Qed.

Lemma configure_requirement_inv r p p' :
  policy_inv p -> configure_requirement r p = (Ok tt, p') -> policy_inv p'.
Proof.
  unfold configure_requirement. apply stage_inv. intros a q q' Hq. rewrite M_bind_run. unfold lift.
  destruct (value a) as [v|e|]; [|done..]. apply on_policy_inv; [done|]. intros x. apply allow_subscriber_value_inv.
Qed.

(** What the policy that is built decides by is what the configuration says. *)
Lemma build_policy_Ok config p : build_policy config = Ok p ->
  policy_inv p /\
  (forall agent attribute, pol_approvals p !! (agent, attribute) = approved config agent attribute) /\
  (forall ty, pol_isolation p !! ty = isolated config ty) /\
  (forall ty attribute, collects p (ty, attribute) (required config ty attribute)).
Proof.
  unfold build_policy. rewrite M_bind_run.
  destruct (for_each (pc_attributes config) _ _) as [[[]|e|] p1] eqn:H1; [|done..].
  assert (policy_inv p1 /\ same_decisions StaticEnvironmentPolicy_new p1) as (Hinv1 & Ha1 & Hi1 & Hr1).
  { apply (for_each_Ok _ (fun _ q => policy_inv q /\ same_decisions StaticEnvironmentPolicy_new q)) in H1; [done| |].
    - split; [apply policy_inv_new|done].
    - intros done a q q' [Hq (Ha & Hi & Hr)] [Hinv (Ha' & Hi' & Hr')]%configure_rule_Ok.
      split; [auto|]. unfold same_decisions. by rewrite Ha', Hi', Hr'. }
  rewrite M_bind_run. destruct (for_each (pc_approvals config) _ _) as [[[]|e|] p2] eqn:H2; [|done..].
  pose proof (stage_inv _ _ _ _ configure_approval_inv Hinv1 H2) as Hinv2.
  apply approvals_stage in H2 as (Hi2 & Hr2 & Ha2); [|done].
  rewrite M_bind_run. destruct (for_each (pc_isolations config) _ _) as [[[]|e|] p3] eqn:H3; [|done..].
  assert (policy_inv p3) as Hinv3.
  { eapply stage_inv; [|exact Hinv2|exact H3]. intros i q q' Hq. apply on_policy_inv; [done|].
    intros x. apply isolate_inv. }
  apply isolations_stage in H3 as (Ha3 & Hr3 & Hi3); [|by rewrite Hi2].
  destruct (for_each (pc_subscriber_requirements config) _ p3) as [[[]|e|] p4] eqn:H4; [|done..].
  intros [= <-]. pose proof (stage_inv _ _ _ _ configure_requirement_inv Hinv3 H4) as Hinv4.
  assert (forall ty attribute, collects p4 (ty, attribute) (required config ty attribute) /\
    pol_approvals p4 = pol_approvals p3 /\ pol_isolation p4 = pol_isolation p3) as Hreq.
  { intros ty attribute. unfold required.
    apply (for_each_Ok _ (fun l q => collects q (ty, attribute) (concat (requirement_of ty attribute <$> l)) /\
      pol_approvals q = pol_approvals p3 /\ pol_isolation q = pol_isolation p3)) in H4; [done| |].
    - split; [|done]. unfold collects.
      assert (pol_subscriber_requirements p3 = ∅) as -> by (rewrite Hr3, Hr2, Hr1; done).
      rewrite lookup_empty. done.
    - intros done r q q' (Hq & Ha & Hi) Hrun. rewrite fmap_app, concat_app. cbn [fmap list_fmap concat].
      rewrite app_nil_r. apply (requirement_stage r _ _ _ _ _ Hq) in Hrun as (? & -> & ->). done. }
  split; [done|]. split; [|split].
  - intros agent attribute. destruct (Hreq (mkTypeId 0) attribute) as (_ & -> & _). by rewrite Ha3, Ha2.
  - intros ty. destruct (Hreq ty (mkAttributeId 0)) as (_ & _ & ->). apply Hi3.
  - intros ty attribute. by destruct (Hreq ty attribute).
Qed.
End effects.

(** ** The properties *)

(** C26: The policy cad builds enforces its configuration file. If a policy is built, the
    rules by which it authorises deliveries are those of the file: for a type with an
    isolation entry, every attribute of the (last) entry has one value approved by the
    (last) approval entries of publisher and subscriber alike; and for every attribute
    with subscriber requirements for the type, the value approved for the subscriber
    is among the values the entries list. What the agents declare does not matter. *)
Theorem configured_policy_enforced `{Hex} config p publisher_id subscriber_id pin sin publisher subscriber ty :
  build_policy config = Ok p ->
  parse_operation pin = Ok (OperationRef.SetEnvironment publisher) ->
  parse_operation sin = Ok (OperationRef.SetEnvironment subscriber) ->
  authorize_delivery p publisher_id publisher subscriber_id subscriber ty = true ->
  (forall attributes attribute, isolated config ty = Some attributes -> attribute ∈ attributes ->
     exists v, approved config publisher_id attribute = Some v /\
               approved config subscriber_id attribute = Some v) /\
  (forall attribute, required config ty attribute <> [] ->
     exists v, v ∈ required config ty attribute /\ approved config subscriber_id attribute = Some v).
Proof.
  intros (Hinv & Ha & Hi & Hr)%build_policy_Ok Hpin Hsin Hauth.
  apply (authorized_by_inv p _ _ pin sin) in Hauth as [Hiso Hreq]; [|done..]. split.
  - intros attributes attribute Hl Hin. rewrite <-!Ha. by apply (Hiso attributes); [rewrite Hi|].
  - intros attribute Hne. destruct (Hr ty attribute) as [Hnone Hsome].
    destruct (pol_subscriber_requirements p !! (ty, attribute)) as [values|] eqn:Hl;
      [|by destruct Hne; apply Hnone].
    destruct (Hreq attribute values Hl) as (v & Hv & Happ). exists v. rewrite <-Ha.
    split; [by apply (Hsome values v)|done].
Qed.

Module ConfigExample.
(** Hexadecimal digits in lower case. *)
Definition digit (b : byte) : option N :=
  let n := byte_val b in
  if (48 <=? n)%N && (n <=? 57)%N then Some (n - 48)%N
  else if (97 <=? n)%N && (n <=? 102)%N then Some (n - 87)%N else None.
Fixpoint digits (l : Text) : option (list byte) :=
  match l with
  | [] => Some []
  | a :: b :: l' => x ← digit a; y ← digit b; rest ← digits l'; Some (byte_of (16 * x + y) :: rest)
  | _ => None
  end.
#[global] Instance hex : Hex := { hex_decode := digits }.

(** The configuration of the agents of [PolicyExample]. *)
Definition agent_text (last : byte) : Text := concat (replicate 16 [x30; last]).
Definition config : PolicyConfig := mkPolicyConfig
  [mkConfiguredRule 1 Kind.I64 ConfiguredAuthority.CaIssued [ConfiguredValue.I64 2; ConfiguredValue.I64 3];
   mkConfiguredRule 2 Kind.Bytes ConfiguredAuthority.CaIssued []]
  [mkApproval (agent_text x31) 2 (ConfiguredValue.Bytes [x61]);
   mkApproval (agent_text x32) 2 (ConfiguredValue.Hex [x36; x31]);
   mkApproval (agent_text x32) 1 (ConfiguredValue.I64 3)]
  [mkIsolation 7 [2%N]]
  [mkRequirement 7 1 [ConfiguredValue.I64 3]].
Definition policy : StaticEnvironmentPolicy :=
  match build_policy config with Ok p => p | _ => StaticEnvironmentPolicy_new end.
End ConfigExample.

Lemma configured_policy_enforced_witness :
  authorize_delivery ConfigExample.policy PolicyExample.alice (Operation.environment_view PolicyExample.alice_env)
    PolicyExample.bob (Operation.environment_view PolicyExample.bob_env) PolicyExample.temperature = true /\
  exists v, approved ConfigExample.config PolicyExample.alice PolicyExample.tenant = Some v /\
            approved ConfigExample.config PolicyExample.bob PolicyExample.tenant = Some v.
Proof.
  assert (authorize_delivery ConfigExample.policy PolicyExample.alice
    (Operation.environment_view PolicyExample.alice_env) PolicyExample.bob
    (Operation.environment_view PolicyExample.bob_env) PolicyExample.temperature = true)
    as H by (vm_compute; reflexivity).
  split; [exact H|].
  destruct (configured_policy_enforced ConfigExample.config ConfigExample.policy
    PolicyExample.alice PolicyExample.bob
    (Operation.wire (Operation.SetEnvironment PolicyExample.alice_env))
    (Operation.wire (Operation.SetEnvironment PolicyExample.bob_env))
    (Operation.environment_view PolicyExample.alice_env)
    (Operation.environment_view PolicyExample.bob_env) PolicyExample.temperature) as [Hiso _];
    [vm_compute; reflexivity..|exact H|].
  apply (Hiso [PolicyExample.tenant] PolicyExample.tenant); [vm_compute; reflexivity|].
  apply list_elem_of_here.
Defined.

(** Of two isolation entries for one type the first has no effect: the policy is built,
    and what only the first isolates is delivered across. *)
Example shadowed_isolation :
  let config := mkPolicyConfig (pc_attributes ConfigExample.config) (pc_approvals ConfigExample.config)
                  [mkIsolation 7 [2%N]; mkIsolation 7 [1%N]] [] in
  (p ← build_policy config; Ok (pol_isolation p !! PolicyExample.temperature))
  = Ok (Some [PolicyExample.role]).
Proof. vm_compute. reflexivity. Qed.

(** Surrounding whitespace of a key file is ignored, of any encoding. *)
Example trimmed_key :
  decode_hex 2 (trim [xc2; xa0; x30; x31; x66; x66; x0d; x0a; xe2; x80; x83]) = Ok [# x01; xff].
Proof. vm_compute. reflexivity. Qed.
