(* ===== verification/Reconnect.v ===== *)
(** Connections that are made again: [connect_agent] and the senders built on it in
    app-common/src/lib.rs, [FramedTransport::connect] of transport/src/lib.rs, and the
    delays of [maintain_ca_link] in apps/brokerd/src/main.rs. *)

From S2P Require Export Transport CaConfig.

(** ** Durations *)

(** A [Duration] in nanoseconds; the greatest is [Duration::MAX]. *)
Definition nanos_per_second : N := 1000000000.
Definition duration_max : N := u64_max * nanos_per_second + 999999999.
Definition duration_from_secs (seconds : N) : N := seconds * nanos_per_second.
Definition duration_saturating_mul (d k : N) : N := N.min (d * k) duration_max.

(** [backoff.saturating_mul(2).min(maximum)] *)
Definition next_backoff (backoff maximum : N) : N := N.min (duration_saturating_mul backoff 2) maximum.

(** ** The configuration of an agent *)

Record AgentConfig := mkAgentConfig {
  ac_agent_id : Text;
  ac_connect_timeout_seconds : N;
  ac_reconnect_min_seconds : N;
  ac_reconnect_max_seconds : N;
  ac_ed25519_secret_file : Text;
  ac_x25519_secret_file : Text;
  ac_ca_ed25519_public_file : Text;
  ac_ca_x25519_public_file : Text;
}.

Definition default_connect_timeout_seconds : N := 10.
Definition default_reconnect_min_seconds : N := 1.
Definition default_reconnect_max_seconds : N := 30.

(** [load_agent] *)
Definition load_agent `{Hex} (files : Text -> option Text) (config : AgentConfig) : result ConfigError Agent :=
  id ← decode_hex 16 (ac_agent_id config);
  ed25519 ← read_hex_file 32 files (ac_ed25519_secret_file config);
  x25519 ← read_hex_file 32 files (ac_x25519_secret_file config);
  let keys := AgentKeys_from_seeds ed25519 x25519 in
  ca_ed25519 ← read_hex_file 32 files (ac_ca_ed25519_public_file config);
  ca_x25519 ← read_hex_file 32 files (ac_ca_x25519_public_file config);
  Ok (mkAgent (mkAgentId id) keys (mkCaPublicKeys ca_ed25519 ca_x25519)).

(** The three durations of [connect_agent]. *)
Definition config_deadline (config : AgentConfig) : N :=
  duration_from_secs (N.max (ac_connect_timeout_seconds config) 1).
Definition config_minimum (config : AgentConfig) : N :=
  duration_from_secs (N.max (ac_reconnect_min_seconds config) 1).
Definition config_maximum (config : AgentConfig) : N :=
  duration_from_secs (N.max (N.max (ac_reconnect_max_seconds config) (ac_reconnect_min_seconds config)) 1).

(** ** Connecting *)

(** What the system answers to one attempt: the stream, an error of [connect], or
    nothing before the deadline; and the outcome of [set_nodelay]. *)
Record Attempt (St E : Type) := mkAttempt { at_connected : option (St + E); at_nodelay : option E }.
Arguments mkAttempt {St E} _ _.
Arguments at_connected {St E} _.
Arguments at_nodelay {St E} _.

(** The attempts still to come, the delays slept, and the connections dropped. *)
Record Dialer (St E : Type) := mkDialer {
  dl_attempts : list (Attempt St E);
  dl_slept : list N;
  dl_dropped : list (FramedTransport St);
}.
Arguments mkDialer {St E} _ _ _.
Arguments dl_attempts {St E} _.
Arguments dl_slept {St E} _.
Arguments dl_dropped {St E} _.

Section agent.
Context {St E : Type} `{TokioFramed St E}.

(** [FramedTransport::connect] *)
Definition tokio_connect (attempt : Attempt St E) (deadline : N) :
    result (TransportError E) (FramedTransport St) :=
  match at_connected attempt with
  | None => Err TransportError.Timeout
  | Some (inr e) => Err (TransportError.Io e)
  | Some (inl stream) =>
      match at_nodelay attempt with
      | Some e => Err (TransportError.Io e)
      | None => Ok (mkFramedTransport stream deadline)
      end
  end.

(** The loop of [connect_agent]; without a result it is still connecting when the
    attempts given are used up. A connection whose hello failed is dropped. *)
Fixpoint connect_loop (attempts : list (Attempt St E)) (identity : AgentId) (deadline maximum backoff : N)
    (slept : list N) (dropped : list (FramedTransport St)) : option (FramedTransport St) * Dialer St E :=
  match attempts with
  | [] => (None, mkDialer [] slept dropped)
  | attempt :: attempts' =>
      match tokio_connect attempt deadline with
      | Ok transport =>
          match tokio_send_hello identity transport with
          | (Ok _, transport') => (Some transport', mkDialer attempts' slept dropped)
          | (_, transport') =>
              connect_loop attempts' identity deadline maximum (next_backoff backoff maximum)
                (slept ++ [backoff]) (dropped ++ [transport'])
          end
      | _ => connect_loop attempts' identity deadline maximum (next_backoff backoff maximum)
               (slept ++ [backoff]) dropped
      end
  end.

Definition connect_agent (config : AgentConfig) (identity : AgentId) (d : Dialer St E) :
    option (FramedTransport St) * Dialer St E :=
  connect_loop (dl_attempts d) identity (config_deadline config) (config_maximum config)
    (config_minimum config) (dl_slept d) (dl_dropped d).

(** ** Sending *)

(** A dropped connection. *)
Definition dropping (t : FramedTransport St) (d : Dialer St E) : Dialer St E :=
  mkDialer (dl_attempts d) (dl_slept d) (dl_dropped d ++ [t]).

(** The loop of [send_agent_frame]: the transport after the send, or none while it is
    still reconnecting. Every round but the last uses up an attempt. *)
Fixpoint send_loop (fuel : nat) (config : AgentConfig) (identity : AgentId) (frame : list byte)
    (t : FramedTransport St) (d : Dialer St E) : option (FramedTransport St) * Dialer St E :=
  match tokio_send frame t with
  | (Ok _, t') => (Some t', d)
  | (_, t') =>
      match connect_agent config identity d with
      | (Some t2, d') =>
          match fuel with
          | 0 => (None, d')
          | S fuel' => send_loop fuel' config identity frame t2 (dropping t' d')
          end
      | (None, d') => (None, d')
      end
  end.

Definition send_agent_frame (config : AgentConfig) (identity : AgentId) (frame : list byte)
    (t : FramedTransport St) (d : Dialer St E) : option (FramedTransport St) * Dialer St E :=
  send_loop (length (dl_attempts d)) config identity frame t d.

(** [send_on_demand]: whether it returned. *)
Definition send_on_demand (config : AgentConfig) (identity : AgentId) (frame : list byte) (d : Dialer St E) :
    bool * Dialer St E :=
  match connect_agent config identity d with
  | (Some t, d') =>
      match send_agent_frame config identity frame t d' with
      | (Some t', d'') => (true, dropping t' d'')
      | (None, d'') => (false, d'')
      end
  | (None, d') => (false, d')
  end.

(** The loop of [send_on_demand_frames]. *)
Fixpoint send_frames (config : AgentConfig) (identity : AgentId) (frames : list (list byte))
    (t : FramedTransport St) (d : Dialer St E) : option (FramedTransport St) * Dialer St E :=
  match frames with
  | [] => (Some t, d)
  | frame :: frames' =>
      match send_agent_frame config identity frame t d with
      | (Some t', d') => send_frames config identity frames' t' d'
      | r => r
      end
  end.

Definition send_on_demand_frames (config : AgentConfig) (identity : AgentId) (frames : list (list byte))
    (d : Dialer St E) : bool * Dialer St E :=
  match connect_agent config identity d with
  | (Some t, d') =>
      match send_frames config identity frames t d' with
      | (Some t', d'') => (true, dropping t' d'')
      | (None, d'') => (false, d'')
      end
  | (None, d') => (false, d')
  end.
End agent.

(** ** The link of the broker *)

(** How an iteration of [maintain_ca_link] ends. *)
Inductive LinkAttempt := ConnectFailed | NodelayFailed | AuthenticationFailed | SessionEnded.

(** The delay slept at the end of an iteration, and the next. *)
Definition maintain_step (minimum maximum backoff : N) (attempt : LinkAttempt) : N * N :=
  match attempt with
  | NodelayFailed => (backoff, backoff)
  | ConnectFailed | AuthenticationFailed => (backoff, next_backoff backoff maximum)
  | SessionEnded => (minimum, next_backoff minimum maximum)
  end.

Fixpoint maintain_loop (minimum maximum backoff : N) (attempts : list LinkAttempt) : list N :=
  match attempts with
  | [] => []
  | attempt :: attempts' =>
      let '(slept, backoff') := maintain_step minimum maximum backoff attempt in
      slept :: maintain_loop minimum maximum backoff' attempts'
  end.

(** [maintain_ca_link], with the durations [main] gives it. *)
Definition maintain_ca_link (ca_reconnect_min_seconds ca_reconnect_max_seconds : N)
    (attempts : list LinkAttempt) : list N :=
  let minimum := duration_from_secs (N.max ca_reconnect_min_seconds 1) in
  let maximum := duration_from_secs
    (N.max (N.max ca_reconnect_max_seconds ca_reconnect_min_seconds) 1) in
  maintain_loop minimum maximum minimum attempts.

(** ** The delays *)

(** The delay after [k] doublings. *)
Definition delay (minimum maximum : N) (k : nat) : N := N.min (minimum * 2 ^ N.of_nat k) maximum.

Lemma delay_0 minimum maximum : (minimum <= maximum)%N -> delay minimum maximum 0 = minimum.
Proof. intros Hle. unfold delay. cbn [N.of_nat N.pow]. lia. Qed.

Lemma next_backoff_delay minimum maximum k : (maximum <= duration_max)%N ->
  next_backoff (delay minimum maximum k) maximum = delay minimum maximum (S k).
Proof.
  intros Hmax. unfold next_backoff, duration_saturating_mul, delay.
  rewrite Nat2N.inj_succ, N.pow_succ_r'. generalize (2 ^ N.of_nat k)%N. intros p. nia.
Qed.

Lemma delay_bounds minimum maximum k : (minimum <= maximum)%N ->
  (minimum <= delay minimum maximum k <= maximum)%N.
Proof.
  intros Hle. unfold delay. assert (1 <= 2 ^ N.of_nat k)%N by (apply N.lt_pred_le, N.neq_0_lt_0, N.pow_nonzero; lia).
  nia.
Qed.

Lemma duration_from_secs_max seconds : (seconds <= u64_max)%N -> (duration_from_secs seconds <= duration_max)%N.
Proof. unfold duration_from_secs, duration_max, nanos_per_second. lia. Qed.

Lemma duration_from_secs_mono a b : (a <= b)%N -> (duration_from_secs a <= duration_from_secs b)%N.
Proof. unfold duration_from_secs. nia. Qed.

Lemma config_durations config :
  (ac_reconnect_min_seconds config <= u64_max)%N -> (ac_reconnect_max_seconds config <= u64_max)%N ->
  (duration_from_secs 1 <= config_minimum config <= config_maximum config)%N /\
  (config_maximum config <= duration_max)%N.
Proof.
  intros Hmin Hmax. assert (1 <= u64_max)%N by done. split.
  - split; apply duration_from_secs_mono; lia.
  - apply duration_from_secs_max. lia.
Qed.

(** ** Connecting and sending *)

Section facts.
Context {St E : Type} `{HL : TokioFramedLaws St E} (config : AgentConfig) (identity : AgentId).

(** A stream the system has just opened. *)
Definition fresh (attempt : Attempt St E) : Prop :=
  match at_connected attempt with
  | Some (inl s) => framed_inv s /\ framed_output s = []
  | _ => True
  end.

Definition hello : list byte := vec_to_list (agent_bytes identity).

(** A connection carries the frames [group], whole and in this order, after its hello;
    one on which nothing was sent may lack the hello, too. *)
Definition carries (group : list (list byte)) (t : FramedTransport St) : Prop :=
  group = [] \/ concat (frame_wire <$> hello :: group) `prefix_of` framed_output (ft_framed t).

(** The connection in use, after [group]. *)
Definition opened (group : list (list byte)) (t : FramedTransport St) : Prop :=
  framed_inv (ft_framed t) /\ framed_output (ft_framed t) = concat (frame_wire <$> hello :: group).

Lemma opened_carries group t : opened group t -> carries group t.
Proof. intros [_ Ho]. right. by rewrite Ho. Qed.

(** What a loop does to the dialer: delays and dropped connections are added, attempts
    are used up. *)
Record advances (d d' : Dialer St E) (groups : list (list (list byte))) : Prop := mkAdvances {
  adv_attempts : exists used, dl_attempts d = used ++ dl_attempts d';
  adv_dropped : exists dropped, dl_dropped d' = dl_dropped d ++ dropped /\ Forall2 carries groups dropped;
}.

Lemma advances_refl d : advances d d [].
Proof. split; [by exists []|exists []; by rewrite app_nil_r]. Qed.

Lemma advances_trans d d' d'' g g' : advances d d' g -> advances d' d'' g' -> advances d d'' (g ++ g').
Proof.
  intros [[u Hu] (x & Hx & Hg)] [[u' Hu'] (x' & Hx' & Hg')]. split.
  - exists (u ++ u'). by rewrite Hu, Hu', <-app_assoc.
  - exists (x ++ x'). rewrite Hx', Hx, <-app_assoc. split; [done|]. by apply Forall2_app.
Qed.

Lemma advances_fresh d d' g : advances d d' g -> Forall fresh (dl_attempts d) -> Forall fresh (dl_attempts d').
Proof. intros [[u ->] _]. rewrite Forall_app. tauto. Qed.

Lemma dropping_advances t d g : carries g t -> advances d (dropping t d) [g].
Proof.
  intros Hg. split; [by exists []|]. exists [t]. split; [done|]. by apply Forall2_cons.
Qed.

(** The result of connecting or sending: a connection in use after [group], whose
    attempts are fewer, or none left to try. *)
Definition connects (d d' : Dialer St E) (r : option (FramedTransport St)) : Prop :=
  match r with
  | Some t => opened [] t /\ length (dl_attempts d') < length (dl_attempts d)
  | None => dl_attempts d' = []
  end.

Lemma connect_loop_spec attempts deadline maximum : forall backoff slept dropped r d',
  Forall fresh attempts ->
  connect_loop attempts identity deadline maximum backoff slept dropped = (r, d') ->
  connects (mkDialer attempts slept dropped) d' r /\
  exists groups, advances (mkDialer attempts slept dropped) d' groups /\ concat groups = [].
Proof.
  induction attempts as [|a attempts IH]; intros backoff slept dropped r d' Hfresh; cbn [connect_loop].
  { intros [= <- <-]. split; [done|]. exists []. split; [apply advances_refl|done]. }
  apply Forall_cons in Hfresh as [Ha Hfresh].
  assert (forall dr g x, advances (mkDialer (a :: attempts) slept dropped)
            (mkDialer attempts (slept ++ [backoff]) dr) [g] \/
            dr = dropped ->
          g = [] ->
          connect_loop attempts identity deadline maximum x (slept ++ [backoff]) dr = (r, d') ->
          connects (mkDialer (a :: attempts) slept dropped) d' r /\
          exists groups, advances (mkDialer (a :: attempts) slept dropped) d' groups /\ concat groups = [])
    as Hretry.
  { intros dr g x Hadv -> Hrun. apply IH in Hrun as (Hc & groups & Hg & Hnil); [|done]. split.
    - destruct r; cbn in *; [|done]. destruct Hc. split; [done|lia].
    - destruct Hadv as [Hadv| ->].
      + exists ([[]] ++ groups). split; [by eapply advances_trans|done].
      + exists groups. split; [|done]. destruct Hg as [[u Hu] Hd]. split; [|done]. cbn in *.
        exists (a :: u). by rewrite Hu. }
  unfold tokio_connect. unfold fresh in Ha.
  destruct (at_connected a) as [[s|e]|]; [|by apply (Hretry _ []); auto..].
  destruct (at_nodelay a); [by apply (Hretry _ []); auto|]. destruct Ha as [Hs Ho].
  destruct (tokio_send_hello identity _) as [r1 t1] eqn:Hhello. destruct r1 as [[]|e|].
  - intros [= <- <-]. apply tokio_send_spec in Hhello as (Hs1 & _ & _ & Ho1); [|done].
    cbn [ft_framed] in Ho1. split; [split; [|cbn; lia]|].
    + split; [done|]. rewrite Ho1, Ho. cbn. by rewrite app_nil_r.
    + exists []. split; [|done]. split; [by exists [a]|exists []; by rewrite app_nil_r].
  - apply (Hretry _ []); [left|done]. split; [by exists [a]|]. exists [t1]. split; [done|].
    apply Forall2_cons. split; [by left|done].
  - apply (Hretry _ []); [left|done]. split; [by exists [a]|]. exists [t1]. split; [done|].
    apply Forall2_cons. split; [by left|done].
Qed.

Lemma connect_agent_spec d r d' : Forall fresh (dl_attempts d) -> connect_agent config identity d = (r, d') ->
  connects d d' r /\ exists groups, advances d d' groups /\ concat groups = [].
Proof. destruct d. apply connect_loop_spec. Qed.

Lemma tokio_send_prefix frame (t : FramedTransport St) r t' : framed_inv (ft_framed t) ->
  tokio_send frame t = (r, t') -> framed_output (ft_framed t) `prefix_of` framed_output (ft_framed t').
Proof.
  intros Ht. unfold tokio_send. destruct (_ <? _); [by intros [= _ <-]|].
  destruct (framed_send _ _ _) as [r0 s] eqn:Hrun. apply framed_send_law in Hrun as (_ & _ & _ & Hp & _); [|done].
  by intros [= _ <-].
Qed.

Lemma failed_send_carries group frame t r t' : opened group t -> tokio_send frame t = (r, t') -> carries group t'.
Proof. intros [Ht Ho] Hrun. right. rewrite <-Ho. by eapply tokio_send_prefix. Qed.

Lemma opened_send group frame t t' : opened group t -> tokio_send frame t = (Ok tt, t') ->
  opened (group ++ [frame]) t'.
Proof.
  intros [Ht Ho] Hrun. apply tokio_send_spec in Hrun as (Ht' & _ & _ & Ho'); [|done]. split; [done|].
  rewrite Ho', Ho. cbn [fmap list_fmap concat]. by rewrite fmap_app, concat_app, <-app_assoc; cbn; rewrite app_nil_r.
Qed.

(** What a sender leaves: a connection after [group'], the groups of the connections it
    dropped, and with them the frames sent so far; or no attempt is left. *)
Definition sends (group frames : list (list byte)) (d d' : Dialer St E) (r : option (FramedTransport St)) : Prop :=
  exists groups, advances d d' groups /\
  match r with
  | Some t' => exists group', opened group' t' /\ concat groups ++ group' = group ++ frames
  | None => dl_attempts d' = [] /\ concat groups `prefix_of` group ++ frames
  end.

Lemma send_loop_spec frame fuel : forall t d group r d',
  length (dl_attempts d) <= fuel -> opened group t -> Forall fresh (dl_attempts d) ->
  send_loop fuel config identity frame t d = (r, d') -> sends group [frame] d d' r.
Proof.
  induction fuel as [|fuel IH]; intros t d group r d' Hfuel Ht Hfresh; cbn [send_loop];
    destruct (tokio_send frame t) as [r1 t1] eqn:Hsend; ((assert (r1 = Ok tt \/ r1 <> Ok tt) as [->|Hfail] by (destruct r1 as [[]|e|]; auto));
      [intros [= <- <-]; exists []; split; [apply advances_refl|exists (group ++ [frame])];
       split; [by eapply opened_send|done]|]);
    pose proof (failed_send_carries _ _ _ _ _ Ht Hsend) as Hc;
    destruct (connect_agent config identity d) as [rc d1] eqn:Hconn;
    destruct (connect_agent_spec _ _ _ Hfresh Hconn) as (Hcon & groups & Hadv & Hnil);
    (assert (rc = None -> sends group [frame] d d1 None) as Hnone
      by (intros ->; exists groups; split; [done|]; split; [exact Hcon|]; rewrite Hnil; apply prefix_nil));
    intros Hrun.
  - destruct rc as [t2|]; [destruct Hcon; lia|]. destruct r1 as [[]|e|]; [done| |]; injection Hrun as <- <-; auto.
  - destruct rc as [t2|]; [|destruct r1 as [[]|e|]; [done| |]; injection Hrun as <- <-; auto].
    assert (send_loop fuel config identity frame t2 (dropping t1 d1) = (r, d')) as Hrun'
      by (by destruct r1 as [[]|e|]).
    destruct Hcon as [Ht2 Hless]. pose proof (dropping_advances _ d1 _ Hc) as Hdrop.
    pose proof (advances_trans _ _ _ _ _ Hadv Hdrop) as Hadv1.
    apply (IH _ _ []) in Hrun' as (groups' & Hadv' & Hr); [|cbn; lia|done|by eapply advances_fresh].
    exists ((groups ++ [group]) ++ groups'). split; [by eapply advances_trans|].
    rewrite !concat_app, Hnil. cbn [concat]. rewrite app_nil_r. cbn [app] in *. destruct r as [t'|].
    + destruct Hr as (group' & Ho & Heq). exists group'. split; [done|]. by rewrite <-app_assoc, Heq.
    + destruct Hr as [Hnone' Hp]. split; [done|]. by apply prefix_app.
Qed.

Lemma send_frames_spec frames : forall t d group r d', opened group t -> Forall fresh (dl_attempts d) ->
  send_frames config identity frames t d = (r, d') -> sends group frames d d' r.
Proof.
  induction frames as [|frame frames IH]; intros t d group r d' Ht Hfresh; cbn [send_frames].
  { intros [= <- <-]. exists []. split; [apply advances_refl|]. exists group. by rewrite app_nil_r. }
  unfold send_agent_frame. destruct (send_loop _ _ _ _ _ _) as [r1 d1] eqn:Hsend.
  apply (send_loop_spec _ _ _ _ group) in Hsend as (groups & Hadv & Hr); [|done..].
  destruct r1 as [t1|].
  - destruct Hr as (g1 & Ht1 & Heq). intros (groups' & Hadv' & Hr')%(IH _ _ g1); [|done|by eapply advances_fresh].
    exists (groups ++ groups'). split; [by eapply advances_trans|]. rewrite concat_app.
    assert (group ++ frame :: frames = (concat groups ++ g1) ++ frames) as -> by (by rewrite Heq, <-app_assoc).
    rewrite <-app_assoc. destruct r as [t'|].
    + destruct Hr' as (g' & Ho & Heq'). exists g'. split; [done|]. by rewrite <-app_assoc, Heq'.
    + destruct Hr' as [? Hp]. split; [done|]. by apply prefix_app.
  - intros [= <- <-]. exists groups. split; [done|]. destruct Hr as [? Hp]. split; [done|].
    rewrite (cons_middle frame group frames), app_assoc. by apply prefix_app_r.
Qed.

Lemma on_demand_spec frames d d' finished :
  Forall fresh (dl_attempts d) -> send_on_demand_frames config identity frames d = (finished, d') ->
  exists groups, advances d d' groups /\
    if finished then concat groups = frames
    else dl_attempts d' = [] /\ concat groups `prefix_of` frames.
Proof.
  intros Hfresh Hrun. unfold send_on_demand_frames in Hrun.
  destruct (connect_agent config identity d) as [rc d1] eqn:Hconn.
  destruct (connect_agent_spec _ _ _ Hfresh Hconn) as (Hcon & groups & Hadv & Hnil).
  destruct rc as [t|].
  2:{ injection Hrun as <- <-. exists groups. do 2 (split; [done|]). rewrite Hnil. apply prefix_nil. }
  destruct Hcon as [Ht _]. destruct (send_frames config identity frames t d1) as [r d2] eqn:Hsend.
  apply (send_frames_spec frames t d1 []) in Hsend as (groups' & Hadv' & Hr); [|done|by eapply advances_fresh].
  pose proof (advances_trans _ _ _ _ _ Hadv Hadv') as Hadv2. destruct r as [t'|].
  - injection Hrun as <- <-. destruct Hr as (g' & Ho & Heq).
    eexists. split; [exact (advances_trans _ _ _ _ _ Hadv2 (dropping_advances t' d2 g' (opened_carries _ _ Ho)))|].
    rewrite !concat_app, Hnil. cbn [concat app]. by rewrite app_nil_r.
  - injection Hrun as <- <-. exists (groups ++ groups'). split; [done|]. by rewrite concat_app, Hnil.
Qed.
End facts.

(** ** Progress *)

Section progress.
Context {St E : Type} `{TokioFramed St E} (config : AgentConfig) (identity : AgentId).

(** Streams on which every bounded send succeeds. *)
Definition reliable (good : St -> Prop) : Prop :=
  forall s deadline frame, good s -> length frame <= MAX_FRAME_LEN ->
    exists s', framed_send deadline frame s = (Ok tt, s') /\ good s'.

Definition good_attempt (good : St -> Prop) (attempt : Attempt St E) : Prop :=
  match at_connected attempt, at_nodelay attempt with
  | Some (inl s), None => good s
  | _, _ => False
  end.

Context (good : St -> Prop) (Hgood : reliable good).

Lemma reliable_send frame (t : FramedTransport St) : good (ft_framed t) -> length frame <= MAX_FRAME_LEN ->
  exists t', tokio_send frame t = (Ok tt, t') /\ good (ft_framed t').
Proof.
  intros Ht Hlen. destruct (Hgood _ (ft_deadline t) frame Ht Hlen) as (s' & Hrun & Hs').
  unfold tokio_send. rewrite (proj2 (Nat.ltb_ge _ _)), Hrun by done. by eexists.
Qed.

(** A reliable connection is in use, or will be. *)
Definition hopeful (t : FramedTransport St) (d : Dialer St E) : Prop :=
  good (ft_framed t) \/ Exists (good_attempt good) (dl_attempts d).

Lemma connect_loop_progress attempts deadline maximum : forall backoff slept dropped,
  Exists (good_attempt good) attempts ->
  exists t d', connect_loop attempts identity deadline maximum backoff slept dropped = (Some t, d') /\
    length (dl_attempts d') < length attempts /\ hopeful t d'.
Proof.
  induction attempts as [|a attempts IH]; intros backoff slept dropped Hex; [by apply Exists_nil in Hex|].
  assert (forall x y z, Exists (good_attempt good) attempts ->
    exists t d', connect_loop attempts identity deadline maximum x y z = (Some t, d') /\
      length (dl_attempts d') < length (a :: attempts) /\ hopeful t d') as Hretry.
  { intros x y z Hex'. destruct (IH x y z Hex') as (t & d' & Hrun & Hless & Hh).
    exists t, d'. split; [done|]. split; [cbn; lia|done]. }
  cbn [connect_loop]. unfold tokio_connect. apply Exists_cons in Hex. unfold good_attempt in Hex at 1.
  destruct (at_connected a) as [[s|e]|]; [|by apply Hretry; destruct Hex..].
  destruct (at_nodelay a); [by apply Hretry; destruct Hex|].
  destruct (tokio_send_hello identity _) as [r1 t1] eqn:Hhello. destruct Hex as [Hs|Hex].
  - destruct (reliable_send (vec_to_list (agent_bytes identity)) (mkFramedTransport s deadline) Hs)
      as (t' & Hrun & Ht').
    { rewrite length_vec_to_list. apply (bool_decide_unpack _). vm_compute. reflexivity. }
    unfold tokio_send_hello in Hhello. rewrite Hrun in Hhello. injection Hhello as <- <-.
    exists t', (mkDialer attempts slept dropped). split; [done|]. split; [cbn; lia|by left].
  - destruct r1 as [[]|e|]; [|by apply Hretry..].
    exists t1, (mkDialer attempts slept dropped). split; [done|]. split; [cbn; lia|by right].
Qed.

Lemma send_loop_progress frame fuel : length frame <= MAX_FRAME_LEN -> forall t d,
  length (dl_attempts d) <= fuel -> hopeful t d ->
  exists t' d', send_loop fuel config identity frame t d = (Some t', d') /\ hopeful t' d'.
Proof.
  intros Hlen. induction fuel as [|fuel IH]; intros t d Hfuel Hh; cbn [send_loop];
    destruct (tokio_send frame t) as [r1 t1] eqn:Hsend;
    (destruct Hh as [Ht|Hex];
      [destruct (reliable_send frame t Ht Hlen) as (t' & Hrun & Ht'); rewrite Hrun in Hsend;
       injection Hsend as <- <-; exists t', d; by split; [|left]|]).
  - destruct (dl_attempts d); [by apply Exists_nil in Hex|cbn in Hfuel; lia].
  - destruct (connect_loop_progress _ (config_deadline config) (config_maximum config) (config_minimum config)
      (dl_slept d) (dl_dropped d) Hex) as (t2 & d2 & Hconn & Hless & Hh2).
    destruct (IH t2 (dropping t1 d2)) as (t' & d' & Hrun & Hh'); [cbn; lia|done|].
    destruct r1 as [[]|e|]; [exists t1, d; split; [done|by right]| |];
      exists t', d'; unfold connect_agent; by rewrite Hconn.
Qed.

Lemma send_frames_progress frames : Forall (fun f => length f <= MAX_FRAME_LEN) frames ->
  forall t d, hopeful t d ->
  exists t' d', send_frames config identity frames t d = (Some t', d') /\ hopeful t' d'.
Proof.
  induction 1 as [|frame frames Hlen Hall IH]; intros t d Hh; cbn [send_frames].
  { by exists t, d. }
  destruct (send_loop_progress frame (length (dl_attempts d)) Hlen t d) as (t1 & d1 & Hrun & Hh1); [done..|].
  unfold send_agent_frame. rewrite Hrun. by apply IH.
Qed.
End progress.

(** A frame beyond the limit is never sent: every send fails and every connection is
    given up for the next. *)
Lemma oversized_never_sent `{TokioFramed St E} config identity frame (t : FramedTransport St) (d : Dialer St E) :
  MAX_FRAME_LEN < length frame -> (send_agent_frame config identity frame t d).1 = None.
Proof.
  intros Hlen. unfold send_agent_frame. generalize (length (dl_attempts d)) as fuel. intros fuel.
  revert t d. induction fuel as [|fuel IH]; intros t d; cbn [send_loop]; unfold tokio_send;
    rewrite (proj2 (Nat.ltb_lt _ _)) by done; by destruct (connect_agent _ _ _) as [[]].
Qed.

(** ** The properties *)

(** C20: Frames sent on demand arrive, in order. Whatever connections fail, the groups of
    frames that the connections of one call carry, each whole and after the agent's
    hello, are in order the frames of the call when it returns, and a part of them from
    the first one while it does not, which is only while it waits for another attempt.
    It returns as soon as one attempt opens a reliable stream, if the frames are within
    the protocol's limit. *)
Theorem on_demand_frames_delivered `{HL : TokioFramedLaws St E} config identity frames
    (d d' : Dialer St E) finished :
  Forall fresh (dl_attempts d) -> send_on_demand_frames config identity frames d = (finished, d') ->
  (exists groups dropped, dl_dropped d' = dl_dropped d ++ dropped /\
     Forall2 (carries identity) groups dropped /\
     if finished then concat groups = frames
     else dl_attempts d' = [] /\ concat groups `prefix_of` frames) /\
  (forall good, reliable good -> Exists (good_attempt good) (dl_attempts d) ->
     Forall (fun f => length f <= MAX_FRAME_LEN) frames -> finished = true).
Proof.
  intros Hfresh Hrun. split.
  - destruct (on_demand_spec config identity _ _ _ _ Hfresh Hrun) as (groups & [_ (dropped & Hd & Hall)] & Hc).
    by exists groups, dropped.
  - intros good Hgood Hex Hlen. unfold send_on_demand_frames in Hrun.
    destruct (connect_agent config identity d) as [rc d1] eqn:Hconn. unfold connect_agent in Hconn.
    destruct (connect_loop_progress identity good Hgood _ (config_deadline config) (config_maximum config)
      (config_minimum config) (dl_slept d) (dl_dropped d) Hex) as (t & d2 & Hconn' & _ & Hh).
    rewrite Hconn' in Hconn. injection Hconn as <- <-.
    destruct (send_frames_progress config identity good Hgood frames Hlen t d2 Hh) as (t' & d3 & Hrun' & _).
    rewrite Hrun' in Hrun. by injection Hrun as <- _.
Qed.

(** The connection an attempt gives: one that is made, configured and accepts the hello. *)
Definition attempt_connects `{TokioFramed St E} (identity : AgentId) (deadline : N) (a : Attempt St E) :
    option (FramedTransport St) :=
  match tokio_connect a deadline with
  | Ok t => match tokio_send_hello identity t with (Ok _, t') => Some t' | _ => None end
  | _ => None
  end.

(** What [connect_loop] does with its attempts: it fails the [failed] ones, with a sleep
    after each, and then returns the connection of the next, or runs out of them. *)
Definition connects_after `{TokioFramed St E} (identity : AgentId) (deadline : N)
    (attempts failed rest : list (Attempt St E)) (r : option (FramedTransport St)) : Prop :=
  Forall (fun a => attempt_connects identity deadline a = None) failed /\
  match r with
  | Some t => exists a, attempts = failed ++ a :: rest /\ attempt_connects identity deadline a = Some t
  | None => attempts = failed /\ rest = []
  end.

Lemma connect_loop_delays `{TokioFramed St E} identity deadline (minimum maximum : N) attempts :
  (maximum <= duration_max)%N ->
  forall k slept dropped r (d' : Dialer St E),
    connect_loop attempts identity deadline maximum (delay minimum maximum k) slept dropped = (r, d') ->
    exists failed, connects_after identity deadline attempts failed (dl_attempts d') r /\
      dl_slept d' = slept ++ (delay minimum maximum <$> seq k (length failed)).
Proof.
  intros Hmax. induction attempts as [|a attempts IH]; intros k slept dropped r d'; cbn [connect_loop].
  { intros [= <- <-]. exists []. rewrite app_nil_r. split; [|done]. split; [constructor|done]. }
  assert (attempt_connects identity deadline a = None -> forall x,
    connect_loop attempts identity deadline maximum (next_backoff (delay minimum maximum k) maximum)
      (slept ++ [delay minimum maximum k]) x = (r, d') ->
    exists failed, connects_after identity deadline (a :: attempts) failed (dl_attempts d') r /\
      dl_slept d' = slept ++ (delay minimum maximum <$> seq k (length failed))) as Hretry.
  { intros Ha x. rewrite next_backoff_delay by done. intros (failed & [Hall Hr] & Hn)%IH.
    exists (a :: failed). split; [|cbn; by rewrite Hn, <-app_assoc]. split; [by constructor|].
    destruct r as [t|]; [destruct Hr as (a' & -> & ?); by exists a'|by destruct Hr as [-> ->]]. }
  unfold attempt_connects in Hretry at 1.
  destruct (tokio_connect a deadline) as [t|e|] eqn:Ht; [|by apply Hretry..].
  destruct (tokio_send_hello identity t) as [[[]|e|] t'] eqn:Hhello; [|by apply Hretry..].
  intros [= <- <-]. exists []. rewrite app_nil_r. split; [|done]. split; [constructor|].
  exists a. split; [done|]. unfold attempt_connects. by rewrite Ht, Hhello.
Qed.

(** The doublings before an iteration of the broker, and after it. *)
Definition doublings_at (k : nat) (attempt : LinkAttempt) : nat :=
  match attempt with SessionEnded => 0 | _ => k end.
Definition doublings_after (k : nat) (attempt : LinkAttempt) : nat :=
  match attempt with NodelayFailed => k | SessionEnded => 1 | _ => S k end.
Definition doublings (attempts : list LinkAttempt) : nat := foldl doublings_after 0 attempts.

Lemma maintain_loop_delays minimum maximum attempts : (minimum <= maximum)%N -> (maximum <= duration_max)%N ->
  forall k i attempt, attempts !! i = Some attempt ->
    maintain_loop minimum maximum (delay minimum maximum k) attempts !! i =
    Some (delay minimum maximum (doublings_at (foldl doublings_after k (take i attempts)) attempt)).
Proof.
  intros Hle Hmax. induction attempts as [|a attempts IH]; intros k i attempt; [done|].
  assert (maintain_step minimum maximum (delay minimum maximum k) a
    = (delay minimum maximum (doublings_at k a), delay minimum maximum (doublings_after k a))) as Hstep.
  { destruct a; cbn [maintain_step doublings_at doublings_after]; rewrite ?next_backoff_delay by done; try done.
    rewrite delay_0 by done. by rewrite <-(next_backoff_delay minimum maximum 0), delay_0 by done. }
  cbn [maintain_loop]. rewrite Hstep. destruct i as [|i].
  - by intros [= ->].
  - intros Hi. by apply (IH (doublings_after k a)) in Hi.
Qed.

(** C34: The delays between attempts are exact and bounded. An agent that connects sleeps
    once after every failed attempt, and only then: its minimum first, doubled at every
    further one and never beyond its maximum (at least a second, whatever the
    configuration); it stops at the first attempt that gives a connection. The broker does the same for its link
    to the CA, and starts again at the minimum when a session has ended; an iteration
    whose socket option failed leaves the delay as it was. No duration overflows. *)
Theorem reconnect_delays :
  (forall `{TokioFramed St E} config identity (d d' : Dialer St E) r,
     (ac_reconnect_min_seconds config <= u64_max)%N -> (ac_reconnect_max_seconds config <= u64_max)%N ->
     connect_agent config identity d = (r, d') ->
     let delays := delay (config_minimum config) (config_maximum config) in
     (exists failed,
       connects_after identity (config_deadline config) (dl_attempts d) failed (dl_attempts d') r /\
       dl_slept d' = dl_slept d ++ (delays <$> seq 0 (length failed))) /\
     forall k, (duration_from_secs 1 <= delays k <= config_maximum config)%N /\
       (config_maximum config <= duration_max)%N) /\
  (forall lo hi attempts, (lo <= u64_max)%N -> (hi <= u64_max)%N ->
     let minimum := duration_from_secs (N.max lo 1) in
     let maximum := duration_from_secs (N.max (N.max hi lo) 1) in
     length (maintain_ca_link lo hi attempts) = length attempts /\
     forall i attempt, attempts !! i = Some attempt ->
       maintain_ca_link lo hi attempts !! i =
       Some (delay minimum maximum (doublings_at (doublings (take i attempts)) attempt)) /\
       (minimum <= delay minimum maximum (doublings_at (doublings (take i attempts)) attempt) <= maximum)%N).
Proof.
  split.
  - intros St E H config identity d d' r Hmin Hmax Hrun delays.
    destruct (config_durations config Hmin Hmax) as [[H1 Hle] Hcap]. split.
    + unfold connect_agent in Hrun.
      rewrite <-(delay_0 (config_minimum config) (config_maximum config)) in Hrun by done.
      by apply connect_loop_delays in Hrun.
    + intros k. pose proof (delay_bounds (config_minimum config) (config_maximum config) k Hle).
      unfold delays. lia.
  - intros lo hi attempts Hlo Hhi minimum maximum.
    assert (1 <= u64_max)%N by done.
    assert (minimum <= maximum)%N as Hle by (apply duration_from_secs_mono; lia).
    assert (maximum <= duration_max)%N as Hcap by (apply duration_from_secs_max; lia).
    split.
    + unfold maintain_ca_link. fold minimum maximum. generalize minimum at 2. clear.
      induction attempts as [|a attempts IH]; intros b; [done|]. cbn [maintain_loop].
      destruct (maintain_step minimum maximum b a). cbn. by rewrite IH.
    + intros i attempt Hi. split; [|by apply delay_bounds]. unfold maintain_ca_link. fold minimum maximum.
      rewrite <-(delay_0 minimum maximum) at 2 by done. by apply maintain_loop_delays.
Qed.

(** An agent whose first connection fails at the second frame. *)
Module ReconnectExample.
(** A stream that still accepts [fst] frames. *)
Definition Stream : Type := nat * list byte.
#[global] Instance stream : TokioFramed Stream unit := {
  framed_send _ frame s :=
    match s.1 with 0 => (Err (Some ()), s) | S n => (Ok tt, (n, s.2 ++ frame_wire frame)) end;
  framed_next _ s := (Err None, s);
}.
#[global, program] Instance stream_laws : TokioFramedLaws Stream unit := {
  framed_inv _ := True;
  framed_input _ := [];
  framed_output := snd;
}.
Next Obligation.
  intros d frame [[|n] o] r s' _ [= <- <-]; split_and!; try done. by apply prefix_app_r.
Qed.
Next Obligation. intros d s r s' frame rest _ [= <- <-] _ _. split_and!; [done..|]. right. by eexists. Qed.
Next Obligation. by intros d s r s' _ [= <- <-]. Qed.

Definition config : AgentConfig := mkAgentConfig [] 0 3 1 [] [] [] [].
Definition identity : AgentId := mkAgentId (vreplicate 16 x01).
Definition opens (n : nat) : Attempt Stream unit := mkAttempt (Some (inl (n, []))) None.
Definition dialer : Dialer Stream unit :=
  mkDialer [mkAttempt None None; opens 2; opens 0; mkAttempt (Some (inr ())) None; opens 5] [] [].
Definition frames : list (list byte) := [[x01]; [x02]; [x03]].
Abbreviation run := (send_on_demand_frames config identity frames dialer).
End ReconnectExample.

Lemma on_demand_frames_delivered_witness :
  ReconnectExample.run.1 = true /\
  exists groups dropped, dl_dropped ReconnectExample.run.2 = dropped /\
    Forall2 (carries ReconnectExample.identity) groups dropped /\ concat groups = ReconnectExample.frames.
Proof.
  assert (ReconnectExample.run.1 = true) as Hdone by (vm_compute; reflexivity). split; [exact Hdone|].
  destruct (on_demand_frames_delivered ReconnectExample.config ReconnectExample.identity ReconnectExample.frames
    ReconnectExample.dialer ReconnectExample.run.2 ReconnectExample.run.1) as [(groups & dropped & Hd & Hall & Hc) _].
  - repeat (apply Forall_cons; split; [done|]). by apply Forall_nil.
  - apply surjective_pairing.
  - rewrite Hdone in Hc. exists groups, dropped. exact (conj Hd (conj Hall Hc)).
Defined.

Lemma reconnect_delays_witness :
  dl_slept (connect_agent ReconnectExample.config ReconnectExample.identity
      (mkDialer [mkAttempt None None; ReconnectExample.opens 0] [] [])).2
    = delay (3 * nanos_per_second) (3 * nanos_per_second) <$> seq 0 2.
Proof.
  destruct reconnect_delays as [Hagent _].
  destruct (Hagent ReconnectExample.Stream unit _ ReconnectExample.config ReconnectExample.identity
    (mkDialer [mkAttempt None None; ReconnectExample.opens 0] [] []) _ _ ltac:(done) ltac:(done)
    (surjective_pairing _)) as [(failed & [_ Hr] & Hn) _].
  assert ((connect_agent ReconnectExample.config ReconnectExample.identity
      (mkDialer [mkAttempt None None; ReconnectExample.opens 0] [] [])).1 = None) as Hnone
    by (vm_compute; reflexivity).
  rewrite Hnone in Hr. destruct Hr as [<- _]. exact Hn.
Defined.

(** The broker's delays in seconds: doubled, kept when the socket option fails, reset by a session. *)
Example broker_delays :
  (fun d => (d / nanos_per_second)%N) <$> maintain_ca_link 1 5
    [ConnectFailed; NodelayFailed; AuthenticationFailed; ConnectFailed; SessionEnded; ConnectFailed]
  = [1; 2; 2; 4; 1; 2]%N.
Proof. vm_compute. reflexivity. Qed.
