(* ===== verification/BrokerDaemon.v ===== *)
(** The broker daemon put together, apps/brokerd/src/main.rs: its settings, the accept
    loop with its bound on handshakes, and the task of every agent socket over the
    framed stream. *)

From stdpp Require Import functions.
From S2P Require Export Broker Reconnect.

(** ** Settings *)

(** [Args], but the addresses and the path of the key; all numbers are unsigned. *)
Record Args := mkArgs {
  arg_max_connections : nat;
  arg_max_pending_handshakes : nat;
  arg_online_queue_depth : nat;
  arg_offline_queue_depth : nat;
  arg_ca_queue_depth : nat;
  arg_agent_handshake_timeout_seconds : N;
  arg_agent_io_timeout_seconds : N;
  arg_ca_connect_timeout_seconds : N;
  arg_ca_reconnect_min_seconds : N;
  arg_ca_reconnect_max_seconds : N;
  arg_ca_ack_retry_seconds : N;
  arg_ca_dedup_depth : nat;
}.

(** The [default_value_t] of each. *)
Definition Args_default : Args := mkArgs
  DEFAULT_MAX_CONNECTIONS DEFAULT_MAX_CONNECTIONS DEFAULT_QUEUE_DEPTH DEFAULT_OFFLINE_QUEUE_DEPTH
  DEFAULT_CA_QUEUE_DEPTH 10 300 5 1 30 2 (DEFAULT_CA_QUEUE_DEPTH * 2).

(** [CaLinkConfig], but the address. *)
Record CaLinkConfig := mkCaLinkConfig {
  lc_connect_deadline : N;
  lc_reconnect_min : N;
  lc_reconnect_max : N;
  lc_retry_period : N;
  lc_psk : array 32;
  lc_pending_depth : nat;
  lc_dedup_depth : nat;
}.

Definition ca_link_config (args : Args) (psk : array 32) : CaLinkConfig := mkCaLinkConfig
  (duration_from_secs (N.max (arg_ca_connect_timeout_seconds args) 1))
  (duration_from_secs (N.max (arg_ca_reconnect_min_seconds args) 1))
  (duration_from_secs (N.max (N.max (arg_ca_reconnect_max_seconds args) (arg_ca_reconnect_min_seconds args)) 1))
  (duration_from_secs (N.max (arg_ca_ack_retry_seconds args) 1))
  psk (arg_ca_queue_depth args) (arg_ca_dedup_depth args).

Definition handshake_deadline (args : Args) : N :=
  duration_from_secs (N.max (arg_agent_handshake_timeout_seconds args) 1).
Definition io_deadline (args : Args) : N :=
  duration_from_secs (N.max (arg_agent_io_timeout_seconds args) 1).

(** [files] is the outcome of [fs::read_to_string]. *)
Definition read_psk `{Hex} (files : Text -> option Text) (path : Text) : result ConfigError (array 32) :=
  text ← ok_or (files path) ConfigError.Unreadable;
  bytes ← ok_or (hex_decode (trim text)) ConfigError.NotHex;
  ok_or (to_array 32 bytes) ConfigError.WrongLength.

(** ** The daemon *)

Section daemon.
Context {Ch St E : Type} `{HM : MpscLaws Ch} `{HF : TokioFramed St E}.

(** The sockets of the tasks: those in their handshake, each of which holds a permit of
    the semaphore, by a name of the connection; those of the registered agents; and, as
    a history, those closed, by agent. *)
Record Daemon := mkDaemon {
  dm_broker : Broker Ch MemoryOfflineQueueStore;
  dm_permits : nat;
  dm_handshakes : gmap nat (FramedTransport St);
  dm_sockets : gmap AgentId St;
  dm_closed : AgentId -> list St;
}.

(** [main] up to the loop: the router and the semaphore. *)
Definition brokerd_start (args : Args) : Daemon := mkDaemon
  (broker_init (arg_max_connections args) (arg_online_queue_depth args) (arg_ca_queue_depth args)
     (MemoryOfflineQueueStore_new (arg_offline_queue_depth args)))
  (arg_max_pending_handshakes args) ∅ ∅ (fun _ => []).

(** [main] with its key file, whose path is an argument: the settings of the link and the
    state of the loop. *)
Definition brokerd_main `{Hex} (args : Args) (files : Text -> option Text) (ca_psk_file : Text) :
    result ConfigError (CaLinkConfig * Daemon) :=
  ca_psk ← read_psk files ca_psk_file;
  Ok (ca_link_config args ca_psk, brokerd_start args).

(** What can happen next: a connection is accepted; the hello of one arrives or fails;
    a branch of the [select!] of an agent's task completes: its next delivery, which is
    written, or what the socket reads; the link to the CA routes a delivery or takes a
    request. A delivery that is to be stored offline may be looked up before it is
    routed, and anything may happen between the two. *)
Inductive DaemonStep :=
| Accepted (peer : nat) (stream : St)
| HelloReady (peer : nat)
| SendReady (identity : AgentId)
| ReadReady (identity : AgentId)
| LinkLooksUp (f : frame)
| LinkDelivers (f : frame)
| LinkTakes.

Definition with_broker (b : Broker Ch MemoryOfflineQueueStore) (d : Daemon) : Daemon :=
  mkDaemon b (dm_permits d) (dm_handshakes d) (dm_sockets d) (dm_closed d).

(** The end of an agent's task: its socket is dropped. *)
Definition close_socket (identity : AgentId) (s : St) (d : Daemon) : Daemon :=
  mkDaemon (dm_broker d) (dm_permits d) (dm_handshakes d) (delete identity (dm_sockets d))
    (<[identity := dm_closed d identity ++ [s]]> (dm_closed d)).
Definition keep_socket (identity : AgentId) (s : St) (d : Daemon) : Daemon :=
  mkDaemon (dm_broker d) (dm_permits d) (dm_handshakes d) (<[identity := s]> (dm_sockets d)) (dm_closed d).

(** [try_acquire_owned]: without a permit the connection is dropped. *)
Definition accept_step (args : Args) (peer : nat) (stream : St) (d : Daemon) : Daemon :=
  match dm_permits d, dm_handshakes d !! peer with
  | S permits, None =>
      mkDaemon (dm_broker d) permits
        (<[peer := mkFramedTransport stream (handshake_deadline args)]> (dm_handshakes d))
        (dm_sockets d) (dm_closed d)
  | _, _ => d
  end.

(** [receive_hello], [register], and the permit given back in every case. *)
Definition hello_step (peer : nat) (d : Daemon) : Daemon :=
  match dm_handshakes d !! peer with
  | None => d
  | Some t =>
      let d := mkDaemon (dm_broker d) (S (dm_permits d)) (delete peer (dm_handshakes d))
                 (dm_sockets d) (dm_closed d) in
      match receive_hello t with
      | (Ok identity, t') =>
          let d' := with_broker (broker_step (Hello identity) (dm_broker d)) d in
          match (register identity (bk_router (dm_broker d))).1 with
          | Ok _ => keep_socket identity (ft_framed t') d'
          | _ => d'
          end
      | _ => d
      end
  end.

(** The delivery taken is written before [io_deadline], or requeued. *)
Definition send_step (args : Args) (identity : AgentId) (d : Daemon) : Daemon :=
  match dm_sockets d !! identity with
  | None => d
  | Some s =>
      let b := broker_step (Take identity) (dm_broker d) in
      match t ← bk_tasks b !! identity; task_undelivered t with
      | None => with_broker b d
      | Some f =>
          match framed_send (io_deadline args) f s with
          | (Ok _, s') => keep_socket identity s' (with_broker (broker_step (Written identity) b) d)
          | (_, s') => close_socket identity s' (with_broker (broker_step (Close identity) b) d)
          end
      end
  end.

(** A frame read is routed; an error, the end of the stream, the deadline or a frame
    that is refused end the task. *)
Definition read_step (args : Args) (identity : AgentId) (d : Daemon) : Daemon :=
  match dm_sockets d !! identity with
  | None => d
  | Some s =>
      match framed_next (io_deadline args) s with
      | (Ok (Some bytes), s') =>
          let d' := with_broker (broker_step (Request identity bytes) (dm_broker d)) d in
          match (route_agent_request identity bytes (bk_router (dm_broker d))).1 with
          | Ok _ => keep_socket identity s' d'
          | _ => close_socket identity s' d'
          end
      | (_, s') => close_socket identity s' (with_broker (broker_step (Close identity) (dm_broker d)) d)
      end
  end.

Definition daemon_step (args : Args) (st : DaemonStep) (d : Daemon) : Daemon :=
  match st with
  | Accepted peer stream => accept_step args peer stream d
  | HelloReady peer => hello_step peer d
  | SendReady identity => send_step args identity d
  | ReadReady identity => read_step args identity d
  | LinkLooksUp f => with_broker (broker_look_up f (dm_broker d)) d
  | LinkDelivers f => with_broker (broker_deliver f (dm_broker d)).2 d
  | LinkTakes => with_broker (broker_step CaTakes (dm_broker d)) d
  end.

Definition daemon_run (args : Args) (steps : list DaemonStep) (d : Daemon) : Daemon :=
  foldl (fun d st => daemon_step args st d) d steps.
End daemon.
Arguments Daemon : clear implicits.
Arguments DaemonStep : clear implicits.

(** ** Invariant *)

Definition wire (frames : list frame) : list byte := concat (frame_wire <$> frames).

Lemma wire_app l l' : wire (l ++ l') = wire l ++ wire l'.
Proof. unfold wire. by rewrite fmap_app, concat_app. Qed.

Section invariant.
Context {Ch St E : Type} `{HM : MpscLaws Ch} `{HF : TokioFramedLaws St E}.
Implicit Types d : Daemon Ch St.

(** A stream as [accept] returns it. *)
Definition new_stream (s : St) : Prop := framed_inv s /\ framed_output s = [].

(** What was written for an agent is on its sockets: whole and in order on each of those
    closed, which may have more of a frame whose write failed, and nothing else on the
    one in use. *)
Definition streams_ok (written : list frame) (closed : list St) (socket : option St) : Prop :=
  exists groups group, written = concat groups ++ group /\
    Forall2 (fun g s => wire g `prefix_of` framed_output s) groups closed /\
    match socket with Some s => framed_inv s /\ framed_output s = wire group | None => group = [] end.

Record daemon_inv (pending_handshakes : nat) d : Prop := mkDaemonInv {
  di_broker : broker_inv (dm_broker d);
  di_permits : size (dm_handshakes d) + dm_permits d = pending_handshakes;
  di_handshakes : forall peer t, dm_handshakes d !! peer = Some t -> new_stream (ft_framed t);
  di_sockets : forall id, is_Some (dm_sockets d !! id) <-> is_Some (bk_tasks (dm_broker d) !! id);
  di_idle : forall id t, bk_tasks (dm_broker d) !! id = Some t -> task_undelivered t = None;
  di_streams : forall id, streams_ok (bk_written (dm_broker d) id) (dm_closed d id) (dm_sockets d !! id);
}.

(** *** What a step of the router changes *)

Implicit Types b : Broker Ch MemoryOfflineQueueStore.

Lemma close_task_effect id t undelivered b :
  bk_tasks (close_task id t undelivered b) = delete id (bk_tasks b) /\
  bk_written (close_task id t undelivered b) = bk_written b.
Proof. unfold close_task. by destruct (disconnect_and_requeue _ _ _). Qed.

Lemma hello_effect id b :
  bk_written (broker_step (Hello id) b) = bk_written b /\
  match (register id (bk_router b)).1 with
  | Ok reg => bk_tasks (broker_step (Hello id) b) = <[id := mkTask reg None]> (bk_tasks b)
  | _ => bk_tasks (broker_step (Hello id) b) = bk_tasks b
  end.
Proof. cbn [broker_step]. by destruct (register id (bk_router b)) as [[] ?]. Qed.

(** The events of a delivery. *)
Definition routes (e : Event) : Prop := match e with Deliver _ | Stores _ | CaTakes => True | _ => False end.

Lemma route_effect e b : routes e ->
  bk_written (broker_step e b) = bk_written b /\ bk_tasks (broker_step e b) = bk_tasks b.
Proof.
  destruct e as [id|f|k|id|id|id f|id|]; intros []; cbn [broker_step].
  - by destruct (route_ca_delivery_locked f (bk_router b)) as [[[]| |] ?].
  - destruct (bk_storing b !! k) as [[id f]|]; [|done]. by destruct (offline_enqueue id f (bk_router b)) as [[] ?].
  - done.
Qed.

Lemma route_run_effect es b : Forall routes es ->
  bk_written (broker_run es b) = bk_written b /\ bk_tasks (broker_run es b) = bk_tasks b.
Proof.
  intros Hall. revert b. induction Hall as [|e es He _ IH]; intros b; [done|]. cbn.
  destruct (route_effect e b He) as [<- <-]. apply IH.
Qed.

Lemma delivery_routes f b : Forall routes (delivery_events f b).
Proof.
  unfold delivery_events. destruct (looked_up f b); [by repeat constructor|].
  by destruct (route_ca_delivery_locked f (bk_router b)).1 as [[]| |]; repeat constructor.
Qed.

Lemma look_up_routes f b : exists es, broker_look_up f b = broker_run es b /\ Forall routes es.
Proof.
  unfold broker_look_up. destruct (route_ca_delivery_locked f (bk_router b)).1 as [[]| |];
    [exists [Deliver f]; split; [done|by repeat constructor]|by exists []..].
Qed.

Lemma take_effect id reg b : bk_tasks b !! id = Some (mkTask reg None) ->
  bk_written (broker_step (Take id) b) = bk_written b /\
  exists reg' f, bk_tasks (broker_step (Take id) b) = <[id := mkTask reg' f]> (bk_tasks b).
Proof.
  intros Ht. cbn [broker_step]. rewrite Ht. destruct (try_recv reg (bk_router b)) as [[f reg'] r].
  split; [done|]. by exists reg', f.
Qed.

Lemma request_effect id f reg b : bk_tasks b !! id = Some (mkTask reg None) ->
  bk_written (broker_step (Request id f) b) = bk_written b /\
  bk_tasks (broker_step (Request id f) b) =
    match (route_agent_request id f (bk_router b)).1 with Ok _ => bk_tasks b | _ => delete id (bk_tasks b) end.
Proof.
  intros Ht. cbn [broker_step]. rewrite Ht.
  destruct (route_agent_request id f (bk_router b)) as [[] r]; cbn [fst]; [done|..];
    rewrite !(proj1 (close_task_effect _ _ _ _)), !(proj2 (close_task_effect _ _ _ _)); done.
Qed.

Lemma close_effect id b :
  bk_written (broker_step (Close id) b) = bk_written b /\
  bk_tasks (broker_step (Close id) b) = delete id (bk_tasks b).
Proof.
  cbn [broker_step]. destruct (bk_tasks b !! id) as [t|] eqn:Ht.
  - by destruct (close_task_effect id t (task_undelivered t) b).
  - split; [done|]. by rewrite delete_id.
Qed.

(** *** What a step of a socket changes *)

Lemma streams_write w c s s' f : streams_ok w c (Some s) -> framed_inv s' ->
  framed_output s' = framed_output s ++ frame_wire f -> streams_ok (w ++ [f]) c (Some s').
Proof.
  intros (groups & group & -> & Hall & Hi & Ho) Hi' Ho'. exists groups, (group ++ [f]).
  split; [by rewrite app_assoc|]. split; [done|]. split; [done|].
  rewrite Ho', Ho, wire_app. unfold wire. cbn. by rewrite app_nil_r.
Qed.

Lemma streams_close w c s s' : streams_ok w c (Some s) -> framed_output s `prefix_of` framed_output s' ->
  streams_ok w (c ++ [s']) None.
Proof.
  intros (groups & group & -> & Hall & Hi & Ho) Hp. exists (groups ++ [group]), [].
  split; [rewrite concat_app; cbn; by rewrite !app_nil_r|]. split; [|done].
  apply Forall2_app; [done|]. apply Forall2_cons. split; [by rewrite <-Ho|constructor].
Qed.

Lemma streams_keep w c s s' : streams_ok w c (Some s) -> framed_inv s' ->
  framed_output s' = framed_output s -> streams_ok w c (Some s').
Proof.
  intros (groups & group & -> & Hall & Hi & Ho) Hi' Ho'. exists groups, group. by rewrite Ho', Ho.
Qed.

Lemma streams_open w c s : streams_ok w c None -> new_stream s -> streams_ok w c (Some s).
Proof. intros (groups & group & -> & Hall & ->) [Hi Ho]. exists groups, []. by rewrite Ho. Qed.

Lemma receive_hello_stream t r t' : new_stream (ft_framed t) -> receive_hello t = (r, t') ->
  new_stream (ft_framed t').
Proof.
  intros [Hi Ho]. unfold receive_hello. rewrite M_bind_run.
  assert (forall r0 t0, tokio_receive t = (r0, t0) -> new_stream (ft_framed t0)) as Hrecv.
  { intros r0 t0. unfold tokio_receive. destruct (framed_next _ _) as [x s] eqn:Hn.
    apply framed_next_output in Hn as [Hi' Ho']; [|done]. intros [= _ <-]. split; [done|]. cbn. congruence. }
  specialize (Hrecv (tokio_receive t).1 (tokio_receive t).2 (surjective_pairing _)).
  destruct (tokio_receive t) as [[bytes|e|] t0]; [unfold lift|..]; by intros [= _ <-].
Qed.

(** A change of one agent's task and socket, and else of nothing but the router. *)
Lemma daemon_inv_update n d d' id : daemon_inv n d -> broker_inv (dm_broker d') ->
  dm_permits d' = dm_permits d -> dm_handshakes d' = dm_handshakes d ->
  (forall id', id' <> id -> bk_tasks (dm_broker d') !! id' = bk_tasks (dm_broker d) !! id' /\
     bk_written (dm_broker d') id' = bk_written (dm_broker d) id' /\
     dm_closed d' id' = dm_closed d id' /\ dm_sockets d' !! id' = dm_sockets d !! id') ->
  (is_Some (dm_sockets d' !! id) <-> is_Some (bk_tasks (dm_broker d') !! id)) ->
  (forall t, bk_tasks (dm_broker d') !! id = Some t -> task_undelivered t = None) ->
  streams_ok (bk_written (dm_broker d') id) (dm_closed d' id) (dm_sockets d' !! id) ->
  daemon_inv n d'.
Proof.
  intros [] Hb Hp Hh Hother Hsock Hidle Hs. constructor; rewrite ?Hp, ?Hh; try done; intros id';
    (destruct (decide (id' = id)) as [->|Hne]; [done|]); destruct (Hother id' Hne) as (Ht & Hw & Hc & Hso);
    rewrite ?Ht, ?Hw, ?Hc, ?Hso; eauto.
Qed.

Lemma socket_task n d id s : daemon_inv n d -> dm_sockets d !! id = Some s ->
  exists reg, bk_tasks (dm_broker d) !! id = Some (mkTask reg None).
Proof.
  intros [] Hs. destruct (proj1 (di_sockets0 id)) as [[reg u] Ht]; [by eexists|].
  pose proof (di_idle0 _ _ Ht) as Hu. cbn in Hu. subst u. by eexists.
Qed.

Lemma accept_step_inv args n d peer stream : daemon_inv n d -> new_stream stream ->
  daemon_inv n (accept_step args peer stream d).
Proof.
  intros [] Hnew. unfold accept_step. destruct (dm_permits d) as [|permits] eqn:Hp; [by constructor; rewrite ?Hp|].
  destruct (dm_handshakes d !! peer) eqn:Hh; [by constructor; rewrite ?Hp|].
  constructor; cbn [dm_broker dm_permits dm_handshakes dm_sockets dm_closed]; try done.
  - rewrite map_size_insert_None by done. rewrite Nat.add_succ_comm. exact di_permits0.
  - intros peer' t. destruct (decide (peer' = peer)) as [->|Hne]; [rewrite lookup_insert_eq; by intros [= <-]|].
    rewrite lookup_insert_ne by done. apply di_handshakes0.
Qed.

Ltac fields := cbn [dm_broker dm_permits dm_handshakes dm_sockets dm_closed with_broker keep_socket close_socket].

(** The task of [id] is served: its socket is kept. *)
Lemma kept_inv n d b id s s' : daemon_inv n d -> broker_inv b -> dm_sockets d !! id = Some s ->
  (forall id', id' <> id -> bk_tasks b !! id' = bk_tasks (dm_broker d) !! id' /\
     bk_written b id' = bk_written (dm_broker d) id') ->
  (exists reg, bk_tasks b !! id = Some (mkTask reg None)) ->
  streams_ok (bk_written b id) (dm_closed d id) (Some s') ->
  daemon_inv n (keep_socket id s' (with_broker b d)).
Proof.
  intros Hd Hb Hs Hother [reg Ht] Hst. eapply (daemon_inv_update n d _ id); try done; fields.
  - intros id' Hne. destruct (Hother id' Hne) as [-> ->]. by rewrite lookup_insert_ne.
  - rewrite lookup_insert_eq, Ht. split; by eexists.
  - rewrite Ht. by intros t [= <-].
  - by rewrite lookup_insert_eq.
Qed.

(** The task of [id] ends. *)
Lemma closed_inv n d b id s s' : daemon_inv n d -> broker_inv b -> dm_sockets d !! id = Some s ->
  (forall id', id' <> id -> bk_tasks b !! id' = bk_tasks (dm_broker d) !! id') ->
  bk_written b = bk_written (dm_broker d) -> bk_tasks b !! id = None ->
  framed_output s `prefix_of` framed_output s' ->
  daemon_inv n (close_socket id s' (with_broker b d)).
Proof.
  intros Hd Hb Hs Hother Hw Ht Hp. eapply (daemon_inv_update n d _ id); try done; fields.
  - intros id' Hne. rewrite Hw, fn_lookup_insert_ne, lookup_delete_ne by done. auto.
  - rewrite lookup_delete_eq, Ht. split; by intros [].
  - by rewrite Ht.
  - rewrite Hw, fn_lookup_insert, lookup_delete_eq. eapply streams_close; [|done].
    rewrite <-Hs. apply Hd.
Qed.

Lemma send_step_inv args n d id : daemon_inv n d -> daemon_inv n (send_step args id d).
Proof.
  intros Hd. unfold send_step. destruct (dm_sockets d !! id) as [s|] eqn:Hs; [|done].
  destruct (socket_task _ _ _ _ Hd Hs) as [reg Ht]. pose proof (di_broker _ _ Hd) as Hb.
  pose proof (di_streams _ _ Hd id) as Hst. rewrite Hs in Hst.
  destruct (take_effect id reg _ Ht) as (Hw & reg' & f & Htasks).
  pose proof (broker_step_inv (Take id) _ Hb) as Hb1.
  set (b := broker_step (Take id) (dm_broker d)) in *.
  assert (bk_tasks b !! id = Some (mkTask reg' f)) as Htask by (by rewrite Htasks, lookup_insert_eq).
  assert (forall id', id' <> id -> bk_tasks b !! id' = bk_tasks (dm_broker d) !! id') as Hne.
  { intros id' Hne. by rewrite Htasks, lookup_insert_ne. }
  rewrite Htask. cbn [mbind option_bind task_undelivered]. destruct f as [f|]; cycle 1.
  { eapply (daemon_inv_update n d _ id); try done; fields.
    - intros id' Hid. by rewrite Hne, Hw.
    - rewrite Htask. by intros t [= <-].
    - by rewrite Hw, Hs. }
  destruct (framed_send _ f s) as [r s'] eqn:Hsend.
  pose proof Hst as (_ & group & _ & _ & Hi & _).
  apply framed_send_law in Hsend as (Hi' & _ & _ & Hp & Ho); [|done].
  assert (daemon_inv n (close_socket id s' (with_broker (broker_step (Close id) b) d))) as Hclose.
  { destruct (close_effect id b) as [Hcw Hct]. eapply closed_inv; try done.
    - by apply broker_step_inv.
    - intros id' Hid. by rewrite Hct, lookup_delete_ne, Hne.
    - by rewrite Hcw, Hw.
    - by rewrite Hct, lookup_delete_eq. }
  destruct r as [[]|e|]; [|exact Hclose..].
  assert (broker_step (Written id) b = mkBroker (bk_router b) (<[id := mkTask reg' None]> (bk_tasks b))
    (bk_storing b) (bk_ledger b) (append_log id f (bk_written b))) as Hwr by (cbn [broker_step]; by rewrite Htask).
  pose proof (broker_step_inv (Written id) _ Hb1) as Hb2. rewrite Hwr in Hb2 |- *.
  eapply kept_inv; try done; cbn [bk_tasks bk_written].
  - intros id' Hid. unfold append_log. by rewrite lookup_insert_ne, fn_lookup_insert_ne, Hne, Hw by done.
  - rewrite lookup_insert_eq. by eexists.
  - unfold append_log. rewrite fn_lookup_insert, Hw. eapply streams_write; [exact Hst|done|by apply Ho].
Qed.

Lemma read_step_inv args n d id : daemon_inv n d -> daemon_inv n (read_step args id d).
Proof.
  intros Hd. unfold read_step. destruct (dm_sockets d !! id) as [s|] eqn:Hs; [|done].
  destruct (socket_task _ _ _ _ Hd Hs) as [reg Ht]. pose proof (di_broker _ _ Hd) as Hb.
  pose proof (di_streams _ _ Hd id) as Hst. rewrite Hs in Hst.
  pose proof Hst as (_ & group & _ & _ & Hi & _).
  destruct (framed_next _ s) as [r s'] eqn:Hnext. apply framed_next_output in Hnext as [Hi' Ho']; [|done].
  assert (daemon_inv n (close_socket id s' (with_broker (broker_step (Close id) (dm_broker d)) d))) as Hclose.
  { destruct (close_effect id (dm_broker d)) as [Hcw Hct]. eapply closed_inv; try done.
    - by apply broker_step_inv.
    - intros id' Hid. by rewrite Hct, lookup_delete_ne.
    - by rewrite Hct, lookup_delete_eq.
    - by rewrite Ho'. }
  destruct r as [[bytes|]|e|]; [|exact Hclose..].
  destruct (request_effect id bytes reg _ Ht) as [Hw Htasks].
  pose proof (broker_step_inv (Request id bytes) _ Hb) as Hb1.
  destruct (route_agent_request id bytes (bk_router (dm_broker d))).1 eqn:Hr.
  - eapply kept_inv; try done.
    + intros id' Hid. by rewrite Htasks, Hw.
    + rewrite Htasks. by eexists.
    + rewrite Hw. by eapply streams_keep.
  - eapply closed_inv; try done; rewrite ?Htasks.
    + intros id' Hid. by rewrite lookup_delete_ne.
    + by rewrite lookup_delete_eq.
    + by rewrite Ho'.
  - eapply closed_inv; try done; rewrite ?Htasks.
    + intros id' Hid. by rewrite lookup_delete_ne.
    + by rewrite lookup_delete_eq.
    + by rewrite Ho'.
Qed.

Lemma hello_step_inv n d peer : daemon_inv n d -> daemon_inv n (hello_step peer d).
Proof.
  intros Hd. unfold hello_step. destruct (dm_handshakes d !! peer) as [t|] eqn:Hh; [|done].
  pose proof (di_handshakes _ _ Hd _ _ Hh) as Hnew.
  set (d0 := mkDaemon _ _ _ _ _). assert (daemon_inv n d0) as Hd0.
  { destruct Hd. constructor; unfold d0; fields; try done.
    - assert (size (<[peer := t]> (delete peer (dm_handshakes d))) = S (size (delete peer (dm_handshakes d)))) as Hsize.
      { apply map_size_insert_None. apply lookup_delete_eq. }
      rewrite insert_delete_id in Hsize by done. lia.
    - intros peer' t' [_ Ht']%lookup_delete_Some. by eapply di_handshakes0. }
  destruct (receive_hello t) as [[id|e|] t'] eqn:Hrecv; [|done..].
  apply receive_hello_stream in Hrecv; [|done].
  change (dm_broker d) with (dm_broker d0). clearbody d0. clear Hd Hh Hnew d.
  destruct (hello_effect id (dm_broker d0)) as [Hw Htasks]. pose proof (di_broker _ _ Hd0) as Hb.
  pose proof (broker_step_inv (Hello id) _ Hb) as Hb1.
  assert (daemon_inv n (with_broker (broker_step (Hello id) (dm_broker d0)) d0) \/
    exists reg, (register id (bk_router (dm_broker d0))).1 = Ok reg) as Hcase.
  { destruct (register id (bk_router (dm_broker d0))).1 as [reg|e|] eqn:Hreg; [right; by exists reg|left..];
      destruct Hd0; constructor; fields; rewrite ?Htasks, ?Hw; done. }
  destruct (register id (bk_router (dm_broker d0))) as [r rt] eqn:Hreg. cbn [fst] in *.
  destruct r as [reg|e|]; [clear Hcase|destruct Hcase as [?|[? [=]]]; done..].
  assert (bk_tasks (dm_broker d0) !! id = None) as Hnone.
  { apply register_run in Hreg as (_ & Hn & _). destruct Hb as [Hs _]. rewrite (inv_tasks _ _ Hs) in Hn.
    by apply fmap_None in Hn. }
  eapply (daemon_inv_update n d0 _ id); try done; fields; rewrite ?Htasks, ?Hw.
  - intros id' Hne. by rewrite !lookup_insert_ne.
  - rewrite !lookup_insert_eq. split; by eexists.
  - rewrite lookup_insert_eq. by intros t0 [= <-].
  - rewrite lookup_insert_eq. apply streams_open; [|done]. pose proof (di_streams _ _ Hd0 id) as Hst.
    destruct (dm_sockets d0 !! id) eqn:Hso; [|done].
    destruct (proj1 (di_sockets _ _ Hd0 id)) as [x Hx]; [by eexists|]. congruence.
Qed.

Lemma router_run_inv n d es : daemon_inv n d -> Forall routes es ->
  daemon_inv n (with_broker (broker_run es (dm_broker d)) d).
Proof.
  intros [] Hes. destruct (route_run_effect es (dm_broker d) Hes) as [Hw Ht].
  constructor; fields; rewrite ?Ht, ?Hw; try done. by apply broker_run_inv.
Qed.

Definition fresh_accept (st : DaemonStep St) : Prop :=
  match st with Accepted _ stream => new_stream stream | _ => True end.

Lemma daemon_step_inv args n st d : daemon_inv n d -> fresh_accept st -> daemon_inv n (daemon_step args st d).
Proof.
  intros Hd Hst. destruct st; cbn [daemon_step].
  - by apply accept_step_inv.
  - by apply hello_step_inv.
  - by apply send_step_inv.
  - by apply read_step_inv.
  - destruct (look_up_routes f (dm_broker d)) as (es & -> & Hes). by apply router_run_inv.
  - apply router_run_inv; [done|apply delivery_routes].
  - apply (router_run_inv _ _ [CaTakes]); [done|by repeat constructor].
Qed.

Lemma daemon_run_inv args n steps d : daemon_inv n d -> Forall fresh_accept steps ->
  daemon_inv n (daemon_run args steps d).
Proof.
  intros Hd Hall. revert d Hd. induction Hall as [|st steps Hst _ IH]; intros d Hd; [done|].
  cbn. by apply IH, daemon_step_inv.
Qed.

Lemma brokerd_start_inv args : daemon_inv (arg_max_pending_handshakes args) (brokerd_start args).
Proof.
  constructor; cbn [brokerd_start dm_broker dm_permits dm_handshakes dm_sockets dm_closed]; try done.
  - by apply broker_init_inv.
  - intros id. cbn. rewrite !lookup_empty. done.
  - intros id. exists [], []. done.
Qed.
End invariant.

(** ** The properties *)

Section refinement.
Context {Ch St E : Type} `{HM : MpscLaws Ch} `{HF : TokioFramed St E}.
Implicit Types d : Daemon Ch St.

(** Every step of the daemon is a sequence of events of the router with its tasks. *)
Lemma daemon_step_events args st d : exists es, dm_broker (daemon_step args st d) = broker_run es (dm_broker d).
Proof.
  destruct st as [peer s|peer|id|id|f|f|]; cbn [daemon_step].
  - exists []. unfold accept_step. by destruct (dm_permits d), (dm_handshakes d !! peer).
  - unfold hello_step. destruct (dm_handshakes d !! peer); [|by exists []].
    destruct (receive_hello _) as [[id|e|] t]; [|by exists []..]. exists [Hello id].
    by case_match.
  - unfold send_step. destruct (dm_sockets d !! id) as [s|]; [|by exists []].
    destruct (_ ≫= _) as [f|]; [|by exists [Take id]].
    destruct (framed_send _ f s) as [[[]|e|] s'];
      [by exists [Take id; Written id]|by exists [Take id; Close id]..].
  - unfold read_step. destruct (dm_sockets d !! id) as [s|]; [|by exists []].
    destruct (framed_next _ s) as [[[bytes|]|e|] s']; [|by exists [Close id]..].
    exists [Request id bytes]. by destruct (route_agent_request id bytes (bk_router (dm_broker d))).1.
  - destruct (look_up_routes f (dm_broker d)) as (es & Hes & _). by exists es.
  - by exists (delivery_events f (dm_broker d)).
  - by exists [CaTakes].
Qed.

Lemma daemon_run_events args steps d : exists es, dm_broker (daemon_run args steps d) = broker_run es (dm_broker d).
Proof.
  revert d. induction steps as [|st steps IH]; intros d; [by exists []|].
  destruct (daemon_step_events args st d) as [es Hes], (IH (daemon_step args st d)) as [es' Hes'].
  exists (es ++ es'). unfold broker_run in *. by rewrite foldl_app, <-Hes.
Qed.
End refinement.

(** C17: The broker daemon is bounded and puts every agent's deliveries on its sockets in
    order. Whatever connects, sends and fails, each step of the daemon is a sequence of
    events of the router with its tasks; the connections in their handshake and the free
    permits are together the configured number, so that no permit is lost, and no more
    agents are connected than configured, each with one socket. What the closed sockets of
    an agent carry, whole frames from their start, what its open socket carries, those
    frames and nothing else, and what is still held for it account for the deliveries
    accepted for it: each is there once, or was dropped when a connection of the agent
    ended with more left behind than the offline queue can hold, and they are in the order
    of their acceptance but for those that were stored when the agent had connected
    meanwhile. *)
Theorem brokerd_sockets {Ch St E} `{HM : MpscLaws Ch} `{HF : TokioFramedLaws St E} args
    (steps : list (DaemonStep St)) :
  Forall fresh_accept steps ->
  let d := daemon_run args steps (brokerd_start (Ch:=Ch) args) in
  size (dm_handshakes d) + dm_permits d = arg_max_pending_handshakes args /\
  size (dm_sockets d) <= arg_max_connections args /\
  (forall id, is_Some (dm_sockets d !! id) <-> connected (dm_broker d) id) /\
  exists es, let start := dm_broker (brokerd_start (St:=St) args) in
  dm_broker d = broker_run es start /\
  forall id, exists groups group,
    accounted start es id (concat groups ++ group ++ unsent (dm_broker d) id) /\
    Forall2 (fun g s => wire g `prefix_of` framed_output s) groups (dm_closed d id) /\
    match dm_sockets d !! id with Some s => framed_output s = wire group | None => group = [] end.
Proof.
  intros Hall d. pose proof (brokerd_start_inv (Ch:=Ch) (HF:=HF) args) as Hinit.
  pose proof (daemon_run_inv args _ steps _ Hinit Hall) as Hd. fold d in Hd.
  destruct (daemon_run_events (Ch:=Ch) args steps (brokerd_start args)) as [es Hes].
  pose proof (broker_run_config es _ (proj1 (di_broker _ _ Hinit))) as Hcfg. rewrite <-Hes in Hcfg. fold d in Hes, Hcfg.
  unfold config in Hcfg. cbn in Hcfg. injection Hcfg as Hmax _ _ _.
  pose proof (di_broker _ _ Hd) as [Hs _].
  assert (forall id, is_Some (dm_sockets d !! id) <-> connected (dm_broker d) id) as Hdom.
  { intros id. by rewrite (di_sockets _ _ Hd), connected_task. }
  split; [apply Hd|]. split; [|split; [exact Hdom|]].
  - rewrite <-Hmax. etrans; [|by eapply inv_maximum].
    rewrite <-!size_dom. apply Nat.eq_le_incl. f_equal. apply set_eq. intros id.
    by rewrite !elem_of_dom.
  - exists es. split; [exact Hes|]. intros id.
    destruct (di_streams _ _ Hd id) as (groups & group & Hw & Hall' & Hsock).
    exists groups, group. split; [|split; [done|by destruct (dm_sockets d !! id) as [s|]; [destruct Hsock|]]].
    pose proof (accounted_run _ es id (di_broker _ _ Hinit) eq_refl) as Hacc. cbv zeta in Hacc.
    rewrite <-Hes, Hw, <-app_assoc in Hacc. exact Hacc.
Qed.

(** An agent whose first socket fails after one delivery; its next socket carries the
    others. The third connection finds no permit. The agent connects again while a delivery
    is being stored, and the next one overtakes it. *)
Module DaemonExample.
(** The streams of [TransportExample], with a number of frames they accept. *)
Definition Stream : Type := nat * (list byte * list byte).
#[global] Instance stream : TokioFramed Stream Empty_set := {
  framed_send d frame s :=
    match s.1 with
    | 0 => (Err None, s)
    | S n => let '(r, s') := framed_send d frame s.2 in (r, (n, s'))
    end;
  framed_next d s := let '(r, s') := framed_next d s.2 in (r, (s.1, s'));
}.
#[global, program] Instance stream_laws : TokioFramedLaws Stream Empty_set := {
  framed_inv s := framed_inv s.2;
  framed_input s := framed_input s.2;
  framed_output s := framed_output s.2;
}.
Next Obligation.
  intros d frame [[|n] s] r s' Hs Hrun; cbn [framed_send stream fst snd] in Hrun; [by injection Hrun as <- <-|].
  destruct (framed_send d frame s) as [r0 s0] eqn:Hsend. injection Hrun as <- <-.
  by apply framed_send_law in Hsend.
Qed.
Next Obligation.
  intros d [n s] r s' frame rest Hs Hrun; cbn [framed_next stream fst snd] in Hrun.
  destruct (framed_next d s) as [r0 s0] eqn:Hnext. injection Hrun as <- <-. intros Hmax Hin.
  by eapply framed_next_law in Hnext.
Qed.
Next Obligation.
  intros d [n s] r s' Hs Hrun; cbn [framed_next stream fst snd] in Hrun.
  destruct (framed_next d s) as [r0 s0] eqn:Hnext. injection Hrun as <- <-.
  by apply framed_next_output in Hnext.
Qed.

Definition args : Args := mkArgs 4 1 4 4 4 10 300 5 1 30 2 8.
Definition agent := mkAgentId (vreplicate 16 x01).
Definition connection (n : nat) : Stream := (n, (frame_wire (vec_to_list (agent_bytes agent)), [])).
Definition steps : list (DaemonStep Stream) :=
  [Accepted 0 (connection 1); HelloReady 0; LinkDelivers (sample_delivery x01); LinkDelivers (sample_delivery x02);
   SendReady agent; SendReady agent; LinkLooksUp (sample_delivery x03); Accepted 1 (connection 5);
   Accepted 2 (connection 5); HelloReady 1; LinkDelivers (sample_delivery x03); LinkDelivers (sample_delivery x04);
   SendReady agent; SendReady agent].
Abbreviation final := (daemon_run (Ch:=ListChannel) args steps (brokerd_start args)).

Lemma final_permits : dm_permits final = 1 /\ length (dm_closed final agent) = 1.
Proof. split; vm_compute; reflexivity. Qed.
Lemma final_unsent : unsent (dm_broker final) agent = [sample_delivery x03].
Proof. vm_compute. reflexivity. Qed.
Lemma daemon_ledger : bk_ledger (dm_broker final) agent =
  mkLedger [sample_delivery x01; sample_delivery x02; sample_delivery x03; sample_delivery x04] [0; 1; 3; 2] [] [2].
Proof. vm_compute. reflexivity. Qed.
End DaemonExample.

Lemma brokerd_sockets_witness :
  dm_permits DaemonExample.final = 1 /\ length (dm_closed DaemonExample.final DaemonExample.agent) = 1 /\
  bk_ledger (dm_broker DaemonExample.final) DaemonExample.agent =
    mkLedger [sample_delivery x01; sample_delivery x02; sample_delivery x03; sample_delivery x04] [0; 1; 3; 2] [] [2] /\
  exists es groups group,
    accounted (dm_broker (brokerd_start (St:=DaemonExample.Stream) DaemonExample.args)) es DaemonExample.agent
      (concat groups ++ group ++ [sample_delivery x03]) /\
    Forall2 (fun g s => wire g `prefix_of` framed_output s) groups
      (dm_closed DaemonExample.final DaemonExample.agent).
Proof.
  destruct DaemonExample.final_permits as [Hp Hc]. split; [exact Hp|]. split; [exact Hc|].
  split; [exact DaemonExample.daemon_ledger|].
  destruct (brokerd_sockets (Ch:=ListChannel) (HF:=DaemonExample.stream_laws) DaemonExample.args DaemonExample.steps)
    as (_ & _ & _ & es & _ & Hstream).
  - repeat (apply Forall_cons; split; [first [exact (conj I eq_refl)|exact I]|]). by apply Forall_nil.
  - destruct (Hstream DaemonExample.agent) as (groups & group & Hacc & Hall & _).
    exists es, groups, group. split; [|exact Hall].
    rewrite DaemonExample.final_unsent in Hacc. exact Hacc.
Defined.
