(* ===== verification/BrokerProgress.v ===== *)
(** The progress of brokerd towards an agent: while its connection stays up, every turn of
    the sending branch of its task writes one of the deliveries held for its connection. *)

From stdpp Require Import functions.
From S2P Require Export BrokerDaemon.

Section progress.
Context {Ch St E : Type} `{HM : MpscLaws Ch} `{HF : TokioFramedLaws St E}.
Implicit Types (d : Daemon Ch St) (b : Broker Ch MemoryOfflineQueueStore).

(** ** A turn of the router *)

(** The task takes a delivery unless it holds none. *)
Lemma take_served id reg b : broker_inv b -> bk_tasks b !! id = Some (mkTask reg None) ->
  exists reg' o, bk_tasks (broker_step (Take id) b) !! id = Some (mkTask reg' o) /\
    (o = None -> held b id = []).
Proof.
  intros Hb Ht. pose proof Hb as [Hs _]. cbn [broker_step]. rewrite Ht.
  unfold try_recv. destruct (reg_pending reg) as [|f pending] eqn:Hp; cycle 1.
  { eexists _, (Some f). cbn [bk_tasks]. by rewrite lookup_insert_eq. }
  destruct (inv_channel _ _ Hs id _ Ht) as (ch & Hch & _). cbn [task_registration] in Hch.
  destruct (channel_try_recv_run _ _ _ Hch) as (ch' & -> & _).
  eexists _, _. cbn [bk_tasks]. rewrite lookup_insert_eq. split; [done|]. intros Hnone.
  unfold held. rewrite Ht.
  unfold task_frames, channel_frames. cbn [task_undelivered task_registration app]. rewrite Hp, Hch.
  by destruct (mpsc_queue ch).
Qed.

(** What was written for an agent and what its task holds. *)
Definition front b (id : AgentId) : list frame := bk_written b id ++ held b id.

(** ** A step of the daemon *)

(** The socket of the agent carries [delta] more, which is what was written for it. *)
Definition carries_more (id : AgentId) (s : St) (delta : list frame) d d' : Prop :=
  bk_written (dm_broker d') id = bk_written (dm_broker d) id ++ delta /\
  front (dm_broker d) id `prefix_of` front (dm_broker d') id /\
  exists s', dm_sockets d' !! id = Some s' /\ framed_output s' = framed_output s ++ wire delta.

Lemma carries_nothing id s s' d d' : bk_written (dm_broker d') id = bk_written (dm_broker d) id ->
  front (dm_broker d) id `prefix_of` front (dm_broker d') id ->
  dm_sockets d' !! id = Some s' -> framed_output s' = framed_output s -> carries_more id s [] d d'.
Proof.
  intros Hw Ha Hs Ho. split; [by rewrite app_nil_r|]. split; [done|]. exists s'. split; [done|].
  by rewrite Ho, app_nil_r.
Qed.

Ltac fields := cbn [dm_broker dm_permits dm_handshakes dm_sockets dm_closed with_broker keep_socket close_socket].

Lemma closed_longer id s (c : AgentId -> list St) : (<[id := c id ++ [s]]> c) id <> c id.
Proof. rewrite fn_lookup_insert. intros Heq%(f_equal length). rewrite length_app in Heq. cbn in Heq. lia. Qed.

Lemma closed_kept id' args st d : dm_closed d id' `prefix_of` dm_closed (daemon_step args st d) id'.
Proof.
  assert (forall id s, dm_closed d id' `prefix_of` (<[id := dm_closed d id ++ [s]]> (dm_closed d)) id') as Hclose.
  { intros id s. destruct (decide (id = id')) as [->|Hne];
      [rewrite fn_lookup_insert; by apply prefix_app_r|by rewrite fn_lookup_insert_ne]. }
  destruct st as [peer s|peer|id|id|f|f|]; cbn [daemon_step]; [..|done|done|done].
  - unfold accept_step. by destruct (dm_permits d), (dm_handshakes d !! peer).
  - unfold hello_step. destruct (dm_handshakes d !! peer); [|done]. destruct (receive_hello _) as [[id|e|] t]; [|done..].
    by case_match.
  - unfold send_step. destruct (dm_sockets d !! id) as [s|]; [|done]. destruct (_ ≫= _) as [f|]; [|done].
    destruct (framed_send _ f s) as [[[]|e|] s']; [done|apply Hclose..].
  - unfold read_step. destruct (dm_sockets d !! id) as [s|]; [|done].
    destruct (framed_next _ s) as [[[bytes|]|e|] s']; [|apply Hclose..]. case_match; [done|apply Hclose..].
Qed.

Lemma written_other id e b : e <> Written id -> bk_written (broker_step e b) id = bk_written b id.
Proof.
  intros Hne. destruct e as [id'|f|k|id'|id'|id' f|id'|];
    [|by rewrite (proj1 (route_effect (Deliver f) b I))|by rewrite (proj1 (route_effect (Stores k) b I))|..|done]; cbn [broker_step].
  - by destruct (register id' (bk_router b)) as [[] ?].
  - destruct (bk_tasks b !! id') as [[reg [f|]]|]; [done| |done]. by destruct (try_recv reg (bk_router b)) as [[f reg'] r].
  - destruct (bk_tasks b !! id') as [[reg [f|]]|]; [|done..]. cbn [bk_written]. unfold append_log.
    rewrite fn_lookup_insert_ne; [done|congruence].
  - destruct (bk_tasks b !! id') as [[reg [g|]]|]; [done| |done].
    destruct (route_agent_request id' f (bk_router b)) as [[] r]; [done|..];
      by rewrite (proj2 (close_task_effect _ _ _ _)).
  - destruct (bk_tasks b !! id') as [t|]; [|done]. by rewrite (proj2 (close_task_effect _ _ _ _)).
Qed.

Lemma written_others id es : Forall (fun e => e <> Written id) es ->
  forall b, bk_written (broker_run es b) id = bk_written b id.
Proof.
  induction 1 as [|e es He _ IH]; intros b; [done|]. cbn. rewrite <-(written_other id e b He). apply IH.
Qed.

(** Events that concern others leave the socket as it is. *)
Definition of_others (id : AgentId) (e : Event) : Prop := ~ closes id e /\ e <> Written id.
Ltac of_others := repeat (apply Forall_cons; split; [split; cbn; [tauto || congruence|congruence]|]); by apply Forall_nil.

Lemma socket_connected n id s d : daemon_inv n d -> dm_sockets d !! id = Some s ->
  structure_inv (bk_router (dm_broker d)) (bk_tasks (dm_broker d)) /\ connected (dm_broker d) id.
Proof.
  intros Hd Hs. destruct (di_broker _ _ Hd) as [Hst _]. split; [done|]. apply connected_task; [done|].
  apply (di_sockets _ _ Hd). by eexists.
Qed.

Lemma others_carry n id s d d' es : daemon_inv n d -> dm_sockets d !! id = Some s ->
  dm_broker d' = broker_run es (dm_broker d) -> Forall (of_others id) es ->
  dm_sockets d' !! id = Some s -> carries_more id s [] d d'.
Proof.
  intros Hd Hs Hb Hes Hs'. destruct (socket_connected _ _ _ _ Hd Hs) as [Hst Hc].
  apply Forall_and in Hes as [Hcl Hw]. apply (carries_nothing id s s); try done; rewrite Hb.
  - by apply written_others.
  - by apply (front_grows id es).
Qed.

Lemma send_step_other args n id id' s d : id' <> id -> daemon_inv n d -> dm_sockets d !! id = Some s ->
  carries_more id s [] d (send_step args id' d).
Proof.
  intros Hne Hd Hs. pose proof (others_carry n id s d) as Hother.
  unfold send_step. destruct (dm_sockets d !! id') as [s0|]; [|by apply (Hother _ [])].
  destruct (_ ≫= _) as [f|]; [|apply (Hother _ [Take id']); try done; of_others].
  destruct (framed_send _ f s0) as [[[]|e|] s'];
    [apply (Hother _ [Take id'; Written id'])|apply (Hother _ [Take id'; Close id'])..]; try done;
    fields; rewrite ?lookup_insert_ne, ?lookup_delete_ne by done; try done; of_others.
Qed.

Lemma read_step_other args n id id' s d : id' <> id -> daemon_inv n d -> dm_sockets d !! id = Some s ->
  carries_more id s [] d (read_step args id' d).
Proof.
  intros Hne Hd Hs. pose proof (others_carry n id s d) as Hother.
  unfold read_step. destruct (dm_sockets d !! id') as [s0|]; [|by apply (Hother _ [])].
  destruct (framed_next _ s0) as [[[bytes|]|e|] s'];
    [case_match; apply (Hother _ [Request id' bytes])|apply (Hother _ [Close id'])..]; try done;
    fields; rewrite ?lookup_insert_ne, ?lookup_delete_ne by done; try done; of_others.
Qed.

Lemma hello_step_other n id s peer d : daemon_inv n d -> dm_sockets d !! id = Some s ->
  carries_more id s [] d (hello_step peer d).
Proof.
  intros Hd Hs. pose proof (others_carry n id s d) as Hother.
  unfold hello_step. destruct (dm_handshakes d !! peer) as [t|]; [|by apply (Hother _ [])].
  destruct (receive_hello t) as [[id'|e|] t']; [|by apply (Hother _ [])..].
  cbn [dm_broker]. destruct (register id' (bk_router (dm_broker d))) as [r rt] eqn:Hreg. cbn [fst].
  assert (Forall (of_others id) [Hello id']) as He by of_others.
  destruct r as [reg|e|]; apply (Hother _ [Hello id']); try done. fields.
  apply register_run in Hreg as (_ & Hnone & _). destruct (decide (id' = id)) as [->|Hid]; [|by rewrite lookup_insert_ne].
  destruct (socket_connected _ _ _ _ Hd Hs) as [_ Hc]. unfold connected in Hc. rewrite Hnone in Hc. by destruct Hc.
Qed.

(** The agent's own turns. *)
Lemma send_step_own args n id s d : daemon_inv n d -> dm_sockets d !! id = Some s ->
  dm_closed (send_step args id d) id = dm_closed d id ->
  exists delta, carries_more id s delta d (send_step args id d) /\ (held (dm_broker d) id <> [] -> delta <> []).
Proof.
  intros Hd Hs. destruct (socket_task _ _ _ _ Hd Hs) as [reg Ht].
  destruct (socket_connected _ _ _ _ Hd Hs) as [Hst0 Hc]. unfold send_step. rewrite Hs.
  pose proof (written_other id (Take id) (dm_broker d) ltac:(done)) as Hw.
  pose proof (front_grows id [Take id; Written id] _ Hst0 Hc) as Hgrow.
  pose proof (front_grows id [Take id] _ Hst0 Hc) as Hgrow1. cbn [broker_run foldl] in Hgrow, Hgrow1.
  destruct (take_served id reg (dm_broker d) (di_broker _ _ Hd) Ht) as (reg' & o & Ht' & Ho).
  set (b := broker_step (Take id) _) in *. rewrite Ht'. cbn [mbind option_bind task_undelivered].
  destruct o as [f|]; cycle 1.
  { intros _. exists []. split; [|intros Hne; destruct (Hne (Ho eq_refl))].
    apply (carries_nothing id s s); try done. fields. apply Hgrow1. repeat (constructor; [by intros []|]). constructor. }
  pose proof (di_streams _ _ Hd id) as Hst. rewrite Hs in Hst. destruct Hst as (_ & group & _ & _ & Hi & _).
  destruct (framed_send _ f s) as [r s'] eqn:Hsend.
  apply framed_send_law in Hsend as (_ & _ & _ & _ & Hout); [|done].
  destruct r as [[]|e|]; cycle 1.
  1, 2: fields; intros Hclosed; by apply closed_longer in Hclosed.
  intros _. exists [f]. split; [|done]. fields. split; [|split].
  - fields. cbn [broker_step]. rewrite Ht'. cbn [bk_written]. unfold append_log. by rewrite fn_lookup_insert, Hw.
  - fields. apply Hgrow. repeat (constructor; [by intros []|]). constructor.
  - fields. exists s'. rewrite lookup_insert_eq. split; [done|]. rewrite (Hout eq_refl). unfold wire. cbn.
    by rewrite app_nil_r.
Qed.

Lemma read_step_own args n id s d : daemon_inv n d -> dm_sockets d !! id = Some s ->
  dm_closed (read_step args id d) id = dm_closed d id -> carries_more id s [] d (read_step args id d).
Proof.
  intros Hd Hs. destruct (socket_task _ _ _ _ Hd Hs) as [reg Ht]. unfold read_step. rewrite Hs.
  pose proof (di_streams _ _ Hd id) as Hst. rewrite Hs in Hst. destruct Hst as (_ & group & _ & _ & Hi & _).
  destruct (framed_next _ s) as [r s'] eqn:Hnext. apply framed_next_output in Hnext as [_ Hout]; [|done].
  destruct r as [[bytes|]|e|]; cycle 1.
  1-3: fields; intros Hclosed; by apply closed_longer in Hclosed.
  pose proof (route_agent_request_router id bytes (bk_router (dm_broker d))) as Hr.
  destruct (route_agent_request id bytes (bk_router (dm_broker d))) as [r rt] eqn:Hroute. cbn [fst snd] in *.
  destruct r as [[]|e|]; cycle 1.
  1, 2: fields; intros Hclosed; by apply closed_longer in Hclosed.
  intros _. apply (carries_nothing id s s'); fields; cbn [broker_step]; rewrite ?Ht, ?Hroute; try done.
  - destruct Hr as [->|(ch' & -> & _)]; unfold front; [by rewrite broker_eta|done].
  - by rewrite lookup_insert_eq.
Qed.

(** A step that leaves the connection up. *)
Lemma step_progress args n st id s d : daemon_inv n d -> dm_sockets d !! id = Some s ->
  dm_closed (daemon_step args st d) id = dm_closed d id ->
  exists delta, carries_more id s delta d (daemon_step args st d) /\
    (st = SendReady id -> held (dm_broker d) id <> [] -> delta <> []).
Proof.
  intros Hd Hs Hclosed.
  assert (forall d', carries_more id s [] d d' -> st <> SendReady id ->
    exists delta, carries_more id s delta d d' /\ (st = SendReady id -> held (dm_broker d) id <> [] -> delta <> []))
    as Hidle by (intros d' Hc Hne; by exists []).
  assert (forall es, Forall routes es -> carries_more id s [] d (with_broker (broker_run es (dm_broker d)) d)) as Hroutes.
  { intros es Hes. eapply others_carry; try done. eapply Forall_impl; [exact Hes|]. intros [] []; split; [by intros []|done|by intros []|done|by intros []|done]. }
  destruct st as [peer s0|peer|id'|id'|f|f|]; cbn [daemon_step] in *.
  - apply Hidle; [|done]. unfold accept_step.
    destruct (dm_permits d), (dm_handshakes d !! peer); by apply (carries_nothing id s s).
  - apply Hidle; [|done]. by eapply hello_step_other.
  - destruct (decide (id' = id)) as [->|Hne].
    + destruct (send_step_own args n id s d Hd Hs Hclosed) as (delta & Hc & Hp). by exists delta.
    + apply Hidle; [by eapply send_step_other|congruence].
  - apply Hidle; [|done]. destruct (decide (id' = id)) as [->|Hne]; [by eapply read_step_own|by eapply read_step_other].
  - apply Hidle; [|done]. destruct (look_up_routes f (dm_broker d)) as (es & -> & Hes). by apply Hroutes.
  - apply Hidle; [|done]. apply Hroutes, delivery_routes.
  - apply Hidle; [|done]. apply (Hroutes [CaTakes]). by repeat constructor.
Qed.

(** ** A run *)

(** The turns of the agent's sending branch. *)
Definition is_turn (id : AgentId) (st : DaemonStep St) : bool :=
  match st with SendReady id' => bool_decide (id' = id) | _ => false end.
Definition turns (id : AgentId) (steps : list (DaemonStep St)) : nat := length (filter (is_turn id) steps).

Lemma closed_run_kept id args steps : forall d, dm_closed d id `prefix_of` dm_closed (daemon_run args steps d) id.
Proof.
  induction steps as [|st steps IH]; intros d; [done|]. etrans; [apply (closed_kept id args st)|apply IH].
Qed.

(** A closed socket stays closed, so a connection that is up was up at each step. *)
Lemma closed_step_same id args st steps d : dm_closed (daemon_run args (st :: steps) d) id = dm_closed d id ->
  dm_closed (daemon_step args st d) id = dm_closed d id.
Proof.
  intros Heq. pose proof (closed_kept id args st d) as Hp.
  pose proof (closed_run_kept id args steps (daemon_step args st d)) as Hq.
  change (daemon_run args steps (daemon_step args st d)) with (daemon_run args (st :: steps) d) in Hq. rewrite Heq in Hq.
  by apply (anti_symm prefix).
Qed.

(** The frames written since are the next of those held, at least one for each turn that
    finds something held. *)
Lemma run_progress args n id steps : forall s d, daemon_inv n d -> Forall fresh_accept steps ->
  dm_sockets d !! id = Some s -> dm_closed (daemon_run args steps d) id = dm_closed d id ->
  exists delta, carries_more id s delta d (daemon_run args steps d) /\
    turns id steps `min` length (held (dm_broker d) id) <= length delta.
Proof.
  induction steps as [|st steps IH]; intros s d Hd Hfresh Hs Hclosed.
  { exists []. split; [by apply (carries_nothing id s s)|]. cbn. lia. }
  apply Forall_cons in Hfresh as [Hst Hfresh]. pose proof (closed_step_same _ _ _ _ _ Hclosed) as Hstep.
  destruct (step_progress args n st id s d Hd Hs Hstep) as (delta & (Hw & Ha & s1 & Hs1 & Hout) & Hp).
  pose proof (daemon_step_inv args n st d Hd Hst) as Hd1. rewrite <-Hstep in Hclosed.
  destruct (IH s1 (daemon_step args st d) Hd1 Hfresh Hs1 Hclosed) as (delta' & (Hw' & Ha' & s2 & Hs2 & Hout') & Hlen).
  change (daemon_run args steps (daemon_step args st d)) with (daemon_run args (st :: steps) d) in *.
  exists (delta ++ delta'). split; [split; [|split]|].
  - by rewrite Hw', Hw, app_assoc.
  - by etrans.
  - exists s2. split; [done|]. by rewrite Hout', Hout, wire_app, app_assoc.
  - rewrite length_app. destruct Ha as [more Ha]. unfold front in Ha. rewrite Hw, <-!app_assoc in Ha.
    apply app_inv_head in Ha. apply (f_equal length) in Ha. rewrite !length_app in Ha.
    unfold turns in *. rewrite filter_cons. case_decide as Hturn; cbn [length] in *; [|lia].
    destruct st as [| |id'| | | |]; try done. apply bool_decide_unpack in Hturn as ->.
    destruct (held (dm_broker d) id) eqn:Hu; cbn [length] in *; [lia|].
    assert (delta <> []) as Hdelta by by apply Hp. destruct delta; [done|]. cbn [length] in *. lia.
Qed.
End progress.

(** ** The property *)

(** C16: brokerd delivers what a connection holds. At any moment of a run, when an agent is
    connected: if its connection then stays up while the sending branch of its task gets as
    many turns as there are deliveries held for the connection, whatever else happens in
    between, then its socket carries every one of them, whole and in order, right after
    what it carried before. Held for the connection is all that was accepted for the agent
    and not yet written or lost, but late deliveries: those stored offline when the agent
    had connected meanwhile wait for its next connection. *)
Theorem held_deliveries_written {Ch St E} `{HM : MpscLaws Ch} `{HF : TokioFramedLaws St E} args
    (before after : list (DaemonStep St)) id s :
  Forall fresh_accept before -> Forall fresh_accept after ->
  let d := daemon_run args before (brokerd_start (Ch:=Ch) args) in
  let d' := daemon_run args after d in
  dm_sockets d !! id = Some s -> dm_closed d' id = dm_closed d id ->
  length (held (dm_broker d) id) <= turns id after ->
  (exists s', dm_sockets d' !! id = Some s' /\
    (framed_output s ++ wire (held (dm_broker d) id)) `prefix_of` framed_output s') /\
  let l := bk_ledger (dm_broker d) id in
  forall n, n < length (lg_accepted l) -> n ∉ lg_late l -> n ∉ lg_lost l ->
    exists k, take (length (bk_written (dm_broker d) id ++ held (dm_broker d) id)) (lg_order l) !! k = Some n /\
      lg_accepted l !! n = (bk_written (dm_broker d) id ++ held (dm_broker d) id) !! k.
Proof.
  intros Hb Ha d d' Hs Hclosed Hturns.
  pose proof (daemon_run_inv args _ before _ (brokerd_start_inv (Ch:=Ch) (HF:=HF) args) Hb) as Hd. fold d in Hd.
  destruct (di_broker _ _ Hd) as [_ [Hh _]]. destruct (socket_connected _ _ _ _ Hd Hs) as [_ Hc].
  split; [|intros l n Hn Hlate Hlost; exact (on_time_in_front l _ _ _ n (Hh id) Hc Hn Hlate Hlost)].
  destruct (run_progress args _ id after s d Hd Ha Hs Hclosed) as (delta & (Hw & Hfront & s' & Hs' & Hout) & Hlen).
  fold d' in Hw, Hfront, Hs'. exists s'. split; [done|]. rewrite Hout. apply prefix_app.
  destruct Hfront as [more Hfront]. unfold front in Hfront. rewrite Hw, <-!app_assoc in Hfront. apply app_inv_head in Hfront.
  assert (held (dm_broker d) id `prefix_of` delta) as [rest ->]; [|rewrite wire_app; by apply prefix_app_r].
  destruct (prefix_weak_total (held (dm_broker d) id) delta (delta ++ held (dm_broker d') id)) as [|Hp];
    [rewrite Hfront; by apply prefix_app_r|by apply prefix_app_r|done|].
  apply prefix_length_eq in Hp as ->; [done|lia].
Qed.

(** Two deliveries are held for an agent; while they are written another agent connects. *)
Module BrokerProgressExample.
Import DaemonExample.
Definition before : list (DaemonStep Stream) :=
  [Accepted 0 (connection 5); HelloReady 0; LinkDelivers (sample_delivery x01); LinkDelivers (sample_delivery x02)].
Definition after : list (DaemonStep Stream) :=
  [SendReady agent; Accepted 1 (connection 5); LinkDelivers (sample_delivery x03); SendReady agent].
Abbreviation before_after := (daemon_run (Ch:=ListChannel) args before (brokerd_start args)).

Lemma held_held : held (dm_broker before_after) agent = [sample_delivery x01; sample_delivery x02].
Proof. vm_compute. reflexivity. Qed.
Lemma held_socket : dm_sockets before_after !! agent = Some (5, ([], [])).
Proof. vm_compute. reflexivity. Qed.
Lemma held_closed : dm_closed (daemon_run args after before_after) agent = dm_closed before_after agent.
Proof. vm_compute. reflexivity. Qed.
End BrokerProgressExample.

Lemma held_deliveries_written_witness :
  exists s', dm_sockets (daemon_run DaemonExample.args BrokerProgressExample.after BrokerProgressExample.before_after)
      !! DaemonExample.agent = Some s' /\
    wire [sample_delivery x01; sample_delivery x02] `prefix_of` framed_output s'.
Proof.
  destruct (held_deliveries_written (HF:=DaemonExample.stream_laws) DaemonExample.args BrokerProgressExample.before
    BrokerProgressExample.after DaemonExample.agent (5, ([], []))) as [(s' & Hs & Hp) _].
  - repeat (apply Forall_cons; split; [exact I || exact (conj I eq_refl)|]). by apply Forall_nil.
  - repeat (apply Forall_cons; split; [exact I || exact (conj I eq_refl)|]). by apply Forall_nil.
  - exact BrokerProgressExample.held_socket.
  - exact BrokerProgressExample.held_closed.
  - rewrite BrokerProgressExample.held_held. reflexivity || (vm_compute; lia).
  - exists s'. split; [exact Hs|]. rewrite BrokerProgressExample.held_held in Hp. exact Hp.
Defined.
