(* ===== verification/Keygen.v ===== *)
(** The key generator of the CA, apps/cad/src/keygen.rs: the files it writes, and that
    the daemons and the agents load the keys it generated. *)

From S2P Require Export Reconnect.

(** ** Parameters *)

(** [hex::encode] of the hex crate. *)
Class HexEncode := { hex_encode : list byte -> Text }.

Definition hex_digit (b : byte) : bool :=
  let n := byte_val b in ((48 <=? n) && (n <=? 57) || (97 <=? n) && (n <=? 102))%N.

(** Two lowercase digits for each byte, which decode to it. *)
Class HexLaws `{Hex, HexEncode} : Prop := {
  hex_roundtrip bytes : hex_decode (hex_encode bytes) = Some bytes;
  hex_digits bytes : Forall (fun b => hex_digit b = true) (hex_encode bytes);
  hex_length bytes : length (hex_encode bytes) = 2 * length bytes;
}.

(** ** Files *)

(** A file: whether only its owner may read it, [mode(0o600)], and its text. *)
Record File := mkFile { file_private : bool; file_text : Text }.

(** How the system answers a write: it succeeds, the file is not opened, or writing or
    syncing fails with a part of the text in the file. *)
Inductive WriteOutcome := Completes | NotOpened | FailsAfter (written : nat).

Record Directory := mkDirectory { dir_files : gmap Text File; dir_outcomes : list WriteOutcome }.

Module KeygenError.
Inductive t := Directory | Randomness | Prefix | Io.

#[global] Instance eq_dec : EqDecision t.
Proof. solve_decision. Defined.
End KeygenError.
Abbreviation KeygenError := KeygenError.t.

(** [Path::join] of a relative name. *)
Definition join (dir name : Text) : Text :=
  match last dir with
  | Some x2f | None => dir ++ name
  | _ => dir ++ [x2f] ++ name
  end.

Module KeyKind.
Inductive t := Ca | Agent.
End KeyKind.
Abbreviation KeyKind := KeyKind.t.

Section keygen.
Context `{Crypto, HexEncode}.

(** [create_new]: a file that exists is not opened. *)
Definition write_new (private : bool) (path : Text) (bytes : list byte) : M Directory KeygenError unit := fun d =>
  let text := hex_encode bytes ++ [x0a] in
  let '(outcome, rest) :=
    match dir_outcomes d with [] => (Completes, []) | o :: rest => (o, rest) end in
  match dir_files d !! path, outcome with
  | Some _, _ | None, NotOpened => (Err KeygenError.Io, mkDirectory (dir_files d) rest)
  | None, Completes => (Ok tt, mkDirectory (<[path := mkFile private text]> (dir_files d)) rest)
  | None, FailsAfter n =>
      (Err KeygenError.Io, mkDirectory (<[path := mkFile private (take n text)]> (dir_files d)) rest)
  end.

Definition write_private : Text -> list byte -> M Directory KeygenError unit := write_new true.
Definition write_public : Text -> list byte -> M Directory KeygenError unit := write_new false.

(** ["ca"] and ["agent"] *)
Definition default_prefix (kind : KeyKind) : Text :=
  match kind with KeyKind.Ca => [x63; x61] | KeyKind.Agent => [x61; x67; x65; x6e; x74] end.

(** [byte.is_ascii_alphanumeric() || byte == b'-' || byte == b'_'] *)
Definition prefix_byte (b : byte) : bool :=
  let n := byte_val b in
  ((48 <=? n) && (n <=? 57) || (65 <=? n) && (n <=? 90) || (97 <=? n) && (n <=? 122))%N
  || bool_decide (b = x2d) || bool_decide (b = x5f).

(** ["-ed25519.secret"] and the like *)
Definition ed25519_secret : Text := [x2d; x65; x64; x32; x35; x35; x31; x39; x2e; x73; x65; x63; x72; x65; x74].
Definition x25519_secret : Text := [x2d; x78; x32; x35; x35; x31; x39; x2e; x73; x65; x63; x72; x65; x74].
Definition ed25519_public_name : Text := [x2d; x65; x64; x32; x35; x35; x31; x39; x2e; x70; x75; x62; x6c; x69; x63].
Definition x25519_public_name : Text := [x2d; x78; x32; x35; x35; x31; x39; x2e; x70; x75; x62; x6c; x69; x63].

(** [main]: whether the directory could be made, and the two outcomes of
    [getrandom::fill]. *)
Definition keygen (output : Text) (kind : KeyKind) (prefix : option Text) (directory : bool)
    (ed_seed x_secret : option (array 32)) : M Directory KeygenError unit :=
  if negb directory then fail KeygenError.Directory else
  ed_seed ← lift (ok_or ed_seed KeygenError.Randomness);
  x_secret ← lift (ok_or x_secret KeygenError.Randomness);
  let prefix := default (default_prefix kind) prefix in
  if bool_decide (prefix = []) || negb (forallb prefix_byte prefix) then fail KeygenError.Prefix else
  write_private (join output (prefix ++ ed25519_secret)) (vec_to_list ed_seed);;
  write_private (join output (prefix ++ x25519_secret)) (vec_to_list x_secret);;
  write_public (join output (prefix ++ ed25519_public_name)) (vec_to_list (ed25519_public ed_seed));;
  write_public (join output (prefix ++ x25519_public_name)) (vec_to_list (x25519_public x_secret)).

(** [fs::read_to_string] *)
Definition read_file (d : Directory) (path : Text) : option Text := file_text <$> dir_files d !! path.
End keygen.

(** ** What is written reads back *)

Lemma hex_digit_stops fuel (spaces : list Text) b text :
  hex_digit b = true -> Forall (fun w => match w with [] => False | a :: _ => hex_digit a = false end) spaces ->
  trim_front fuel spaces (b :: text) = b :: text.
Proof.
  intros Hb Hall. destruct fuel as [|fuel]; [done|]. cbn [trim_front].
  destruct (find _ spaces) as [w|] eqn:Hfind; [|done].
  apply find_some in Hfind as [Hin Hw%bool_decide_eq_true].
  rewrite Forall_forall in Hall. apply list_elem_of_In in Hin. specialize (Hall w Hin).
  destruct w as [|a w]; [done|]. cbn [length take] in Hw. injection Hw as Hab _. congruence.
Qed.

Lemma trim_line text : text <> [] -> Forall (fun b => hex_digit b = true) text -> trim (text ++ [x0a]) = text.
Proof.
  intros Hne Hall. unfold trim.
  assert (trim_front (length (text ++ [x0a])) whitespace (text ++ [x0a]) = text ++ [x0a]) as ->.
  { destruct text as [|b text]; [done|]. apply Forall_cons in Hall as [Hb _]. cbn [app].
    apply hex_digit_stops; [done|]. repeat constructor. }
  cbn zeta. rewrite length_app, reverse_app, Nat.add_1_r. cbn [length trim_front app].
  change (reverse [x0a]) with [x0a]. cbn [app].
  assert (exists w, find (fun w => bool_decide (take (length w) (x0a :: reverse text) = w)) (reverse <$> whitespace) = Some w
    /\ w = [x0a]) as (w & -> & ->).
  { exists [x0a]. split; [|done]. cbn. done. }
  cbn [length drop]. rewrite <-(reverse_involutive text) at 3. f_equal.
  destruct (reverse text) as [|b rest] eqn:Hr.
  { by apply (f_equal reverse) in Hr; rewrite reverse_involutive in Hr. }
  apply hex_digit_stops; [|repeat constructor].
  rewrite <-Forall_reverse, Hr in Hall. by apply Forall_cons in Hall as [? _].
Qed.

Section facts.
Context `{Crypto, HexLaws}.

Lemma read_written n (v : array n) private path d : n <> 0 ->
  dir_files d !! path = Some (mkFile private (hex_encode (vec_to_list v) ++ [x0a])) ->
  read_hex_file n (read_file d) path = Ok v.
Proof.
  intros Hn Hf. unfold read_hex_file, read_file. rewrite Hf. cbn [fmap option_fmap option_map ok_or file_text].
  rewrite bind_Ok, trim_line.
  - unfold decode_hex. rewrite hex_roundtrip. cbn [ok_or]. rewrite bind_Ok. by rewrite to_array_to_list.
  - intros Hnil. pose proof (hex_length (vec_to_list v)) as Hlen. rewrite Hnil, length_vec_to_list in Hlen.
    cbn in Hlen. lia.
  - apply hex_digits.
Qed.

(** [create_new] leaves every other file alone, and the file itself if it exists. *)
Lemma write_new_spec private path bytes d r d' : write_new private path bytes d = (r, d') ->
  dir_files d ⊆ dir_files d' /\ r <> Panic /\
  (forall p, is_Some (dir_files d' !! p) -> is_Some (dir_files d !! p) \/ p = path) /\
  (r = Ok tt -> dir_files d' !! path = Some (mkFile private (hex_encode bytes ++ [x0a]))).
Proof.
  unfold write_new. destruct (match dir_outcomes d with [] => _ | _ => _ end) as [outcome rest].
  destruct (dir_files d !! path) as [f|] eqn:Hf.
  { intros [= <- <-]. split; [done|]. split; [done|]. split; [by left|done]. }
  assert (forall f, dir_files d ⊆ <[path := f]> (dir_files d)) as Hsub by (intros f; by apply insert_subseteq).
  assert (forall f p, is_Some (<[path := f]> (dir_files d) !! p) -> is_Some (dir_files d !! p) \/ p = path) as Hnew.
  { intros f p [g [[-> _]|[_ ?]]%lookup_insert_Some]; [by right|left; by eexists]. }
  destruct outcome as [| |n]; intros [= <- <-]; cbn [dir_files].
  - split; [done|]. split; [done|]. split; [apply Hnew|]. intros _. apply lookup_insert_eq.
  - split; [done|]. split; [done|]. split; [by left|done].
  - split; [done|]. split; [done|]. split; [apply Hnew|done].
Qed.

(** The four names, each with whether the file is private and what it holds. *)
Definition key_files (ed x : array 32) : list (Text * bool * array 32) :=
  [(ed25519_secret, true, ed); (x25519_secret, true, x);
   (ed25519_public_name, false, ed25519_public ed); (x25519_public_name, false, x25519_public x)].

Fixpoint write_keys (output prefix : Text) (files : list (Text * bool * array 32)) : M Directory KeygenError unit :=
  match files with
  | [] => mret tt
  | (name, private, v) :: files' =>
      write_new private (join output (prefix ++ name)) (vec_to_list v);; write_keys output prefix files'
  end.

Lemma write_keys_spec output prefix files : forall d r d', write_keys output prefix files d = (r, d') ->
  dir_files d ⊆ dir_files d' /\ r <> Panic /\
  (forall p, is_Some (dir_files d' !! p) -> is_Some (dir_files d !! p) \/
     exists name, name ∈ files.*1.*1 /\ p = join output (prefix ++ name)) /\
  (r = Ok tt -> Forall (fun f => dir_files d' !! join output (prefix ++ f.1.1) =
     Some (mkFile f.1.2 (hex_encode (vec_to_list f.2) ++ [x0a]))) files).
Proof.
  induction files as [|[[name private] v] files IH]; intros d r d'; cbn [write_keys].
  { intros [= <- <-]. split; [done|]. split; [done|]. split; [by left|constructor]. }
  rewrite M_bind_run. destruct (write_new _ _ _ d) as [r1 d1] eqn:Hw.
  apply write_new_spec in Hw as (Hsub & Hp & Hnew & Hok).
  assert (r1 = Ok tt \/ r1 <> Ok tt) as [->|Hr1] by (destruct r1 as [[]|e|]; auto).
  - intros (Hsub' & Hp' & Hnew' & Hok')%IH. split; [by etrans|]. split; [done|]. split.
    + intros p [[?| ->]%Hnew|(n & Hn & ->)]%Hnew'; [by left|right|right].
      * exists name. split; [by left|done].
      * exists n. split; [by right|done].
    + intros Hr. constructor; [|by apply Hok']. cbn [fst snd]. eapply lookup_weaken; [|exact Hsub']. by apply Hok.
  - intros Hrun. assert (r <> Ok tt /\ r <> Panic /\ d' = d1) as (Hr & Hr' & ->).
    { destruct r1 as [[]|e|]; [done| |done]. by injection Hrun as <- <-. }
    split; [done|]. split; [done|]. split; [|done].
    intros p [?| ->]%Hnew; [by left|right]. exists name. split; [by left|done].
Qed.

(** A prefix that passes the check. *)
Definition good_prefix (prefix : Text) : Prop := prefix <> [] /\ Forall (fun b => prefix_byte b = true) prefix.

Lemma keygen_run output kind prefix directory ed_seed x_secret d r d' :
  keygen output kind prefix directory ed_seed x_secret d = (r, d') ->
  (d' = d /\ exists e, r = Err e) \/
  exists ed x, ed_seed = Some ed /\ x_secret = Some x /\ good_prefix (default (default_prefix kind) prefix) /\
    write_keys output (default (default_prefix kind) prefix) (key_files ed x) d = (r, d').
Proof.
  unfold keygen. destruct directory; cbn [negb]; [|intros [= <- <-]; eauto].
  rewrite M_bind_run. unfold lift at 1. destruct ed_seed as [ed|]; cbn [ok_or]; [|intros [= <- <-]; eauto].
  rewrite M_bind_run. unfold lift. destruct x_secret as [x|]; cbn [ok_or]; [|intros [= <- <-]; eauto].
  cbn zeta. set (p := default _ prefix). destruct (_ || _) eqn:Hp; [intros [= <- <-]; eauto|].
  apply orb_false_iff in Hp as [Hne%bool_decide_eq_false Hall%negb_false_iff]. intros Hrun. right.
  exists ed, x. do 2 (split; [done|]). split.
  - split; [done|]. apply Forall_forall. intros b Hb. eapply forallb_forall in Hall; [exact Hall|].
    by apply list_elem_of_In.
  - rewrite <-Hrun. unfold key_files, write_private, write_public. cbn [write_keys].
    repeat (rewrite !M_bind_run; destruct (write_new _ _ _ _) as [[[]|e|] ?]; [|done..]). done.
Qed.

(** No separator: the files are in the directory itself. *)
Lemma good_name prefix ed x name : good_prefix prefix -> name ∈ (key_files ed x).*1.*1 -> x2f ∉ prefix ++ name.
Proof.
  intros [_ Hp] Hn. rewrite elem_of_app. intros [Hin|Hin].
  - rewrite Forall_forall in Hp. by apply Hp in Hin.
  - cbn in Hn. repeat (apply elem_of_cons in Hn as [->|Hn]; [revert Hin; apply (bool_decide_eq_false _); reflexivity|]).
    by apply elem_of_nil in Hn.
Qed.
End facts.

(** ** The property *)

(** C25: Generated keys are whole, private and load. Whatever fails, the generator changes
    no file that exists and makes none outside of its directory; if it succeeds, the
    secrets are in files for the owner only, and reading the files returns the secrets
    and their public keys. An agent configured with its generated secrets and the
    generated public keys of the CA loads exactly these keys. *)
Theorem generated_keys_load `{Crypto, HexLaws} ca_output ca_prefix ca_ed ca_x d r d1 :
  keygen ca_output KeyKind.Ca ca_prefix true (Some ca_ed) (Some ca_x) d = (r, d1) ->
  let ca_path name := join ca_output (default (default_prefix KeyKind.Ca) ca_prefix ++ name) in
  dir_files d ⊆ dir_files d1 /\ r <> Panic /\
  (forall p, is_Some (dir_files d1 !! p) -> is_Some (dir_files d !! p) \/
     exists name, p = join ca_output name /\ x2f ∉ name) /\
  (r = Ok tt ->
    read_hex_file 32 (read_file d1) (ca_path ed25519_secret) = Ok ca_ed /\
    read_hex_file 32 (read_file d1) (ca_path x25519_secret) = Ok ca_x /\
    (file_private <$> dir_files d1 !! ca_path ed25519_secret) = Some true /\
    (file_private <$> dir_files d1 !! ca_path x25519_secret) = Some true /\
    forall output prefix ed x d2 config id,
      keygen output KeyKind.Agent prefix true (Some ed) (Some x) d1 = (Ok tt, d2) ->
      let path name := join output (default (default_prefix KeyKind.Agent) prefix ++ name) in
      decode_hex 16 (ac_agent_id config) = Ok id ->
      ac_ed25519_secret_file config = path ed25519_secret ->
      ac_x25519_secret_file config = path x25519_secret ->
      ac_ca_ed25519_public_file config = ca_path ed25519_public_name ->
      ac_ca_x25519_public_file config = ca_path x25519_public_name ->
      load_agent (read_file d2) config =
        Ok (mkAgent (mkAgentId id) (AgentKeys_from_seeds ed x)
              (mkCaPublicKeys (ed25519_public ca_ed) (x25519_public ca_x)))).
Proof.
  intros Hrun ca_path. apply keygen_run in Hrun as [(-> & e & ->)|(? & ? & [= <-] & [= <-] & Hp & Hrun)].
  { split; [done|]. split; [done|]. split; [by left|done]. }
  apply write_keys_spec in Hrun as (Hsub & Hpanic & Hnew & Hok). split; [done|]. split; [done|]. split.
  - intros p [?|(name & Hn & ->)]%Hnew; [by left|right]. eexists. split; [reflexivity|]. by eapply good_name.
  - intros ->. specialize (Hok eq_refl). unfold key_files in Hok.
    rewrite !Forall_cons in Hok. cbn [fst snd] in Hok. destruct Hok as (Hes & Hxs & Hep & Hxp & _).
    split; [by eapply read_written|]. split; [by eapply read_written|].
    split; [unfold ca_path; by rewrite Hes|]. split; [unfold ca_path; by rewrite Hxs|].
    intros output prefix ed x d2 config id Hrun path Hid Hf1 Hf2 Hf3 Hf4.
    apply keygen_run in Hrun as [(_ & e & [=])|(? & ? & [= <-] & [= <-] & _ & Hrun)].
    apply write_keys_spec in Hrun as (Hsub2 & _ & _ & Hok2). specialize (Hok2 eq_refl). unfold key_files in Hok2.
    rewrite !Forall_cons in Hok2. cbn [fst snd] in Hok2. destruct Hok2 as (Hes2 & Hxs2 & _).
    eapply lookup_weaken in Hep; [|exact Hsub2]. eapply lookup_weaken in Hxp; [|exact Hsub2].
    unfold load_agent. rewrite Hid, Hf1, Hf2, Hf3, Hf4, !bind_Ok.
    assert (32 <> 0) as Hn by done.
    rewrite (read_written 32 ed true (path ed25519_secret) d2 Hn Hes2), bind_Ok.
    rewrite (read_written 32 x true (path x25519_secret) d2 Hn Hxs2), bind_Ok.
    rewrite (read_written 32 _ false (ca_path ed25519_public_name) d2 Hn Hep), bind_Ok.
    by rewrite (read_written 32 _ false (ca_path x25519_public_name) d2 Hn Hxp).
Qed.

(** The hexadecimal digits of [ConfigExample], and a CA and an agent in one directory. *)
Module KeygenExample.
#[local] Existing Instance Toy.crypto.
#[local] Existing Instance ConfigExample.hex.
Definition nibble (n : N) : byte := byte_of (if (n <? 10)%N then 48 + n else 87 + n)%N.
#[global] Instance encode : HexEncode := {
  hex_encode bytes := concat ((fun b => [nibble (byte_val b / 16); nibble (byte_val b mod 16)]) <$> bytes);
}.

Lemma digits_encode bytes : ConfigExample.digits (hex_encode bytes) = Some bytes.
Proof.
  induction bytes as [|b bytes IH]; [done|]. cbn [hex_encode encode fmap list_fmap concat app ConfigExample.digits] in *.
  rewrite IH. clear IH. by destruct b.
Qed.

#[global] Instance hex_laws : HexLaws.
Proof.
  split.
  - apply digits_encode.
  - intros bytes. induction bytes as [|b bytes IH]; [constructor|].
    cbn [hex_encode encode fmap list_fmap concat app] in *. repeat (apply Forall_cons; split; [by destruct b|]). exact IH.
  - intros bytes. induction bytes as [|b bytes IH]; [done|].
    cbn [hex_encode encode fmap list_fmap concat app length] in *. rewrite IH. lia.
Qed.

Definition output : Text := [x6b].
Definition empty : Directory := mkDirectory ∅ [].
Definition ca_ed : array 32 := vreplicate 32 x11.
Definition ca_x : array 32 := vreplicate 32 x12.
Definition ed : array 32 := vreplicate 32 x13.
Definition x : array 32 := vreplicate 32 x14.
Definition made := keygen output KeyKind.Ca None true (Some ca_ed) (Some ca_x) empty.
Definition made2 := keygen output KeyKind.Agent None true (Some ed) (Some x) made.2.
Definition path (kind : KeyKind) (name : Text) : Text := join output (default_prefix kind ++ name).
Definition config : AgentConfig := mkAgentConfig (replicate 32 x31) 10 1 30
  (path KeyKind.Agent ed25519_secret) (path KeyKind.Agent x25519_secret)
  (path KeyKind.Ca ed25519_public_name) (path KeyKind.Ca x25519_public_name).
End KeygenExample.

Lemma generated_keys_load_witness :
  load_agent (H:=ConfigExample.hex) (read_file KeygenExample.made2.2) KeygenExample.config =
    Ok (mkAgent (mkAgentId (vreplicate 16 x11))
      (AgentKeys_from_seeds KeygenExample.ed KeygenExample.x)
      (mkCaPublicKeys (ed25519_public (Crypto:=Toy.crypto) KeygenExample.ca_ed)
         (x25519_public (Crypto:=Toy.crypto) KeygenExample.ca_x))).
Proof.
  destruct (generated_keys_load (H:=Toy.crypto) (H2:=KeygenExample.hex_laws) KeygenExample.output None
    KeygenExample.ca_ed KeygenExample.ca_x KeygenExample.empty KeygenExample.made.1 KeygenExample.made.2)
    as (_ & _ & _ & Hok); [reflexivity|].
  destruct Hok as (_ & _ & _ & _ & Hload); [vm_compute; reflexivity|].
  apply (Hload KeygenExample.output None KeygenExample.ed KeygenExample.x KeygenExample.made2.2 KeygenExample.config
    (vreplicate 16 x11)); try reflexivity.
Defined.
