(* ===== verification/Persist.v ===== *)
(** ca-core/src/lib.rs: the snapshot file and the file-backed store. *)

From S2P Require Export CaStore.

(** ** The file system

    What [std::fs] does to the snapshot and its temporary sibling. Each system call
    takes the next entry of a list of outcomes: it works, fails (a write may have
    written a part), or the process stops during it, killed or with its machine, which
    is [Panic]: it does not go on. A list that has ended works.

    What the process sees is not what the medium holds. The bytes of a file are on the
    medium once the file has been synced; before that a stop of the machine may leave
    anything in it. A rename is on the medium once the directory has been synced; before
    that a stop of the machine may leave the path with any of the files it named since. *)

Inductive Fault :=
| Works
| Fails (partial : list byte)
| Stops (partial : list byte) (done : bool).

Record Contents := mkContents { ct_bytes : list byte; ct_synced : bool }.

Record Disk := mkDisk {
  disk_file : option Contents;
  disk_temporary : option Contents;
  disk_former : list (option Contents);   (* what the path may still name on the medium *)
  disk_faults : list Fault;
}.

(** The outcome of the next system call. *)
Definition next_fault {E} : M Disk E Fault := fun d =>
  (Ok (hd Works (disk_faults d)),
   mkDisk (disk_file d) (disk_temporary d) (disk_former d) (tl (disk_faults d))).

Definition set_temporary {E} (f : option Contents) : M Disk E unit :=
  modify (fun d => mkDisk (disk_file d) f (disk_former d) (disk_faults d)).
Definition sync_temporary {E} : M Disk E unit :=
  modify (fun d => mkDisk (disk_file d) ((fun c => mkContents (ct_bytes c) true) <$> disk_temporary d)
    (disk_former d) (disk_faults d)).
Definition rename_temporary {E} : M Disk E unit :=
  modify (fun d => mkDisk (disk_temporary d) None (disk_former d ++ [disk_file d]) (disk_faults d)).
Definition forget_former {E} : M Disk E unit :=
  modify (fun d => mkDisk (disk_file d) (disk_temporary d) [] (disk_faults d)).
Definition stop {E A} : M Disk E A := fun d => (Panic, d).

(** [options.open(&temporary)] with [create_new(true)]: fails on an existing file. *)
Definition open_create_new : M Disk Error unit :=
  fault ← next_fault;
  temporary ← gets disk_temporary;
  match fault with
  | Works => match temporary with
             | Some _ => fail Error.Capacity
             | None => set_temporary (Some (mkContents [] false))
             end
  | Fails _ => fail Error.Capacity
  | Stops _ created =>
      (if created && bool_decide (temporary = None) then set_temporary (Some (mkContents [] false))
       else mret tt);; stop
  end.

(** [file.write_all(bytes)] *)
Definition write_all (bytes : list byte) : M Disk Error unit :=
  fault ← next_fault;
  match fault with
  | Works => set_temporary (Some (mkContents bytes false))
  | Fails partial => set_temporary (Some (mkContents partial false));; fail Error.Capacity
  | Stops partial _ => set_temporary (Some (mkContents partial false));; stop
  end.

(** [file.sync_all()] *)
Definition sync_all : M Disk Error unit :=
  fault ← next_fault;
  match fault with
  | Works => sync_temporary
  | Fails _ => fail Error.Capacity
  | Stops _ synced => (if synced : bool then sync_temporary else mret tt);; stop
  end.

(** [fs::rename(&temporary, &self.path)]: atomic. *)
Definition rename : M Disk Error unit :=
  fault ← next_fault;
  match fault with
  | Works => rename_temporary
  | Fails _ => fail Error.Capacity
  | Stops _ renamed => (if renamed : bool then rename_temporary else mret tt);; stop
  end.

(** The parent directory is opened and synced, if it can be: a failure is ignored. *)
Definition sync_directory : M Disk Error unit :=
  fault ← next_fault;
  match fault with
  | Works => forget_former
  | Fails _ => mret tt
  | Stops _ synced => (if synced : bool then forget_former else mret tt);; stop
  end.

(** [16 * 1024 * 1024] *)
Definition MAX_SNAPSHOT_LEN : N := 16777216.

Definition SnapshotFile_commit (bytes : list byte) : M Disk Error unit :=
  if (MAX_SNAPSHOT_LEN <? N.of_nat (length bytes))%N then fail Error.Oversized else
  open_create_new;;
  write_all bytes;;
  sync_all;;
  rename;;
  sync_directory;;
  mret tt.

Definition SnapshotFile_load : M Disk Error (option (list byte)) :=
  fault ← next_fault;
  file ← gets disk_file;
  match fault with
  | Works =>
      match file with
      | Some contents =>
          if (N.of_nat (length (ct_bytes contents)) <=? MAX_SNAPSHOT_LEN)%N
          then mret (Some (ct_bytes contents))
          else fail Error.Oversized
      | None => mret None
      end
  | Fails _ => fail Error.Capacity
  | Stops _ _ => stop
  end.

(** *** Starting again

    The process is killed and finds the disk as it was; or the machine has stopped, and
    the path names the file it named last or one it may still have named, with the bytes
    that were synced or with garbage, next to a temporary of which nothing is known. The
    system calls from then on have outcomes of their own. *)
Inductive Restart :=
| ProcessRestarts
| MachineRestarts (found : nat) (garbage : list byte) (temporary : option (list byte)).

Definition found_contents (garbage : list byte) (c : Contents) : Contents :=
  mkContents (if ct_synced c then ct_bytes c else garbage) true.

Definition restart (how : Restart) (faults : list Fault) (d : Disk) : Disk :=
  match how with
  | ProcessRestarts => mkDisk (disk_file d) (disk_temporary d) (disk_former d) faults
  | MachineRestarts found garbage temporary =>
      mkDisk (found_contents garbage <$> default (disk_file d) (disk_former d !! found))
        ((fun bytes => mkContents bytes true) <$> temporary) [] faults
  end.

(** ** The persistent state and its encoding *)

Record PersistentState := mkState {
  st_keys : gmap AgentId PublicKeys;
  st_environments : gmap AgentId (list byte);
  st_subscriptions : buckets;
  st_replay : ReplayCache;
}.

(** The order in which a [BTreeMap] is iterated. *)
Definition entry_le {K V} (cmp : K -> K -> comparison) (a b : K * V) : Prop := cmp a.1 b.1 <> Gt.
#[export] Instance entry_le_dec {K V} (cmp : K -> K -> comparison) : RelDecision (entry_le (V:=V) cmp).
Proof. intros a b. unfold entry_le. solve_decision. Defined.

Definition btree_iter {K V} `{Countable K} (cmp : K -> K -> comparison) (m : gmap K V) : list (K * V) :=
  merge_sort (entry_le cmp) (map_to_list m).

Definition agent_compare (a b : AgentId) : comparison :=
  bytes_compare (vec_to_list (agent_bytes a)) (vec_to_list (agent_bytes b)).
Definition type_compare (a b : TypeId) : comparison := (type_raw a ?= type_raw b)%N.
Definition replay_key_compare (a b : replay_key) : comparison :=
  match agent_compare a.1 b.1 with
  | Eq => bytes_compare (vec_to_list (session_bytes a.2)) (vec_to_list (session_bytes b.2))
  | o => o
  end.

(** [b"SPSTATE1"] *)
Definition STATE_MAGIC : list byte := [x53; x50; x53; x54; x41; x54; x45; x31].

Definition push_u32 (output : list byte) (value : nat) : Res (list byte) :=
  v ← ok_or (try_from_usize u32_max value) Error.Oversized;
  Ok (output ++ to_be 4 v).

Definition push_bytes (output value : list byte) : Res (list byte) :=
  output ← push_u32 output (length value);
  Ok (output ++ value).

(** A [for] loop whose body extends the output. *)
Fixpoint push_each {A} (push : list byte -> A -> Res (list byte)) (l : list A) (output : list byte) :
    Res (list byte) :=
  match l with
  | [] => Ok output
  | a :: l' => output' ← push output a; push_each push l' output'
  end.

Definition push_key (output : list byte) (entry : AgentId * PublicKeys) : Res (list byte) :=
  Ok (((output ++ vec_to_list (agent_bytes entry.1)) ++ vec_to_list (pk_ed25519 entry.2))
        ++ vec_to_list (pk_x25519 entry.2)).

Definition push_environment (output : list byte) (entry : AgentId * list byte) : Res (list byte) :=
  push_bytes (output ++ vec_to_list (agent_bytes entry.1)) entry.2.

Definition push_subscription (output : list byte) (s : StoredSubscription) : Res (list byte) :=
  push_bytes (((output ++ vec_to_list (agent_bytes (sub_subscriber s)))
                 ++ to_be 4 (type_raw (sub_type_id s)))
                ++ vec_to_list (handler_bytes (sub_handler s)))
    (sub_encoded s).

Definition push_replay (output : list byte) (entry : replay_key * N) : Res (list byte) :=
  Ok (((output ++ vec_to_list (agent_bytes entry.1.1)) ++ vec_to_list (session_bytes entry.1.2))
        ++ to_be 8 entry.2).

Definition encode_state (state : PersistentState) : Res (list byte) :=
  output ← push_u32 STATE_MAGIC (size (st_keys state));
  output ← push_each push_key (btree_iter agent_compare (st_keys state)) output;
  output ← push_u32 output (size (st_environments state));
  output ← push_each push_environment (btree_iter agent_compare (st_environments state)) output;
  output ← push_u32 output (count_subscriptions (st_subscriptions state));
  output ← push_each (fun output bucket => push_each push_subscription bucket.2 output)
             (btree_iter type_compare (st_subscriptions state)) output;
  output ← push_u32 output (size (rc_entries (st_replay state)));
  push_each push_replay (btree_iter replay_key_compare (rc_entries (st_replay state))) output.

(** *** Decoding

    [StateCursor] is the same structure as the cursor of protocol-core, and [take]
    and [array] are the same code. *)

Definition state_take (len : nat) : M Cursor Error (list byte) := cursor_take len.
Definition state_array (n : nat) : M Cursor Error (array n) := cursor_array n.

Definition state_count (maximum : nat) : M Cursor Error nat :=
  value ← (a ← state_array 4; mret (from_be (vec_to_list a)));
  if (N.of_nat maximum <? value)%N then fail Error.Capacity else mret (N.to_nat value).

Definition state_bytes (maximum : nat) : M Cursor Error (list byte) :=
  len ← state_count maximum;
  state_take len.

(** [if map.insert(key, value).is_some() { return Err(Malformed) }] *)
Definition insert_new {K V} `{Countable K} (entry : K * V) (m : gmap K V) : M Cursor Error (gmap K V) :=
  if bool_decide (is_Some (m !! entry.1)) then fail Error.Malformed
  else mret (<[entry.1 := entry.2]> m).

(** A [for _ in 0..n] loop that reads an entry and adds it. *)
Fixpoint decode_each {A B} (read : M Cursor Error A) (add : A -> B -> M Cursor Error B) (n : nat) (acc : B) :
    M Cursor Error B :=
  match n with
  | O => mret acc
  | S n' => a ← read; acc' ← add a acc; decode_each read add n' acc'
  end.

Definition decode_key : M Cursor Error (AgentId * PublicKeys) :=
  agent ← state_array 16;
  if bool_decide (mkAgentId agent = AgentId_CA) then fail Error.Malformed else
  ed25519 ← state_array 32;
  x25519 ← state_array 32;
  mret (mkAgentId agent, mkPublicKeys ed25519 x25519).

(** [matches!(parse_operation(&encoded), Ok(OperationRef::SetEnvironment(_)))] *)
Definition is_environment (encoded : list byte) : bool :=
  match parse_operation encoded with Ok (OperationRef.SetEnvironment _) => true | _ => false end.

Definition decode_environment : M Cursor Error (AgentId * list byte) :=
  agent ← state_array 16;
  encoded ← state_bytes MAX_PLAINTEXT_LEN;
  if negb (is_environment encoded) then fail Error.Malformed else
  mret (mkAgentId agent, encoded).

(** The kind of the subscription that [encoded] is, for this type. *)
Definition subscription_kind (type_id : TypeId) (encoded : list byte) : option SubscriptionKind :=
  match parse_operation encoded with
  | Ok (OperationRef.Subscribe parsed _) =>
      if bool_decide (parsed = type_id) then Some SubscriptionKind.OneShot else None
  | Ok (OperationRef.SubscribePermanent parsed _) =>
      if bool_decide (parsed = type_id) then Some SubscriptionKind.Permanent else None
  | _ => None
  end.

Definition decode_subscription : M Cursor Error StoredSubscription :=
  subscriber ← state_array 16;
  type_id ← (a ← state_array 4; mret (from_be (vec_to_list a)));
  handler ← state_array 16;
  encoded ← state_bytes MAX_PLAINTEXT_LEN;
  kind ← lift (ok_or (subscription_kind (mkTypeId type_id) encoded) Error.Malformed);
  if bool_decide (mkHandlerId handler = HandlerId_NONE) then fail Error.Malformed else
  mret (mkSubscription (mkAgentId subscriber) (mkTypeId type_id) (mkHandlerId handler) kind encoded).

(** [subscriptions.entry(type_id).or_default().push(..)] *)
Definition push_bucket (s : StoredSubscription) (m : buckets) : buckets :=
  <[sub_type_id s := default [] (m !! sub_type_id s) ++ [s]]> m.

Definition decode_replay : M Cursor Error (replay_key * N) :=
  sender ← state_array 16;
  session ← state_array 16;
  expires ← (a ← state_array 8; mret (from_be (vec_to_list a)));
  mret ((mkAgentId sender, mkSessionId session), expires).

Definition decode_body (limits : StoreLimits) : M Cursor Error PersistentState :=
  magic ← state_take 8;
  if negb (bool_decide (magic = STATE_MAGIC)) then fail Error.Malformed else
  key_count ← state_count (lim_agents limits);
  keys ← decode_each decode_key insert_new key_count ∅;
  environment_count ← state_count (lim_environments limits);
  environments ← decode_each decode_environment insert_new environment_count ∅;
  subscription_count ← state_count (lim_subscriptions limits);
  subscriptions ← decode_each decode_subscription (fun s m => mret (push_bucket s m))
                    subscription_count ∅;
  replay_count ← state_count (lim_replays limits);
  entries ← decode_each decode_replay insert_new replay_count ∅;
  mret (mkState keys environments subscriptions
    (mkReplayCache entries (lim_replays limits) (lim_replay_ttl_seconds limits))).

Definition decode_state (input : list byte) (limits : StoreLimits) : Res PersistentState :=
  fst ((state ← decode_body limits;
        position ← gets cursor_position;
        if negb (position =? length input) then fail Error.Malformed else mret state)
       (Cursor_new input)).

(** ** The file-backed store

    Every mutation clones the state, changes the clone, commits it to the file
    and only then publishes it; the transaction lock makes it one step. *)

Record PersistentStore := mkPersistent {
  ps_state : PersistentState;
  ps_snapshot : Disk;
  ps_limits : StoreLimits;
}.

Definition state_empty (limits : StoreLimits) : PersistentState :=
  mkState ∅ ∅ ∅ (ReplayCache_new (lim_replays limits) (lim_replay_ttl_seconds limits)).

(** [PersistentStore::open] on the disk that holds the path. *)
Definition PersistentStore_open (limits : StoreLimits) (disk : Disk) : Res PersistentStore :=
  let '(loaded, disk') := SnapshotFile_load disk in
  bytes ← loaded;
  state ← match bytes with
          | Some bytes => decode_state bytes limits
          | None => Ok (state_empty limits)
          end;
  Ok (mkPersistent state disk' limits).

Definition on_snapshot {A} (m : M Disk Error A) : M PersistentStore Error A :=
  zoom ps_snapshot (fun d s => mkPersistent (ps_state s) d (ps_limits s)) m.

Definition PersistentStore_commit (next : PersistentState) : M PersistentStore Error unit :=
  encoded ← lift (encode_state next);
  on_snapshot (SnapshotFile_commit encoded);;
  modify (fun s => mkPersistent next (ps_snapshot s) (ps_limits s)).

Definition with_keys (k : gmap AgentId PublicKeys) (st : PersistentState) : PersistentState :=
  mkState k (st_environments st) (st_subscriptions st) (st_replay st).
Definition with_environments (e : gmap AgentId (list byte)) (st : PersistentState) : PersistentState :=
  mkState (st_keys st) e (st_subscriptions st) (st_replay st).
Definition with_subscriptions (m : buckets) (st : PersistentState) : PersistentState :=
  mkState (st_keys st) (st_environments st) m (st_replay st).
Definition with_replay (r : ReplayCache) (st : PersistentState) : PersistentState :=
  mkState (st_keys st) (st_environments st) (st_subscriptions st) r.

Definition PersistentStore_keys (agent : AgentId) : M PersistentStore Error PublicKeys :=
  state ← gets ps_state;
  lift (ok_or (st_keys state !! agent) Error.BadSignature).

Definition PersistentStore_provision (agent : AgentId) (k : PublicKeys) : M PersistentStore Error unit :=
  if bool_decide (agent = AgentId_CA) then fail Error.Malformed else
  next ← gets ps_state;
  limits ← gets ps_limits;
  if negb (bool_decide (is_Some (st_keys next !! agent))) && (lim_agents limits <=? size (st_keys next))
  then fail Error.Capacity else
  PersistentStore_commit (with_keys (<[agent := k]> (st_keys next)) next).

Definition PersistentStore_environment (agent : AgentId) : M PersistentStore Error (option (list byte)) :=
  state ← gets ps_state;
  mret (st_environments state !! agent).

Definition PersistentStore_set_environment (agent : AgentId) (encoded : list byte) :
    M PersistentStore Error unit :=
  if negb (is_environment encoded) then fail Error.Malformed else
  next ← gets ps_state;
  limits ← gets ps_limits;
  if negb (bool_decide (is_Some (st_environments next !! agent)))
     && (lim_environments limits <=? size (st_environments next))
  then fail Error.Capacity else
  PersistentStore_commit (with_environments (<[agent := encoded]> (st_environments next)) next).

Definition PersistentStore_put_subscription (subscription : StoredSubscription) :
    M PersistentStore Error unit :=
  let type_id := sub_type_id subscription in
  if negb (bool_decide (subscription_kind type_id (sub_encoded subscription)
                        = Some (sub_kind subscription)))
  then fail Error.Malformed else
  next ← gets ps_state;
  limits ← gets ps_limits;
  let count := count_subscriptions (st_subscriptions next) in
  let bucket := default [] (st_subscriptions next !! type_id) in
  match find_entry subscription bucket with
  | Some index =>
      PersistentStore_commit (with_subscriptions
        (<[type_id := <[index := subscription]> bucket]> (st_subscriptions next)) next)
  | None =>
      if lim_subscriptions limits <=? count then fail Error.Capacity else
      PersistentStore_commit (with_subscriptions
        (<[type_id := sort_bucket (bucket ++ [subscription])]> (st_subscriptions next)) next)
  end.

Definition PersistentStore_subscriptions_for (type_id : TypeId) :
    M PersistentStore Error (list StoredSubscription) :=
  state ← gets ps_state;
  mret (default [] (st_subscriptions state !! type_id)).

Definition PersistentStore_claim_subscription (subscription : StoredSubscription) :
    M PersistentStore Error bool :=
  next ← gets ps_state;
  if bool_decide (sub_kind subscription = SubscriptionKind.Permanent) then
    mret match st_subscriptions next !! sub_type_id subscription with
         | Some bucket => bool_decide (subscription ∈ bucket)
         | None => false
         end
  else
  match st_subscriptions next !! sub_type_id subscription with
  | None => mret false
  | Some bucket =>
      match position subscription bucket with
      | None => mret false
      | Some index =>
          PersistentStore_commit (with_subscriptions
            (<[sub_type_id subscription := delete index bucket]> (st_subscriptions next)) next);;
          mret true
      end
  end.

Definition PersistentStore_check_and_mark (sender : AgentId) (session : SessionId)
    (now_seconds : N) : M PersistentStore Error unit :=
  next ← gets ps_state;
  match ReplayCache_check_and_mark sender session now_seconds (st_replay next) with
  | (Ok _, replay) => PersistentStore_commit (with_replay replay next)
  | (Err e, _) => fail e
  | (Panic, _) => lift Panic
  end.

#[export] Instance PersistentStore_ca : CaStore PersistentStore := {
  ca_directory := {| keys := PersistentStore_keys; provision := PersistentStore_provision |};
  ca_environments := {| environment := PersistentStore_environment;
                        set_environment := PersistentStore_set_environment |};
  ca_subscriptions := {| put_subscription := PersistentStore_put_subscription;
                         subscriptions_for := PersistentStore_subscriptions_for;
                         claim_subscription := PersistentStore_claim_subscription |};
  ca_replay := {| check_and_mark := PersistentStore_check_and_mark |};
}.

(** *** Reconciliation with a configured directory *)

(** The loop over [configured]. *)
Fixpoint configured_keys (configured : list (AgentId * PublicKeys)) (k : gmap AgentId PublicKeys) :
    Res (gmap AgentId PublicKeys) :=
  match configured with
  | [] => Ok k
  | (agent, public_keys) :: configured' =>
      if bool_decide (agent = AgentId_CA) || bool_decide (is_Some (k !! agent))
      then Err Error.Malformed
      else configured_keys configured' (<[agent := public_keys]> k)
  end.

(** [unchanged]: provisioned before and after, with the same keys. *)
Definition unchanged (previous k : gmap AgentId PublicKeys) (agent : AgentId) : bool :=
  match previous !! agent, k !! agent with
  | Some old, Some new => bool_decide (old = new)
  | _, _ => false
  end.

Definition retain_agents (keep : AgentId -> bool) (k : gmap AgentId PublicKeys)
    (st : PersistentState) : PersistentState :=
  mkState k
    (filter (fun kv => keep kv.1) (st_environments st))
    (filter (fun kv => kv.2 <> [])
       ((fun bucket => filter (fun s => keep (sub_subscriber s)) bucket) <$> st_subscriptions st))
    (mkReplayCache (filter (fun kv => keep kv.1.1) (rc_entries (st_replay st)))
       (rc_maximum (st_replay st)) (rc_ttl_seconds (st_replay st))).

Definition PersistentStore_reconcile_agents (configured : list (AgentId * PublicKeys)) :
    M PersistentStore Error unit :=
  limits ← gets ps_limits;
  if lim_agents limits <? length configured then fail Error.Capacity else
  k ← lift (configured_keys configured ∅);
  next ← gets ps_state;
  PersistentStore_commit (retain_agents (unchanged (st_keys next) k) k next).

(** ** The encoding as a word *)

(** A length-prefixed byte string. *)
Definition bytes_wire (l : list byte) : list byte := to_be 4 (N.of_nat (length l)) ++ l.

Definition key_wire (entry : AgentId * PublicKeys) : list byte :=
  vec_to_list (agent_bytes entry.1) ++ vec_to_list (pk_ed25519 entry.2)
    ++ vec_to_list (pk_x25519 entry.2).
Definition environment_wire (entry : AgentId * list byte) : list byte :=
  vec_to_list (agent_bytes entry.1) ++ bytes_wire entry.2.
Definition stored_wire (s : StoredSubscription) : list byte :=
  vec_to_list (agent_bytes (sub_subscriber s)) ++ to_be 4 (type_raw (sub_type_id s))
    ++ vec_to_list (handler_bytes (sub_handler s)) ++ bytes_wire (sub_encoded s).
Definition replay_wire (entry : replay_key * N) : list byte :=
  vec_to_list (agent_bytes entry.1.1) ++ vec_to_list (session_bytes entry.1.2) ++ to_be 8 entry.2.

(** A counted sequence. *)
Definition sequence_wire {A} (wire : A -> list byte) (l : list A) : list byte :=
  to_be 4 (N.of_nat (length l)) ++ concat (wire <$> l).

(** The entries of a state, in the order they are written. *)
Definition all_subscriptions (m : buckets) : list StoredSubscription :=
  concat ((btree_iter type_compare m).*2).

Definition state_wire (st : PersistentState) : list byte :=
  STATE_MAGIC ++ sequence_wire key_wire (btree_iter agent_compare (st_keys st))
    ++ sequence_wire environment_wire (btree_iter agent_compare (st_environments st))
    ++ sequence_wire stored_wire (all_subscriptions (st_subscriptions st))
    ++ sequence_wire replay_wire (btree_iter replay_key_compare (rc_entries (st_replay st))).

Lemma btree_iter_perm {K V} `{Countable K} cmp (m : gmap K V) : btree_iter cmp m ≡ₚ map_to_list m.
Proof. apply merge_sort_Permutation. Qed.

Lemma length_btree_iter {K V} `{Countable K} cmp (m : gmap K V) : length (btree_iter cmp m) = size m.
Proof. by rewrite btree_iter_perm, length_map_to_list. Qed.

Lemma elem_of_btree_iter {K V} `{Countable K} cmp (m : gmap K V) k v :
  (k, v) ∈ btree_iter cmp m <-> m !! k = Some v.
Proof. by rewrite btree_iter_perm, elem_of_map_to_list. Qed.

Lemma NoDup_btree_iter {K V} `{Countable K} cmp (m : gmap K V) : NoDup (btree_iter cmp m).*1.
Proof. rewrite btree_iter_perm. apply NoDup_fst_map_to_list. Qed.

Lemma list_to_map_btree_iter {K V} `{Countable K} cmp (m : gmap K V) :
  list_to_map (btree_iter cmp m) = m.
Proof.
  rewrite (list_to_map_proper _ (map_to_list m)); [apply list_to_map_to_list| |apply btree_iter_perm].
  apply NoDup_btree_iter.
Qed.

Lemma length_concat_perm {A B} (l k : list (A * list B)) :
  l ≡ₚ k -> length (concat l.*2) = length (concat k.*2).
Proof. induction 1 as [|[] l k _ IH|[? x] [? y] l|]; cbn; rewrite ?length_app; lia. Qed.

Lemma count_all m : count_subscriptions m = length (all_subscriptions m).
Proof.
  unfold all_subscriptions. rewrite (length_concat_perm _ _ (btree_iter_perm type_compare m)).
  induction m as [|ty b m Hty IH] using map_ind; [done|].
  pose proof (count_insert m ty b) as Hc. rewrite Hty in Hc. cbn in Hc.
  rewrite (length_concat_perm _ _ (map_to_list_insert m ty b Hty)). cbn. rewrite length_app. lia.
Qed.

(** ** Encoding writes the word *)

Definition fits_u32 (n : nat) : Prop := (N.of_nat n <= u32_max)%N.

(** [push a] appends [wire a], or refuses what breaks [P]. *)
Definition pushes {A} (push : list byte -> A -> Res (list byte)) (P : A -> Prop)
    (wire : A -> list byte) : Prop :=
  forall output a output', push output a = Ok output' <-> P a /\ output' = output ++ wire a.

Lemma push_u32_Ok : pushes push_u32 fits_u32 (fun n => to_be 4 (N.of_nat n)).
Proof.
  intros output n output'. unfold push_u32, try_from_usize, fits_u32.
  destruct (N.leb_spec (N.of_nat n) u32_max); cbn [ok_or]; [rewrite bind_Ok|];
    split; try (intros [= <-]); try done; [intros [_ ->]; done|intros [Hn _]; lia].
Qed.

Lemma push_bytes_Ok : pushes push_bytes (fun l => fits_u32 (length l)) bytes_wire.
Proof.
  intros output l output'. unfold push_bytes. rewrite result_bind_Ok.
  setoid_rewrite (push_u32_Ok output (length l)). unfold bytes_wire. split.
  - intros (a & [? ->] & [= <-]). by rewrite <-app_assoc.
  - intros [? ->]. eexists. split; [done|]. by rewrite <-app_assoc.
Qed.

Lemma push_each_Ok {A} (push : list byte -> A -> Res (list byte)) P wire :
  pushes push P wire -> forall l output output',
  push_each push l output = Ok output' <-> Forall P l /\ output' = output ++ concat (wire <$> l).
Proof.
  intros Hpush l. induction l as [|a l IH]; intros output output';
    cbn [push_each].
  - cbn. rewrite app_nil_r. split; [by intros [= <-]|by intros [_ ->]].
  - rewrite result_bind_Ok, Forall_cons. setoid_rewrite (Hpush output a). cbn [fmap list_fmap concat].
    split.
    + intros (o & [Ha ->] & [Hl ->]%IH). by rewrite <-app_assoc.
    + intros [[Ha Hl] ->]. eexists. split; [done|]. apply IH. by rewrite <-app_assoc.
Qed.

Lemma push_key_Ok : pushes push_key (fun _ => True) key_wire.
Proof.
  intros o a o'. unfold push_key, key_wire. rewrite <-!app_assoc.
  split; [by intros [= <-]|by intros [_ ->]].
Qed.

Lemma push_environment_Ok : pushes push_environment (fun kv => fits_u32 (length kv.2)) environment_wire.
Proof.
  intros o a o'. unfold push_environment, environment_wire.
  rewrite (push_bytes_Ok _ a.2). by rewrite <-app_assoc.
Qed.

Lemma push_subscription_Ok :
  pushes push_subscription (fun s => fits_u32 (length (sub_encoded s))) stored_wire.
Proof.
  intros o a o'. unfold push_subscription, stored_wire.
  rewrite (push_bytes_Ok _ (sub_encoded a)). by rewrite <-!app_assoc.
Qed.

Lemma push_replay_Ok : pushes push_replay (fun _ => True) replay_wire.
Proof.
  intros o a o'. unfold push_replay, replay_wire. rewrite <-!app_assoc.
  split; [by intros [= <-]|by intros [_ ->]].
Qed.

(** What [encode_state] refuses: counts and lengths beyond 32 bits. *)
Definition encodable (st : PersistentState) : Prop :=
  fits_u32 (size (st_keys st)) /\ fits_u32 (size (st_environments st)) /\
  Forall (fun kv => fits_u32 (length kv.2)) (btree_iter agent_compare (st_environments st)) /\
  fits_u32 (count_subscriptions (st_subscriptions st)) /\
  Forall (fun s => fits_u32 (length (sub_encoded s))) (all_subscriptions (st_subscriptions st)) /\
  fits_u32 (size (rc_entries (st_replay st))).

Lemma Forall_concat_iff {A} (Q : A -> Prop) (l : list (list A)) :
  Forall Q (concat l) <-> Forall (Forall Q) l.
Proof. induction l as [|x l IH]; cbn; rewrite ?Forall_nil, ?Forall_app, ?Forall_cons, ?IH; done. Qed.

Lemma concat_concat_fmap {A B} (f : A -> list B) (l : list (list A)) :
  concat ((fun x => concat (f <$> x)) <$> l) = concat (f <$> concat l).
Proof. induction l as [|x l IH]; cbn; [done|]. by rewrite IH, fmap_app, concat_app. Qed.

Lemma encode_state_Ok st output :
  encode_state st = Ok output <-> encodable st /\ output = state_wire st.
Proof.
  unfold encode_state, encodable, state_wire, sequence_wire. rewrite !length_btree_iter, <-!count_all.
  assert (pushes (fun o (b : TypeId * list StoredSubscription) => push_each push_subscription b.2 o)
    (fun b => Forall (fun s => fits_u32 (length (sub_encoded s))) b.2)
    (fun b => concat (stored_wire <$> b.2))) as Hbucket
    by (intros o b o'; apply (push_each_Ok _ _ _ push_subscription_Ok)).
  rewrite result_bind_Ok. setoid_rewrite (push_u32_Ok STATE_MAGIC (size (st_keys st))).
  setoid_rewrite result_bind_Ok. setoid_rewrite (push_each_Ok _ _ _ push_key_Ok).
  setoid_rewrite result_bind_Ok. setoid_rewrite (push_u32_Ok _ (size (st_environments st))).
  setoid_rewrite result_bind_Ok. setoid_rewrite (push_each_Ok _ _ _ push_environment_Ok).
  setoid_rewrite result_bind_Ok. setoid_rewrite (push_u32_Ok _ (count_subscriptions _)).
  setoid_rewrite result_bind_Ok. setoid_rewrite (push_each_Ok _ _ _ Hbucket).
  setoid_rewrite result_bind_Ok. setoid_rewrite (push_u32_Ok _ (size (rc_entries _))).
  setoid_rewrite (push_each_Ok _ _ _ push_replay_Ok).
  unfold all_subscriptions. rewrite Forall_concat_iff, Forall_fmap.
  assert (concat ((fun b : TypeId * list StoredSubscription => concat (stored_wire <$> b.2))
      <$> btree_iter type_compare (st_subscriptions st))
    = concat (stored_wire <$> concat (btree_iter type_compare (st_subscriptions st)).*2)) as Hcat
    by (rewrite <-concat_concat_fmap, <-list_fmap_compose; done).
  rewrite Hcat. split.
  - intros (? & [? ->] & ? & [? ->] & ? & [? ->] & ? & [? ->] & ? & [? ->] & ? & [? ->] & ? & [? ->] & ? & ->).
    rewrite <-!app_assoc. by split_and!.
  - intros [(? & ? & ? & ? & ? & ?) ->]. 
    do 7 (eexists; split; [split; [solve [done | by apply Forall_true]|reflexivity]|]). split; [by apply Forall_true|].
    by rewrite <-!app_assoc.
Qed.

(** ** Decoding reads the word *)

Lemma is_environment_bound encoded : is_environment encoded = true -> length encoded <= MAX_PLAINTEXT_LEN.
Proof.
  unfold is_environment. destruct (parse_operation encoded) as [op| |] eqn:Hp; [|done..].
  intros _. apply parse_operation_iff in Hp as (w & Hw%length_wire & -> & _).
  unfold MAX_PLAINTEXT_LEN. lia.
Qed.

Lemma subscription_kind_bound ty encoded kind :
  subscription_kind ty encoded = Some kind -> type_wf ty /\ length encoded <= MAX_PLAINTEXT_LEN.
Proof.
  unfold subscription_kind. destruct (parse_operation encoded) as [op| |] eqn:Hp; [|done..].
  apply parse_operation_iff in Hp as (w & Hw & -> & ->). pose proof (length_wire w Hw) as Hlen.
  destruct w as [|ty' l|ty' l| |]; cbn [Operation.view]; try done; case_bool_decide as Hty; try done;
    subst ty'; intros _; destruct Hw as [? _]; (split; [done|]); unfold MAX_PLAINTEXT_LEN; lia.
Qed.

Section decoding.
Variable input : list byte.
Abbreviation reads := (reads input).

Lemma reads_ext' {A} (m : M Cursor Error A) (R Q : A -> list byte -> Prop) :
  reads m R -> (forall a w, R a w <-> Q a w) -> reads m Q.
Proof. apply reads_ext. Qed.

Lemma reads_count maximum :
  reads (state_count maximum)
    (fun n w => n <= maximum /\ fits_u32 n /\ w = to_be 4 (N.of_nat n)).
Proof.
  eapply reads_ext.
  { apply reads_bind; [apply reads_u32|]; intros v. apply reads_guard, reads_ret. }
  intros n w. unfold fits_u32. split.
  - intros (v & ? & ? & -> & [-> Hv] & Hg & -> & ->). apply N.ltb_ge in Hg.
    rewrite app_nil_r, N2Nat.id. split; [lia|done].
  - intros (Hn & Hfit & ->). exists (N.of_nat n), (to_be 4 (N.of_nat n)), [].
    rewrite app_nil_r, N.ltb_ge, Nat2N.id. split_and!; try done; lia.
Qed.

Lemma reads_state_bytes maximum :
  reads (state_bytes maximum)
    (fun l w => length l <= maximum /\ fits_u32 (length l) /\ w = bytes_wire l).
Proof.
  eapply reads_ext; [apply reads_bind; [apply reads_count|intros n; apply reads_take]|].
  intros l w. unfold bytes_wire. split.
  - by intros (n & ? & ? & -> & (Hn & Hf & ->) & -> & <-).
  - intros (Hn & Hf & ->). by exists (length l), (to_be 4 (N.of_nat (length l))), l.
Qed.

Lemma reads_bytes_of n : reads (state_array n) (fun v w => w = vec_to_list v).
Proof. apply reads_array. Qed.

Lemma reads_key :
  reads decode_key (fun kv w => kv.1 <> AgentId_CA /\ w = key_wire kv).
Proof.
  eapply reads_ext.
  { apply reads_bind; [apply reads_bytes_of|]; intros a. apply reads_guard.
    apply reads_bind; [apply reads_bytes_of|]; intros e.
    apply reads_bind; [apply reads_bytes_of|]; intros x. apply reads_ret. }
  intros [[a] [e x]] w. unfold key_wire. cbn [fst snd agent_bytes pk_ed25519 pk_x25519]. split.
  - intros (a' & ? & ? & -> & -> & Hca & e' & ? & ? & -> & -> & x' & ? & ? & -> & -> & [= -> -> ->] & ->).
    apply bool_decide_eq_false in Hca. by rewrite app_nil_r.
  - intros [Hca ->]. exists a, (vec_to_list a), (vec_to_list e ++ vec_to_list x).
    do 2 (split; [done|]). split; [by apply bool_decide_eq_false|].
    exists e, (vec_to_list e), (vec_to_list x). do 2 (split; [done|]).
    exists x, (vec_to_list x), []. by rewrite app_nil_r.
Qed.

Lemma reads_stored_environment :
  reads decode_environment
    (fun kv w => is_environment kv.2 = true /\ fits_u32 (length kv.2) /\ w = environment_wire kv).
Proof.
  eapply reads_ext.
  { apply reads_bind; [apply reads_bytes_of|]; intros a.
    apply reads_bind; [apply reads_state_bytes|]; intros l. apply reads_guard, reads_ret. }
  intros [[a] l] w. unfold environment_wire. cbn [fst snd agent_bytes]. split.
  - intros (a' & ? & ? & -> & -> & l' & ? & ? & -> & (Hl & Hf & ->) & He & [= -> ->] & ->).
    apply negb_false_iff in He. by rewrite app_nil_r.
  - intros (He & Hf & ->). exists a, (vec_to_list a), (bytes_wire l). do 2 (split; [done|]).
    exists l, (bytes_wire l), []. rewrite app_nil_r. split; [done|].
    split; [by split; [apply is_environment_bound|]|]. by rewrite He.
Qed.

(** A subscription as the snapshot accepts it. *)
Definition stored_ok (s : StoredSubscription) : Prop :=
  subscription_kind (sub_type_id s) (sub_encoded s) = Some (sub_kind s) /\
  sub_handler s <> HandlerId_NONE.

Lemma reads_stored :
  reads decode_subscription
    (fun s w => stored_ok s /\ fits_u32 (length (sub_encoded s)) /\ w = stored_wire s).
Proof.
  eapply reads_ext.
  { apply reads_bind; [apply reads_bytes_of|]; intros a.
    apply reads_bind; [apply reads_u32|]; intros ty.
    apply reads_bind; [apply reads_bytes_of|]; intros h.
    apply reads_bind; [apply reads_state_bytes|]; intros l.
    apply reads_bind; [apply reads_lift|]; intros kind. apply reads_guard, reads_ret. }
  intros [[a] [ty] [h] kind l] w. unfold stored_ok, stored_wire.
  cbn [sub_subscriber sub_type_id sub_handler sub_kind sub_encoded agent_bytes handler_bytes type_raw].
  split.
  - intros (a' & ? & ? & -> & -> & ty' & ? & ? & -> & [-> Hty] & h' & ? & ? & -> & -> &
      l' & ? & ? & -> & (Hl & Hf & ->) & k' & ? & ? & -> & [Hk ->] & Hh & [= -> -> -> -> ->] & ->).
    apply bool_decide_eq_false in Hh. by rewrite !app_nil_r.
  - intros ([Hk Hh] & Hf & ->). pose proof (subscription_kind_bound _ _ _ Hk) as [Hty Hl].
    exists a, (vec_to_list a). eexists. do 2 (split; [done|]).
    exists ty, (to_be 4 ty). eexists. do 2 (split; [done|]).
    exists h, (vec_to_list h). eexists. do 2 (split; [done|]).
    exists l, (bytes_wire l), []. rewrite app_nil_r. do 2 (split; [done|]).
    exists kind, [], []. split; [done|]. split; [done|]. split; [by apply bool_decide_eq_false|done].
Qed.

Lemma reads_replay :
  reads decode_replay (fun kv w => (kv.2 <= u64_max)%N /\ w = replay_wire kv).
Proof.
  eapply reads_ext.
  { apply reads_bind; [apply reads_bytes_of|]; intros a.
    apply reads_bind; [apply reads_bytes_of|]; intros s.
    apply reads_bind; [apply (reads_be input 8)|]; intros e. apply reads_ret. }
  intros [[[a] [s]] e] w. unfold replay_wire. cbn [fst snd agent_bytes session_bytes].
  change (256 ^ N.of_nat 8)%N with 18446744073709551616%N. unfold u64_max. split.
  - intros (a' & ? & ? & -> & -> & s' & ? & ? & -> & -> & e' & ? & ? & -> & [-> He] & [= -> -> ->] & ->).
    rewrite app_nil_r. split; [lia|done].
  - intros [He ->]. exists a, (vec_to_list a). eexists. do 2 (split; [done|]).
    exists s, (vec_to_list s). eexists. do 2 (split; [done|]).
    exists e, (to_be 8 e), []. rewrite app_nil_r. split_and!; try done. lia.
Qed.

(** [l] added to [acc] one by one. *)
Fixpoint added {A B} (add : A -> B -> B -> Prop) (l : list A) (acc acc' : B) : Prop :=
  match l with
  | [] => acc' = acc
  | a :: l' => exists acc1, add a acc acc1 /\ added add l' acc1 acc'
  end.

Lemma reads_each {A B} (read : M Cursor Error A) (add : A -> B -> M Cursor Error B) P wire step n acc :
  reads read (fun a w => P a /\ w = wire a) ->
  (forall a b, reads (add a b) (fun b' w => step a b b' /\ w = [])) ->
  reads (decode_each read add n acc)
    (fun acc' w => exists l, length l = n /\ Forall P l /\ added step l acc acc' /\
                             w = concat (wire <$> l)).
Proof.
  intros Hread Hadd. revert acc. induction n as [|n IH]; intros acc; cbn [decode_each].
  - eapply reads_ext; [apply reads_ret|]. intros b w. split.
    + intros [-> ->]. by exists [].
    + intros ([|a l] & Hlen & _ & Hf & ->); [|done]. cbn in Hf. by subst.
  - eapply reads_ext.
    { apply reads_bind; [exact Hread|]; intros a. apply reads_bind; [apply Hadd|]; intros b. apply IH. }
    intros b w. split.
    + intros (a & ? & ? & -> & [Ha ->] & b1 & ? & ? & -> & [Hs ->] & l & Hlen & Hl & Hf & ->).
      exists (a :: l). cbn [length]. split; [by rewrite Hlen|]. split; [by constructor|].
      split; [by exists b1|done].
    + intros ([|a l] & Hlen & Hl & Hf & ->); [done|]. apply Forall_cons in Hl as [Ha Hl].
      destruct Hf as (b1 & Hs & Hf). exists a, (wire a), (concat (wire <$> l)).
      do 2 (split; [done|]). exists b1, [], (concat (wire <$> l)). do 2 (split; [done|]).
      exists l. injection Hlen as Hlen. done.
Qed.

Lemma reads_insert_new {K V} `{Countable K} (entry : K * V) (m : gmap K V) :
  reads (insert_new entry m)
    (fun m' w => (m !! entry.1 = None /\ m' = <[entry.1 := entry.2]> m) /\ w = []).
Proof.
  unfold insert_new. eapply reads_ext; [apply reads_guard, reads_ret|].
  intros m' w. cbv beta. rewrite bool_decide_eq_false, <-eq_None_not_Some. naive_solver.
Qed.

Lemma added_insert {K V} `{Countable K} (l : list (K * V)) (m m' : gmap K V) :
  added (fun e m m' => m !! e.1 = None /\ m' = <[e.1 := e.2]> m) l m m' <->
  NoDup l.*1 /\ (forall k, k ∈ l.*1 -> m !! k = None) /\ m' = list_to_map l ∪ m.
Proof.
  revert m. induction l as [|[k v] l IH]; intros m; cbn [added].
  - cbn. rewrite (left_id_L ∅ (∪)). split; [intros ->|by intros (_ & _ & ->)].
    split; [constructor|]. split; [|done]. by intros ? ?%not_elem_of_nil.
  - cbn [fmap list_fmap fst snd list_to_map foldr]. setoid_rewrite IH. rewrite NoDup_cons.
    setoid_rewrite elem_of_cons. split.
    + intros (m1 & [Hk ->] & Hnd & Hl & ->).
      assert (k ∉ l.*1) as Hno by (intros Hin; specialize (Hl k Hin); by rewrite lookup_insert_eq in Hl).
      split; [done|]. split.
      * intros k' [->|Hin]; [done|]. specialize (Hl k' Hin).
        by apply lookup_insert_None in Hl as [? _].
      * rewrite <-insert_union_l, insert_union_r; [done|]. by apply not_elem_of_list_to_map_1.
    + intros ((Hno & Hnd) & Hl & ->). eexists. split; [split; [by apply Hl; left|reflexivity]|].
      split; [done|]. split.
      * intros k' Hin. rewrite lookup_insert_ne; [by apply Hl; right|]. by intros <-.
      * rewrite <-insert_union_l, insert_union_r; [done|]. by apply not_elem_of_list_to_map_1.
Qed.

Lemma added_bucket (l : list StoredSubscription) (m m' : buckets) :
  added (fun s m m' => m' = push_bucket s m) l m m' <-> m' = foldl (fun m s => push_bucket s m) m l.
Proof.
  revert m. induction l as [|s l IH]; intros m; cbn [added foldl]; [done|].
  setoid_rewrite IH. split; [by intros (? & -> & ->)|intros ->; by eexists].
Qed.
End decoding.

(** The buckets hold the subscriptions of their type, in order. *)
Lemma foldl_push_bucket l (m : buckets) ty :
  default [] (foldl (fun m s => push_bucket s m) m l !! ty)
  = default [] (m !! ty) ++ filter (fun s => sub_type_id s = ty) l.
Proof.
  revert m. induction l as [|s l IH]; intros m; cbn [foldl]; [by rewrite app_nil_r|].
  rewrite IH, filter_cons. unfold push_bucket.
  case_decide as Hty; [subst ty|].
  - rewrite lookup_insert_eq. cbn [default from_option id]. by rewrite <-app_assoc.
  - by rewrite lookup_insert_ne.
Qed.

(** The entries a snapshot lists. *)
Record snapshot_entries (limits : StoreLimits) (lk : list (AgentId * PublicKeys))
    (le : list (AgentId * list byte)) (ls : list StoredSubscription) (lr : list (replay_key * N)) : Prop := {
  snap_counts : length lk <= lim_agents limits /\ length le <= lim_environments limits /\
    length ls <= lim_subscriptions limits /\ length lr <= lim_replays limits;
  snap_fits : fits_u32 (length lk) /\ fits_u32 (length le) /\ fits_u32 (length ls) /\
    fits_u32 (length lr);
  snap_distinct : NoDup lk.*1 /\ NoDup le.*1 /\ NoDup lr.*1;
  snap_keys : Forall (fun kv => kv.1 <> AgentId_CA) lk;
  snap_environments : Forall (fun kv => is_environment kv.2 = true /\ fits_u32 (length kv.2)) le;
  snap_subscriptions : Forall (fun s => stored_ok s /\ fits_u32 (length (sub_encoded s))) ls;
  snap_replays : Forall (fun kv => (kv.2 <= u64_max)%N) lr;
}.

Definition snapshot_wire lk le ls lr : list byte :=
  STATE_MAGIC ++ sequence_wire key_wire lk ++ sequence_wire environment_wire le
    ++ sequence_wire stored_wire ls ++ sequence_wire replay_wire lr.

Definition snapshot_state (limits : StoreLimits) lk le ls lr : PersistentState :=
  mkState (list_to_map lk) (list_to_map le) (foldl (fun m s => push_bucket s m) ∅ ls)
    (mkReplayCache (list_to_map lr) (lim_replays limits) (lim_replay_ttl_seconds limits)).

Section decoding_all.
Variable input : list byte.

(** A count and the entries added to an empty map. *)
Lemma reads_map {K V} `{Countable K} maximum (read : M Cursor Error (K * V)) P wire :
  reads input read (fun a w => P a /\ w = wire a) ->
  reads input (n ← state_count maximum; decode_each read insert_new n ∅)
    (fun m w => exists l, length l <= maximum /\ fits_u32 (length l) /\ Forall P l /\ NoDup l.*1 /\
                          m = list_to_map l /\ w = sequence_wire wire l).
Proof.
  intros Hread. eapply reads_ext.
  { apply reads_bind; [apply reads_count|]; intros n.
    eapply reads_each; [exact Hread|]. intros e m. apply reads_insert_new. }
  intros m w. unfold sequence_wire. split.
  - intros (n & ? & ? & -> & (Hn & Hf & ->) & l & <- & Hl & Hadd & ->). exists l.
    apply added_insert in Hadd as (Hnd & _ & ->). by rewrite (right_id_L ∅ (∪)).
  - intros (l & Hn & Hf & Hl & Hnd & -> & ->). eexists (length l), _, _. do 2 (split; [done|]).
    exists l. do 2 (split; [done|]). split; [|done]. apply added_insert.
    rewrite (right_id_L ∅ (∪)). split; [done|]. split; [|done]. intros. apply lookup_empty.
Qed.

Lemma reads_buckets maximum :
  reads input (n ← state_count maximum;
               decode_each decode_subscription (fun s m => mret (push_bucket s m)) n ∅)
    (fun m w => exists l, length l <= maximum /\ fits_u32 (length l) /\
       Forall (fun s => stored_ok s /\ fits_u32 (length (sub_encoded s))) l /\
       m = foldl (fun m s => push_bucket s m) ∅ l /\ w = sequence_wire stored_wire l).
Proof.
  eapply reads_ext.
  { apply reads_bind; [apply reads_count|]; intros n.
    eapply (reads_each _ _ _ (fun s => stored_ok s /\ fits_u32 (length (sub_encoded s))) stored_wire
      (fun s m m' => m' = push_bucket s m)).
    - eapply reads_ext; [apply reads_stored|]. intros. tauto.
    - intros s m. apply reads_ret. }
  intros m w. unfold sequence_wire. split.
  - intros (n & ? & ? & -> & (Hn & Hf & ->) & l & <- & Hl & Hadd & ->). exists l.
    by apply added_bucket in Hadd.
  - intros (l & Hn & Hf & Hl & -> & ->). eexists (length l), _, _. do 2 (split; [done|]).
    exists l. do 2 (split; [done|]). split; [|done]. by apply added_bucket.
Qed.

Lemma decode_body_assoc limits : forall c, decode_body limits c =
  (magic ← state_take 8;
   if negb (bool_decide (magic = STATE_MAGIC)) then fail Error.Malformed else
   keys ← (n ← state_count (lim_agents limits); decode_each decode_key insert_new n ∅);
   environments ← (n ← state_count (lim_environments limits);
                   decode_each decode_environment insert_new n ∅);
   subscriptions ← (n ← state_count (lim_subscriptions limits);
                    decode_each decode_subscription (fun s m => mret (push_bucket s m)) n ∅);
   entries ← (n ← state_count (lim_replays limits); decode_each decode_replay insert_new n ∅);
   mret (mkState keys environments subscriptions
     (mkReplayCache entries (lim_replays limits) (lim_replay_ttl_seconds limits)))) c.
Proof.
  intros c. unfold decode_body. rewrite !M_bind_run.
  destruct (state_take 8 c) as [[magic|e|] c1]; [|done..]. destruct (negb _); [done|].
  rewrite bind_assoc. rewrite !(M_bind_run (state_count _)).
  destruct (state_count (lim_agents limits) c1) as [[n1|e|] c2]; [|done..].
  rewrite !M_bind_run. destruct (decode_each decode_key _ _ _ _) as [[lk|e|] c3]; [|done..].
  rewrite bind_assoc. rewrite !(M_bind_run (state_count _)).
  destruct (state_count (lim_environments limits) c3) as [[n2|e|] c4]; [|done..].
  rewrite !M_bind_run. destruct (decode_each decode_environment _ _ _ _) as [[le|e|] c5]; [|done..].
  rewrite bind_assoc. rewrite !(M_bind_run (state_count _)).
  destruct (state_count (lim_subscriptions limits) c5) as [[n3|e|] c6]; [|done..].
  rewrite !M_bind_run. destruct (decode_each decode_subscription _ _ _ _) as [[ls|e|] c7]; [|done..].
  rewrite bind_assoc. rewrite !(M_bind_run (state_count _)).
  destruct (state_count (lim_replays limits) c7) as [[n4|e|] c8]; [|done..].
  by rewrite !M_bind_run.
Qed.

Lemma reads_body_state limits :
  reads input (decode_body limits)
    (fun st w => exists lk le ls lr, snapshot_entries limits lk le ls lr /\
       st = snapshot_state limits lk le ls lr /\ w = snapshot_wire lk le ls lr).
Proof.
  assert (forall (m m' : M Cursor Error PersistentState) R, (forall c, m c = m' c) ->
    reads input m' R -> reads input m R) as Hext.
  { intros m m' R Heq [H1 H2 H3]. split; intros *; rewrite Heq; eauto. }
  eapply Hext; [apply decode_body_assoc|]. clear Hext. eapply reads_ext.
  { apply reads_bind; [apply (reads_take input 8)|]; intros magic. apply reads_guard.
    apply reads_bind; [apply (reads_map _ _ _ _ (reads_key input))|]; intros k.
    apply reads_bind.
    { eapply (reads_map _ _ (fun kv => is_environment kv.2 = true /\ fits_u32 (length kv.2)) environment_wire).
      eapply reads_ext; [apply reads_stored_environment|]. intros. tauto. }
    intros e. apply reads_bind; [apply reads_buckets|]; intros s.
    apply reads_bind; [apply (reads_map _ _ _ _ (reads_replay input))|]; intros r. apply reads_ret. }
  intros st w. split.
  - intros (magic & ? & ? & -> & [-> _] & Hm & k & ? & ? & -> & (lk & Hk1 & Hk2 & Hk3 & Hk4 & -> & ->)
      & e & ? & ? & -> & (le & He1 & He2 & He3 & He4 & -> & ->)
      & s & ? & ? & -> & (ls & Hs1 & Hs2 & Hs3 & -> & ->)
      & r & ? & ? & -> & (lr & Hr1 & Hr2 & Hr3 & Hr4 & -> & ->) & -> & ->).
    apply negb_false_iff, bool_decide_eq_true in Hm as ->.
    exists lk, le, ls, lr. unfold snapshot_wire. rewrite app_nil_r. done.
  - intros (lk & le & ls & lr & [(? & ? & ? & ?) (? & ? & ? & ?) (? & ? & ?) Hk He Hs Hr] & -> & ->).
    unfold snapshot_wire. eexists STATE_MAGIC, _, _. split; [reflexivity|]. split; [done|].
    split; [by rewrite bool_decide_eq_true_2|]. eexists _, _, _. split; [reflexivity|].
    split; [by exists lk|]. eexists _, _, _. split; [reflexivity|]. split; [by exists le|].
    eexists _, _, _. split; [reflexivity|]. split; [by exists ls|].
    eexists _, _, []. rewrite app_nil_r. split; [reflexivity|]. by split; [exists lr|].
Qed.
End decoding_all.

Lemma decode_state_iff input limits st : fits (length input) ->
  decode_state input limits = Ok st <->
  exists lk le ls lr, snapshot_entries limits lk le ls lr /\
    st = snapshot_state limits lk le ls lr /\ input = snapshot_wire lk le ls lr.
Proof.
  intros Hfit. destruct (reads_body_state input limits) as [Hok Hinv _]. unfold decode_state.
  rewrite M_bind_run. split.
  - destruct (decode_body limits (Cursor_new input)) as [[st'|e|] c] eqn:Hrun; [|done..].
    apply (Hinv 0) in Hrun as (w & (lk & le & ls & lr & He & -> & ->) & Hspan & _ & ->);
      [|lia|apply (fits_small 0 (Nat.le_0_l _))].
    autorewrite with rust. cbn [cursor_position at_pos]. rewrite Nat.add_0_l.
    destruct (negb _) eqn:Hend; [done|]. intros [= <-].
    apply negb_false_iff, Nat.eqb_eq in Hend. exists lk, le, ls, lr. split; [done|]. split; [done|].
    apply spans_take in Hspan as [_ Htake]. rewrite drop_0, Hend, firstn_all in Htake. done.
  - intros (lk & le & ls & lr & He & -> & ->).
    rewrite Cursor_new_at.
    rewrite (Hok 0 (snapshot_wire lk le ls lr) (snapshot_state limits lk le ls lr));
      [|by exists lk, le, ls, lr|apply spans_self|exact Hfit].
    autorewrite with rust. cbn [cursor_position at_pos]. by rewrite Nat.add_0_l, Nat.eqb_refl.
Qed.

Lemma decode_state_no_panic input limits : fits (length input) -> decode_state input limits <> Panic.
Proof.
  intros Hfit. destruct (reads_body_state input limits) as [_ _ Htot]. unfold decode_state.
  rewrite M_bind_run. specialize (Htot 0 (Nat.le_0_l _) (fits_small 0 (Nat.le_0_l _))).
  change (at_pos input 0) with (Cursor_new input) in Htot.
  destruct (decode_body limits (Cursor_new input)) as [[st|e|] c]; [|done..].
  autorewrite with rust. by case_match.
Qed.

(** ** Well-formed states *)

(** What the store keeps within its limits. *)
Record state_ok (limits : StoreLimits) (st : PersistentState) : Prop := mkStateOk {
  sok_agents : size (st_keys st) <= lim_agents limits;
  sok_environments_size : size (st_environments st) <= lim_environments limits;
  sok_subscriptions_size : count_subscriptions (st_subscriptions st) <= lim_subscriptions limits;
  sok_replays_size : size (rc_entries (st_replay st)) <= lim_replays limits;
  sok_maximum : rc_maximum (st_replay st) = lim_replays limits;
  sok_ttl : rc_ttl_seconds (st_replay st) = lim_replay_ttl_seconds limits;
  sok_ca : st_keys st !! AgentId_CA = None;
  sok_environments a encoded : st_environments st !! a = Some encoded -> is_environment encoded = true;
  sok_buckets : buckets_ok (st_subscriptions st);
  sok_subscriptions ty bucket : st_subscriptions st !! ty = Some bucket -> Forall stored_ok bucket;
  sok_replays k e : rc_entries (st_replay st) !! k = Some e -> (e <= u64_max)%N;
}.

Lemma state_ok_empty limits : state_ok limits (state_empty limits).
Proof.
  split; cbn; rewrite ?map_size_empty, ?count_empty; try lia; try done;
    intros *; by rewrite lookup_empty.
Qed.

(** The view of a state. *)
Definition state_view (st : PersistentState) : StoreView :=
  mkView (st_keys st) (st_environments st) (stored_in (st_subscriptions st))
    (rc_entries (st_replay st)).

Lemma filter_bucket (b : list StoredSubscription) k ty :
  Forall (fun s => sub_type_id s = k) b ->
  filter (fun s => sub_type_id s = ty) b = if decide (k = ty) then b else [].
Proof.
  intros Hb. case_decide as Hk; [subst k|]; induction Hb as [|s b Hs Hb IH]; try done.
  - by rewrite filter_cons_True, IH.
  - rewrite filter_cons_False, IH; congruence.
Qed.

Lemma filter_concat_buckets (l : list (TypeId * list StoredSubscription)) ty :
  NoDup l.*1 -> Forall (fun kb => Forall (fun s => sub_type_id s = kb.1) kb.2) l ->
  filter (fun s => sub_type_id s = ty) (concat l.*2)
  = default [] ((list_to_map l : buckets) !! ty).
Proof.
  intros Hnd Hl. induction Hl as [|[k b] l Hb Hl IH]; [done|].
  apply NoDup_cons in Hnd as [Hno Hnd]. cbn [fmap list_fmap concat fst snd list_to_map foldr] in *.
  rewrite filter_app, (filter_bucket b k), IH by done. case_decide as Hk; [subst k|].
  - rewrite lookup_insert_eq. apply (not_elem_of_list_to_map_1 (M:=gmap TypeId)) in Hno.
    rewrite Hno. cbn. by rewrite app_nil_r.
  - by rewrite lookup_insert_ne.
Qed.

Lemma filter_all_subscriptions m ty : buckets_ok m ->
  filter (fun s => sub_type_id s = ty) (all_subscriptions m) = default [] (m !! ty).
Proof.
  intros Hm. unfold all_subscriptions.
  rewrite filter_concat_buckets, list_to_map_btree_iter; [done|apply NoDup_btree_iter|].
  apply Forall_forall. intros [k b] Hb%elem_of_btree_iter. apply Hm, Hb.
Qed.

(** What a well-formed state lists is a snapshot the decoder accepts. *)
Lemma state_snapshot limits st : state_ok limits st -> encodable st ->
  snapshot_entries limits (btree_iter agent_compare (st_keys st))
    (btree_iter agent_compare (st_environments st)) (all_subscriptions (st_subscriptions st))
    (btree_iter replay_key_compare (rc_entries (st_replay st))).
Proof.
  intros [] (Hf1 & Hf2 & He & Hf3 & Hs & Hf4).
  split; rewrite <-?count_all, ?length_btree_iter; try done.
  - split_and!; apply NoDup_btree_iter.
  - apply Forall_forall. intros [k v] Hk%elem_of_btree_iter. cbn. intros ->. congruence.
  - apply Forall_forall. intros [k v] Hk. split; [|by rewrite Forall_forall in He; apply (He _ Hk)].
    apply elem_of_btree_iter in Hk. by eapply sok_environments0.
  - apply Forall_forall. intros s Hin. split; [|by rewrite Forall_forall in Hs; apply Hs].
    unfold all_subscriptions in Hin.
    apply list_elem_of_In, in_concat in Hin as (bucket & Hb & Hin).
    apply list_elem_of_In in Hb, Hin. apply list_elem_of_fmap in Hb as ([ty b] & -> & Hb).
    apply elem_of_btree_iter in Hb. pose proof (sok_subscriptions0 ty b Hb) as Hok.
    rewrite Forall_forall in Hok. by apply Hok.
  - apply Forall_forall. intros [k v] Hk%elem_of_btree_iter. by apply (sok_replays0 k).
Qed.

Lemma snapshot_state_view limits st : buckets_ok (st_subscriptions st) ->
  state_view (snapshot_state limits (btree_iter agent_compare (st_keys st))
    (btree_iter agent_compare (st_environments st)) (all_subscriptions (st_subscriptions st))
    (btree_iter replay_key_compare (rc_entries (st_replay st)))) ≡ state_view st.
Proof.
  intros Hb. split_and!; cbn; rewrite ?list_to_map_btree_iter; try done.
  intros k. unfold stored_in. rewrite foldl_push_bucket, lookup_empty. cbn [default from_option app].
  by rewrite filter_all_subscriptions.
Qed.

(** Decoding what was encoded. *)
Lemma decode_encode limits st bytes : state_ok limits st -> fits (length bytes) ->
  encode_state st = Ok bytes ->
  exists st', decode_state bytes limits = Ok st' /\ state_view st' ≡ state_view st /\
    rc_maximum (st_replay st') = rc_maximum (st_replay st) /\
    rc_ttl_seconds (st_replay st') = rc_ttl_seconds (st_replay st).
Proof.
  intros Hok Hfit [Henc ->]%encode_state_Ok. eexists. split.
  - apply decode_state_iff; [done|]. do 4 eexists. split; [by apply state_snapshot|]. split; reflexivity.
  - split; [apply snapshot_state_view, Hok|]. cbn. by rewrite (sok_maximum _ _ Hok), (sok_ttl _ _ Hok).
Qed.
