(* ===== verification/Durable.v ===== *)
(** The file-backed store of ca-core: it implements the storage interface, its
    commits are atomic, and what is reopened after a failure is what was stored, or, after
    a stop of the machine, an earlier state when a sync of the directory has failed. *)

From S2P Require Export Persist.

(** ** Encoding does not panic *)

Lemma bind_no_panic {E A B} (r : result E A) (f : A -> result E B) :
  r <> Panic -> (forall a, f a <> Panic) -> r ≫= f <> Panic.
Proof. destruct r; cbn; auto. Qed.

Lemma push_u32_no_panic output n : push_u32 output n <> Panic.
Proof. unfold push_u32. by destruct (try_from_usize _ _). Qed.

Lemma push_bytes_no_panic output l : push_bytes output l <> Panic.
Proof. apply bind_no_panic; [apply push_u32_no_panic|done]. Qed.

Lemma push_each_no_panic {A} (push : list byte -> A -> Res (list byte)) l output :
  (forall o a, push o a <> Panic) -> push_each push l output <> Panic.
Proof.
  intros Hp. revert output. induction l as [|a l IH]; intros output; [done|].
  apply bind_no_panic; [apply Hp|apply IH].
Qed.

Lemma push_subscriptions_no_panic bucket output : push_each push_subscription bucket output <> Panic.
Proof. apply push_each_no_panic. intros. apply push_bytes_no_panic. Qed.

Lemma encode_state_no_panic st : encode_state st <> Panic.
Proof.
  apply bind_no_panic; [apply push_u32_no_panic|intros ?].
  apply bind_no_panic; [by apply push_each_no_panic|intros ?].
  apply bind_no_panic; [apply push_u32_no_panic|intros ?].
  apply bind_no_panic; [apply push_each_no_panic; intros; apply push_bytes_no_panic|intros ?].
  apply bind_no_panic; [apply push_u32_no_panic|intros ?].
  apply bind_no_panic; [apply push_each_no_panic; intros; apply push_subscriptions_no_panic|intros ?].
  apply bind_no_panic; [apply push_u32_no_panic|intros ?]. by apply push_each_no_panic.
Qed.

(** ** Commits *)

Definition no_stop (f : Fault) : Prop := match f with Stops _ _ => False | _ => True end.
Definition works (f : Fault) : Prop := match f with Works => True | _ => False end.

Definition never_stops (d : Disk) : Prop := Forall no_stop (disk_faults d).
Definition always_works (d : Disk) : Prop := Forall works (disk_faults d).

Lemma bind_next_fault {E A} (f : Fault -> M Disk E A) d :
  (next_fault ≫= f) d
  = f (hd Works (disk_faults d))
      (mkDisk (disk_file d) (disk_temporary d) (disk_former d) (tl (disk_faults d))).
Proof. reflexivity. Qed.

#[export] Hint Rewrite @bind_next_fault : rust.

Lemma faults_next (P : Fault -> Prop) d : P Works -> Forall P (disk_faults d) ->
  P (hd Works (disk_faults d)) /\ Forall P (tl (disk_faults d)).
Proof. by destruct 2. Qed.

(** The process goes on unless it stops, and what always works goes on to. *)
Definition goes_on (d : Disk) (r : Res unit) (d' : Disk) : Prop :=
  (never_stops d -> never_stops d' /\ r <> Panic) /\ (always_works d -> always_works d').

Lemma goes_on_trans d d1 r d2 : goes_on d (Ok tt) d1 -> goes_on d1 r d2 -> goes_on d r d2.
Proof. intros [Hs Hw] [Hs' Hw']. split; intros Hd; [by apply Hs', Hs|by apply Hw', Hw]. Qed.

Lemma goes_on_refl d r : r <> Panic -> goes_on d r d.
Proof. by split. Qed.

(** One system call: what it leaves, by its outcome. *)
Ltac disk_cases :=
  intros d r d' Hrun; unfold goes_on;
  pose proof (faults_next no_stop d I) as Hstop; pose proof (faults_next works d I) as Hworks;
  autorewrite with rust in Hrun;
  destruct (hd Works (disk_faults d)) as [|partial|partial dn];
  cbn [disk_file disk_temporary disk_former disk_faults no_stop works] in Hrun, Hstop, Hworks.
Ltac disk_done :=
  unfold never_stops, always_works; cbn [disk_faults];
  match goal with
  | Hs : Forall no_stop _ -> _, Hw : Forall works _ -> _ |- _ =>
      split; [intros [? ?]%Hs; by split | by intros [_ ?]%Hw]
  end.

(** The calls on the temporary file leave the snapshot as it is. *)
Definition same_file (d d' : Disk) : Prop := disk_file d' = disk_file d /\ disk_former d' = disk_former d.

Lemma open_step : forall d r d', open_create_new d = (r, d') -> same_file d d' /\ goes_on d r d'.
Proof.
  unfold open_create_new, same_file, set_temporary, stop. disk_cases.
  - destruct (disk_temporary d); injection Hrun as <- <-; (split; [done|]); disk_done.
  - injection Hrun as <- <-. split; [done|]. disk_done.
  - destruct (dn && _); injection Hrun as <- <-; (split; [done|]); disk_done.
Qed.

Lemma write_step bytes : forall d r d', write_all bytes d = (r, d') ->
  same_file d d' /\ goes_on d r d' /\ (r = Ok tt -> disk_temporary d' = Some (mkContents bytes false)).
Proof.
  unfold write_all, same_file, set_temporary, stop.
  disk_cases; injection Hrun as <- <-; (split; [done|]); (split; [disk_done|done]).
Qed.

Lemma sync_step bytes synced : forall d r d', sync_all d = (r, d') ->
  disk_temporary d = Some (mkContents bytes synced) ->
  same_file d d' /\ goes_on d r d' /\ (r = Ok tt -> disk_temporary d' = Some (mkContents bytes true)).
Proof.
  unfold sync_all, same_file, sync_temporary, stop. disk_cases; intros Ht.
  - injection Hrun as <- <-. cbn. rewrite Ht. split; [done|]. split; [disk_done|done].
  - injection Hrun as <- <-. split; [done|]. split; [disk_done|done].
  - destruct dn; injection Hrun as <- <-; (split; [done|]); (split; [disk_done|done]).
Qed.

(** The path names what was the temporary file, and may still name what it did. *)
Definition renamed (d d' : Disk) : Prop :=
  disk_file d' = disk_temporary d /\ disk_former d' = disk_former d ++ [disk_file d].

Lemma rename_step : forall d r d', rename d = (r, d') ->
  goes_on d r d' /\
  match r with
  | Ok _ => renamed d d' /\ disk_temporary d' = None
  | Err _ => same_file d d'
  | Panic => same_file d d' \/ renamed d d'
  end.
Proof.
  unfold rename, same_file, renamed, rename_temporary, stop. disk_cases.
  - injection Hrun as <- <-. split; [disk_done|done].
  - injection Hrun as <- <-. split; [disk_done|done].
  - destruct dn; injection Hrun as <- <-; (split; [disk_done|auto]).
Qed.

Lemma sync_directory_step : forall d r d', sync_directory d = (r, d') ->
  disk_file d' = disk_file d /\ disk_temporary d' = disk_temporary d /\ goes_on d r d' /\
  (r = Ok tt \/ r = Panic) /\ (disk_former d' = disk_former d \/ disk_former d' = []) /\
  (always_works d -> disk_former d' = []).
Proof.
  unfold sync_directory, forget_former, stop. disk_cases.
  - injection Hrun as <- <-. cbn. do 2 (split; [done|]). split; [disk_done|auto].
  - injection Hrun as <- <-. cbn. do 2 (split; [done|]). split; [disk_done|]. split; [auto|].
    split; [auto|]. intros [[] _]%Hworks.
  - destruct dn; injection Hrun as <- <-; cbn; (do 2 (split; [done|])); (split; [disk_done|]);
      (split; [auto|]); (split; [auto|]); intros [[] _]%Hworks.
Qed.

Definition fits_snapshot (bytes : list byte) : Prop := (N.of_nat (length bytes) <= MAX_SNAPSHOT_LEN)%N.

(** The path names a synced file with these bytes; until the directory is synced it may
    still name what it did before. *)
Definition replaced (bytes : list byte) (d d' : Disk) : Prop :=
  disk_file d' = Some (mkContents bytes true) /\ fits_snapshot bytes /\
  (disk_former d' = disk_former d ++ [disk_file d] \/ disk_former d' = []).

(** A commit replaces the snapshot as a whole or leaves it. *)
Lemma commit_cases bytes d r d' : SnapshotFile_commit bytes d = (r, d') ->
  goes_on d r d' /\
  match r with
  | Ok _ => replaced bytes d d' /\ disk_temporary d' = None /\ (always_works d -> disk_former d' = [])
  | Err _ => same_file d d'
  | Panic => same_file d d' \/ replaced bytes d d'
  end.
Proof.
  unfold SnapshotFile_commit, replaced, fits_snapshot.
  destruct (N.ltb_spec MAX_SNAPSHOT_LEN (N.of_nat (length bytes))) as [_|Hlen].
  { intros [= <- <-]. split; [by apply goes_on_refl|done]. }
  rewrite M_bind_run. destruct (open_create_new d) as [r1 d1] eqn:H1.
  apply open_step in H1 as [[Hf1 Hm1] Hg1]. destruct r1 as [[]|e|]; cycle 1.
  1: intros [= <- <-]; split; [done|]; by split.
  1: intros [= <- <-]; split; [done|]; left; by split.
  rewrite M_bind_run. destruct (write_all bytes d1) as [r2 d2] eqn:H2.
  apply write_step in H2 as ([Hf2 Hm2] & Hg2 & Ht2). rewrite Hf1, Hm1 in *.
  pose proof (goes_on_trans _ _ _ _ Hg1 Hg2) as Hg. clear Hg1 Hg2. destruct r2 as [[]|e|]; cycle 1.
  1: intros [= <- <-]; split; [done|]; by split.
  1: intros [= <- <-]; split; [done|]; left; by split.
  rewrite M_bind_run. destruct (sync_all d2) as [r3 d3] eqn:H3.
  apply (sync_step bytes false) in H3 as ([Hf3 Hm3] & Hg3 & Ht3); [|by apply Ht2]. rewrite Hf2, Hm2 in *.
  pose proof (goes_on_trans _ _ _ _ Hg Hg3) as Hg'. clear Hg Hg3. destruct r3 as [[]|e|]; cycle 1.
  1: intros [= <- <-]; split; [done|]; by split.
  1: intros [= <- <-]; split; [done|]; left; by split.
  rewrite M_bind_run. destruct (rename d3) as [r4 d4] eqn:H4.
  apply rename_step in H4 as [Hg4 H4]. unfold renamed in H4. rewrite Hf3, Hm3, (Ht3 eq_refl) in H4.
  pose proof (goes_on_trans _ _ _ _ Hg' Hg4) as Hg. clear Hg' Hg4. destruct r4 as [[]|e|]; cycle 1.
  1: intros [= <- <-]; split; [done|]; destruct H4; split; congruence.
  1: intros [= <- <-]; split; [done|]; destruct H4 as [[? ?]|[? ?]];
     [left; split; congruence|right; split; [done|]; split; [done|by left]].
  destruct H4 as [[Hf4 Hm4] Ht4].
  rewrite M_bind_run. destruct (sync_directory d4) as [r5 d5] eqn:H5.
  apply sync_directory_step in H5 as (Hf5 & Ht5 & Hg5 & Hr & Hm5 & Hall). rewrite Hf4, Ht4, Hm4 in *.
  pose proof (goes_on_trans _ _ _ _ Hg Hg5) as Hg'. destruct r5 as [[]|e|]; intros [= <- <-].
  - split; [done|]. split; [done|]. split; [done|]. intros Hw. apply Hall. by apply Hg.
  - destruct Hr; discriminate.
  - split; [done|]. by right.
Qed.

(** A commit of the snapshot file is atomic. Whatever the file system does at each of
    its system calls, and wherever the process stops, the path names the file it did or a
    complete synced file with the new bytes: the new one when the commit returns [Ok],
    the old one when it returns an error; and it never exceeds the limit of a load if it
    did not before. *)
Theorem snapshot_commit_atomic bytes d :
  let '(r, d') := SnapshotFile_commit bytes d in
  (r = Ok tt -> disk_file d' = Some (mkContents bytes true) /\ disk_temporary d' = None) /\
  (forall e, r = Err e -> disk_file d' = disk_file d) /\
  (disk_file d' = disk_file d \/ disk_file d' = Some (mkContents bytes true)) /\
  (disk_file d' <> disk_file d -> fits_snapshot bytes).
Proof.
  destruct (SnapshotFile_commit bytes d) as [r d'] eqn:Hrun.
  apply commit_cases in Hrun as [_ Hcase]. unfold replaced, same_file in Hcase.
  destruct r as [[]|e|]; [|destruct Hcase as [Hcase ?]|destruct Hcase as [[Hcase ?]|Hcase]]; destruct_and?;
    (split; [try done|split; [congruence|split; [auto|congruence || done]]]).
Qed.

(** A commit that failed in the middle leaves its temporary file, and
    [create_new] refuses every later commit. *)
Lemma leftover_blocks_commits bytes d temporary :
  disk_temporary d = Some temporary -> never_stops d ->
  let '(r, d') := SnapshotFile_commit bytes d in
  is_ok r = false /\ disk_file d' = disk_file d /\ is_Some (disk_temporary d').
Proof.
  intros Ht Hd. unfold SnapshotFile_commit.
  destruct (_ <? _)%N; [cbn; by rewrite Ht|]. unfold open_create_new.
  apply (faults_next no_stop) in Hd as [Hd _]; [|exact I]. autorewrite with rust. cbn [disk_temporary]. rewrite Ht.
  destruct (hd Works (disk_faults d)); cbn; rewrite ?Ht; done.
Qed.

(** ** The operations as commits

    Every operation either changes nothing or commits one changed state. *)

Definition refuses {A} (m : M PersistentStore Error A) (s : PersistentStore) : Prop :=
  exists e, m s = (Err e, s).

Section shapes.
Variable s : PersistentStore.
Let st := ps_state s.
Let limits := ps_limits s.

Lemma provision_shape a k :
  refuses (PersistentStore_provision a k) s \/
  a <> AgentId_CA /\
  (size (st_keys st) <= lim_agents limits -> size (<[a := k]> (st_keys st)) <= lim_agents limits) /\
  PersistentStore_provision a k s = PersistentStore_commit (with_keys (<[a := k]> (st_keys st)) st) s.
Proof.
  unfold PersistentStore_provision, refuses.
  destruct (bool_decide _) eqn:Hca; [left; by eexists|]. autorewrite with rust.
  destruct (_ && _) eqn:Hcap; [left; by eexists|]. right.
  apply bool_decide_eq_false in Hca. split; [done|]. split; [by apply size_insert_le|done].
Qed.

Lemma set_environment_shape a encoded :
  refuses (PersistentStore_set_environment a encoded) s \/
  is_environment encoded = true /\
  (size (st_environments st) <= lim_environments limits ->
   size (<[a := encoded]> (st_environments st)) <= lim_environments limits) /\
  PersistentStore_set_environment a encoded s
  = PersistentStore_commit (with_environments (<[a := encoded]> (st_environments st)) st) s.
Proof.
  unfold PersistentStore_set_environment, refuses.
  destruct (is_environment encoded) eqn:Henv; cbn [negb]; [|left; by eexists].
  autorewrite with rust. destruct (_ && _) eqn:Hcap; [left; by eexists|]. right.
  split; [done|]. split; [by apply size_insert_le|done].
Qed.

(** The buckets with the slot of [sub] holding [o]. *)
Definition updates_slot (sub : StoredSubscription) (o : option StoredSubscription) (m m' : buckets) : Prop :=
  buckets_ok m' /\ forall k, stored_in m' k = if decide (k = sub_slot sub) then o else stored_in m k.

Lemma put_shape sub : buckets_ok (st_subscriptions st) ->
  refuses (PersistentStore_put_subscription sub) s \/
  subscription_kind (sub_type_id sub) (sub_encoded sub) = Some (sub_kind sub) /\
  exists m', updates_slot sub (Some sub) (st_subscriptions st) m' /\
    (count_subscriptions (st_subscriptions st) <= lim_subscriptions limits ->
     count_subscriptions m' <= lim_subscriptions limits) /\
    PersistentStore_put_subscription sub s = PersistentStore_commit (with_subscriptions m' st) s.
Proof.
  intros Hb. unfold PersistentStore_put_subscription, refuses. cbn zeta.
  destruct (bool_decide _) eqn:Hkind; cbn [negb]; [|left; by eexists].
  apply bool_decide_eq_true in Hkind. autorewrite with rust.
  pose proof (put_cases _ sub Hb) as Hput. cbn zeta in Hput.
  change (ps_state s) with st. change (ps_limits s) with limits.
  destruct (find_entry sub _) as [index|].
  - right. split; [done|]. destruct Hput as (Hok & Hc & Hst). eexists. split; [by split|].
    split; [lia|done].
  - destruct (_ <=? _) eqn:Hfull; [left; by eexists|]. autorewrite with bool_prop in Hfull.
    right. split; [done|]. destruct Hput as (Hok & Hc & Hst). eexists. split; [by split|].
    split; [lia|done].
Qed.

Lemma claim_shape sub : buckets_ok (st_subscriptions st) ->
  (PersistentStore_claim_subscription sub s
     = (Ok (bool_decide (stored_in (st_subscriptions st) (sub_slot sub) = Some sub)), s) /\
   (sub_kind sub = SubscriptionKind.Permanent \/
    stored_in (st_subscriptions st) (sub_slot sub) <> Some sub)) \/
  sub_kind sub = SubscriptionKind.OneShot /\
  stored_in (st_subscriptions st) (sub_slot sub) = Some sub /\
  exists m', updates_slot sub None (st_subscriptions st) m' /\
    count_subscriptions m' <= count_subscriptions (st_subscriptions st) /\
    PersistentStore_claim_subscription sub s
    = (PersistentStore_commit (with_subscriptions m' st);; mret true) s.
Proof.
  intros Hb. unfold PersistentStore_claim_subscription. autorewrite with rust.
  change (ps_state s) with st. pose proof (claim_cases _ sub Hb) as Hclaim. cbn zeta in Hclaim.
  destruct (sub_kind sub) eqn:Hkind; cbn [bool_decide decide]; cycle 1.
  { left. rewrite bool_decide_eq_true_2 by done. split; [|by left]. unfold mret, M_ret. do 2 f_equal.
    pose proof (bucket_listing _ (sub_type_id sub) Hb) as (_ & _ & Hl). cbn zeta in Hl.
    specialize (Hl sub). destruct (st_subscriptions st !! sub_type_id sub) as [bucket|];
      cbn [default from_option id] in Hl.
    - apply bool_decide_ext. rewrite Hl. tauto.
    - symmetry. by apply bool_decide_eq_false_2. }
  rewrite bool_decide_eq_false_2 by done.
  destruct (st_subscriptions st !! sub_type_id sub) as [bucket|];
    [|left; rewrite bool_decide_eq_false_2; auto].
  destruct (position sub bucket) as [i|]; [|left; rewrite bool_decide_eq_false_2; auto].
  right. destruct Hclaim as (Hst & Hok & Hc & Hst'). split; [done|]. split; [done|].
  eexists. split; [by split|]. split; [lia|done].
Qed.

Lemma check_shape sender session now :
  let live := retain_live now (rc_entries (st_replay st)) in
  (exists e, PersistentStore_check_and_mark sender session now s = (Err e, s) /\
     (is_Some (live !! (sender, session)) -> e = Error.Replay)) \/
  live !! (sender, session) = None /\ size live < rc_maximum (st_replay st) /\
  PersistentStore_check_and_mark sender session now s
  = PersistentStore_commit (with_replay (mkReplayCache
      (<[(sender, session) := saturating_add now (rc_ttl_seconds (st_replay st))]> live)
      (rc_maximum (st_replay st)) (rc_ttl_seconds (st_replay st))) st) s.
Proof.
  unfold PersistentStore_check_and_mark. autorewrite with rust. change (ps_state s) with st.
  destruct (ReplayCache_check_and_mark sender session now (st_replay st)) as [r c'] eqn:Hc.
  destruct (replay_refines (S:=ReplayCache) sender session now (st_replay st) r c')
    as (_ & Hcap & Httl & Hspec); [done|exact Hc|]. cbn in Hcap, Httl, Hspec. cbn zeta.
  apply spec_check_cases in Hspec. cbn zeta in Hspec.
  destruct Hspec as [(Hno & -> & Hm & Hlt)|(e & -> & He & _)].
  - right. split; [done|]. split; [done|]. rewrite <-Hm, <-Hcap, <-Httl. by destruct c'.
  - left. by exists e.
Qed.
End shapes.

(** ** The storage interface *)

(** The snapshot is replaced by the state. *)
Definition persisted (st : PersistentState) (d d' : Disk) : Prop :=
  exists bytes, encode_state st = Ok bytes /\ replaced bytes d d'.

Lemma persistent_commit_cases next s r s' : PersistentStore_commit next s = (r, s') ->
  ps_limits s' = ps_limits s /\ goes_on (ps_snapshot s) r (ps_snapshot s') /\
  match r with
  | Ok _ => ps_state s' = next /\ persisted next (ps_snapshot s) (ps_snapshot s') /\
      (always_works (ps_snapshot s) -> disk_former (ps_snapshot s') = [])
  | Err _ => ps_state s' = ps_state s /\ same_file (ps_snapshot s) (ps_snapshot s')
  | Panic => ps_state s' = ps_state s /\
      (same_file (ps_snapshot s) (ps_snapshot s') \/ persisted next (ps_snapshot s) (ps_snapshot s'))
  end.
Proof.
  unfold PersistentStore_commit, persisted. pose proof (encode_state_no_panic next) as Hnp.
  rewrite M_bind_run. unfold lift.
  destruct (encode_state next) as [bytes|e|]; [|intros [= <- <-]; split; [done|]; by split; [apply goes_on_refl|]|done].
  rewrite M_bind_run. unfold on_snapshot, zoom.
  destruct (SnapshotFile_commit bytes (ps_snapshot s)) as [r0 d'] eqn:Hc.
  apply commit_cases in Hc as [Hg Hc].
  destruct r0 as [[]|e|]; intros [= <- <-]; cbn [ps_state ps_snapshot ps_limits];
    (split; [done|]); (split; [done|]).
  - destruct Hc as (Hf & _ & Hall). split; [done|]. split; [by exists bytes|done].
  - done.
  - split; [done|]. destruct Hc as [Hc|Hc]; [by left|]. right. by exists bytes.
Qed.

(** A well-formed store on a machine that does not stop. *)
Record persistent_inv (s : PersistentStore) : Prop := mkPersistentInv {
  pinv_buckets : buckets_ok (st_subscriptions (ps_state s));
  pinv_ca : st_keys (ps_state s) !! AgentId_CA = None;
  pinv_runs : never_stops (ps_snapshot s);
}.

Definition persistent_view (s : PersistentStore) : StoreView := state_view (ps_state s).

(** A commit of a well-formed state is a mutation. *)
Lemma commit_mutation next s r s' w : persistent_inv s ->
  buckets_ok (st_subscriptions next) -> st_keys next !! AgentId_CA = None ->
  state_view next ≡ w -> PersistentStore_commit next s = (r, s') ->
  persistent_inv s' /\ mutation r (persistent_view s) (persistent_view s') w /\
  (ps_state s' = next \/ ps_state s' = ps_state s).
Proof.
  intros [Hb Hca Hrun] Hnb Hnca Hw (_ & [Hs _] & Hc)%persistent_commit_cases.
  destruct (Hs Hrun) as [Hs' Hnp]. destruct r as [[]|e|]; [..|done]; destruct Hc as [Hst _].
  - split; [by split; rewrite ?Hst|]. split; [|by left]. apply mutation_ok. unfold persistent_view.
    by rewrite Hst.
  - split; [by split; rewrite ?Hst|]. split; [|by right]. apply mutation_err. unfold persistent_view.
    by rewrite Hst.
Qed.

Lemma refuses_mutation m s r s' w : persistent_inv s -> refuses m s -> m s = (r, s') ->
  persistent_inv s' /\ mutation r (persistent_view s) (persistent_view s') w.
Proof. intros Hs [e ->] [= <- <-]. split; [done|by apply mutation_err]. Qed.

Lemma persistent_provision a k s r s' :
  persistent_inv s -> PersistentStore_provision a k s = (r, s') ->
  persistent_inv s' /\ mutation r (persistent_view s) (persistent_view s') (add_key a k (persistent_view s)).
Proof.
  intros Hs Hrun. destruct (provision_shape s a k) as [Href|(Hca & _ & Heq)];
    [by eapply refuses_mutation|]. rewrite Heq in Hrun.
  eapply commit_mutation in Hrun as (? & ? & _); [by split|done|apply Hs| |by split_and!].
  cbn. rewrite lookup_insert_ne by done. apply Hs.
Qed.

Lemma persistent_set_environment a e s r s' :
  persistent_inv s -> PersistentStore_set_environment a e s = (r, s') ->
  persistent_inv s' /\
  mutation r (persistent_view s) (persistent_view s') (add_environment a e (persistent_view s)).
Proof.
  intros Hs Hrun. destruct (set_environment_shape s a e) as [Href|(_ & _ & Heq)];
    [by eapply refuses_mutation|]. rewrite Heq in Hrun.
  eapply commit_mutation in Hrun as (? & ? & _); [by split|done|apply Hs|apply Hs|by split_and!].
Qed.

Lemma persistent_put sub s r s' :
  persistent_inv s -> PersistentStore_put_subscription sub s = (r, s') ->
  persistent_inv s' /\
  mutation r (persistent_view s) (persistent_view s') (set_slot (sub_slot sub) (Some sub) (persistent_view s)).
Proof.
  intros Hs Hrun. destruct (put_shape s sub (pinv_buckets s Hs)) as [Href|(_ & m' & [Hb Hst] & _ & Heq)];
    [by eapply refuses_mutation|]. rewrite Heq in Hrun.
  eapply commit_mutation in Hrun as (? & ? & _); [by split|done|apply Hb|apply Hs|by split_and!].
Qed.

Lemma persistent_claim sub s r s' :
  persistent_inv s -> PersistentStore_claim_subscription sub s = (r, s') ->
  let stored := view_stored (persistent_view s) (sub_slot sub) in
  persistent_inv s' /\
  ((exists e, r = Err e /\ persistent_view s' ≡ persistent_view s) \/
   (stored = Some sub /\ r = Ok true /\
    persistent_view s' ≡ match sub_kind sub with
                         | SubscriptionKind.OneShot => set_slot (sub_slot sub) None (persistent_view s)
                         | SubscriptionKind.Permanent => persistent_view s
                         end) \/
   (stored <> Some sub /\ r = Ok false /\ persistent_view s' ≡ persistent_view s)).
Proof.
  intros Hs Hrun. cbn zeta.
  change (view_stored (persistent_view s)) with (stored_in (st_subscriptions (ps_state s))).
  destruct (claim_shape s sub (pinv_buckets s Hs)) as [[Heq Hwhy]|(Hkind & Hst & m' & [Hb Hm] & _ & Heq)];
    rewrite Heq in Hrun.
  - injection Hrun as <- <-. split; [done|]. right. case_bool_decide as Hst; [left|by right].
    split; [done|]. split; [done|]. by destruct Hwhy as [->|].
  - rewrite M_bind_run in Hrun.
    destruct (PersistentStore_commit _ s) as [r0 s0] eqn:Hc.
    eapply (commit_mutation _ _ _ _ (set_slot (sub_slot sub) None (persistent_view s)))
      in Hc as (Hs' & Hmut & _); [|done|apply Hb|apply Hs|by split_and!].
    destruct Hmut as [(-> & Hv)|(e & -> & Hv)]; injection Hrun as <- <-; (split; [done|]).
    + right. left. rewrite Hkind. done.
    + left. by exists e.
Qed.

Lemma persistent_check sender session now s r s' :
  persistent_inv s -> PersistentStore_check_and_mark sender session now s = (r, s') ->
  let live := retain_live now (view_sessions (persistent_view s)) in
  let ttl := rc_ttl_seconds (st_replay (ps_state s)) in
  persistent_inv s' /\ rc_ttl_seconds (st_replay (ps_state s')) = ttl /\
  ((live !! (sender, session) = None /\ r = Ok tt /\
    persistent_view s' ≡ set_sessions (<[(sender, session) := saturating_add now ttl]> live) (persistent_view s)) \/
   (exists e, r = Err e /\ (is_Some (live !! (sender, session)) -> e = Error.Replay) /\
    (persistent_view s' ≡ persistent_view s \/ persistent_view s' ≡ set_sessions live (persistent_view s)))).
Proof.
  intros Hs Hrun. cbn zeta.
  destruct (check_shape s sender session now) as [(e & Heq & He)|(Hno & _ & Heq)]; rewrite Heq in Hrun.
  - injection Hrun as <- <-. split; [done|]. split; [done|]. right. exists e. auto.
  - eapply (commit_mutation _ _ _ _ (set_sessions (<[(sender, session) := saturating_add now
        (rc_ttl_seconds (st_replay (ps_state s)))]> (retain_live now (view_sessions (persistent_view s))))
        (persistent_view s))) in Hrun as (Hs' & Hmut & Hst); [|done|apply Hs|apply Hs|by split_and!].
    split; [done|]. split; [by destruct Hst as [->| ->]|].
    destruct Hmut as [(-> & Hv)|(e & -> & Hv)]; [left; done|].
    right. exists e. split; [done|]. split; [|by left]. cbn in Hno |- *. rewrite Hno. by intros [].
Qed.

#[export] Program Instance PersistentStore_laws : CaStoreLaws PersistentStore := {
  store_inv := persistent_inv;
  store_view := persistent_view;
  store_ttl s := rc_ttl_seconds (st_replay (ps_state s));
  provision_law := persistent_provision;
  set_environment_law := persistent_set_environment;
  put_subscription_law := persistent_put;
  claim_law := persistent_claim;
  check_law := persistent_check;
}.
Next Obligation. reflexivity. Qed.
Next Obligation. intros s []. done. Qed.
Next Obligation. intros s k sub Hs. apply stored_in_slot, Hs. Qed.
Next Obligation. reflexivity. Qed.
Next Obligation.
  intros ty s Hs. eexists. split; [reflexivity|]. apply bucket_listing. apply Hs.
Qed.

(** ** Durability *)

(** A mutation of the store, by the CA or by the daemon at start. *)
Inductive PersistentCall :=
| StoreMutation (c : StoreCall)
| Reconcile (configured : list (AgentId * PublicKeys)).

Definition persistent_call (c : PersistentCall) : M PersistentStore Error unit :=
  match c with
  | StoreMutation (CallProvision a k) => provision a k
  | StoreMutation (CallSetEnvironment a e) => set_environment a e
  | StoreMutation (CallPut sub) => put_subscription sub
  | StoreMutation (CallClaim sub) => claim_subscription sub;; mret tt
  | StoreMutation (CallMark sender session now) => check_and_mark sender session now
  | Reconcile configured => PersistentStore_reconcile_agents configured
  end.

(** The calls one after another, until the machine stops in one. *)
Fixpoint persistent_run (calls : list PersistentCall) (s : PersistentStore) :
    list (Res unit) * PersistentStore :=
  match calls with
  | [] => ([], s)
  | c :: calls' =>
      match persistent_call c s with
      | (Panic, s1) => ([Panic], s1)
      | (r, s1) => let '(rs, s2) := persistent_run calls' s1 in (r :: rs, s2)
      end
  end.

(** What a call does to a view, when it works. *)
Definition retain_view (k : gmap AgentId PublicKeys) (v : StoreView) : StoreView :=
  let keep := unchanged (view_keys v) k in
  mkView k (filter (fun kv => keep kv.1) (view_environments v))
    (fun x => if keep x.2.1 then view_stored v x else None)
    (filter (fun kv => keep kv.1.1) (view_sessions v)).

Definition call_effect (limits : StoreLimits) (c : PersistentCall) (v : StoreView) : StoreView :=
  match c with
  | StoreMutation (CallProvision a k) => add_key a k v
  | StoreMutation (CallSetEnvironment a e) => add_environment a e v
  | StoreMutation (CallPut sub) => set_slot (sub_slot sub) (Some sub) v
  | StoreMutation (CallClaim sub) =>
      match sub_kind sub with
      | SubscriptionKind.OneShot =>
          if decide (view_stored v (sub_slot sub) = Some sub) then set_slot (sub_slot sub) None v else v
      | SubscriptionKind.Permanent => v
      end
  | StoreMutation (CallMark sender session now) =>
      set_sessions (<[(sender, session) := saturating_add now (lim_replay_ttl_seconds limits)]>
        (retain_live now (view_sessions v))) v
  | Reconcile configured => retain_view (list_to_map configured) v
  end.

#[export] Instance call_effect_proper limits c : Proper ((≡) ==> (≡)) (call_effect limits c).
Proof.
  intros v w Hvw. pose proof Hvw as (Hk & He & Hs & Hr). destruct c as [[]|configured]; cbn [call_effect].
  - split_and!; cbn; [by rewrite Hk|done..].
  - split_and!; cbn; [done|by rewrite He|done..].
  - by apply set_slot_proper.
  - destruct (sub_kind sub); [|done]. rewrite Hs. case_decide; [by apply set_slot_proper|done].
  - split_and!; cbn; [done..|by rewrite Hr].
  - split_and!; cbn; [done|by rewrite Hk, He| |by rewrite Hk, Hr]. intros x. by rewrite Hk, Hs.
Qed.

(** The view that the acknowledged calls lead to. *)
Definition acknowledged (limits : StoreLimits) (calls : list PersistentCall) (rs : list (Res unit))
    (v : StoreView) : StoreView :=
  foldl (fun v cr => if is_ok cr.2 then call_effect limits cr.1 v else v) v (zip calls rs).

#[export] Instance acknowledged_proper limits calls rs :
  Proper ((≡) ==> (≡)) (acknowledged limits calls rs).
Proof.
  unfold acknowledged. induction (zip calls rs) as [|[c r] l IH]; intros v w Hvw; cbn; [done|].
  apply IH. destruct (is_ok r); [by apply call_effect_proper|done].
Qed.

(** The CA stores subscriptions with a handler. *)
Definition valid_call (c : PersistentCall) : Prop :=
  match c with StoreMutation (CallPut sub) => sub_handler sub <> HandlerId_NONE | _ => True end.

#[export] Instance valid_call_dec c : Decision (valid_call c).
Proof. destruct c as [[]|]; cbn; apply _. Defined.

(** *** What a snapshot restores *)

Lemma count_push_bucket s m : count_subscriptions (push_bucket s m) = S (count_subscriptions m).
Proof.
  unfold push_bucket.
  pose proof (count_insert m (sub_type_id s) (default [] (m !! sub_type_id s) ++ [s])) as Hc.
  rewrite length_app in Hc. cbn in Hc. lia.
Qed.

Lemma count_foldl_push l m :
  count_subscriptions (foldl (fun m s => push_bucket s m) m l) = length l + count_subscriptions m.
Proof. revert m. induction l as [|s l IH]; intros m; cbn; [done|]. rewrite IH, count_push_bucket. lia. Qed.

(** The buckets that are read back are those that were not empty. *)
Lemma restored_bucket m ty b : buckets_ok m ->
  foldl (fun m s => push_bucket s m) ∅ (all_subscriptions m) !! ty = Some b -> b = default [] (m !! ty).
Proof.
  intros Hm Hb. pose proof (foldl_push_bucket (all_subscriptions m) ∅ ty) as Hf.
  rewrite Hb, lookup_empty, filter_all_subscriptions in Hf by done. exact Hf.
Qed.

Lemma state_ok_restored limits st : state_ok limits st ->
  state_ok limits (snapshot_state limits (btree_iter agent_compare (st_keys st))
    (btree_iter agent_compare (st_environments st)) (all_subscriptions (st_subscriptions st))
    (btree_iter replay_key_compare (rc_entries (st_replay st)))).
Proof.
  intros [H1 H2 H3 H4 _ _ H5 H6 H7 H8 H9]. unfold snapshot_state. rewrite !list_to_map_btree_iter.
  split; cbn [st_keys st_environments st_subscriptions st_replay rc_entries rc_maximum rc_ttl_seconds];
    try done.
  - by rewrite count_foldl_push, count_empty, <-count_all, Nat.add_0_r.
  - intros ty b ->%restored_bucket; [|done]. by apply buckets_default.
  - intros ty b ->%restored_bucket; [|done]. destruct (st_subscriptions st !! ty) eqn:Hty; [|done].
    by eapply H8.
Qed.

(** A file that was synced, and opens as a well-formed store with this view. *)
Definition holds (limits : StoreLimits) (file : option Contents) (v : StoreView) : Prop :=
  exists st, match file with
             | Some c => ct_synced c = true /\ fits_snapshot (ct_bytes c) /\
                 decode_state (ct_bytes c) limits = Ok st
             | None => st = state_empty limits
             end /\ state_ok limits st /\ state_view st ≡ v.

#[export] Instance holds_proper limits file : Proper ((≡) ==> iff) (holds limits file).
Proof. intros v w Hvw. unfold holds. by setoid_rewrite Hvw. Qed.

(** The path names such a file. *)
Definition reopens (limits : StoreLimits) (d : Disk) (v : StoreView) : Prop := holds limits (disk_file d) v.

#[export] Instance reopens_proper limits d : Proper ((≡) ==> iff) (reopens limits d).
Proof. apply holds_proper. Qed.

Lemma fits_snapshot_fits bytes : fits_snapshot bytes -> fits (length bytes).
Proof. unfold fits_snapshot, fits, MAX_SNAPSHOT_LEN, u64_max. lia. Qed.

Lemma reopens_persisted limits st d d' : state_ok limits st -> persisted st d d' ->
  reopens limits d' (state_view st).
Proof.
  intros Hok (bytes & Henc & Hf & Hfit & _). pose proof (fits_snapshot_fits bytes Hfit) as Hfits.
  apply encode_state_Ok in Henc as [Henc ->]. eexists. rewrite Hf.
  split; [split; [done|split; [done|]]|split; [by apply state_ok_restored|apply snapshot_state_view, Hok]].
  apply decode_state_iff; [done|]. do 4 eexists. split; [by apply state_snapshot|]. split; reflexivity.
Qed.

(** A disk that a process starts from, and that it does not stop. *)
Definition ready (limits : StoreLimits) (d : Disk) (v : StoreView) : Prop := reopens limits d v /\ never_stops d.

Lemma ready_process limits d v faults : reopens limits d v -> Forall no_stop faults ->
  ready limits (restart ProcessRestarts faults d) v.
Proof. by split. Qed.

(** Such as an empty one. *)
Lemma ready_empty limits temporary faults : Forall no_stop faults ->
  ready limits (mkDisk None temporary [] faults) (state_view (state_empty limits)).
Proof. split; [|done]. eexists. split; [reflexivity|]. split; [apply state_ok_empty|done]. Qed.

(** A store whose memory is what its file holds. *)
Record durable (s : PersistentStore) : Prop := mkDurable {
  durable_ok : state_ok (ps_limits s) (ps_state s);
  durable_file : reopens (ps_limits s) (ps_snapshot s) (persistent_view s);
}.

(** What the path may still name holds views of this kind. *)
Definition former_in (limits : StoreLimits) (V : StoreView -> Prop) (d : Disk) : Prop :=
  Forall (fun file => exists v, V v /\ holds limits file v) (disk_former d).

Lemma former_in_mono limits (V W : StoreView -> Prop) d : (forall v, V v -> W v) ->
  former_in limits V d -> former_in limits W d.
Proof. intros HVW Hd. eapply Forall_impl; [exact Hd|]. intros file (v & ? & ?). exists v. auto. Qed.

(** What a store reads of a disk. *)
Lemma open_reads limits d s : PersistentStore_open limits d = Ok s ->
  ps_limits s = limits /\ ps_snapshot s = mkDisk (disk_file d) (disk_temporary d) (disk_former d) (tl (disk_faults d)) /\
  match disk_file d with
  | Some c => decode_state (ct_bytes c) limits = Ok (ps_state s)
  | None => ps_state s = state_empty limits
  end.
Proof.
  unfold PersistentStore_open, SnapshotFile_load. autorewrite with rust.
  destruct (hd Works (disk_faults d)); [|done..]. cbn [disk_file].
  destruct (disk_file d) as [c|]; [|by intros [= <-]].
  destruct (_ <=? _)%N; [|done]. cbn [mret M_ret]. rewrite bind_Ok.
  destruct (decode_state (ct_bytes c) limits) as [st|e|]; [|done..]. by intros [= <-].
Qed.

Lemma reopened limits d v s : reopens limits d v -> PersistentStore_open limits d = Ok s ->
  durable s /\ ps_limits s = limits /\ persistent_view s ≡ v.
Proof.
  intros (st & Hst & Hok & Hv) (Hl & Hd & Hs)%open_reads.
  assert (ps_state s = st) as <-.
  { destruct (disk_file d) as [c|]; [|by subst]. destruct Hst as (_ & _ & Hst). congruence. }
  split; [|done]. split; [by rewrite Hl|]. rewrite Hl, Hd. by exists (ps_state s).
Qed.

Lemma reopen limits d v : reopens limits d v -> hd Works (disk_faults d) = Works ->
  exists s, PersistentStore_open limits d = Ok s /\ durable s /\ ps_limits s = limits /\
    persistent_view s ≡ v.
Proof.
  intros Hre Hworks. assert (exists s, PersistentStore_open limits d = Ok s) as [s Hs].
  { destruct Hre as (st & Hst & _ & _). unfold PersistentStore_open, SnapshotFile_load. autorewrite with rust.
    rewrite Hworks. cbn [disk_file]. destruct (disk_file d) as [c|].
    - destruct Hst as (_ & Hfit & Hdec). unfold fits_snapshot in Hfit.
      destruct (N.leb_spec (N.of_nat (length (ct_bytes c))) MAX_SNAPSHOT_LEN); [|lia].
      cbn [mret M_ret]. rewrite bind_Ok, Hdec. by eexists.
    - by eexists. }
  exists s. split; [done|]. by eapply reopened.
Qed.

(** After a restart of the process the file is the one it was; after one of the machine
    it is that or one the path may still have named. *)
Lemma restart_reopens limits d v (V : StoreView -> Prop) how faults :
  reopens limits d v -> former_in limits V d ->
  exists w, reopens limits (restart how faults d) w /\
    (w = v \/ V w /\ how <> ProcessRestarts /\ disk_former d <> []).
Proof.
  intros Hre Hformer. destruct how as [|found garbage temporary]; [exists v; auto|].
  assert (forall file w, holds limits file w -> holds limits (found_contents garbage <$> file) w) as Hfound.
  { intros file w (st & Hst & Hok). exists st. split; [|done]. destruct file as [c|]; [|done].
    destruct Hst as (Hsync & Hst). cbn. unfold found_contents. by rewrite Hsync. }
  unfold reopens, restart. cbn [disk_file]. destruct (disk_former d !! found) as [file|] eqn:Hfile.
  - unfold former_in in Hformer. rewrite Forall_forall in Hformer.
    destruct (Hformer file) as (w & Hw & Hholds); [by eapply list_elem_of_lookup_2|].
    exists w. split; [by apply Hfound|]. right. split; [done|]. split; [done|]. intros Hnil. by rewrite Hnil in Hfile.
  - exists v. split; [by apply Hfound|by left].
Qed.

(** *** Reconciliation *)

Lemma configured_keys_cases configured k :
  match configured_keys configured k with
  | Ok k' => k' = list_to_map (reverse configured) ∪ k /\
      NoDup configured.*1 /\ Forall (fun a => a <> AgentId_CA /\ k !! a = None) configured.*1
  | Err e => e = Error.Malformed
  | Panic => False
  end.
Proof.
  revert k. induction configured as [|[a v] l IH]; intros k; cbn [configured_keys].
  { split; [symmetry; apply (left_id_L ∅ (∪))|]. split; constructor. }
  destruct (_ || _) eqn:Hg; [done|]. autorewrite with bool_prop in Hg. destruct Hg as [Hca Hno].
  rewrite <-eq_None_not_Some in Hno. specialize (IH (<[a := v]> k)).
  destruct (configured_keys l _) as [k'|e|]; [|done..]. destruct IH as (-> & Hnd & Hl).
  cbn [fmap list_fmap fst]. rewrite reverse_cons, list_to_map_app. cbn [list_to_map foldr fst snd].
  split; [|split].
  - rewrite insert_union_singleton_l, (assoc_L (∪)). done.
  - constructor; [|done]. rewrite Forall_forall in Hl. intros Hin.
    destruct (Hl a Hin) as [_ Hk]. by rewrite lookup_insert_eq in Hk.
  - constructor; [done|]. eapply Forall_impl; [exact Hl|]. intros x [Hx Hk]. split; [done|].
    by apply lookup_insert_None in Hk as [].
Qed.

Lemma configured_keys_Ok configured k : configured_keys configured ∅ = Ok k ->
  k = list_to_map configured /\ k !! AgentId_CA = None /\ size k <= length configured.
Proof.
  intros Hk. pose proof (configured_keys_cases configured ∅) as Hc. rewrite Hk in Hc.
  destruct Hc as (-> & Hnd & Hca). rewrite (right_id_L ∅ (∪)).
  rewrite (list_to_map_proper (reverse configured) configured);
    [|by rewrite fmap_reverse, reverse_Permutation|apply reverse_Permutation].
  split; [done|]. split.
  - apply not_elem_of_list_to_map_1. rewrite Forall_forall in Hca. intros Hin. by destruct (Hca _ Hin).
  - clear. induction configured as [|[a v] l IH]; cbn; [done|]. rewrite map_size_insert.
    destruct (_ !! a); cbn; lia.
Qed.

Lemma filter_bucket_ok ty b (P : StoredSubscription -> Prop) `{!forall x, Decision (P x)} :
  bucket_ok ty b -> bucket_ok ty (filter P b).
Proof.
  intros [Hty Hnd Hs]. pose proof (sublist_filter P b) as Hsub. split.
  - by eapply sublist_Forall.
  - eapply sublist_NoDup; [exact Hnd|by apply fmap_sublist].
  - by eapply sublist_StronglySorted.
Qed.

Section retain.
Variable keep : AgentId -> bool.
Let keeps (s : StoredSubscription) : Prop := keep (sub_subscriber s).
Let retained (m : buckets) : buckets := filter (fun kv => kv.2 <> []) (filter keeps <$> m).

Lemma retained_lookup m ty :
  default [] (retained m !! ty) = filter keeps (default [] (m !! ty)).
Proof.
  unfold retained. rewrite map_lookup_filter, lookup_fmap. destruct (m !! ty) as [b|]; [|done]. cbn.
  destruct (decide (filter keeps b = [])) as [Heq|Hne].
  - rewrite option_guard_False by (by intros []). by rewrite Heq.
  - by rewrite option_guard_True.
Qed.

Lemma retained_bucket m ty b : retained m !! ty = Some b -> b = filter keeps (default [] (m !! ty)).
Proof. intros Hb. by rewrite <-retained_lookup, Hb. Qed.

Lemma retained_stored m x : buckets_ok m ->
  stored_in (retained m) x = if keep x.2.1 then stored_in m x else None.
Proof.
  intros Hm. destruct x as [ty [a h]]. unfold stored_in. rewrite retained_lookup. cbn [fst snd].
  pose proof (buckets_default m ty Hm) as Hb.
  apply entry_of_ext; [apply (filter_bucket_ok ty), Hb|]. intros s.
  rewrite list_elem_of_filter. unfold keeps.
  destruct (keep a) eqn:Hka.
  - rewrite entry_of_Some by apply Hb. split; [|by intros [[_ ?] ?]].
    intros [Hin Hs]. split; [|done]. split; [|done].
    unfold slot_key in Hs. injection Hs as -> _. by rewrite Hka.
  - split; [done|]. intros [[Hs _] Hk]. unfold slot_key in Hk. injection Hk as <- _. by rewrite Hka in Hs.
Qed.

Lemma retained_count m : count_subscriptions (retained m) <= count_subscriptions m.
Proof.
  induction m as [|ty b m Hty IH] using map_ind.
  { unfold retained. by rewrite fmap_empty, map_filter_empty, count_empty. }
  pose proof (count_insert m ty b) as Hc. rewrite Hty in Hc. cbn in Hc.
  pose proof (length_filter keeps b) as Hlen. unfold retained in *. rewrite fmap_insert.
  destruct (decide (filter keeps b = [])) as [Heq|Hne].
  - rewrite map_filter_insert_False by (cbn; by intros []).
    rewrite delete_id by (by rewrite lookup_fmap, Hty). lia.
  - rewrite map_filter_insert_True by done.
    pose proof (count_insert (filter (fun kv => kv.2 <> []) (filter keeps <$> m)) ty (filter keeps b)) as Hf.
    lia.
Qed.

Lemma state_ok_retain limits k st : state_ok limits st ->
  k !! AgentId_CA = None -> size k <= lim_agents limits -> state_ok limits (retain_agents keep k st).
Proof.
  intros [_ H2 H3 H4 Hmax Httl _ H6 H7 H8 H9] Hca Hk.
  split; cbn [retain_agents st_keys st_environments st_subscriptions st_replay rc_entries rc_maximum
    rc_ttl_seconds]; try done.
  - etrans; [|exact H2]. apply map_size_filter.
  - etrans; [apply retained_count|exact H3].
  - etrans; [|exact H4]. apply map_size_filter.
  - intros a e [He _]%map_lookup_filter_Some. by eapply H6.
  - intros ty b ->%retained_bucket. by apply filter_bucket_ok, buckets_default.
  - intros ty b ->%retained_bucket. eapply sublist_Forall; [apply sublist_filter|].
    destruct (st_subscriptions st !! ty) eqn:Hty; [by eapply H8|constructor].
  - intros x e [He _]%map_lookup_filter_Some. by eapply H9.
Qed.
End retain.

Lemma reconcile_shape s configured : state_ok (ps_limits s) (ps_state s) ->
  refuses (PersistentStore_reconcile_agents configured) s \/
  exists next, state_ok (ps_limits s) next /\
    state_view next ≡ retain_view (list_to_map configured) (persistent_view s) /\
    PersistentStore_reconcile_agents configured s = PersistentStore_commit next s.
Proof.
  intros Hok. unfold PersistentStore_reconcile_agents, refuses. autorewrite with rust.
  destruct (Nat.ltb_spec (lim_agents (ps_limits s)) (length configured)) as [|Hlen]; [left; by eexists|].
  pose proof (configured_keys_cases configured ∅) as Hnp.
  destruct (configured_keys configured ∅) as [k|e|] eqn:Hk; [|left; by exists e|done]. clear Hnp.
  apply configured_keys_Ok in Hk as (-> & Hca & Hsize). autorewrite with rust.
  right. eexists. split; [apply state_ok_retain; [done|exact Hca|lia]|]. split; [|reflexivity].
  split_and!; [done..| |done]. intros x. cbn. apply retained_stored, Hok.
Qed.

(** *** Sequences of calls *)

(** Every bucket of subscriptions satisfies what every slot does. *)
Lemma Forall_buckets (P : StoredSubscription -> Prop) m : buckets_ok m ->
  (forall ty b, m !! ty = Some b -> Forall P b) <-> (forall x s, stored_in m x = Some s -> P s).
Proof.
  intros Hm. split.
  - intros HP [ty x] s Hs. unfold stored_in in Hs. cbn [fst snd] in Hs.
    destruct (m !! ty) as [b|] eqn:Hty; [|done]. cbn in Hs.
    apply entry_of_Some in Hs as [Hin _]; [|by apply (Hm ty)].
    specialize (HP ty b Hty). rewrite Forall_forall in HP. by apply HP.
  - intros HP ty b Hb. apply Forall_forall. intros s Hin. apply (HP (sub_slot s)).
    pose proof (bucket_listing m ty Hm) as (_ & _ & Hl). cbn zeta in Hl. rewrite Hb in Hl.
    by apply Hl in Hin as [_ ?].
Qed.

Lemma state_ok_buckets limits st sub o m' : state_ok limits st ->
  updates_slot sub o (st_subscriptions st) m' ->
  (forall s, o = Some s -> stored_ok s) -> count_subscriptions m' <= lim_subscriptions limits ->
  state_ok limits (with_subscriptions m' st).
Proof.
  intros [? ? ? ? ? ? ? ? Hb Hs ?] [Hb' Hst] Ho Hc. split; cbn; try done.
  apply Forall_buckets; [done|]. intros x s Hx. rewrite Hst in Hx. case_decide; [by apply Ho|].
  pose proof (proj1 (Forall_buckets stored_ok _ Hb) Hs) as HP. by eapply HP.
Qed.

(** A call answers from memory, or commits the state with its effect. *)
Lemma call_shape c s : state_ok (ps_limits s) (ps_state s) -> valid_call c ->
  (exists r, persistent_call c s = (r, s) /\ r <> Panic /\
     (r = Ok tt -> persistent_view s ≡ call_effect (ps_limits s) c (persistent_view s))) \/
  (exists next, state_ok (ps_limits s) next /\
     state_view next ≡ call_effect (ps_limits s) c (persistent_view s) /\
     persistent_call c s = PersistentStore_commit next s).
Proof.
  intros Hok Hvalid. pose proof Hok as [H1 H2 H3 H4 Hmax Httl Hca H6 H7 H8 H9].
  assert (forall m : M PersistentStore Error unit, refuses m s -> exists r, m s = (r, s) /\ r <> Panic /\
    (r = Ok tt -> persistent_view s ≡ call_effect (ps_limits s) c (persistent_view s))) as Href.
  { intros m [e He]. by exists (Err e). }
  destruct c as [[a k|a e|sub|sub|sender session now]|configured].
  - destruct (provision_shape s a k) as [|(Ha & Hsize & Heq)]; [left; auto|right].
    eexists. split; [|split; [|exact Heq]]; [|by split_and!]. split; cbn; auto.
    by rewrite lookup_insert_ne.
  - destruct (set_environment_shape s a e) as [|(He & Hsize & Heq)]; [left; auto|right].
    eexists. split; [|split; [|exact Heq]]; [|by split_and!]. split; cbn; auto.
    intros a' e' [[<- <-]|[_ ?]]%lookup_insert_Some; [done|by eapply H6].
  - destruct (put_shape s sub H7) as [|(Hk & m' & Hm & Hsize & Heq)]; [left; auto|right].
    eexists. split; [|split; [|exact Heq]].
    + eapply state_ok_buckets; [done|exact Hm| |auto]. by intros ? [= <-].
    + split_and!; [done..| |done]. apply Hm.
  - cbn [persistent_call claim_subscription PersistentStore_ca ca_subscriptions].
    destruct (claim_shape s sub H7) as [[Heq Hwhy]|(Hk & Hst & m' & Hm & Hsize & Heq)].
    + left. exists (Ok tt). rewrite M_bind_run, Heq. split; [done|]. split; [done|]. intros _.
      cbn [call_effect]. destruct (sub_kind sub); [|done]. destruct Hwhy as [|Hno]; [done|].
      by rewrite decide_False.
    + right. eexists. split; [|split].
      * eapply state_ok_buckets; [done|exact Hm|done|lia].
      * cbn [call_effect]. rewrite Hk, decide_True by exact Hst. split_and!; [done..| |done]. apply Hm.
      * rewrite M_bind_run, Heq, M_bind_run. by destruct (PersistentStore_commit _ s) as [[[]| |] ?].
  - destruct (check_shape s sender session now) as [(e & Heq & _)|(Hno & Hsize & Heq)].
    + left. apply Href. by exists e.
    + right. eexists. split; [|split; [|exact Heq]].
      * split; cbn; try done; [rewrite map_size_insert, Hno; cbn; lia|].
        intros x v [[_ <-]|[_ [Hv _]%map_lookup_filter_Some]]%lookup_insert_Some; [|by eapply H9].
        unfold saturating_add. lia.
      * rewrite Httl. by split_and!.
  - destruct (reconcile_shape s configured Hok) as [|?]; [left; auto|by right].
Qed.

Lemma works_no_stop d : always_works d -> never_stops d.
Proof. intros Hd. eapply Forall_impl; [exact Hd|]. by intros [|?|? ?]. Qed.

Lemma call_durable c s r s' : durable s -> valid_call c -> persistent_call c s = (r, s') ->
  ps_limits s' = ps_limits s /\
  persistent_view s' ≡ (if is_ok r then call_effect (ps_limits s) c (persistent_view s)
                        else persistent_view s) /\
  (r <> Panic -> durable s') /\
  (reopens (ps_limits s) (ps_snapshot s') (persistent_view s') \/
   r = Panic /\ reopens (ps_limits s) (ps_snapshot s') (call_effect (ps_limits s) c (persistent_view s'))).
Proof.
  intros [Hok Hfile] Hvalid Hrun. destruct (call_shape c s Hok Hvalid) as [(r0 & Heq & Hnp & Heff)|
    (next & Hnext & Heff & Heq)]; rewrite Heq in Hrun.
  - injection Hrun as <- <-. split; [done|]. split; [|split; [done|by left]].
    destruct r0 as [[]|e|]; cbn; [by apply Heff|done..].
  - apply persistent_commit_cases in Hrun as (Hlim & _ & Hcase). split; [done|].
    assert (same_file (ps_snapshot s) (ps_snapshot s') ->
      reopens (ps_limits s) (ps_snapshot s') (persistent_view s)) as Hsame.
    { intros [Hf _]. unfold reopens. by rewrite Hf. }
    destruct r as [[]|e|]; cbn [is_ok]; destruct Hcase as [Hst Hd]; unfold persistent_view in *;
      rewrite Hst; (split; [done|]).
    + destruct Hd as [Hd _]. pose proof (reopens_persisted _ _ _ _ Hnext Hd) as Hre.
      split; [intros _|by left]. split; unfold persistent_view; by rewrite Hlim, Hst.
    + pose proof (Hsame Hd) as Hre. split; [intros _|by left].
      split; unfold persistent_view; by rewrite Hlim, Hst.
    + split; [done|]. destruct Hd as [Hd|Hd]; [left; by apply Hsame|right].
      split; [done|]. rewrite <-Heff. by eapply reopens_persisted.
Qed.

(** What a call leaves of the earlier files. *)
Lemma call_former (V : StoreView -> Prop) c s r s' : durable s -> valid_call c -> persistent_call c s = (r, s') ->
  (former_in (ps_limits s) V (ps_snapshot s) ->
   former_in (ps_limits s) (fun v => V v \/ v ≡ persistent_view s) (ps_snapshot s')) /\
  (always_works (ps_snapshot s) -> always_works (ps_snapshot s') /\
     (disk_former (ps_snapshot s) = [] -> disk_former (ps_snapshot s') = [])).
Proof.
  intros [Hok Hfile] Hvalid Hrun.
  assert (forall d, former_in (ps_limits s) V d ->
    former_in (ps_limits s) (fun v => V v \/ v ≡ persistent_view s) d) as Hmono.
  { intros d. apply former_in_mono. auto. }
  destruct (call_shape c s Hok Hvalid) as [(r0 & Heq & _ & _)|(next & Hnext & _ & Heq)]; rewrite Heq in Hrun.
  { injection Hrun as <- <-. auto. }
  apply persistent_commit_cases in Hrun as (_ & [Hgo Hworks] & Hcase).
  assert (same_file (ps_snapshot s) (ps_snapshot s') ->
    (former_in (ps_limits s) V (ps_snapshot s) ->
     former_in (ps_limits s) (fun v => V v \/ v ≡ persistent_view s) (ps_snapshot s')) /\
    (disk_former (ps_snapshot s) = [] -> disk_former (ps_snapshot s') = [])) as Hsame.
  { intros [_ Hf]. unfold former_in. rewrite Hf. split; [apply Hmono|done]. }
  assert (persisted next (ps_snapshot s) (ps_snapshot s') -> former_in (ps_limits s) V (ps_snapshot s) ->
    former_in (ps_limits s) (fun v => V v \/ v ≡ persistent_view s) (ps_snapshot s')) as Hreplaced.
  { intros (bytes & _ & _ & _ & [Hf|Hf]) Hold; unfold former_in; rewrite Hf; [|constructor].
    apply Forall_app. split; [by apply Hmono|]. apply Forall_singleton. exists (persistent_view s). by split; [right|]. }
  destruct r as [[]|e|].
  - destruct Hcase as (_ & Hp & Hall). split; [by apply Hreplaced|]. auto.
  - destruct Hcase as [_ Hd]. destruct (Hsame Hd). auto.
  - split.
    + destruct Hcase as [_ [Hd|Hd]]; [by apply Hsame|by apply Hreplaced].
    + intros Hw. by destruct (Hgo (works_no_stop _ Hw)) as [_ []].
Qed.

(** The views that prefixes of the calls lead to. *)
Definition earlier_view (limits : StoreLimits) (calls : list PersistentCall) (rs : list (Res unit))
    (v w : StoreView) : Prop :=
  exists n, n <= length rs /\ w ≡ acknowledged limits (take n calls) (take n rs) v.

#[export] Instance earlier_view_proper limits calls rs v : Proper ((≡) ==> iff) (earlier_view limits calls rs v).
Proof. intros w w' Hw. unfold earlier_view. by setoid_rewrite Hw. Qed.

Lemma earlier_view_cons limits c calls r rs v w v1 :
  v1 ≡ (if is_ok r then call_effect limits c v else v) ->
  earlier_view limits calls rs v1 w -> earlier_view limits (c :: calls) (r :: rs) v w.
Proof.
  intros Hv (n & Hn & Hw). exists (S n). split; [cbn; lia|]. rewrite Hw. unfold acknowledged.
  cbn [take zip zip_with foldl fst snd]. by apply (acknowledged_proper limits (take n calls) (take n rs)).
Qed.

Lemma run_durable calls s rs s' : durable s -> Forall valid_call calls ->
  persistent_run calls s = (rs, s') ->
  ps_limits s' = ps_limits s /\
  persistent_view s' ≡ acknowledged (ps_limits s) calls rs (persistent_view s) /\
  (reopens (ps_limits s) (ps_snapshot s') (persistent_view s') \/
   exists c, calls !! pred (length rs) = Some c /\ last rs = Some Panic /\
     reopens (ps_limits s) (ps_snapshot s') (call_effect (ps_limits s) c (persistent_view s'))).
Proof.
  intros Hs Hvalid. revert s rs s' Hs. induction Hvalid as [|c calls Hc Hvalid IH]; intros s rs s' Hs.
  { intros [= <- <-]. split; [done|]. split; [done|]. left. apply Hs. }
  cbn [persistent_run]. destruct (persistent_call c s) as [r s1] eqn:Hrun.
  apply call_durable in Hrun as (Hlim & Hv & Hd & Hre); [|done..].
  destruct (decide (r = Panic)) as [->|Hnp].
  { intros [= <- <-]. split; [done|].
    split; [unfold acknowledged; destruct calls; exact Hv|]. destruct Hre as [|[_ Hre]]; [by left|right].
    by exists c. }
  assert ((let '(rs, s2) := persistent_run calls s1 in (r :: rs, s2)) = (rs, s') ->
    ps_limits s' = ps_limits s /\
    persistent_view s' ≡ acknowledged (ps_limits s) (c :: calls) rs (persistent_view s) /\
    (reopens (ps_limits s) (ps_snapshot s') (persistent_view s') \/
     exists c', (c :: calls) !! pred (length rs) = Some c' /\ last rs = Some Panic /\
       reopens (ps_limits s) (ps_snapshot s') (call_effect (ps_limits s) c' (persistent_view s'))))
    as Hgoal; [|by destruct r].
  specialize (IH s1). destruct (persistent_run calls s1) as [rs2 s2]. intros [= <- <-].
  destruct (IH rs2 s2 (Hd Hnp) eq_refl) as (Hlim2 & Hv2 & Hre2).
  rewrite Hlim in *. split; [done|]. split.
  - rewrite Hv2. unfold acknowledged. cbn [zip_with foldl fst snd].
    apply (acknowledged_proper (ps_limits s) calls rs2), Hv.
  - destruct Hre2 as [|(c' & Hc' & Hlast & Hre2)]; [by left|right].
    destruct rs2 as [|r2 rs2]; [done|]. by exists c'.
Qed.

Lemma run_former calls : forall (V : StoreView -> Prop) s rs s', durable s -> Forall valid_call calls ->
  persistent_run calls s = (rs, s') ->
  (former_in (ps_limits s) V (ps_snapshot s) ->
   former_in (ps_limits s) (fun v => V v \/ earlier_view (ps_limits s) calls rs (persistent_view s) v)
     (ps_snapshot s')) /\
  (always_works (ps_snapshot s) -> disk_former (ps_snapshot s) = [] -> disk_former (ps_snapshot s') = []).
Proof.
  induction calls as [|c calls IH]; intros V s rs s' Hs Hvalid; cbn [persistent_run].
  { intros [= <- <-]. split; [|done]. apply former_in_mono. auto. }
  apply Forall_cons in Hvalid as [Hc Hvalid]. destruct (persistent_call c s) as [r s1] eqn:Hrun.
  pose proof (call_durable _ _ _ _ Hs Hc Hrun) as (Hlim & Hv & Hd & _).
  destruct (call_former V _ _ _ _ Hs Hc Hrun) as [Hf Hw].
  assert (forall rs', earlier_view (ps_limits s) (c :: calls) rs' (persistent_view s) (persistent_view s)) as Hnow.
  { intros rs'. exists 0. split; [lia|done]. }
  destruct (decide (r = Panic)) as [->|Hnp].
  { intros [= <- <-]. split; [|by intros Hall ?; apply Hw].
    intros Hold. eapply former_in_mono; [|by apply Hf]. intros v [?|Heq]; [by left|right].
    exists 0. split; [cbn; lia|done]. }
  assert ((let '(rs, s2) := persistent_run calls s1 in (r :: rs, s2)) = (rs, s') ->
    (former_in (ps_limits s) V (ps_snapshot s) ->
     former_in (ps_limits s) (fun v => V v \/ earlier_view (ps_limits s) (c :: calls) rs (persistent_view s) v)
       (ps_snapshot s')) /\
    (always_works (ps_snapshot s) -> disk_former (ps_snapshot s) = [] -> disk_former (ps_snapshot s') = []))
    as Hgoal; [|by destruct r].
  destruct (persistent_run calls s1) as [rs2 s2] eqn:Hrest. intros [= <- <-].
  destruct (IH (fun v => V v \/ v ≡ persistent_view s) s1 rs2 s2 (Hd Hnp) Hvalid Hrest) as [Hf2 Hw2].
  rewrite Hlim in *. split.
  - intros Hold. eapply former_in_mono; [|by apply Hf2, Hf]. intros v [[?|Heq]|Hlater]; [by left|right..].
    + exists 0. split; [lia|done].
    + by eapply earlier_view_cons.
  - intros Hall Hnil. destruct (Hw Hall) as [Hall' Hnil']. by apply Hw2; [|apply Hnil'].
Qed.

(** C14: The file-backed store is as durable as its directory syncs. Run any sequence of
    mutations (by the CA, or the reconciliation with the configured agents) on a store
    whose file holds its state and is the one the medium has for its path, with any
    failures of the file system and a stop of the process or its machine at any point.
    The view in memory is what the acknowledged calls lead to, nothing else. Opening the
    file after any restart succeeds and gives a durable store: after the process was
    killed with the view that was in memory, or, only when it stopped inside the last
    call, that view with the whole effect of that call. After a stop of the machine it is
    the same as long as every directory sync has worked; only when one has failed, which
    the code ignores, it may be a view that earlier calls since the last one that worked
    had led to, and never a half-written one. While no system call fails, no
    acknowledged call is ever lost. *)
Theorem persistent_store_durable calls s rs s' how faults :
  durable s -> disk_former (ps_snapshot s) = [] -> Forall valid_call calls ->
  persistent_run calls s = (rs, s') -> hd Works faults = Works ->
  let limits := ps_limits s in
  persistent_view s' ≡ acknowledged limits calls rs (persistent_view s) /\
  (always_works (ps_snapshot s) -> disk_former (ps_snapshot s') = []) /\
  exists s2, PersistentStore_open limits (restart how faults (ps_snapshot s')) = Ok s2 /\ durable s2 /\
    (persistent_view s2 ≡ persistent_view s' \/
     (exists c, calls !! pred (length rs) = Some c /\ last rs = Some Panic /\
        persistent_view s2 ≡ call_effect limits c (persistent_view s')) \/
     (how <> ProcessRestarts /\ disk_former (ps_snapshot s') <> [] /\
      earlier_view limits calls rs (persistent_view s) (persistent_view s2))).
Proof.
  intros Hs Hnil Hvalid Hrun Hworks limits.
  destruct (run_former calls (fun _ => False) s rs s' Hs Hvalid Hrun) as [Hformer Hall].
  apply run_durable in Hrun as (_ & Hv & Hre); [|done..].
  split; [done|]. split; [by intros ?; apply Hall|].
  assert (former_in limits (fun v => earlier_view limits calls rs (persistent_view s) v) (ps_snapshot s')) as Hf.
  { eapply former_in_mono; [|apply Hformer; unfold former_in; rewrite Hnil; constructor]. by intros v [[]|]. }
  assert (exists v, reopens limits (ps_snapshot s') v /\ (v ≡ persistent_view s' \/
    exists c, calls !! pred (length rs) = Some c /\ last rs = Some Panic /\
      v ≡ call_effect limits c (persistent_view s'))) as (v & Hv' & Hcase).
  { destruct Hre as [Hre|(c & ? & ? & Hre)]; eexists; (split; [exact Hre|]); [by left|right; by exists c]. }
  destruct (restart_reopens _ _ _ _ how faults Hv' Hf) as (w & Hw & Hfound).
  destruct (reopen _ _ _ Hw) as (s2 & Hopen & Hd & _ & Hv2); [by destruct how|].
  exists s2. split; [done|]. split; [done|]. rewrite Hv2. destruct Hfound as [->|(? & ? & ?)]; [|by right; right].
  destruct Hcase as [Heq|(c & Hc & Hlast & Heq)]; [by left|right; left].
  exists c. split; [exact Hc|]. split; [exact Hlast|]. by rewrite Hv2, Heq.
Qed.

Lemma durable_empty limits temporary faults :
  durable (mkPersistent (state_empty limits) (mkDisk None temporary [] faults) limits).
Proof.
  split; [apply state_ok_empty|]. exists (state_empty limits). split; [done|].
  split; [apply state_ok_empty|done].
Qed.

Lemma size_list_to_map_le {K V} `{Countable K} (l : list (K * V)) :
  size (list_to_map (M:=gmap K V) l) <= length l.
Proof.
  induction l as [|[k v] l IH]; cbn; [done|]. rewrite map_size_insert. destruct (_ !! k); cbn; lia.
Qed.

(** What accepting a list of entries puts into memory. *)
Lemma snapshot_entries_bounds limits lk le ls lr : snapshot_entries limits lk le ls lr ->
  let st := snapshot_state limits lk le ls lr in
  size (st_keys st) <= lim_agents limits /\
  size (st_environments st) <= lim_environments limits /\
  count_subscriptions (st_subscriptions st) <= lim_subscriptions limits /\
  size (rc_entries (st_replay st)) <= lim_replays limits /\
  st_keys st !! AgentId_CA = None /\
  (forall a e, st_environments st !! a = Some e -> is_environment e = true) /\
  (forall ty b s, st_subscriptions st !! ty = Some b -> s ∈ b -> sub_type_id s = ty /\ stored_ok s).
Proof.
  intros [(H1 & H2 & H3 & H4) _ _ Hk He Hs _]. cbn.
  repeat (split; [by etrans; [apply size_list_to_map_le|]|]).
  split; [by rewrite count_foldl_push, count_empty, Nat.add_0_r|].
  split; [by etrans; [apply size_list_to_map_le|]|].
  rewrite Forall_forall in Hk. rewrite Forall_forall in He. rewrite Forall_forall in Hs. split; [|split].
  - apply not_elem_of_list_to_map_1. intros ([a v] & Ha & Hin)%list_elem_of_fmap. by apply (Hk _ Hin).
  - intros a e Ha%elem_of_list_to_map_2. by apply He in Ha as [? _].
  - intros ty b s Hb Hin. pose proof (foldl_push_bucket ls ∅ ty) as Hf.
    rewrite Hb, lookup_empty in Hf. cbn in Hf. subst b.
    apply list_elem_of_filter in Hin as [Hty Hin]. split; [done|]. by apply Hs.
Qed.

(** Snapshots round-trip.  The encoding of a well-formed state decodes, with
    the same limits, to a well-formed state with the same keys, environments,
    subscriptions and replay entries; and no input that the decoder accepts puts
    more agents, environments, subscriptions or replay entries into memory than the
    limits allow, nor an entry for the CA, an environment that does not parse as
    one, or a subscription that is not one of its type with a handler.  The decoder
    never panics. *)
Theorem snapshot_roundtrip limits input : fits (length input) ->
  decode_state input limits <> Panic /\
  (forall st, state_ok limits st -> encode_state st = Ok input ->
     exists st', decode_state input limits = Ok st' /\ state_ok limits st' /\
       state_view st' ≡ state_view st) /\
  (forall st, decode_state input limits = Ok st ->
     size (st_keys st) <= lim_agents limits /\
     size (st_environments st) <= lim_environments limits /\
     count_subscriptions (st_subscriptions st) <= lim_subscriptions limits /\
     size (rc_entries (st_replay st)) <= lim_replays limits /\
     st_keys st !! AgentId_CA = None /\
     (forall a e, st_environments st !! a = Some e -> is_environment e = true) /\
     (forall ty b s, st_subscriptions st !! ty = Some b -> s ∈ b ->
        sub_type_id s = ty /\ stored_ok s)).
Proof.
  intros Hfit. split; [by apply decode_state_no_panic|]. split.
  - intros st Hok [Henc ->]%encode_state_Ok. eexists.
    split; [apply decode_state_iff; [done|]; do 4 eexists; split; [by apply state_snapshot|];
      split; reflexivity|].
    split; [by apply state_ok_restored|apply snapshot_state_view, Hok].
  - intros st Hst. apply decode_state_iff in Hst as (lk & le & ls & lr & Hsnap & -> & _); [|done].
    apply snapshot_entries_bounds in Hsnap. exact Hsnap.
Qed.


(** ** Witnesses *)

Module DurableExample.
Definition agent := mkAgentId (vreplicate 16 x03).
Definition keys := mkPublicKeys (vreplicate 32 x05) (vreplicate 32 x06).
(** The first commit works, but for the sync of the directory perhaps; the second stops
    at the rename. *)
Definition faults (synced renamed : bool) : list Fault :=
  replicate 4 Works ++ [if synced then Works else Fails []] ++ replicate 3 Works ++ [Stops [] renamed].
Definition store (synced renamed : bool) : PersistentStore :=
  mkPersistent (state_empty StoreLimits_default) (mkDisk None None [] (faults synced renamed)) StoreLimits_default.
Definition calls : list PersistentCall :=
  [Reconcile [(agent, keys)]; StoreMutation (CallPut (StoreExample.sub));
   StoreMutation (CallMark agent (mkSessionId (vreplicate 16 x01)) 7)].
End DurableExample.

Lemma snapshot_roundtrip_witness :
  exists input st, encode_state st = Ok input /\ length input = 104 /\
    decode_state input StoreLimits_default <> Panic.
Proof.
  exists (default [] (result_ok (encode_state (with_keys {[DurableExample.agent := DurableExample.keys]}
    (state_empty StoreLimits_default))))).
  exists (with_keys {[DurableExample.agent := DurableExample.keys]} (state_empty StoreLimits_default)).
  split; [vm_compute; reflexivity|]. split; [vm_compute; reflexivity|].
  apply snapshot_roundtrip. vm_compute. discriminate.
Defined.

Lemma persistent_store_durable_witness :
  let run := persistent_run DurableExample.calls (DurableExample.store true true) in
  run.1 = [Ok tt; Panic] /\
  exists s2, PersistentStore_open StoreLimits_default
      (restart (MachineRestarts 0 [x00] None) [] (ps_snapshot run.2)) = Ok s2 /\ durable s2.
Proof.
  cbn zeta. split; [vm_compute; reflexivity|].
  destruct (persistent_store_durable DurableExample.calls (DurableExample.store true true)
    (persistent_run DurableExample.calls (DurableExample.store true true)).1
    (persistent_run DurableExample.calls (DurableExample.store true true)).2
    (MachineRestarts 0 [x00] None) [])
    as (_ & _ & s2 & Hopen & Hd & _).
  - apply durable_empty.
  - reflexivity.
  - apply Forall_cons. split; [exact I|]. apply Forall_cons. split; [|apply Forall_cons; by split].
    vm_compute. discriminate.
  - destruct (persistent_run _ _). reflexivity.
  - reflexivity.
  - exists s2. exact (conj Hopen Hd).
Defined.

(** What is found: the agents and the subscriptions of the store that is opened. *)
Definition found_after (synced renamed : bool) (how : Restart) : option (nat * nat) :=
  match PersistentStore_open StoreLimits_default (restart how []
      (ps_snapshot (persistent_run DurableExample.calls (DurableExample.store synced renamed)).2)) with
  | Ok s => Some (size (st_keys (ps_state s)), length (default [] (st_subscriptions (ps_state s) !! mkTypeId 7)))
  | _ => None
  end.

(** Which of the two states is found depends on where the machine stopped, and after a
    rename on what the medium has for the path. *)
Example restart_before_or_after :
  (found_after true false <$> [ProcessRestarts; MachineRestarts 0 [] None]) = [Some (1, 0); Some (1, 0)] /\
  (found_after true true <$> [ProcessRestarts; MachineRestarts 0 [] None; MachineRestarts 1 [] None])
  = [Some (1, 1); Some (1, 0); Some (1, 1)].
Proof. vm_compute. split; reflexivity. Qed.

(** The directory sync of the first commit failed, which the code ignores: the machine
    stops, and the acknowledged reconciliation is lost. *)
Example acknowledged_commit_lost :
  (persistent_run DurableExample.calls (DurableExample.store false false)).1 = [Ok tt; Panic] /\
  (found_after false false <$> [ProcessRestarts; MachineRestarts 0 [] None]) = [Some (1, 0); Some (0, 0)].
Proof. vm_compute. split; reflexivity. Qed.

(** The decoder accepts two entries in the slot of one subscriber and handler,
    which no sequence of calls stores. *)
Example decode_accepts_duplicate_slot :
  exists st, decode_state (snapshot_wire [] [] [StoreExample.sub; StoreExample.sub] [])
               StoreLimits_default = Ok st /\
    st_subscriptions st !! mkTypeId 7 = Some [StoreExample.sub; StoreExample.sub].
Proof. eexists. split; vm_compute; reflexivity. Qed.
