(* ===== verification/CaEngine.v ===== *)
(** ca-core/src/lib.rs: the protocol engine of the CA, [CertificateAuthority::process],
    over any store and any environment policy. *)

From S2P Require Export Frames CaStore Policy.

Module ProcessResult.
Inductive t := Accepted | Deliveries (frames : list (list byte)).

#[global] Instance eq_dec : EqDecision t.
Proof. solve_decision. Defined.
End ProcessResult.
Abbreviation ProcessResult := ProcessResult.t.

Record CaKeys := mkCaKeys { ck_signing : array 32; ck_x25519 : array 32 }.

(** [CaKeys::from_seeds]: both secrets are kept as they are. *)
Definition CaKeys_from_seeds (ed25519_seed x25519_secret : array 32) : CaKeys :=
  mkCaKeys ed25519_seed x25519_secret.

(** The keys and the policy are fixed; the store, which has interior mutability,
    is the state of the methods. *)
Record CertificateAuthority (P : Type) := mkCa { ca_keys : CaKeys; ca_policy : P }.
Arguments mkCa {P} _ _.
Arguments ca_keys {P} _.
Arguments ca_policy {P} _.

(** [new] and [with_policy] *)
Definition CertificateAuthority_new (k : CaKeys) : CertificateAuthority AllowAllEnvironmentPolicy :=
  mkCa k AllowAll.
Definition with_policy {P} (k : CaKeys) (policy : P) : CertificateAuthority P := mkCa k policy.

(** [.map_err(|_| Error::UnauthorizedEnvironment)] *)
Definition unauthorized {A} (r : result EnvironmentPolicyError A) : Res A :=
  map_err (fun _ => Error.UnauthorizedEnvironment) r.

(** The environment in a stored operation:
    [match parse_operation(&encoded)? { SetEnvironment(e) => e, _ => Err(Malformed) }]. *)
Definition parse_environment (encoded : list byte) : Res EnvironmentRef :=
  operation ← parse_operation encoded;
  match operation with
  | OperationRef.SetEnvironment e => Ok e
  | _ => Err Error.Malformed
  end.

(** The predicate of a stored subscription of a publication's type. *)
Definition parse_subscription (type_id : TypeId) (subscription : StoredSubscription) :
    Res PredicateRef :=
  operation ← parse_operation (sub_encoded subscription);
  match sub_kind subscription, operation with
  | SubscriptionKind.OneShot, OperationRef.Subscribe stored_type predicate
  | SubscriptionKind.Permanent, OperationRef.SubscribePermanent stored_type predicate =>
      if bool_decide (stored_type = type_id) then Ok predicate else Err Error.Malformed
  | _, _ => Err Error.Malformed
  end.

Section engine.
Context `{Crypto}.

Definition CaKeys_verifying_key (k : CaKeys) : array 32 := ed25519_public (ck_signing k).
Definition CaKeys_x25519_public (k : CaKeys) : array 32 := x25519_public (ck_x25519 k).

Context {S : Type} `{CaStore S} {P : Type} `{EnvironmentPolicy P}.
Implicit Types ca : CertificateAuthority P.

(** The state of a request: the frame, the store and the generator. *)
Abbreviation Request := (list byte * (S * Rng))%type.

Definition on_store {A} (m : M S Error A) : M Request Error A :=
  on_second (zoom fst (fun s p => (s, p.2)) m).
Definition on_rng {A} (m : M Rng Error A) : M Request Error A :=
  on_second (zoom snd (fun g p => (p.1, g)) m).

Definition validate_stored_environment ca (agent : AgentId) : M Request Error unit :=
  stored ← on_store (environment agent);
  encoded ← lift (ok_or stored Error.UnauthorizedEnvironment);
  environment ← lift (parse_environment encoded);
  lift (unauthorized (validate_environment (ca_policy ca) agent None environment)).

Definition delivery ca (publisher recipient : AgentId) (handler : HandlerId) (type_id : TypeId)
    (value : list byte) (recipient_x25519 : array 32) : M Rng Error (list byte) := fun g =>
  match (plaintext_len ← on_output (on_range HEADER_LEN MAX_FRAME_LEN
                                      (encode_response type_id publisher value));
         session ← on_second (fill_bytes 16);
         salt ← on_second (fill_bytes 32);
         secret ← on_second generate;
         on_output (seal_in_place plaintext_len MessageType.PublicationResponse AgentId_CA
           recipient handler (mkSessionId session) salt secret recipient_x25519
           (ck_signing (ca_keys ca))))
        (replicate MAX_FRAME_LEN x00, g) with
  | (Ok len, (frame, g')) => (Ok (take len frame), g')
  | (Err e, (_, g')) => (Err e, g')
  | (Panic, (_, g')) => (Panic, g')
  end.

(** The arm of [(SetEnvironment, SetEnvironment(proposed))]. *)
Definition process_set_environment ca (sender : AgentId) (handler : HandlerId)
    (plaintext : list byte) (proposed : EnvironmentRef) : M Request Error ProcessResult :=
  if negb (bool_decide (handler = HandlerId_NONE)) then fail Error.WrongHandler else
  stored ← on_store (environment sender);
  current ← lift (match stored with
                  | None => Ok None
                  | Some encoded => e ← parse_environment encoded; Ok (Some e)
                  end);
  lift (unauthorized (validate_environment (ca_policy ca) sender current proposed));;
  on_store (set_environment sender plaintext);;
  mret ProcessResult.Accepted.

(** The arms of [Subscribe] and [SubscribePermanent]. *)
Definition process_subscribe ca (sender : AgentId) (handler : HandlerId) (type_id : TypeId)
    (kind : SubscriptionKind) (plaintext : list byte) : M Request Error ProcessResult :=
  if bool_decide (handler = HandlerId_NONE) then fail Error.WrongHandler else
  validate_stored_environment ca sender;;
  on_store (put_subscription (mkSubscription sender type_id handler kind plaintext));;
  mret ProcessResult.Accepted.

(** The body of the loop over the subscriptions: the delivery to add, if any. *)
Definition process_subscription ca (sender : AgentId) (publisher_environment : EnvironmentRef)
    (type_id : TypeId) (predicate : PredicateRef) (value : list byte)
    (subscription : StoredSubscription) : M Request Error (option (list byte)) :=
  subscription_predicate ← lift (parse_subscription type_id subscription);
  if negb (evaluate subscription_predicate publisher_environment) then mret None else
  stored ← on_store (environment (sub_subscriber subscription));
  match stored with
  | None => mret None
  | Some encoded =>
      subscriber_environment ← lift (parse_environment encoded);
      if negb (evaluate predicate subscriber_environment) then mret None else
      if negb (authorize_delivery (ca_policy ca) sender publisher_environment
                 (sub_subscriber subscription) subscriber_environment type_id)
      then mret None else
      recipient_keys ← on_store (keys (sub_subscriber subscription));
      frame ← on_rng (delivery ca sender (sub_subscriber subscription)
                        (sub_handler subscription) type_id value (pk_x25519 recipient_keys));
      claimed ← on_store (claim_subscription subscription);
      mret (if claimed : bool then Some frame else None)
  end.

Fixpoint process_subscriptions ca sender publisher_environment type_id predicate value
    (subscriptions : list StoredSubscription) (deliveries : list (list byte)) :
    M Request Error (list (list byte)) :=
  match subscriptions with
  | [] => mret deliveries
  | subscription :: rest =>
      d ← process_subscription ca sender publisher_environment type_id predicate value subscription;
      process_subscriptions ca sender publisher_environment type_id predicate value rest
        (deliveries ++ option_list d)
  end.

(** The arm of [Publish]. *)
Definition process_publish ca (sender : AgentId) (handler : HandlerId) (type_id : TypeId)
    (predicate : PredicateRef) (value : list byte) : M Request Error ProcessResult :=
  if negb (bool_decide (handler = HandlerId_NONE)) then fail Error.WrongHandler else
  stored ← on_store (environment sender);
  encoded ← lift (ok_or stored Error.Malformed);
  publisher_environment ← lift (parse_environment encoded);
  lift (unauthorized (validate_environment (ca_policy ca) sender None publisher_environment));;
  subscriptions ← on_store (subscriptions_for type_id);
  deliveries ← process_subscriptions ca sender publisher_environment type_id predicate value
                 subscriptions [];
  mret (ProcessResult.Deliveries deliveries).

(** The dispatch on message type and operation. *)
Definition process_operation ca (sender : AgentId) (message_type : MessageType)
    (handler : HandlerId) (plaintext : list byte) (operation : OperationRef) :
    M Request Error ProcessResult :=
  match message_type, operation with
  | MessageType.SetEnvironment, OperationRef.SetEnvironment proposed =>
      process_set_environment ca sender handler plaintext proposed
  | MessageType.Subscribe, OperationRef.Subscribe type_id _ =>
      process_subscribe ca sender handler type_id SubscriptionKind.OneShot plaintext
  | MessageType.SubscribePermanent, OperationRef.SubscribePermanent type_id _ =>
      process_subscribe ca sender handler type_id SubscriptionKind.Permanent plaintext
  | MessageType.Publish, OperationRef.Publish type_id predicate value =>
      process_publish ca sender handler type_id predicate value
  | _, _ => fail Error.WrongMessageType
  end.

Definition process ca (now : N) : M Request Error ProcessResult :=
  frame ← gets fst;
  envelope ← lift (parse_envelope frame);
  if negb (bool_decide (env_recipient envelope = AgentId_CA))
     || bool_decide (env_sender envelope = AgentId_CA)
  then fail Error.WrongRecipient else
  if bool_decide (env_message_type envelope = MessageType.PublicationResponse)
  then fail Error.WrongMessageType else
  let sender := env_sender envelope in
  let message_type := env_message_type envelope in
  let handler := env_handler envelope in
  let session := env_session_id envelope in
  public_keys ← on_store (keys sender);
  let verifying := pk_ed25519 public_keys in
  if negb (ed25519_valid_key verifying) then fail Error.BadSignature else
  envelope ← lift (parse_envelope frame);
  lift (verify_envelope_signature envelope verifying);;
  on_store (check_and_mark sender session now);;
  plaintext ← on_output (open_in_place AgentId_CA message_type verifying
                           (ck_x25519 (ca_keys ca)));
  operation ← lift (parse_operation plaintext);
  process_operation ca sender message_type handler plaintext operation.
End engine.

(** ** Running a request *)

(** A policy that does not panic. *)
Class EnvironmentPolicyLaws (P : Type) `{EnvironmentPolicy P} : Prop := {
  validate_no_panic (p : P) agent current e : validate_environment p agent current e <> Panic;
}.

#[export] Instance allow_all_laws : EnvironmentPolicyLaws AllowAllEnvironmentPolicy.
Proof. split. done. Qed.
#[export] Instance static_laws : EnvironmentPolicyLaws StaticEnvironmentPolicy.
Proof. split. apply static_validate_no_panic. Qed.
#[export] Instance dynamic_laws : EnvironmentPolicyLaws DynamicEnvironmentPolicy.
Proof. split. intros []. apply static_validate_no_panic. Qed.

Section running.
Context `{HC : CryptoLaws} `{HL : CaStoreLaws T} `{HP : EnvironmentPolicyLaws P}.
Implicit Types ca : CertificateAuthority P.
Implicit Types s : T.

Lemma on_store_eq {A} (m : M T Error A) f s g :
  on_store m (f, (s, g)) = ((m s).1, (f, ((m s).2, g))).
Proof. unfold on_store, on_second, zoom. cbn [fst snd]. by destruct (m s). Qed.

Lemma on_rng_eq {A} (m : M Rng Error A) f s g :
  on_rng (S:=T) m (f, (s, g)) = ((m g).1, (f, (s, (m g).2))).
Proof. unfold on_rng, on_second, zoom. cbn [fst snd]. by destruct (m g). Qed.

Lemma run_keys a f s (g : Rng) : store_inv s ->
  on_store (keys a) (f, (s, g))
  = (ok_or (view_keys (store_view s) !! a) Error.BadSignature, (f, (s, g))).
Proof. intros Hs. by rewrite on_store_eq, keys_law. Qed.

Lemma run_environment a f s (g : Rng) : store_inv s ->
  on_store (environment a) (f, (s, g)) = (Ok (view_environments (store_view s) !! a), (f, (s, g))).
Proof. intros Hs. by rewrite on_store_eq, environment_law. Qed.

(** The checks before the store is touched. *)
Definition process_checks (directory : gmap AgentId PublicKeys) (frame : list byte) :
    Res EnvelopeRef :=
  e ← parse_envelope frame;
  if negb (bool_decide (env_recipient e = AgentId_CA)) || bool_decide (env_sender e = AgentId_CA)
  then Err Error.WrongRecipient else
  if bool_decide (env_message_type e = MessageType.PublicationResponse)
  then Err Error.WrongMessageType else
  k ← ok_or (directory !! env_sender e) Error.BadSignature;
  if negb (ed25519_valid_key (pk_ed25519 k)) then Err Error.BadSignature else
  verify_envelope_signature e (pk_ed25519 k);;
  Ok e.

Lemma process_checks_Ok directory frame e :
  process_checks directory frame = Ok e <->
  parse_envelope frame = Ok e /\ env_recipient e = AgentId_CA /\ env_sender e <> AgentId_CA /\
  env_message_type e <> MessageType.PublicationResponse /\
  exists k, directory !! env_sender e = Some k /\ ed25519_valid_key (pk_ed25519 k) = true /\
    ed25519_verify_strict (pk_ed25519 k) (env_signed_bytes e) (env_signature e) = true.
Proof.
  unfold process_checks, verify_envelope_signature. split.
  - intros Hr. res_inv Hr. destruct (ed25519_verify_strict _ _ _) eqn:?; naive_solver.
  - intros (-> & Hr & Hs & Hmt & k & Hk & Hv & Hsig). rewrite bind_Ok.
    rewrite (bool_decide_eq_true_2 _ Hr), !bool_decide_eq_false_2 by done. cbn [negb orb].
    rewrite Hk. cbn [ok_or]. rewrite bind_Ok, Hv, Hsig. done.
Qed.

Lemma process_checks_no_panic directory frame : process_checks directory frame <> Panic.
Proof.
  unfold process_checks, verify_envelope_signature.
  pose proof (parse_envelope_no_panic frame). destruct (parse_envelope frame) as [e| |]; [|done..].
  rewrite bind_Ok. repeat case_match; try done.
  destruct (directory !! env_sender e); [|done]. cbn [ok_or]. rewrite bind_Ok.
  by repeat case_match.
Qed.

(** What follows once the request is authenticated and fresh. *)
Definition process_opened ca (e : EnvelopeRef) (frame : list byte) (s : T) (g : Rng) :
    Res ProcessResult * (list byte * (T * Rng)) :=
  match open_result (ck_x25519 (ca_keys ca)) e with
  | Ok pt =>
      match parse_operation pt with
      | Ok op => process_operation ca (env_sender e) (env_message_type e) (env_handler e) pt op
                   (opened_frame e pt, (s, g))
      | Err x => (Err x, (opened_frame e pt, (s, g)))
      | Panic => (Panic, (opened_frame e pt, (s, g)))
      end
  | Err x => (Err x, (frame, (s, g)))
  | Panic => (Panic, (frame, (s, g)))
  end.

Lemma process_run ca now frame s g : store_inv s ->
  process ca now (frame, (s, g))
  = match process_checks (view_keys (store_view s)) frame with
    | Ok e =>
        match check_and_mark (env_sender e) (env_session_id e) now s with
        | (Ok _, s1) => process_opened ca e frame s1 g
        | (Err x, s1) => (Err x, (frame, (s1, g)))
        | (Panic, s1) => (Panic, (frame, (s1, g)))
        end
    | Err x => (Err x, (frame, (s, g)))
    | Panic => (Panic, (frame, (s, g)))
    end.
Proof.
  intros Hs. unfold process, process_checks. autorewrite with rust. cbn [fst].
  destruct (parse_envelope frame) as [e|x|] eqn:Hparse; [|done..].
  autorewrite with rust. cbn [mbind result_bind].
  destruct (_ || _) eqn:Hrec; [done|]. destruct (bool_decide (env_message_type e = _)) eqn:Hmt; [done|].
  rewrite M_bind_run, run_keys by done.
  destruct (view_keys (store_view s) !! env_sender e) as [k|]; cbn [ok_or mbind result_bind]; [|done].
  destruct (negb (ed25519_valid_key (pk_ed25519 k))); [done|]. autorewrite with rust.
  unfold verify_envelope_signature at 1 2.
  destruct (ed25519_verify_strict _ _ _) eqn:Hsig; [|done]. autorewrite with rust.
  cbn [mbind result_bind]. rewrite M_bind_run, on_store_eq.
  destruct (check_and_mark _ _ _ _) as [[[]|x|] s1]; [|done..]. cbn [fst snd].
  rewrite M_bind_run, on_output_eq, open_in_place_run.
  autorewrite with bool_prop in Hrec, Hmt. destruct Hrec as [Hrec _].
  rewrite (proj2 (open_checks_Ok AgentId_CA (env_message_type e) (pk_ed25519 k) frame e)) by done.
  unfold process_opened. destruct (open_result _ e) as [pt|x|]; [|done..]. cbn [fst snd].
  rewrite M_bind_run. unfold lift. by destruct (parse_operation pt).
Qed.
End running.

(** ** Specification: the effect of a request *)

(** The stored operation is a subscription of the stored kind and type. *)
Definition is_Ok_subscription (sub : StoredSubscription) : Prop :=
  exists predicate, parse_subscription (sub_type_id sub) sub = Ok predicate.

Section spec.
Context `{Crypto} `{EnvironmentPolicy P}.
Implicit Types ca : CertificateAuthority P.

(** A stored environment parses and the policy accepts it. *)
Definition environment_valid ca (v : StoreView) (agent : AgentId) (e : EnvironmentRef) : Prop :=
  exists encoded, view_environments v !! agent = Some encoded /\
    parse_environment encoded = Ok e /\
    validate_environment (ca_policy ca) agent None e = Ok tt.

(** A publication is for a subscription: both predicates hold and the policy
    authorises the pair of environments. *)
Definition eligible ca (v : StoreView) (publisher : AgentId) (publisher_environment : EnvironmentRef)
    (type_id : TypeId) (predicate : PredicateRef) (sub : StoredSubscription) : bool :=
  match parse_subscription type_id sub with
  | Ok subscription_predicate =>
      evaluate subscription_predicate publisher_environment &&
      match view_environments v !! sub_subscriber sub with
      | Some encoded =>
          match parse_environment encoded with
          | Ok subscriber_environment =>
              evaluate predicate subscriber_environment &&
              authorize_delivery (ca_policy ca) publisher publisher_environment
                (sub_subscriber sub) subscriber_environment type_id
          | _ => false
          end
      | None => false
      end
  | _ => false
  end.

(** The frame is the delivery of the publication to the subscriber: it is addressed to
    it, and whoever holds the secret of the subscriber's provisioned key opens it with the CA's
    key, under the handler of the subscription. *)
Definition delivers ca (v : StoreView) (publisher : AgentId) (type_id : TypeId) (value : list byte)
    (sub : StoredSubscription) (frame : list byte) : Prop :=
  exists k g, view_keys v !! sub_subscriber sub = Some k /\
    length frame <= MAX_FRAME_LEN /\
    (exists e, parse_envelope frame = Ok e /\ env_sender e = AgentId_CA /\ env_recipient e = sub_subscriber sub /\
       env_message_type e = MessageType.PublicationResponse) /\
    forall secret, pk_x25519 k = x25519_public secret ->
      sealed_frame MessageType.PublicationResponse AgentId_CA (sub_subscriber sub)
        (sub_handler sub) g (CaKeys_verifying_key (ca_keys ca)) secret
        (Operation.wire (Operation.PublicationResponse type_id publisher value)) frame.

(** The one-shot subscriptions among [subs] that pass [f] are gone. *)
Definition consume (subs : list StoredSubscription) (f : StoredSubscription -> bool) (v : StoreView) :
    StoreView :=
  mkView (view_keys v) (view_environments v)
    (fun k => match view_stored v k with
              | Some sub =>
                  if bool_decide (sub ∈ subs) && bool_decide (sub_kind sub = SubscriptionKind.OneShot)
                     && f sub
                  then None else Some sub
              | None => None
              end)
    (view_sessions v).

(** [subs] is what is stored for the type, in order. *)
Definition listing (v : StoreView) (type_id : TypeId) (subs : list StoredSubscription) : Prop :=
  NoDup (slot_key <$> subs) /\ StronglySorted slot_le subs /\
  forall sub, sub ∈ subs <->
    sub_type_id sub = type_id /\ view_stored v (sub_slot sub) = Some sub.

(** What an accepted request of [sender] with plaintext [pt] does to the store
    and answers, by message type. *)
Inductive request_effect ca (v : StoreView) (sender : AgentId) (handler : HandlerId)
    (pt : list byte) : MessageType -> ProcessResult -> StoreView -> Prop :=
| effect_environment proposed current v' :
    handler = HandlerId_NONE ->
    parse_operation pt = Ok (OperationRef.SetEnvironment proposed) ->
    validate_environment (ca_policy ca) sender current proposed = Ok tt ->
    v' ≡ add_environment sender pt v ->
    request_effect ca v sender handler pt MessageType.SetEnvironment ProcessResult.Accepted v'
| effect_subscribe ty predicate e v' :
    handler <> HandlerId_NONE ->
    parse_operation pt = Ok (OperationRef.Subscribe ty predicate) ->
    environment_valid ca v sender e ->
    v' ≡ (let sub := mkSubscription sender ty handler SubscriptionKind.OneShot pt in
          set_slot (sub_slot sub) (Some sub) v) ->
    request_effect ca v sender handler pt MessageType.Subscribe ProcessResult.Accepted v'
| effect_subscribe_permanent ty predicate e v' :
    handler <> HandlerId_NONE ->
    parse_operation pt = Ok (OperationRef.SubscribePermanent ty predicate) ->
    environment_valid ca v sender e ->
    v' ≡ (let sub := mkSubscription sender ty handler SubscriptionKind.Permanent pt in
          set_slot (sub_slot sub) (Some sub) v) ->
    request_effect ca v sender handler pt MessageType.SubscribePermanent ProcessResult.Accepted v'
| effect_publish ty predicate value e subs frames v' :
    handler = HandlerId_NONE ->
    parse_operation pt = Ok (OperationRef.Publish ty predicate value) ->
    environment_valid ca v sender e ->
    listing v ty subs ->
    let chosen := eligible ca v sender e ty predicate in
    Forall2 (delivers ca v sender ty value) (filter chosen subs) frames ->
    v' ≡ consume subs chosen v ->
    request_effect ca v sender handler pt MessageType.Publish (ProcessResult.Deliveries frames) v'.

(** What a request that fails may still have changed: nothing, or, while it was
    publishing, the loss of one-shot subscriptions it was for. *)
Definition failure_effect ca (v : StoreView) (sender : AgentId) (pt : list byte) (v' : StoreView) : Prop :=
  v' ≡ v \/
  exists ty predicate value e subs,
    parse_operation pt = Ok (OperationRef.Publish ty predicate value) /\
    environment_valid ca v sender e /\ listing v ty subs /\
    exists claimed, sublist claimed subs /\
      v' ≡ consume claimed (eligible ca v sender e ty predicate) v.
End spec.

(** ** The handlers implement the specification *)

Lemma parse_environment_no_panic encoded : parse_environment encoded <> Panic.
Proof.
  unfold parse_environment. pose proof (parse_operation_total encoded).
  by destruct (parse_operation encoded) as [[]| |].
Qed.

Lemma parse_subscription_no_panic ty sub : parse_subscription ty sub <> Panic.
Proof.
  unfold parse_subscription. pose proof (parse_operation_total (sub_encoded sub)).
  destruct (parse_operation _) as [op| |]; [|done..]. rewrite bind_Ok.
  destruct (sub_kind sub), op; try done; by case_match.
Qed.

Lemma unauthorized_Ok {A} (r : result EnvironmentPolicyError A) a : unauthorized r = Ok a <-> r = Ok a.
Proof. apply map_err_Ok. Qed.

Section handlers.
Context `{HC : CryptoLaws} `{HL : CaStoreLaws T} `{HP : EnvironmentPolicyLaws P}.
Implicit Types ca : CertificateAuthority P.
Implicit Types s : T.

Lemma unauthorized_validate ca agent current e :
  unauthorized (validate_environment (ca_policy ca) agent current e) = Ok tt \/
  unauthorized (validate_environment (ca_policy ca) agent current e)
  = Err Error.UnauthorizedEnvironment.
Proof.
  pose proof (validate_no_panic (ca_policy ca) agent current e).
  unfold unauthorized. destruct (validate_environment _ _ _ _) as [[]| |]; [by left|by right|done].
Qed.

Lemma validate_stored_run ca agent f s (g : Rng) : store_inv s ->
  (exists e, validate_stored_environment ca agent (f, (s, g)) = (Ok tt, (f, (s, g))) /\
     environment_valid ca (store_view s) agent e) \/
  (exists x, validate_stored_environment ca agent (f, (s, g)) = (Err x, (f, (s, g)))).
Proof.
  intros Hs. unfold validate_stored_environment, environment_valid.
  rewrite M_bind_run, run_environment by done.
  destruct (view_environments (store_view s) !! agent) as [encoded|]; cbn [ok_or];
    autorewrite with rust; [|right; by eexists].
  pose proof (parse_environment_no_panic encoded).
  destruct (parse_environment encoded) as [e|x|] eqn:He; [|right; by eexists|done].
  autorewrite with rust. unfold lift.
  destruct (unauthorized_validate ca agent None e) as [Hv|Hv]; rewrite Hv; [left|right; by eexists].
  exists e. split; [done|]. exists encoded. split_and!; [done..|]. by apply unauthorized_Ok.
Qed.

Lemma process_set_environment_run ca sender h pt proposed f s g :
  store_inv s -> parse_operation pt = Ok (OperationRef.SetEnvironment proposed) ->
  exists r s', process_set_environment ca sender h pt proposed (f, (s, g)) = (r, (f, (s', g))) /\
    store_inv s' /\
    ((exists x, r = Err x /\ store_view s' ≡ store_view s) \/
     (exists res, r = Ok res /\
      request_effect ca (store_view s) sender h pt MessageType.SetEnvironment res (store_view s'))).
Proof.
  intros Hs Hpt. unfold process_set_environment.
  destruct (negb _) eqn:Hh; [eexists _, s; split; [done|]; split; [done|left; by eexists]|].
  autorewrite with bool_prop in Hh. rewrite M_bind_run, run_environment by done.
  set (cur := match view_environments (store_view s) !! sender with None => _ | Some _ => _ end).
  assert (cur <> Panic) as Hcur.
  { subst cur. destruct (view_environments (store_view s) !! sender) as [encoded|]; [|done].
    pose proof (parse_environment_no_panic encoded). by destruct (parse_environment encoded). }
  destruct cur as [current|x|]; [|eexists _, s; split; [done|]; split; [done|left; by eexists]|done].
  autorewrite with rust.
  destruct (unauthorized_validate ca sender current proposed) as [Hv|Hv]; rewrite Hv;
    autorewrite with rust; [|eexists _, s; split; [done|]; split; [done|left; by eexists]].
  apply unauthorized_Ok in Hv. rewrite M_bind_run, on_store_eq.
  destruct (set_environment sender pt s) as [r s'] eqn:Hset.
  apply set_environment_law in Hset as [Hs' Hm]; [|done]. cbn [fst snd].
  destruct Hm as [[-> Hv']|(x & -> & Hv')]; eexists _, s'; (split; [done|]); (split; [done|]).
  - right. eexists. split; [done|]. by eapply effect_environment.
  - left. by eexists.
Qed.

Lemma process_subscribe_run ca sender h ty kind pt f s g : store_inv s ->
  exists r s', process_subscribe ca sender h ty kind pt (f, (s, g)) = (r, (f, (s', g))) /\
    store_inv s' /\
    ((exists x, r = Err x /\ store_view s' ≡ store_view s) \/
     (r = Ok ProcessResult.Accepted /\ h <> HandlerId_NONE /\
      (exists e, environment_valid ca (store_view s) sender e) /\
      store_view s' ≡ let sub := mkSubscription sender ty h kind pt in
                      set_slot (sub_slot sub) (Some sub) (store_view s))).
Proof.
  intros Hs. unfold process_subscribe.
  case_bool_decide as Hh; [eexists _, s; split; [done|]; split; [done|left; by eexists]|].
  destruct (validate_stored_run ca sender f s g Hs) as [(e & Hrun & He)|[x Hrun]];
    rewrite M_bind_run, Hrun; [|eexists _, s; split; [done|]; split; [done|left; by eexists]].
  rewrite M_bind_run, on_store_eq.
  destruct (put_subscription _ s) as [r s'] eqn:Hput.
  apply put_subscription_law in Hput as [Hs' Hm]; [|done]. cbn [fst snd].
  destruct Hm as [[-> Hv']|(x & -> & Hv')]; eexists _, s'; (split; [done|]); (split; [done|]).
  - right. split; [done|]. split; [done|]. split; [by exists e|exact Hv'].
  - left. by eexists.
Qed.
End handlers.

(** *** Publications *)

Section publications.
Context `{HC : CryptoLaws} `{HL : CaStoreLaws T} `{HP : EnvironmentPolicyLaws P}.
Implicit Types ca : CertificateAuthority P.
Implicit Types s : T.

Lemma delivery_run ca publisher recipient h ty value rx g :
  Operation.wf (Operation.PublicationResponse ty publisher value) ->
  exists res, delivery ca publisher recipient h ty value rx g = (res, drawn_rng g) /\
    (res = Err Error.CryptoFailure \/
     exists frame, res = Ok frame /\ length frame <= MAX_FRAME_LEN /\
       (exists e, parse_envelope frame = Ok e /\ env_sender e = AgentId_CA /\ env_recipient e = recipient /\
          env_message_type e = MessageType.PublicationResponse) /\
       forall secret, rx = x25519_public secret ->
         sealed_frame MessageType.PublicationResponse AgentId_CA recipient h g
           (CaKeys_verifying_key (ca_keys ca)) secret
           (Operation.wire (Operation.PublicationResponse ty publisher value)) frame).
Proof.
  intros Hwf. pose proof (encode_encodes _ Hwf) as Henc. pose proof (length_wire _ Hwf) as Hlen.
  set (w := Operation.wire (Operation.PublicationResponse ty publisher value)) in *.
  assert (length w <= MAX_PLAINTEXT_LEN) as Hw by (unfold MAX_PLAINTEXT_LEN; lia).
  set (out := replicate MAX_FRAME_LEN x00).
  assert (MAX_FRAME_LEN <= length out) as Hout by (unfold out; by rewrite length_replicate).
  change (delivery ca publisher recipient h ty value rx g) with
    (match seal_encoded MessageType.PublicationResponse AgentId_CA recipient h rx
             (ck_signing (ca_keys ca)) (encode_response ty publisher value) (out, g) with
     | (Ok len, (frame, g')) => (Ok (take len frame), g')
     | (Err e, (_, g')) => (Err e, g')
     | (Panic, (_, g')) => (Panic, g')
     end).
  destruct (seal_encoded_total MessageType.PublicationResponse AgentId_CA recipient h rx
    (ck_signing (ca_keys ca)) (encode_response ty publisher value) w out g Henc Hw Hout) as (res & frame & Hrun & Hres).
  rewrite Hrun. case_decide as Hz; subst res; eexists; (split; [done|]); [by left|right].
  eexists. split; [done|]. split; [|split; [by eapply seal_encoded_addressed|]].
  - rewrite length_take. unfold MAX_FRAME_LEN, HEADER_LEN, TAG_LEN, SIGNATURE_LEN in *. lia.
  - intros secret ->.
    destruct (seal_encoded_run MessageType.PublicationResponse AgentId_CA recipient h
      (ck_signing (ca_keys ca)) secret (encode_response ty publisher value) w out g Henc Hw Hout Hz)
      as (frame' & rest & Hrun' & Hsealed).
    rewrite Hrun in Hrun'. apply pair_eq in Hrun' as [Hl%Ok_inj [-> _]%pair_eq].
    rewrite Hl, take_app_length. exact Hsealed.
Qed.

Lemma eligible_proper ca v w publisher pe ty predicate sub :
  view_environments v = view_environments w ->
  eligible ca v publisher pe ty predicate sub = eligible ca w publisher pe ty predicate sub.
Proof. intros He. unfold eligible. by rewrite He. Qed.

(** One subscription of the listing. *)
Lemma process_subscription_run ca sender pe ty predicate value sub f s g :
  store_inv s -> Operation.wf (Operation.PublicationResponse ty sender value) ->
  view_stored (store_view s) (sub_slot sub) = Some sub ->
  exists r s' g', process_subscription ca sender pe ty predicate value sub (f, (s, g))
                  = (r, (f, (s', g'))) /\ store_inv s' /\
    ((exists x, r = Err x /\ store_view s' ≡ store_view s) \/
     (r = Ok None /\ eligible ca (store_view s) sender pe ty predicate sub = false /\
      store_view s' ≡ store_view s) \/
     (exists frame, r = Ok (Some frame) /\
      eligible ca (store_view s) sender pe ty predicate sub = true /\
      delivers ca (store_view s) sender ty value sub frame /\
      store_view s' ≡ match sub_kind sub with
                      | SubscriptionKind.OneShot => set_slot (sub_slot sub) None (store_view s)
                      | SubscriptionKind.Permanent => store_view s
                      end)).
Proof.
  intros Hs Hwf Hst. unfold process_subscription, eligible.
  pose proof (parse_subscription_no_panic ty sub) as Hp.
  destruct (parse_subscription ty sub) as [sp|x|];
    [|eexists _, s, g; split; [done|]; split; [done|left; by eexists]|done].
  autorewrite with rust. destruct (evaluate sp pe); cycle 1.
  { eexists _, s, g. split; [done|]. split; [done|]. right. by left. }
  cbn [negb andb]. rewrite M_bind_run, run_environment by done.
  destruct (view_environments (store_view s) !! sub_subscriber sub) as [encoded|] eqn:Henv; cycle 1.
  { eexists _, s, g. split; [done|]. split; [done|]. right. by left. }
  pose proof (parse_environment_no_panic encoded) as Hpe.
  destruct (parse_environment encoded) as [se|x|];
    [|eexists _, s, g; split; [done|]; split; [done|left; by eexists]|done].
  autorewrite with rust. destruct (evaluate predicate se); cycle 1.
  { eexists _, s, g. split; [done|]. split; [done|]. right. by left. }
  cbn [negb andb].
  destruct (authorize_delivery _ _ _ _ _ _); cycle 1.
  { eexists _, s, g. split; [done|]. split; [done|]. right. by left. }
  cbn [negb]. rewrite M_bind_run, run_keys by done.
  destruct (view_keys (store_view s) !! sub_subscriber sub) as [k|] eqn:Hk; cbn [ok_or]; cycle 1.
  { eexists _, s, g. split; [done|]. split; [done|]. left. by eexists. }
  rewrite M_bind_run, on_rng_eq.
  destruct (delivery_run ca sender (sub_subscriber sub) (sub_handler sub) ty value
    (pk_x25519 k) g Hwf) as (res & -> & Hres). cbn [fst snd].
  destruct Hres as [->|(frame & -> & Hlen & Haddressed & Hframe)].
  { eexists _, s, _. split; [done|]. split; [done|]. left. by eexists. }
  rewrite M_bind_run, on_store_eq.
  destruct (claim_subscription sub s) as [r s'] eqn:Hclaim.
  apply claim_law in Hclaim as [Hs' Hm]; [|done]. cbn [fst snd].
  destruct Hm as [(x & -> & Hv)|[(_ & -> & Hv)|(Hno & _)]]; [| |done];
    eexists _, s', _; (split; [done|]); (split; [done|]).
  - left. by eexists.
  - right. right. exists frame. split; [done|]. split; [done|]. split; [|exact Hv].
    exists k, g. done.
Qed.

Lemma delivers_proper ca v w publisher ty value sub frame :
  view_keys v = view_keys w ->
  delivers ca v publisher ty value sub frame -> delivers ca w publisher ty value sub frame.
Proof. intros Hk (k & g & Hv & ?). exists k, g. by rewrite <-Hk. Qed.

(** Consuming nothing, and one subscription more. *)
Lemma consume_nil f v : consume [] f v ≡ v.
Proof.
  split_and!; [done..| |done]. intros k. cbn. destruct (view_stored v k) as [sub|]; [|done].
  rewrite bool_decide_eq_false_2; [done|]. apply not_elem_of_nil.
Qed.

Lemma consume_skip sub subs f v : f sub = false -> consume (sub :: subs) f v ≡ consume subs f v.
Proof.
  intros Hf. split_and!; [done..| |done]. intros k. cbn.
  destruct (view_stored v k) as [sub'|]; [|done].
  destruct (decide (sub' = sub)) as [->|Hne]; [by rewrite Hf, !andb_false_r|].
  assert (bool_decide (sub' ∈ sub :: subs) = bool_decide (sub' ∈ subs)) as ->; [|done].
  apply bool_decide_ext. rewrite elem_of_cons. naive_solver.
Qed.

(** A claimed head: [w] is the view after it. *)
Lemma consume_head sub subs f v w :
  (forall k sub', view_stored v k = Some sub' -> sub_slot sub' = k) ->
  f sub = true ->
  w ≡ match sub_kind sub with
      | SubscriptionKind.OneShot => set_slot (sub_slot sub) None v
      | SubscriptionKind.Permanent => v
      end ->
  view_stored v (sub_slot sub) = Some sub -> consume subs f w ≡ consume (sub :: subs) f v.
Proof.
  intros Hslot Hf Hw Hst.
  assert (view_keys w = view_keys v /\ view_environments w = view_environments v /\
    view_sessions w = view_sessions v /\ forall k, view_stored w k =
      if decide (k = sub_slot sub /\ sub_kind sub = SubscriptionKind.OneShot) then None
      else view_stored v k) as (Hk & He & Hses & Hst').
  { destruct (sub_kind sub); destruct Hw as (? & ? & Hst' & ?); split_and!; try done; intros k;
      rewrite Hst'; unfold set_slot; cbn [view_stored]; repeat case_decide; naive_solver. }
  split_and!; [done..| |done]. intros k. unfold consume. cbn [view_stored]. rewrite Hst'.
  destruct (decide (k = sub_slot sub /\ sub_kind sub = SubscriptionKind.OneShot)) as [[-> Hkind]|Hd].
  - rewrite Hst, bool_decide_eq_true_2 by apply list_elem_of_here.
    by rewrite Hf, bool_decide_eq_true_2.
  - destruct (view_stored v k) as [sub'|] eqn:Hk'; [|done].
    destruct (decide (sub' = sub)) as [->|Hne].
    + destruct (decide (sub_kind sub = SubscriptionKind.OneShot)) as [Hkind|Hkind].
      * destruct Hd. split; [|done]. symmetry. by apply Hslot.
      * by rewrite !(bool_decide_eq_false_2 (sub_kind sub = _)), !andb_false_r by done.
    + assert (bool_decide (sub' ∈ sub :: subs) = bool_decide (sub' ∈ subs)) as ->; [|done].
      apply bool_decide_ext. rewrite elem_of_cons. naive_solver.
Qed.

Lemma consume_proper subs f f' v w :
  (forall sub, f sub = f' sub) -> v ≡ w -> consume subs f v ≡ consume subs f' w.
Proof.
  intros Hf (? & ? & Hst & ?). split_and!; [done..| |done]. intros k. cbn. rewrite Hst.
  destruct (view_stored w k); [by rewrite Hf|done].
Qed.

Definition stored_all (v : StoreView) (ty : TypeId) (subs : list StoredSubscription) : Prop :=
  NoDup (slot_key <$> subs) /\
  forall sub, sub ∈ subs -> sub_type_id sub = ty /\ view_stored v (sub_slot sub) = Some sub.

(** The rest of a listing is still stored after the head was dealt with. *)
Lemma stored_all_tail v w ty sub subs :
  stored_all v ty (sub :: subs) ->
  (forall k, k <> sub_slot sub -> view_stored w k = view_stored v k) -> stored_all w ty subs.
Proof.
  intros [Hnd Hall] Hw. cbn in Hnd. apply NoDup_cons in Hnd as [Hno Hnd]. split; [done|].
  intros sub' Hin. destruct (Hall sub') as [Hty Hst]; [by apply list_elem_of_further|].
  split; [done|]. rewrite Hw; [done|]. intros Heq. apply Hno.
  injection Heq as _ Hsub Hhandler. apply list_elem_of_fmap. exists sub'.
  split; [|done]. unfold slot_key. by rewrite Hsub, Hhandler.
Qed.

Lemma process_subscriptions_run ca sender pe ty predicate value subs ds f s g :
  store_inv s -> Operation.wf (Operation.PublicationResponse ty sender value) ->
  stored_all (store_view s) ty subs ->
  let chosen := eligible ca (store_view s) sender pe ty predicate in
  exists r s' g', process_subscriptions ca sender pe ty predicate value subs ds (f, (s, g))
                  = (r, (f, (s', g'))) /\ store_inv s' /\
    ((exists x claimed, r = Err x /\ sublist claimed subs /\
        store_view s' ≡ consume claimed chosen (store_view s)) \/
     (exists frames, r = Ok (ds ++ frames) /\
        Forall2 (delivers ca (store_view s) sender ty value) (filter chosen subs) frames /\
        store_view s' ≡ consume subs chosen (store_view s))).
Proof.
  intros Hs Hwf. revert ds s g Hs.
  induction subs as [|sub subs IH]; intros ds s g Hs Hall chosen.
  { exists (Ok ds), s, g. split; [done|]. split; [done|]. right. exists [].
    rewrite app_nil_r. split; [done|]. split; [constructor|]. by rewrite consume_nil. }
  cbn [process_subscriptions]. rewrite M_bind_run.
  destruct (process_subscription_run ca sender pe ty predicate value sub f s g Hs Hwf)
    as (r & s1 & g1 & -> & Hs1 & Hcase); [apply Hall, list_elem_of_here|].
  destruct Hcase as [(x & -> & Hv)|[(-> & Hno & Hv)|(frame & -> & Hyes & Hd & Hv)]].
  - exists (Err x), s1, g1. split; [done|]. split; [done|]. left. exists x, [].
    split; [done|]. split; [apply sublist_nil_l|]. by rewrite consume_nil.
  - assert (forall sub', eligible ca (store_view s1) sender pe ty predicate sub' = chosen sub') as Hch
      by (intros sub'; by apply eligible_proper, Hv).
    destruct (IH (ds ++ option_list None) s1 g1 Hs1) as (r & s' & g' & Hrun & Hs' & Hres).
    { eapply stored_all_tail; [exact Hall|]. intros k _. apply Hv. }
    exists r, s', g'. split; [exact Hrun|]. split; [done|]. cbn [option_list] in Hres.
    rewrite app_nil_r in Hres. rewrite filter_cons_False by (unfold chosen; rewrite Hno; by intros []).
    destruct Hres as [(x & claimed & -> & Hsub & Hv')|(frames & -> & Hfr & Hv')]; [left|right].
    + exists x, claimed. split; [done|]. split; [by apply sublist_cons|].
      rewrite Hv'. by apply consume_proper.
    + exists frames. split; [done|]. rewrite (list_filter_iff _ chosen) in Hfr by (intros; by rewrite Hch).
      split; [eapply Forall2_impl; [exact Hfr|]; intros; eapply delivers_proper; [apply Hv|done]|].
      rewrite Hv'. rewrite consume_skip by done. by apply consume_proper.
  - assert (view_environments (store_view s1) = view_environments (store_view s) /\
      view_keys (store_view s1) = view_keys (store_view s) /\
      forall k, k <> sub_slot sub -> view_stored (store_view s1) k = view_stored (store_view s) k)
      as (Henv & Hkeys & Hrest).
    { destruct (sub_kind sub); destruct Hv as (? & ? & Hst & ?); split_and!; try done;
        intros k Hk; rewrite Hst; unfold set_slot; cbn [view_stored]; by rewrite ?decide_False. }
    assert (forall sub', eligible ca (store_view s1) sender pe ty predicate sub' = chosen sub') as Hch
      by (intros sub'; by apply eligible_proper).
    destruct (IH (ds ++ option_list (Some frame)) s1 g1 Hs1) as (r & s' & g' & Hrun & Hs' & Hres).
    { by eapply stored_all_tail. }
    assert (forall l, consume l (eligible ca (store_view s1) sender pe ty predicate) (store_view s1)
      ≡ consume (sub :: l) chosen (store_view s)) as Hcons.
    { intros l. transitivity (consume l chosen (store_view s1)); [by apply consume_proper|].
      apply consume_head; [|exact Hyes|exact Hv|apply Hall, list_elem_of_here].
      intros k sub' Hk. exact (slot_law s k sub' Hs Hk). }
    exists r, s', g'. split; [exact Hrun|]. split; [done|].
    rewrite filter_cons_True by (unfold chosen; rewrite Hyes; exact I).
    destruct Hres as [(x & claimed & -> & Hsub & Hv')|(frames & -> & Hfr & Hv')]; [left|right].
    + exists x, (sub :: claimed). split; [done|]. split; [by apply sublist_skip|].
      by rewrite Hv', Hcons.
    + exists (frame :: frames). split; [by rewrite <-app_assoc|].
      rewrite (list_filter_iff _ chosen) in Hfr by (intros; by rewrite Hch).
      split; [constructor; [done|]|by rewrite Hv', Hcons].
      eapply Forall2_impl; [exact Hfr|]. intros. by eapply delivers_proper.
Qed.
End publications.

(** ** A request refines its specification *)

(** The view once the session of a request is recorded. *)
Definition mark (now ttl : N) (e : EnvelopeRef) (v : StoreView) : StoreView :=
  set_sessions (<[(env_sender e, env_session_id e) := saturating_add now ttl]>
                  (retain_live now (view_sessions v))) v.

Section authenticated.
Context `{Crypto}.

(** The request is signed by a provisioned agent, fresh, and opens to [pt]. *)
Definition authenticated {P} (ca : CertificateAuthority P) (v : StoreView) (now : N)
    (frame : list byte) (e : EnvelopeRef) (pt : list byte) : Prop :=
  process_checks (view_keys v) frame = Ok e /\
  retain_live now (view_sessions v) !! (env_sender e, env_session_id e) = None /\
  open_result (ck_x25519 (ca_keys ca)) e = Ok pt.
End authenticated.

Section refinement.
Context `{HC : CryptoLaws} `{HL : CaStoreLaws T} `{HP : EnvironmentPolicyLaws P}.
Implicit Types ca : CertificateAuthority P.
Implicit Types s : T.

Lemma process_publish_run ca sender h pt ty predicate value f s g :
  store_inv s -> parse_operation pt = Ok (OperationRef.Publish ty predicate value) ->
  exists r s' g', process_publish ca sender h ty predicate value (f, (s, g))
                  = (r, (f, (s', g'))) /\ store_inv s' /\
    ((exists x, r = Err x /\ failure_effect ca (store_view s) sender pt (store_view s')) \/
     (exists res, r = Ok res /\
      request_effect ca (store_view s) sender h pt MessageType.Publish res (store_view s'))).
Proof.
  intros Hs Hpt. unfold process_publish.
  destruct (negb _) eqn:Hh.
  { eexists _, s, g. split; [done|]. split; [done|]. left. eexists. split; [done|by left]. }
  autorewrite with bool_prop in Hh. rewrite M_bind_run, run_environment by done.
  destruct (view_environments (store_view s) !! sender) as [encoded|] eqn:Henv; cbn [ok_or];
    autorewrite with rust; cycle 1.
  { eexists _, s, g. split; [done|]. split; [done|]. left. eexists. split; [done|by left]. }
  pose proof (parse_environment_no_panic encoded).
  destruct (parse_environment encoded) as [e|x|] eqn:He; [| |done]; autorewrite with rust; cycle 1.
  { eexists _, s, g. split; [done|]. split; [done|]. left. eexists. split; [done|by left]. }
  destruct (unauthorized_validate ca sender None e) as [Hv|Hv]; rewrite Hv;
    autorewrite with rust; cycle 1.
  { eexists _, s, g. split; [done|]. split; [done|]. left. eexists. split; [done|by left]. }
  apply unauthorized_Ok in Hv.
  assert (environment_valid ca (store_view s) sender e) as Hvalid by (by exists encoded).
  destruct (subscriptions_for_law ty s Hs) as (subs & Hfor & Hnd & Hsorted & Hsubs).
  rewrite M_bind_run, on_store_eq, Hfor. cbn [fst snd]. rewrite M_bind_run.
  assert (Operation.wf (Operation.PublicationResponse ty sender value)) as Hwf.
  { apply parse_operation_iff in Hpt as ([] & Hop & _ & Heq); try discriminate Heq.
    cbn in Heq. injection Heq as -> -> ->. destruct Hop as (? & _ & ?). by split. }
  destruct (process_subscriptions_run ca sender e ty predicate value subs [] f s g Hs Hwf)
    as (r & s' & g' & -> & Hs' & Hres); [split; [done|]; intros sub; apply Hsubs|].
  destruct Hres as [(x & claimed & -> & Hsub & Hv')|(frames & -> & Hfr & Hv')];
    eexists _, s', g'; (split; [done|]); (split; [done|]).
  - left. exists x. split; [done|]. right. exists ty, predicate, value, e, subs.
    do 2 (split; [done|]). split; [done|]. by exists claimed.
  - right. eexists. split; [done|]. cbn [app]. by eapply effect_publish.
Qed.

Lemma process_operation_run ca sender mt h pt op f s g :
  store_inv s -> parse_operation pt = Ok op ->
  exists r s' g', process_operation ca sender mt h pt op (f, (s, g)) = (r, (f, (s', g'))) /\
    store_inv s' /\
    ((exists x, r = Err x /\ failure_effect ca (store_view s) sender pt (store_view s')) \/
     (exists res, r = Ok res /\
      request_effect ca (store_view s) sender h pt mt res (store_view s'))).
Proof.
  intros Hs Hpt.
  assert (exists r s' g', fail (S:=list byte * (T * Rng)) (A:=ProcessResult) Error.WrongMessageType
    (f, (s, g)) = (r, (f, (s', g'))) /\ store_inv s' /\
    ((exists x, r = Err x /\ failure_effect ca (store_view s) sender pt (store_view s')) \/
     (exists res, r = Ok res /\
      request_effect ca (store_view s) sender h pt mt res (store_view s')))) as Hfail.
  { eexists _, s, g. split; [done|]. split; [done|]. left. eexists. split; [done|by left]. }
  destruct mt, op as [e|type_id pred|type_id pred|type_id pred value|type_id p value]; try exact Hfail; cbn [process_operation].
  - destruct (process_set_environment_run ca sender h pt e f s g Hs Hpt)
      as (r & s' & Hrun & Hs' & [(x & -> & Hv)|(res & -> & Hv)]);
      eexists _, s', g; (split; [exact Hrun|]); (split; [done|]).
    + left. exists x. split; [done|by left].
    + right. by exists res.
  - destruct (process_subscribe_run ca sender h type_id SubscriptionKind.Permanent pt f s g Hs)
      as (r & s' & Hrun & Hs' & [(x & -> & Hv)|(-> & Hh & [e He] & Hv)]);
      eexists _, s', g; (split; [exact Hrun|]); (split; [done|]).
    + left. exists x. split; [done|by left].
    + right. eexists. split; [done|]. by eapply effect_subscribe_permanent.
  - by apply process_publish_run.
  - destruct (process_subscribe_run ca sender h type_id SubscriptionKind.OneShot pt f s g Hs)
      as (r & s' & Hrun & Hs' & [(x & -> & Hv)|(-> & Hh & [e He] & Hv)]);
      eexists _, s', g; (split; [exact Hrun|]); (split; [done|]).
    + left. exists x. split; [done|by left].
    + right. eexists. split; [done|]. by eapply effect_subscribe.
Qed.
End refinement.

Section process.
Context `{HC : CryptoLaws} `{HL : CaStoreLaws T} `{HP : EnvironmentPolicyLaws P}.
Implicit Types ca : CertificateAuthority P.
Implicit Types s : T.

(** What a failed request may have done to the store. *)
Definition failed_request ca (v : StoreView) (now ttl : N) (frame : list byte) (v' : StoreView) : Prop :=
  v' ≡ v \/
  v' ≡ set_sessions (retain_live now (view_sessions v)) v \/
  exists e, process_checks (view_keys v) frame = Ok e /\
    retain_live now (view_sessions v) !! (env_sender e, env_session_id e) = None /\
    (v' ≡ mark now ttl e v \/
     exists pt, authenticated ca v now frame e pt /\
       failure_effect ca (mark now ttl e v) (env_sender e) pt v').

Lemma request_effect_proper ca v w sender h pt mt res v' :
  v ≡ w -> request_effect ca v sender h pt mt res v' -> request_effect ca w sender h pt mt res v'.
Proof.
  intros Hvw Heff. pose proof Hvw as (Hk & He & Hst & Hs).
  assert (forall a e, environment_valid ca v a e -> environment_valid ca w a e) as Henv
    by (unfold environment_valid; by rewrite He).
  destruct Heff as [proposed current v' Hh Hp Hv Heq|ty predicate e v' Hh Hp Hv Heq
    |ty predicate e v' Hh Hp Hv Heq|ty predicate value e subs frames v' Hh Hp Hv Hl chosen Hfr Heq].
  - apply (effect_environment _ _ _ _ _ proposed current); [exact Hh|exact Hp|exact Hv|].
    rewrite Heq. split_and!; [done|cbn; by rewrite He|done|done].
  - apply (effect_subscribe _ _ _ _ _ ty predicate e); [exact Hh|exact Hp|by apply Henv|].
    rewrite Heq. by apply set_slot_proper.
  - apply (effect_subscribe_permanent _ _ _ _ _ ty predicate e); [exact Hh|exact Hp|by apply Henv|].
    rewrite Heq. by apply set_slot_proper.
  - assert (forall sub, chosen sub = eligible ca w sender e ty predicate sub)
      as Hch by (intros; by apply eligible_proper).
    apply (effect_publish _ _ _ _ _ ty predicate value e subs);
      [exact Hh|exact Hp|by apply Henv| | |].
    + destruct Hl as (Hnd & Hsorted & Hin). split; [done|]. split; [done|].
      intros sub. by rewrite <-Hst.
    + rewrite (list_filter_iff _ chosen) by (intros; by rewrite Hch).
      eapply Forall2_impl; [exact Hfr|]. intros. by eapply delivers_proper.
    + rewrite Heq. by apply consume_proper.
Qed.

Lemma failure_effect_proper ca v w sender pt v' :
  v ≡ w -> failure_effect ca v sender pt v' -> failure_effect ca w sender pt v'.
Proof.
  intros Hvw Hf. pose proof Hvw as (Hk & He & Hst & Hs).
  destruct Hf as [Hf|(ty & predicate & value & e & subs & Hpt & Henv & Hl & claimed & Hsub & Hv)].
  - left. by transitivity v.
  - right. exists ty, predicate, value, e, subs. split; [done|].
    split; [by unfold environment_valid in *; rewrite <-He|].
    split; [destruct Hl as (? & ? & Hin); split; [done|]; split; [done|]; intros; by rewrite <-Hst|].
    exists claimed. split; [done|]. etransitivity; [exact Hv|]. apply consume_proper; [|done].
    intros. by apply eligible_proper.
Qed.

Lemma process_spec ca now frame s g : store_inv s ->
  exists r frame' s' g', process ca now (frame, (s, g)) = (r, (frame', (s', g'))) /\ store_inv s' /\
    match r with
    | Panic => False
    | Err _ => failed_request ca (store_view s) now (store_ttl s) frame (store_view s')
    | Ok res => exists e pt, authenticated ca (store_view s) now frame e pt /\
        request_effect ca (mark now (store_ttl s) e (store_view s)) (env_sender e) (env_handler e) pt
          (env_message_type e) res (store_view s')
    end.
Proof.
  intros Hs. rewrite process_run by done.
  pose proof (process_checks_no_panic (view_keys (store_view s)) frame) as Hnp.
  destruct (process_checks _ frame) as [e|x|] eqn:Hchk; [| |done]; cycle 1.
  { eexists _, frame, s, g. split; [done|]. split; [done|]. by left. }
  destruct (check_and_mark _ _ now s) as [r s1] eqn:Hmark.
  apply check_law in Hmark as (Hs1 & _ & Hm); [|done].
  destruct Hm as [(Hfresh & -> & Hv1)|(x & -> & _ & Hv1)]; cycle 1.
  { eexists _, frame, s1, g. split; [done|]. split; [done|].
    destruct Hv1; [by left|right; by left]. }
  fold (mark now (store_ttl s) e (store_view s)) in Hv1. unfold process_opened.
  destruct (open_result_spec (ck_x25519 (ca_keys ca)) e) as [Hopen|(pt & _ & _ & Hopen & _)];
    rewrite Hopen.
  { eexists _, frame, s1, g. split; [done|]. split; [done|]. right. right. exists e.
    split; [done|]. split; [done|by left]. }
  pose proof (parse_operation_total pt).
  destruct (parse_operation pt) as [op|x|] eqn:Hpt; [| |done]; cycle 1.
  { eexists _, _, s1, g. split; [done|]. split; [done|]. right. right. exists e.
    split; [done|]. split; [done|by left]. }
  assert (authenticated ca (store_view s) now frame e pt) as Hauth by done.
  destruct (process_operation_run ca (env_sender e) (env_message_type e) (env_handler e) pt op
    (opened_frame e pt) s1 g Hs1 Hpt) as (r & s' & g' & -> & Hs' & [(x & -> & Hf)|(res & -> & Hf)]);
    eexists _, _, s', g'; (split; [done|]); (split; [done|]).
  - right. right. exists e. split; [done|]. split; [done|]. right. exists pt. split; [done|].
    by eapply failure_effect_proper.
  - exists e, pt. split; [done|]. by eapply request_effect_proper.
Qed.

(** No request provisions or removes keys. *)
Lemma effect_keys ca v sender h pt mt res v' :
  request_effect ca v sender h pt mt res v' -> view_keys v' = view_keys v.
Proof. intros []; match goal with H : _ ≡ _ |- _ => by destruct H end. Qed.
End process.

(** ** Sequences of requests *)

Fixpoint run_requests `{Crypto} {T P} `{CaStore T} `{EnvironmentPolicy P} (ca : CertificateAuthority P)
    (requests : list (list byte * N)) (st : T * Rng) : list (Res ProcessResult) * (T * Rng) :=
  match requests with
  | [] => ([], st)
  | (frame, now) :: requests' =>
      let '(r, (_, st1)) := process ca now (frame, st) in
      let '(rs, st2) := run_requests ca requests' st1 in (r :: rs, st2)
  end.

Section sequences.
Context `{HC : CryptoLaws} `{HL : CaStoreLaws T} `{HP : EnvironmentPolicyLaws P}.
Implicit Types ca : CertificateAuthority P.
Implicit Types s : T.

(** What one request may change, whatever its outcome. *)
Record confined ca (v : StoreView) (now : N) (frame : list byte) (r : Res ProcessResult)
    (v' : StoreView) : Prop := mkConfined {
  confined_keys : view_keys v' = view_keys v;
  confined_environments a :
    view_environments v' !! a <> view_environments v !! a ->
    exists e pt proposed current, authenticated ca v now frame e pt /\ env_sender e = a /\
      env_message_type e = MessageType.SetEnvironment /\ r = Ok ProcessResult.Accepted /\
      parse_operation pt = Ok (OperationRef.SetEnvironment proposed) /\
      validate_environment (ca_policy ca) a current proposed = Ok tt /\
      view_environments v' !! a = Some pt;
  confined_stored k :
    view_stored v' k <> view_stored v k ->
    exists e pt, authenticated ca v now frame e pt /\
      ((exists sub pe, r = Ok ProcessResult.Accepted /\ view_stored v' k = Some sub /\ sub_slot sub = k /\
          sub_subscriber sub = env_sender e /\ sub_handler sub = env_handler e /\
          env_handler e <> HandlerId_NONE /\ sub_encoded sub = pt /\
          is_Ok_subscription sub /\ environment_valid ca v (env_sender e) pe) \/
       (exists sub ty predicate value pe, view_stored v k = Some sub /\ view_stored v' k = None /\
          sub_kind sub = SubscriptionKind.OneShot /\
          parse_operation pt = Ok (OperationRef.Publish ty predicate value) /\
          sub_type_id sub = ty /\ environment_valid ca v (env_sender e) pe /\
          eligible ca v (env_sender e) pe ty predicate sub = true));
  confined_sessions k exp :
    view_sessions v !! k = Some exp -> (now < exp)%N -> view_sessions v' !! k = Some exp;
}.

Lemma consume_changed subs f v v' k :
  v' ≡ consume subs f v -> view_stored v' k <> view_stored v k ->
  exists sub, sub ∈ subs /\ sub_kind sub = SubscriptionKind.OneShot /\ f sub = true /\
    view_stored v k = Some sub /\ view_stored v' k = None.
Proof.
  intros (_ & _ & Hst & _) Hne. rewrite Hst in Hne |- *. cbn in *.
  destruct (view_stored v k) as [sub|]; [|done].
  destruct (bool_decide (sub ∈ subs)) eqn:Hin; [|done].
  destruct (bool_decide (sub_kind sub = _)) eqn:Hkind; [|done].
  destruct (f sub) eqn:Hf; [|done]. apply bool_decide_eq_true in Hin, Hkind. by exists sub.
Qed.

Lemma mark_sessions now ttl e v k exp :
  retain_live now (view_sessions v) !! (env_sender e, env_session_id e) = None ->
  view_sessions v !! k = Some exp -> (now < exp)%N ->
  view_sessions (mark now ttl e v) !! k = Some exp.
Proof.
  intros Hfresh Hk Hexp. cbn.
  assert (retain_live now (view_sessions v) !! k = Some exp) as Hlive
    by (by apply map_lookup_filter_Some).
  rewrite lookup_insert_ne; [done|]. intros <-. by rewrite Hfresh in Hlive.
Qed.

(** The equivalence of views as equalities of its parts. *)
Lemma view_equiv v w : v ≡ w -> view_keys v = view_keys w /\
  view_environments v = view_environments w /\ (forall k, view_stored v k = view_stored w k) /\
  view_sessions v = view_sessions w.
Proof. done. Qed.

(** An accepted request. *)
Lemma effect_confined ca v now ttl frame e pt res v' :
  (forall k sub, view_stored v k = Some sub -> sub_slot sub = k) ->
  authenticated ca v now frame e pt ->
  request_effect ca (mark now ttl e v) (env_sender e) (env_handler e) pt (env_message_type e) res v' ->
  confined ca v now frame (Ok res) v'.
Proof.
  intros Hslot Hauth Heff. pose proof Hauth as (_ & Hfresh & _).
  remember (env_message_type e) as mt eqn:Hmt. symmetry in Hmt.
  destruct Heff as [proposed current v' Hh Hp Hv Heq|ty predicate pe v' Hh Hp Hv Heq
    |ty predicate pe v' Hh Hp Hv Heq|ty predicate value pe subs frames v' Hh Hp Hv Hl chosen Hfr Heq];
    pose proof Heq as (Hk & He & Hst & Hs)%view_equiv.
  - split; [done| |intros k Hne; by rewrite Hst in Hne|].
    + intros a Hne. rewrite He in Hne |- *. cbn in Hne |- *.
      destruct (decide (a = env_sender e)) as [->|Ha]; [|by rewrite lookup_insert_ne in Hne].
      exists e, pt, proposed, current. rewrite lookup_insert_eq. done.
    + intros k exp ? ?. rewrite Hs. by apply mark_sessions.
  - split; [done|intros a Hne; by rewrite He in Hne| |].
    + intros k Hne. rewrite Hst in Hne |- *. exists e, pt. split; [done|]. left.
      unfold set_slot in *. cbn in Hne |- *. case_decide as Hd; [subst k|done].
      eexists _, pe. do 7 (split; [reflexivity || done|]). split; [|done].
      exists predicate. unfold parse_subscription. cbn [sub_encoded sub_kind sub_type_id].
      by rewrite Hp, bind_Ok, bool_decide_eq_true_2.
    + intros k exp ? ?. rewrite Hs. by apply mark_sessions.
  - split; [done|intros a Hne; by rewrite He in Hne| |].
    + intros k Hne. rewrite Hst in Hne |- *. exists e, pt. split; [done|]. left.
      unfold set_slot in *. cbn in Hne |- *. case_decide as Hd; [subst k|done].
      eexists _, pe. do 7 (split; [reflexivity || done|]). split; [|done].
      exists predicate. unfold parse_subscription. cbn [sub_encoded sub_kind sub_type_id].
      by rewrite Hp, bind_Ok, bool_decide_eq_true_2.
    + intros k exp ? ?. rewrite Hs. by apply mark_sessions.
  - split; [done|intros a Hne; by rewrite He in Hne| |].
    + intros k Hne. destruct (consume_changed _ _ _ _ _ Heq Hne)
        as (sub & Hin & Hkind & Hf & Hold & Hnew).
      exists e, pt. split; [done|]. right. exists sub, ty, predicate, value, pe.
      destruct Hl as (_ & _ & Hl). apply Hl in Hin as [Hty _]. done.
    + intros k exp ? ?. rewrite Hs. by apply mark_sessions.
Qed.

Lemma failure_confined ca v now ttl frame x v' :
  failed_request ca v now ttl frame v' -> confined ca v now frame (Err x) v'.
Proof.
  intros [Heq|[Heq|(e & Hchk & Hfresh & [Heq|(pt & Hauth & Hf)])]];
    try (pose proof Heq as (Hk & He & Hst & Hs)%view_equiv;
         split; [done|intros a Hne; by rewrite He in Hne|intros k Hne; by rewrite Hst in Hne|]).
  - intros k exp Hk' Hexp. by rewrite Hs.
  - intros k exp Hk' Hexp. rewrite Hs. by apply map_lookup_filter_Some.
  - intros k exp Hk' Hexp. rewrite Hs. by apply mark_sessions.
  - destruct Hf as [Heq|(ty & predicate & value & pe & subs & Hp & Hv & Hl & claimed & Hsub & Heq)];
      pose proof Heq as (Hk & He & Hst & Hs)%view_equiv;
      (split; [done|intros a Hne; by rewrite He in Hne| |
               intros k exp ? ?; rewrite Hs; by apply mark_sessions]).
    + intros k Hne. by rewrite Hst in Hne.
    + intros k Hne. destruct (consume_changed _ _ _ _ _ Heq Hne)
        as (sub & Hin & Hkind & Hfs & Hold & Hnew).
      exists e, pt. split; [done|]. right. exists sub, ty, predicate, value, pe.
      destruct Hl as (_ & _ & Hl). apply (elem_of_sublist _ _ _ Hin) in Hsub.
      apply Hl in Hsub as [Hty _]. done.
Qed.

Lemma process_confined_run ca now frame s g r frame' s' g' :
  store_inv s -> process ca now (frame, (s, g)) = (r, (frame', (s', g'))) ->
  store_inv s' /\ r <> Panic /\ confined ca (store_view s) now frame r (store_view s').
Proof.
  intros Hs Hrun. destruct (process_spec ca now frame s g Hs)
    as (r1 & f1 & s1 & g1 & Hrun1 & Hs1 & Hspec).
  rewrite Hrun in Hrun1. injection Hrun1 as <- <- <- <-. split; [done|].
  destruct r as [res|x|]; [| |done]; (split; [done|]).
  - destruct Hspec as (e & pt & Hauth & Heff). eapply effect_confined; [|done|exact Heff].
    intros k sub. by apply slot_law.
  - by eapply failure_confined.
Qed.

(** An invariant of the store that every request keeps holds after any sequence. *)
Lemma run_requests_ind ca (I : StoreView -> Prop) requests s g rs s' g' :
  (forall frame now s g r frame' s' g', In (frame, now) requests -> store_inv s ->
     I (store_view s) -> process ca now (frame, (s, g)) = (r, (frame', (s', g'))) ->
     I (store_view s')) ->
  store_inv s -> I (store_view s) -> run_requests ca requests (s, g) = (rs, (s', g')) ->
  store_inv s' /\ I (store_view s') /\ Forall (fun r => r <> Panic) rs.
Proof.
  intros Hstep. revert s g rs. induction requests as [|[frame now] requests IH]; intros s g rs Hs HI Hrun.
  - cbn in Hrun. injection Hrun as <- <- <-. done.
  - cbn [run_requests] in Hrun.
    destruct (process ca now (frame, (s, g))) as [r [frame' [s1 g1]]] eqn:Hp.
    destruct (run_requests ca requests (s1, g1)) as [rs' [s2 g2]] eqn:Hr.
    injection Hrun as <- <- <-.
    destruct (process_confined_run _ _ _ _ _ _ _ _ _ Hs Hp) as (Hs1 & Hnp & _).
    destruct (IH (fun f n s g r f' s' g' Hin => Hstep f n s g r f' s' g' (or_intror Hin))
      s1 g1 rs' Hs1) as (? & ? & ?); [|done|].
    + eapply Hstep; [by left|exact Hs|done|exact Hp].
    + split; [done|]. split; [done|]. by constructor.
Qed.

Lemma run_requests_session ca requests s g rs s' g' k exp :
  store_inv s -> run_requests ca requests (s, g) = (rs, (s', g')) ->
  view_sessions (store_view s) !! k = Some exp -> Forall (fun r => r.2 < exp)%N requests ->
  store_inv s' /\ view_sessions (store_view s') !! k = Some exp.
Proof.
  intros Hs Hrun Hk Hlt.
  edestruct (run_requests_ind ca (fun v => view_sessions v !! k = Some exp)) as (? & ? & _);
    [|exact Hs|done|exact Hrun|done].
  intros frame now s0 g0 r frame' s1 g1 Hin Hs0 HI Hp.
  destruct (process_confined_run _ _ _ _ _ _ _ _ _ Hs0 Hp) as (_ & _ & Hconf).
  apply (confined_sessions _ _ _ _ _ _ Hconf); [done|].
  rewrite Forall_forall in Hlt. apply list_elem_of_In in Hin. by apply (Hlt _ Hin).
Qed.

(** A session that is live is refused. *)
Lemma process_live_session ca now frame s g e :
  store_inv s -> parse_envelope frame = Ok e ->
  is_Some (retain_live now (view_sessions (store_view s)) !! (env_sender e, env_session_id e)) ->
  exists x s', process ca now (frame, (s, g)) = (Err x, (frame, (s', g))) /\
    (process_checks (view_keys (store_view s)) frame = Ok e -> x = Error.Replay) /\
    store_inv s' /\ view_keys (store_view s') = view_keys (store_view s) /\
    view_environments (store_view s') = view_environments (store_view s) /\
    forall k, view_stored (store_view s') k = view_stored (store_view s) k.
Proof.
  intros Hs Hparse Hlive. rewrite process_run by done.
  pose proof (process_checks_no_panic (view_keys (store_view s)) frame).
  destruct (process_checks _ frame) as [e'|x|] eqn:Hchk; [| |done]; cycle 1.
  { by exists x, s. }
  assert (e' = e) as -> by (apply process_checks_Ok in Hchk as [Hp _]; congruence).
  destruct (check_and_mark _ _ now s) as [r s1] eqn:Hmark.
  apply check_law in Hmark as (Hs1 & _ & Hm); [|done].
  destruct Hm as [(Hfresh & _)|(x & -> & Hx & Hv)]; [by rewrite Hfresh in Hlive; destruct Hlive|].
  exists x, s1. split; [done|]. split; [intros _; by apply Hx|]. split; [done|].
  destruct Hv as [Hv|Hv]; pose proof Hv as (? & ? & ? & _)%view_equiv; done.
Qed.

Lemma authenticated_marked ca v now ttl e sender h pt mt res v' :
  request_effect ca (mark now ttl e v) sender h pt mt res v' ->
  view_sessions v' !! (env_sender e, env_session_id e) = Some (saturating_add now ttl).
Proof.
  intros Heff. assert (view_sessions v' = view_sessions (mark now ttl e v)) as ->.
  { destruct Heff; match goal with H : v' ≡ _ |- _ => by destruct H as (_ & _ & _ & ?) end. }
  apply lookup_insert_eq.
Qed.
End sequences.

(** ** Well-formed stored state *)

(** Everything stored is of a provisioned agent and parses as what it is for. *)
Record stored_wf (v : StoreView) : Prop := mkStoredWf {
  wf_environments a encoded : view_environments v !! a = Some encoded ->
    is_Some (view_keys v !! a) /\ exists e, parse_environment encoded = Ok e;
  wf_subscriptions k sub : view_stored v k = Some sub ->
    is_Some (view_keys v !! sub_subscriber sub) /\
    is_Some (view_environments v !! sub_subscriber sub) /\
    sub_handler sub <> HandlerId_NONE /\ is_Ok_subscription sub;
}.

Section wf.
Context `{HC : CryptoLaws} `{HL : CaStoreLaws T} `{HP : EnvironmentPolicyLaws P}.

Lemma confined_stored_wf (ca : CertificateAuthority P) v now frame r v' :
  confined ca v now frame r v' -> stored_wf v -> stored_wf v'.
Proof.
  intros [Hk He Hst _] [Henv Hsub].
  assert (forall a, is_Some (view_environments v !! a) -> is_Some (view_environments v' !! a)) as Hmono.
  { intros a Ha. destruct (decide (view_environments v' !! a = view_environments v !! a)) as [->|Hne];
      [done|]. destruct (He a Hne) as (? & pt & ? & ? & _ & _ & _ & _ & _ & _ & ->). by eexists. }
  split.
  - intros a encoded Ha. rewrite Hk.
    destruct (decide (view_environments v' !! a = view_environments v !! a)) as [Heq|Hne];
      [rewrite Heq in Ha; by apply Henv|].
    destruct (He a Hne) as (e & pt & proposed & current & (Hchk & _) & <- & _ & _ & Hp & _ & Hnew).
    rewrite Ha in Hnew. injection Hnew as ->.
    apply process_checks_Ok in Hchk as (_ & _ & _ & _ & k & -> & _).
    split; [by eexists|]. exists proposed. unfold parse_environment. by rewrite Hp, bind_Ok.
  - intros k sub Hs. rewrite Hk.
    destruct (decide (view_stored v' k = view_stored v k)) as [Heq|Hne].
    { rewrite Heq in Hs. destruct (Hsub k sub Hs) as (? & ? & ?). split; [done|].
      split; [by apply Hmono|done]. }
    destruct (Hst k Hne) as (e & pt & (Hchk & _) & [(sub' & pe & _ & Hnew & _ & Hsnd & Hh & Hn & _ & Hok & Hv)
      |(sub' & ? & ? & ? & ? & _ & Hnone & _)]); [|by rewrite Hnone in Hs].
    rewrite Hs in Hnew. injection Hnew as <-.
    apply process_checks_Ok in Hchk as (_ & _ & _ & _ & key & Hkey & _).
    rewrite Hsnd. split; [by rewrite Hkey|]. split; [|by rewrite Hh].
    apply Hmono. destruct Hv as (encoded & -> & _). by eexists.
Qed.
End wf.

(** ** Properties *)

(** C8: The CA engine refines its specification, over every store that implements
    the storage interface and every policy. A request never panics. It is accepted
    only if it is a well-formed envelope for the CA, of a request type, signed by
    the provisioned key of its sender, fresh, and opens under the CA's key; its
    session is then recorded, and the store changes and the answer is given exactly
    as the message type prescribes: the sender's environment replaced by one the
    policy accepts, the sender's subscription stored in its slot given a valid
    environment, or one delivery sealed for each eligible subscription of the
    type, in order, with exactly the eligible one-shot ones consumed. A refused
    request changes nothing but the replay state, unless a publication failed
    half-way. *)
Theorem process_refines `{HC : CryptoLaws} `{HL : CaStoreLaws T} `{HP : EnvironmentPolicyLaws P}
    (ca : CertificateAuthority P) now frame (s : T) g :
  store_inv s ->
  exists r frame' s' g', process ca now (frame, (s, g)) = (r, (frame', (s', g'))) /\ store_inv s' /\
    match r with
    | Panic => False
    | Err _ => failed_request ca (store_view s) now (store_ttl s) frame (store_view s')
    | Ok res => exists e pt, authenticated ca (store_view s) now frame e pt /\
        request_effect ca (mark now (store_ttl s) e (store_view s)) (env_sender e) (env_handler e) pt
          (env_message_type e) res (store_view s')
    end.
Proof. apply process_spec. Qed.

(** C30: Requests fail closed and in order: when the envelope, the recipient, the
    message type, the sender's provisioned key or the signature is wrong, the
    first such failure is the answer, and the frame, the store (the replay state
    included) and the generator are untouched. Only an authentic request reaches
    the replay test, and only a fresh one the private key. *)
Theorem process_fail_closed `{HC : CryptoLaws} `{HL : CaStoreLaws T} `{HP : EnvironmentPolicyLaws P}
    (ca : CertificateAuthority P) now frame (s : T) g :
  store_inv s ->
  match process_checks (view_keys (store_view s)) frame with
  | Panic => False
  | Err x => process ca now (frame, (s, g)) = (Err x, (frame, (s, g)))
  | Ok e =>
      parse_envelope frame = Ok e /\ env_recipient e = AgentId_CA /\ env_sender e <> AgentId_CA /\
      match check_and_mark (env_sender e) (env_session_id e) now s with
      | (Ok _, s1) => process ca now (frame, (s, g)) = process_opened ca e frame s1 g
      | (Err x, s1) => process ca now (frame, (s, g)) = (Err x, (frame, (s1, g)))
      | (Panic, _) => False
      end
  end.
Proof.
  intros Hs. pose proof (process_run ca now frame s g Hs) as Hrun.
  pose proof (process_checks_no_panic (view_keys (store_view s)) frame).
  destruct (process_checks _ frame) as [e|x|] eqn:Hchk; [|done|done].
  apply process_checks_Ok in Hchk as (? & ? & ? & _). do 3 (split; [done|]).
  destruct (check_and_mark _ _ now s) as [r s1] eqn:Hmark.
  apply check_law in Hmark as (_ & _ & Hm); [|done].
  destruct Hm as [(_ & -> & _)|(x & -> & _)]; exact Hrun.
Qed.

(** A request is accepted at most once. After a request was accepted, and after
    any sequence of further requests before its entry expires, a frame with the
    same sender and session is refused, as a replay if it is otherwise authentic,
    and changes no key, environment or subscription. *)
Theorem process_replay_rejected `{HC : CryptoLaws} `{HL : CaStoreLaws T} `{HP : EnvironmentPolicyLaws P}
    (ca : CertificateAuthority P) now frame e res frame' (s s1 : T) g g1
    requests rs s2 g2 now2 frame2 e2 :
  store_inv s -> parse_envelope frame = Ok e ->
  process ca now (frame, (s, g)) = (Ok res, (frame', (s1, g1))) ->
  run_requests ca requests (s1, g1) = (rs, (s2, g2)) ->
  let expires := saturating_add now (store_ttl s) in
  Forall (fun r => r.2 < expires)%N requests -> (now2 < expires)%N ->
  parse_envelope frame2 = Ok e2 -> env_sender e2 = env_sender e ->
  env_session_id e2 = env_session_id e ->
  exists x s3, process ca now2 (frame2, (s2, g2)) = (Err x, (frame2, (s3, g2))) /\
    (process_checks (view_keys (store_view s2)) frame2 = Ok e2 -> x = Error.Replay) /\
    view_keys (store_view s3) = view_keys (store_view s2) /\
    view_environments (store_view s3) = view_environments (store_view s2) /\
    forall k, view_stored (store_view s3) k = view_stored (store_view s2) k.
Proof.
  intros Hs Hparse Hp Hrun expires Hlt Hlt2 Hparse2 Hsender Hsession.
  destruct (process_spec ca now frame s g Hs) as (r & f & s1' & g1' & Hp' & Hs1 & Hspec).
  rewrite Hp in Hp'. injection Hp' as <- <- <- <-.
  destruct Hspec as (e' & pt & (Hchk & _) & Heff).
  assert (e' = e) as -> by (apply process_checks_Ok in Hchk as [He _]; congruence).
  apply authenticated_marked in Heff.
  destruct (run_requests_session ca requests s1 g1 rs s2 g2 _ _ Hs1 Hrun Heff Hlt) as [Hs2 Hk].
  destruct (process_live_session ca now2 frame2 s2 g2 e2 Hs2 Hparse2)
    as (x & s3 & Hp3 & Hx & _ & Hrest).
  - rewrite Hsender, Hsession. exists expires. by apply map_lookup_filter_Some.
  - exists x, s3. split; [exact Hp3|]. split; [exact Hx|exact Hrest].
Qed.

(** C18: A request changes only what its sender is entitled to change. Provisioned
    keys never change; an environment changes only by its owner's accepted
    SetEnvironment request, to the plaintext of that request, which the policy
    accepted; a subscription slot changes only by its owner's accepted request
    with a valid stored environment, or by the consumption of a one-shot
    subscription by a publication of its type that both predicates and the policy
    allow. Live replay entries stay. *)
Theorem process_confined `{HC : CryptoLaws} `{HL : CaStoreLaws T} `{HP : EnvironmentPolicyLaws P}
    (ca : CertificateAuthority P) now frame (s : T) g r frame' s' g' :
  store_inv s -> process ca now (frame, (s, g)) = (r, (frame', (s', g'))) ->
  confined ca (store_view s) now frame r (store_view s').
Proof. intros Hs Hrun. by destruct (process_confined_run _ _ _ _ _ _ _ _ _ Hs Hrun) as (_ & _ & ?). Qed.

(** C36: What the engine stores stays well formed: from a store whose environments
    parse as environments and whose subscriptions parse as subscriptions of their
    kind and type with a handler, all of provisioned agents with an environment,
    every sequence of requests leads to such a store, and none of them panics. *)
Theorem stored_state_well_formed `{HC : CryptoLaws} `{HL : CaStoreLaws T} `{HP : EnvironmentPolicyLaws P}
    (ca : CertificateAuthority P) requests (s : T) g rs s' g' :
  store_inv s -> stored_wf (store_view s) -> run_requests ca requests (s, g) = (rs, (s', g')) ->
  store_inv s' /\ stored_wf (store_view s') /\ Forall (fun r => r <> Panic) rs.
Proof.
  intros Hs Hwf Hrun. eapply (run_requests_ind ca stored_wf); [|exact Hs|exact Hwf|exact Hrun].
  intros frame now s0 g0 r frame' s1 g1 _ Hs0 HI Hp.
  destruct (process_confined_run _ _ _ _ _ _ _ _ _ Hs0 Hp) as (_ & _ & Hconf).
  by eapply confined_stored_wf.
Qed.

(** ** A concrete CA *)

Module CaExample.
#[local] Existing Instance Toy.crypto.

Definition ca : CertificateAuthority AllowAllEnvironmentPolicy :=
  CertificateAuthority_new (mkCaKeys (vreplicate 32 x08) (vreplicate 32 x09)).
Definition alice := mkAgentId (vreplicate 16 x01).
Definition bob := mkAgentId (vreplicate 16 x02).
Definition handler := mkHandlerId (vreplicate 16 x0a).
Definition temperature := mkTypeId 7.

(** Alice signs with [06..] and receives with [07..], Bob with [0b..] and [0c..]. *)
Definition store : MemoryStore :=
  (store_run [CallProvision alice (mkPublicKeys (vreplicate 32 x06) (vreplicate 32 x07));
              CallProvision bob (mkPublicKeys (vreplicate 32 x0b) (vreplicate 32 x0c))]
     (MemoryStore_new StoreLimits_default)).2.

Definition environment_of (sk : byte) (a : AgentId) (session : byte) : list byte :=
  Toy.frame sk x09 MessageType.SetEnvironment a AgentId_CA HandlerId_NONE session
    (Operation.wire (Operation.SetEnvironment [mkAttribute (mkAttributeId 1) (ValueRef.I64 5)])).
Definition subscription : list byte :=
  Toy.frame x0b x09 MessageType.Subscribe bob AgentId_CA handler x03
    (Operation.wire (Operation.Subscribe temperature [])).
Definition publication (session : byte) : list byte :=
  Toy.frame x06 x09 MessageType.Publish alice AgentId_CA HandlerId_NONE session
    (Operation.wire (Operation.Publish temperature [] [x2a])).

Definition requests : list (list byte * N) :=
  [(environment_of x06 alice x02, 1%N); (environment_of x0b bob x02, 2%N); (subscription, 3%N);
   (publication x04, 4%N); (publication x05, 5%N)].
End CaExample.

Lemma example_store_inv : memory_inv CaExample.store.
Proof. apply (store_run_inv (HL:=MemoryStore_laws)), memory_inv_new. Qed.

Lemma example_stored_wf : stored_wf (store_view CaExample.store).
Proof.
  assert (ms_environments CaExample.store = ∅) as He by (vm_compute; reflexivity).
  assert (ms_subscriptions CaExample.store = ∅) as Hs by (vm_compute; reflexivity).
  split; cbn [store_view MemoryStore_laws memory_view view_environments view_stored].
  - intros a encoded. by rewrite He, lookup_empty.
  - intros k sub. unfold stored_in. by rewrite Hs, lookup_empty.
Qed.

Lemma process_refines_witness :
  exists e pt s',
    authenticated (H:=Toy.crypto) CaExample.ca (store_view CaExample.store) 1
      (CaExample.environment_of x06 CaExample.alice x02) e pt /\
    view_environments s' !! CaExample.alice = Some pt.
Proof.
  destruct (process_refines (HC:=Toy.laws) (HL:=MemoryStore_laws) CaExample.ca 1
    (CaExample.environment_of x06 CaExample.alice x02) CaExample.store 3%N example_store_inv)
    as (r & frame' & s' & g' & Hrun & _ & Hspec).
  assert (r = Ok ProcessResult.Accepted) as ->.
  { apply (f_equal fst) in Hrun. cbn [fst] in Hrun. rewrite <-Hrun. vm_compute. reflexivity. }
  destruct Hspec as (e & pt & Hauth & Heff). exists e, pt, (store_view s'). split; [exact Hauth|].
  assert (env_message_type e = MessageType.SetEnvironment /\ env_sender e = CaExample.alice) as [Hmt Hs].
  { destruct Hauth as (Hchk & _). apply process_checks_Ok in Hchk as (Hp & _).
    vm_compute in Hp. injection Hp as <-. split; reflexivity. }
  rewrite Hmt, Hs in Heff. inversion Heff as [? ? ? _ _ _ Heq| | |].
  destruct Heq as (_ & -> & _). apply lookup_insert_eq.
Defined.

Lemma process_fail_closed_witness :
  process (H:=Toy.crypto) CaExample.ca 1
    (CaExample.environment_of x07 CaExample.alice x02, (CaExample.store, 3%N))
  = (Err Error.BadSignature,
     (CaExample.environment_of x07 CaExample.alice x02, (CaExample.store, 3%N))).
Proof.
  pose proof (process_fail_closed (HC:=Toy.laws) (HL:=MemoryStore_laws) CaExample.ca 1
    (CaExample.environment_of x07 CaExample.alice x02) CaExample.store 3%N example_store_inv) as H.
  assert (process_checks (H:=Toy.crypto) (view_keys (store_view CaExample.store))
    (CaExample.environment_of x07 CaExample.alice x02) = Err Error.BadSignature) as Hc
    by (vm_compute; reflexivity).
  rewrite Hc in H. exact H.
Defined.

Lemma process_replay_rejected_witness :
  let frame := CaExample.environment_of x06 CaExample.alice x02 in
  exists f1 s1 g1 rs s2 g2 x s3,
    process (H:=Toy.crypto) CaExample.ca 1 (frame, (CaExample.store, 3%N))
    = (Ok ProcessResult.Accepted, (f1, (s1, g1))) /\
    run_requests (H:=Toy.crypto) CaExample.ca [(CaExample.environment_of x0b CaExample.bob x02, 2%N)]
      (s1, g1) = (rs, (s2, g2)) /\
    process (H:=Toy.crypto) CaExample.ca 600 (frame, (s2, g2)) = (Err x, (frame, (s3, g2))).
Proof.
  cbn zeta. set (frame := CaExample.environment_of x06 CaExample.alice x02).
  set (other := CaExample.environment_of x0b CaExample.bob x02).
  destruct (process (H:=Toy.crypto) CaExample.ca 1 (frame, (CaExample.store, 3%N)))
    as [r [f1 [s1 g1]]] eqn:Hp.
  destruct (run_requests (H:=Toy.crypto) CaExample.ca [(other, 2%N)] (s1, g1)) as [rs [s2 g2]] eqn:Hr.
  assert (r = Ok ProcessResult.Accepted) as ->.
  { apply (f_equal fst) in Hp. cbn [fst] in Hp. rewrite <-Hp. vm_compute. reflexivity. }
  destruct (parse_envelope frame) as [e|x|] eqn:Hparse;
    [|apply (f_equal is_ok) in Hparse; vm_compute in Hparse; discriminate Hparse..].
  destruct (process_replay_rejected (HC:=Toy.laws) (HL:=MemoryStore_laws) CaExample.ca 1 frame e
    ProcessResult.Accepted f1 CaExample.store s1 3%N g1 [(other, 2%N)] rs s2 g2 600 frame e
    example_store_inv Hparse Hp Hr) as (x & s3 & Hrun & _);
    [repeat constructor|vm_compute; reflexivity|exact Hparse|reflexivity..|].
  exists f1, s1, g1, rs, s2, g2, x, s3. split; [reflexivity|]. split; [exact Hr|exact Hrun].
Defined.

Lemma process_confined_witness :
  let st := process (H:=Toy.crypto) CaExample.ca 1
    (CaExample.environment_of x06 CaExample.alice x02, (CaExample.store, 3%N)) in
  view_environments (store_view st.2.2.1) !! CaExample.bob = None /\
  view_environments (store_view st.2.2.1) !! CaExample.alice
  <> view_environments (store_view CaExample.store) !! CaExample.alice.
Proof.
  cbn zeta. destruct (process _ _ _) as [r [f1 [s1 g1]]] eqn:Hp. cbn [fst snd].
  pose proof (process_confined (HC:=Toy.laws) (HL:=MemoryStore_laws) CaExample.ca 1 _ _ _ _ _ _ _
    example_store_inv Hp) as Hconf. split.
  - destruct (decide (view_environments (store_view s1) !! CaExample.bob
      = view_environments (store_view CaExample.store) !! CaExample.bob)) as [->|Hne].
    + vm_compute. reflexivity.
    + exfalso. destruct (confined_environments _ _ _ _ _ _ Hconf _ Hne)
        as (e & _ & _ & _ & (Hchk & _) & Hs & _).
      apply process_checks_Ok in Hchk as (Hparse & _).
      apply (f_equal (fun r => match r with Ok e => Some (env_sender e) | _ => None end)) in Hparse.
      rewrite Hs in Hparse. vm_compute in Hparse. discriminate Hparse.
  - assert (bool_decide (is_Some (view_environments (store_view s1) !! CaExample.alice)) = true) as Hb.
    { apply (f_equal (fun x => bool_decide (is_Some (view_environments (store_view x.2.2.1)
        !! CaExample.alice)))) in Hp. cbn [fst snd] in Hp. rewrite <-Hp. vm_compute. reflexivity. }
    intros Heq. rewrite Heq in Hb. vm_compute in Hb. discriminate Hb.
Defined.

Lemma stored_state_well_formed_witness :
  exists rs s' g',
    run_requests (H:=Toy.crypto) CaExample.ca CaExample.requests (CaExample.store, 3%N) = (rs, (s', g')) /\
    length rs = 5 /\ stored_wf (store_view s').
Proof.
  destruct (run_requests (H:=Toy.crypto) CaExample.ca CaExample.requests (CaExample.store, 3%N))
    as [rs [s' g']] eqn:Hr.
  exists rs, s', g'. split; [reflexivity|]. split.
  - apply (f_equal (fun x => length x.1)) in Hr. cbn [fst] in Hr. rewrite <-Hr. vm_compute. reflexivity.
  - destruct (stored_state_well_formed (HC:=Toy.laws) (HL:=MemoryStore_laws) CaExample.ca
      CaExample.requests CaExample.store 3%N rs s' g' example_store_inv) as (_ & Hwf & _);
      [|exact Hr|exact Hwf].
    apply example_stored_wf.
Defined.

(** A failing delivery loses the one-shot subscriptions served before it: the third
    agent's key gives the all-zero Diffie-Hellman secret, so the publication is
    refused, after Bob's one-shot subscription was claimed; Bob's delivery is
    dropped and Bob is no longer subscribed. *)
Module LostDelivery.
Definition carol := mkAgentId (vreplicate 16 x03).
Definition store : MemoryStore :=
  (store_call (CallProvision carol (mkPublicKeys (vreplicate 32 x0d) (vreplicate 32 xf8)))
     CaExample.store).2.
Definition carol_subscription : list byte :=
  Toy.frame x0d x09 MessageType.Subscribe carol AgentId_CA CaExample.handler x03
    (Operation.wire (Operation.Subscribe CaExample.temperature [])).
Definition requests : list (list byte * N) :=
  [(CaExample.environment_of x06 CaExample.alice x02, 1%N);
   (CaExample.environment_of x0b CaExample.bob x02, 2%N);
   (CaExample.environment_of x0d carol x02, 2%N);
   (CaExample.subscription, 3%N); (carol_subscription, 3%N)].
End LostDelivery.

Example publication_error_loses_one_shot :
  let slot := (CaExample.temperature, (CaExample.bob, CaExample.handler)) in
  let '(rs, (s, g)) := run_requests (H:=Toy.crypto) CaExample.ca LostDelivery.requests
                         (LostDelivery.store, 3%N) in
  let '(r, (_, (s', _))) := process (H:=Toy.crypto) CaExample.ca 4 (CaExample.publication x04, (s, g)) in
  rs = replicate 5 (Ok ProcessResult.Accepted) /\
  is_Some (view_stored (store_view s) slot) /\
  r = Err Error.CryptoFailure /\ view_stored (store_view s') slot = None.
Proof. vm_compute. split_and!; [reflexivity|by eexists|reflexivity..]. Qed.
