(* ===== verification/EndToEnd.v ===== *)
(** The protocol end to end: agents of agent-core, the engine of ca-core and
    agents again, with no network between them. *)

From S2P Require Export Agent CaEngine.

Section parties.
Context `{HC : CryptoLaws} {P : Type} `{HP : EnvironmentPolicyLaws P}.
Implicit Types ca : CertificateAuthority P.
Implicit Types a : Agent.

(** The agent was given the public keys of the CA. *)
Definition knows_ca a ca : Prop :=
  agent_ca a = mkCaPublicKeys (CaKeys_verifying_key (ca_keys ca)) (CaKeys_x25519_public (ca_keys ca)).

(** The directory holds the agent's public keys. *)
Definition provisioned (v : StoreView) a : Prop :=
  view_keys v !! agent_id a
  = Some (mkPublicKeys (AgentKeys_verifying_key (agent_keys a)) (AgentKeys_x25519_public (agent_keys a))).

(** The receiver's replay cache has room for the session of the frame. *)
Definition fresh_for {R} `{ReplayLaws R} (now : N) (rp : R) (frame : list byte) : Prop :=
  replay_inv rp /\
  let live := retain_live now (replay_view rp) in
  size live < replay_capacity rp /\
  forall e, parse_envelope frame = Ok e -> live !! (env_sender e, env_session_id e) = None.

Lemma fresh_marks {R} `{HR : ReplayLaws R} now (rp : R) frame e :
  fresh_for now rp frame -> parse_envelope frame = Ok e ->
  exists rp', check_and_mark (env_sender e) (env_session_id e) now rp = (Ok tt, rp').
Proof.
  intros (Hinv & Hsize & Hlive) Hparse. specialize (Hlive e Hparse).
  destruct (check_and_mark _ _ now rp) as [r rp'] eqn:Hrun. exists rp'.
  apply replay_refines in Hrun as (_ & _ & _ & Hspec); [|done]. unfold spec_check in Hspec.
  rewrite bool_decide_eq_false_2 in Hspec by (rewrite Hlive; by intros []).
  rewrite (proj2 (Nat.leb_gt _ _)) in Hspec by done. by injection Hspec as <- _.
Qed.

(** What opening a sealed frame gives is what the recipient's key decrypts. *)
Lemma sealed_open_result mt sender r h g vk secret w frame :
  sealed_frame mt sender r h g vk secret w frame ->
  exists e, parse_envelope frame = Ok e /\ env_message_type e = mt /\ env_sender e = sender /\
    env_recipient e = r /\ env_handler e = h /\
    ed25519_verify_strict vk (env_signed_bytes e) (env_signature e) = true /\
    open_result secret e = Ok w.
Proof.
  intros (_ & e & Hp & Hmt & Hs & Hr & Hh & _ & Hopen). exists e. do 5 (split; [done|]).
  rewrite open_in_place_run in Hopen. destruct (open_checks r mt vk frame) as [e'|x|] eqn:Hchk; [|done..].
  apply open_checks_Ok in Hchk as (Hp' & _ & _ & Hv). rewrite Hp in Hp'. injection Hp' as <-.
  split; [done|]. by destruct (open_result secret e).
Qed.

(** A delivery sealed by the CA is received as what it was sealed from. *)
Lemma sealed_received {R} `{HR : ReplayLaws R} a ca h g ty p value now (rp : R) frame :
  knows_ca a ca -> h <> HandlerId_NONE ->
  Operation.wf (Operation.PublicationResponse ty p value) ->
  sealed_frame MessageType.PublicationResponse AgentId_CA (agent_id a) h g
    (CaKeys_verifying_key (ca_keys ca)) (keys_x25519 (agent_keys a))
    (Operation.wire (Operation.PublicationResponse ty p value)) frame ->
  fresh_for now rp frame ->
  exists frame' rp', receive a h now (frame, rp) = (Ok (mkDelivery ty p h value), (frame', rp')).
Proof.
  intros Hca Hh Hwf (e & Hp & Hmt & Hs & Hr & He & Hv & Hopen)%sealed_open_result Hfresh.
  destruct (fresh_marks now rp frame e Hfresh Hp) as [rp' Hmark].
  assert (receive_checks a h frame = Ok e) as Hchk.
  { apply receive_checks_Ok. unfold knows_ca in Hca. rewrite Hca. cbn [ca_ed25519].
    split; [apply ed25519_public_valid|]. split; [by apply open_checks_Ok|done]. }
  pose proof (receive_run a h now frame rp) as Hrun. rewrite Hchk, Hmark in Hrun.
  destruct Hrun as [frame' Hrun]. exists frame', rp'. rewrite Hrun. do 2 f_equal.
  by apply receive_payload_Ok.
Qed.
End parties.

(** C2: Publications work end to end. An agent that knows the CA can build the request
    if the publication is well formed, the buffer is as long as the longest frame, and the
    secret it shares with the CA does not come out as zero. Whenever the CA accepts the
    request, the answer is one delivery for each subscription of the type that is eligible
    under the clauses of the publisher, in order; and the subscriber, if the directory
    holds its keys, it knows the CA, and its replay cache has room and has not seen the
    session of the delivery ([fresh_for]), receives from its delivery, under the handler it
    subscribed with, exactly the type, the identity of the publisher and the value that
    were published. *)
Theorem publication_end_to_end `{HC : CryptoLaws} `{HP : EnvironmentPolicyLaws P}
    `{HL : CaStoreLaws T} `{HR : ReplayLaws R}
    (publisher : Agent) (ca : CertificateAuthority P) ty clauses value out g (s : T) :
  Operation.wf (Operation.Publish ty clauses value) -> MAX_FRAME_LEN <= length out ->
  knows_ca publisher ca -> x25519 (drawn_secret g) (ca_x25519 (agent_ca publisher)) <> zero32 ->
  store_inv s -> stored_wf (store_view s) ->
  exists frame rest,
    publish_into publisher ty clauses value (out, g)
    = (Ok (length frame), (frame ++ rest, drawn_rng g)) /\
    forall now gc res frame' s' gc',
      process ca now (frame, (s, gc)) = (Ok res, (frame', (s', gc'))) ->
      exists environment subs frames, res = ProcessResult.Deliveries frames /\
        environment_valid ca (store_view s) (agent_id publisher) environment /\
        listing (store_view s) ty subs /\
        Forall2 (fun sub d => forall subscriber now2 (rp : R),
            agent_id subscriber = sub_subscriber sub -> knows_ca subscriber ca ->
            provisioned (store_view s) subscriber -> fresh_for now2 rp d ->
            exists d' rp', receive subscriber (sub_handler sub) now2 (d, rp)
              = (Ok (mkDelivery ty (agent_id publisher) (sub_handler sub) value), (d', rp')))
          (filter (eligible ca (store_view s) (agent_id publisher) environment ty
                     (Operation.predicate_view clauses)) subs) frames.
Proof.
  intros Hwf Hout Hca Hz Hs Hstored.
  assert (ca_x25519 (agent_ca publisher) = x25519_public (ck_x25519 (ca_keys ca))) as Hx
    by (unfold knows_ca in Hca; by rewrite Hca).
  destruct (request_run publisher HandlerId_NONE (Operation.Publish ty clauses value) out g
    (ck_x25519 (ca_keys ca))) as (frame & rest & Hrun & Hframe); try done; [by left|by rewrite <-Hx|].
  exists frame, rest. split; [exact Hrun|]. intros now gc res frame' s' gc' Hp.
  destruct (process_spec ca now frame s gc Hs) as (r & f & s1 & g1 & Hp' & _ & Hspec).
  rewrite Hp in Hp'. injection Hp' as <- <- <- <-. destruct Hspec as (e & pt & Hauth & Heff).
  apply (sealed_open_result MessageType.Publish (agent_id publisher) AgentId_CA HandlerId_NONE g)
    in Hframe as (e' & Hparse & Hmt & Hsender & _ & _ & _ & Hopen).
  destruct Hauth as ((Hparse2 & _)%process_checks_Ok & _ & Hpt).
  rewrite Hparse in Hparse2. injection Hparse2 as <-. rewrite Hopen in Hpt. injection Hpt as <-.
  rewrite Hmt, Hsender in Heff.
  assert (parse_operation (Operation.wire (Operation.Publish ty clauses value))
    = Ok (OperationRef.Publish ty (Operation.predicate_view clauses) value)) as Hop.
  { apply parse_operation_iff. by exists (Operation.Publish ty clauses value). }
  inversion Heff as [| | |ty' p' v' environment subs frames v1 _ Hop' Henv Hlist chosen Hdel Hv]; subst.
  assert (Heq := eq_trans (eq_sym Hop) Hop'). injection Heq as <- <- <-.
  exists environment, subs, frames. split; [done|]. split; [exact Henv|]. split; [exact Hlist|].
  apply Forall2_same_length_lookup in Hdel as [Hlen Hdel].
  apply Forall2_same_length_lookup. split; [exact Hlen|]. intros i sub d Hi Hd subscriber now2 rp Hid Hknows Hprov Hfresh.
  assert (sub_handler sub <> HandlerId_NONE) as Hh.
  { apply list_elem_of_lookup_2, list_elem_of_filter in Hi as [_ Hin].
    destruct Hlist as (_ & _ & Hlist). apply Hlist in Hin as [_ Hin].
    by apply (wf_subscriptions _ Hstored) in Hin as (_ & _ & ? & _). }
  destruct (Hdel i sub d Hi Hd) as (k & gd & Hk & _ & _ & Hsealed).
  unfold provisioned in Hprov. rewrite Hid in Hprov.
  change (view_keys (store_view s) !! sub_subscriber sub = Some k) in Hk.
  rewrite Hprov in Hk. injection Hk as <-. specialize (Hsealed _ eq_refl). rewrite <-Hid in Hsealed.
  eapply (sealed_received subscriber ca); [exact Hknows|exact Hh| |exact Hsealed|exact Hfresh].
  destruct Hwf as (Hty & _ & Hv'). by split.
Qed.

(** ** A concrete run *)

Module EndToEndExample.
Definition ca_public := mkCaPublicKeys (vreplicate 32 x08) (vreplicate 32 x09).
Definition alice := mkAgent CaExample.alice (mkAgentKeys (vreplicate 32 x06) (vreplicate 32 x07)) ca_public.
Definition bob := mkAgent CaExample.bob (mkAgentKeys (vreplicate 32 x0b) (vreplicate 32 x0c)) ca_public.

(** Alice and Bob have an environment, and Bob subscribed once. *)
Definition setup :=
  run_requests (H:=Toy.crypto) CaExample.ca (take 3 CaExample.requests) (CaExample.store, 3%N).
Definition store : MemoryStore := setup.2.1.
Definition buffer : list byte := replicate MAX_FRAME_LEN x00.
Definition cache : FixedReplayCache := FixedReplayCache_new 4 100.
End EndToEndExample.

Lemma end_to_end_store :
  memory_inv EndToEndExample.store /\ stored_wf (store_view EndToEndExample.store).
Proof.
  destruct (run_requests_ind (HC:=Toy.laws) (HL:=MemoryStore_laws) CaExample.ca stored_wf
    (take 3 CaExample.requests) CaExample.store 3%N EndToEndExample.setup.1
    EndToEndExample.setup.2.1 EndToEndExample.setup.2.2) as (Hs & Hwf & _).
  - intros frame now s0 g0 r frame' s1 g1 _ Hs0 HI Hp.
    destruct (process_confined_run (HC:=Toy.laws) (HL:=MemoryStore_laws) _ _ _ _ _ _ _ _ _ Hs0 Hp)
      as (_ & _ & Hconf).
    exact (confined_stored_wf _ _ _ _ _ _ Hconf HI).
  - apply example_store_inv.
  - apply example_stored_wf.
  - unfold EndToEndExample.setup. by destruct (run_requests _ _ _) as [rs [s g]].
  - split; assumption.
Qed.

(** Alice publishes, and Bob receives. *)
Lemma publication_end_to_end_witness :
  exists frame rest,
    publish_into (H:=Toy.crypto) EndToEndExample.alice CaExample.temperature [] [x2a]
      (EndToEndExample.buffer, 50%N) = (Ok (length frame), (frame ++ rest, 53%N)) /\
    match (process (H:=Toy.crypto) CaExample.ca 9 (frame, (EndToEndExample.store, 60%N))).1 with
    | Ok (ProcessResult.Deliveries [d]) =>
        (receive (H:=Toy.crypto) EndToEndExample.bob CaExample.handler 10 (d, EndToEndExample.cache)).1
        = Ok (mkDelivery CaExample.temperature CaExample.alice CaExample.handler [x2a])
    | _ => False
    end.
Proof.
  destruct end_to_end_store as [Hs Hwf].
  destruct (publication_end_to_end (HC:=Toy.laws) (HL:=MemoryStore_laws) (HR:=FixedReplayCache_laws)
    EndToEndExample.alice CaExample.ca CaExample.temperature [] [x2a] EndToEndExample.buffer 50%N
    EndToEndExample.store) as (frame & rest & Hrun & _).
  - repeat split; repeat constructor; vm_compute; try lia; try discriminate; repeat constructor.
  - unfold EndToEndExample.buffer. by rewrite length_replicate.
  - reflexivity.
  - vm_compute. discriminate.
  - exact Hs.
  - exact Hwf.
  - exists frame, rest. split; [exact Hrun|].
    pose proof (f_equal (fun x => take (match x.1 with Ok n => n | _ => 0 end) x.2.1) Hrun) as Heq.
    cbn [fst snd] in Heq. rewrite take_app_length in Heq. rewrite <-Heq.
    vm_compute. reflexivity.
Defined.
