(* ===== verification/AgentApps.v ===== *)
(** The bundled agents, apps/smart-building-agent, apps/robot-swarm-agent,
    apps/multi-tenant-agent and apps/smart-building-embassy-agent: the environments,
    subscriptions and publications they build, and who can receive what. *)

From S2P Require Export EndToEnd Reconnect.
From S2P Require Export UseCases.

(** ** What the agents share *)

(** The boxed errors of the agents. *)
Module AppError.
Inductive t :=
| Invalid                  (* "invalid ... configuration" *)
| MissingFloor             (* "sensor requires floor_id" *)
| NotAnInteger             (* [parse::<i64>] *)
| ExpectedRecipient        (* "expected recipient-id and task" *)
| Hexadecimal              (* an identity that is not 16 bytes in hexadecimal *)
| Protocol (e : Error).

#[global] Instance eq_dec : EqDecision t.
Proof. solve_decision. Defined.
End AppError.
Abbreviation AppError := AppError.t.

Definition invalid (_ : ModelError) : AppError := AppError.Invalid.

(** [str::parse::<i64>]: an optional sign, then decimal digits, within the range. *)
Definition decimal_digit (b : byte) : option Z :=
  let n := Z.of_N (byte_val b) in
  if (48 <=? n)%Z && (n <=? 57)%Z then Some (n - 48)%Z else None.
Fixpoint decimal (acc : Z) (text : Text) : option Z :=
  match text with
  | [] => Some acc
  | b :: text' => d ← decimal_digit b; decimal (acc * 10 + d) text'
  end.
Definition parse_i64 (text : Text) : option Z :=
  z ← match text with
      | [] | [x2b] | [x2d] => None
      | x2b :: digits => decimal 0 digits
      | x2d :: digits => Z.opp <$> decimal 0 digits
      | digits => decimal 0 digits
      end;
  if (i64_min <=? z)%Z && (z <=? i64_max)%Z then Some z else None.

(** [str::strip_prefix] and [str::split_once] with a one-byte separator. *)
Definition strip_prefix (prefix text : Text) : option Text :=
  if bool_decide (take (length prefix) text = prefix) then Some (drop (length prefix) text) else None.
Fixpoint split_once (separator : byte) (text : Text) : option (Text * Text) :=
  match text with
  | [] => None
  | b :: text' =>
      if bool_decide (b = separator) then Some ([], text')
      else '(front, back) ← split_once separator text'; Some (b :: front, back)
  end.

(** A fresh builder, filled, and its attributes. *)
Definition built_environment {D} (m : M (EnvironmentBuilder D) AppError unit) : result AppError (list AttributeRef) :=
  match m EnvironmentBuilder_new with
  | (Ok _, b) => map_err invalid (environment_attributes b)
  | (Err e, _) => Err e
  | (Panic, _) => Panic
  end.

(** A predicate of the model with further clauses. *)
Definition built_clauses {D} (predicate : result ModelError (PredicateBuilder D))
    (m : M (PredicateBuilder D) ModelError unit) : result AppError (list ClauseRef) :=
  b ← map_err invalid predicate;
  match m b with
  | (Ok _, b') => map_err invalid (predicate_clauses b')
  | (Err e, _) => Err (invalid e)
  | (Panic, _) => Panic
  end.

(** ** The smart building *)

Module building_agent.
Import smart_building.

Definition HANDLER : HandlerId := mkHandlerId
  [# x62; x75; x69; x6c; x64; x69; x6e; x67; x2d; x68; x61; x6e; x64; x6c; x65; x72].

Inductive Role := RoleSensor | RoleControlPanel | RoleMaintenanceTerminal.

Record Config := mkConfig {
  role : Role;
  building_id : Text;
  floor_id : option Z;
  alert_zone : Text;
  operational : bool;
  temperature_centi_celsius : Z;
}.

(** The environment [main] declares. *)
Definition main_environment (config : Config) : M Environment AppError unit :=
  map_errM invalid (
    environment_bytes_value BUILDING_ID (building_id config);;
    environment_bytes_value ALERT_ZONE (alert_zone config);;
    environment_bool OPERATIONAL (operational config));;
  match role config with
  | RoleSensor =>
      floor ← lift (ok_or (floor_id config) AppError.MissingFloor);
      map_errM invalid (
        environment_i64 FLOOR_ID floor;;
        environment_i64 DEVICE_CLASS (DeviceClass_i64 Sensor);;
        environment_bool CERTIFIED_DEVICE true;;
        environment_i64 TEMPERATURE (temperature_centi_celsius config))
  | RoleControlPanel =>
      map_errM invalid (
        environment_i64 DEVICE_CLASS (DeviceClass_i64 ControlPanel);;
        environment_i64 USER_ROLE (UserRole_i64 ControlOperator))
  | RoleMaintenanceTerminal =>
      map_errM invalid (
        environment_i64 DEVICE_CLASS (DeviceClass_i64 MaintenanceTerminal);;
        environment_i64 USER_ROLE (UserRole_i64 MaintenanceOperator))
  end.

Definition environment_of (config : Config) : result AppError (list AttributeRef) :=
  built_environment (main_environment config).

(** The predicates of [run_sensor], [run_panel] and [run_maintenance]. *)
Definition sensor_audience (config : Config) : result AppError (list ClauseRef) :=
  built_clauses (audience (building_id config))
    (predicate_i64 USER_ROLE Operator.Eq (UserRole_i64 ControlOperator)).
Definition panel_subscription (config : Config) : result AppError (list ClauseRef) :=
  built_clauses (subscription (building_id config))
    (predicate_bool CERTIFIED_DEVICE Operator.Eq true).
Definition maintenance_subscription (config : Config) : result AppError (list ClauseRef) :=
  built_clauses (subscription (building_id config)) (mret tt).

Section agent.
Context `{Crypto}.

(** One line of [run_sensor]: the frames it submits. *)
Definition sensor_line (config : Config) (agent : Agent) (environment : list AttributeRef) (line : Text) :
    M Rng AppError (list (list byte)) :=
  temperature ← lift (ok_or (parse_i64 (trim line)) AppError.NotAnInteger);
  audience ← lift (sensor_audience config);
  frame ← map_errM AppError.Protocol (publish agent SENSOR_READING audience (i64_to_be temperature));
  environment ← map_errM AppError.Protocol (Agent.set_environment agent environment);
  mret [environment; frame].

(** The requests of [run_panel] and [run_maintenance]. *)
Definition panel_request (config : Config) (agent : Agent) : M Rng AppError (list byte) :=
  clauses ← lift (panel_subscription config);
  map_errM AppError.Protocol (subscribe_permanent_request agent SENSOR_READING HANDLER clauses).
Definition maintenance_request (config : Config) (agent : Agent) : M Rng AppError (list byte) :=
  clauses ← lift (maintenance_subscription config);
  map_errM AppError.Protocol (subscribe_permanent_request agent MAINTENANCE_COMMAND HANDLER clauses).
End agent.
End building_agent.

(** ** The robot swarm *)

Module swarm_agent.
Import robot_swarm.

Definition HANDLER : HandlerId := mkHandlerId
  [# x73; x77; x61; x72; x6d; x2d; x74; x61; x73; x6b; x2d; x68; x6e; x64; x6c; x72].

Inductive Role := RoleScout | RoleCoordinator | RoleResponder.

Record Config := mkConfig {
  agent_id_text : Text;
  role : Role;
  swarm_id : Text;
  mission_epoch : Z;
  capability : Z;
  payload_capacity : Z;
  battery_level : Z;
  operational : bool;
  zone : Text;
}.

Definition robot_role (r : Role) : RobotRole :=
  match r with RoleScout => Scout | RoleCoordinator => Coordinator | RoleResponder => Responder end.

(** [b"none"] *)
Definition none_task : Text := [x6e; x6f; x6e; x65].

Definition main_environment (config : Config) (recipient_id : array 16) : M Environment AppError unit :=
  map_errM invalid (
    environment_bytes_value SWARM_ID (swarm_id config);;
    environment_i64 MISSION_EPOCH (mission_epoch config);;
    environment_i64 ROBOT_ROLE (RobotRole_i64 (robot_role (role config)));;
    environment_i64 CAPABILITY (capability config);;
    environment_i64 PAYLOAD_CAPACITY (payload_capacity config);;
    environment_bool OPERATIONAL (operational config);;
    environment_i64 BATTERY_LEVEL (battery_level config);;
    environment_bytes_value ZONE (zone config);;
    environment_bytes_value ASSIGNED_TASK none_task;;
    environment_bytes_value RECIPIENT_ID (vec_to_list recipient_id)).

Definition environment_of `{Hex} (config : Config) : result AppError (list AttributeRef) :=
  recipient_id ← map_err (fun _ => AppError.Hexadecimal) (decode_hex 16 (agent_id_text config));
  built_environment (main_environment config recipient_id).

(** [b"target "] *)
Definition target_prefix : Text := [x74; x61; x72; x67; x65; x74; x20].

(** The type, value and audience of a line of [scout]. *)
Definition scout_type (line : Text) : TypeId * Text :=
  match strip_prefix target_prefix line with
  | None => (DRONE_TELEMETRY, line)
  | Some value => (TARGET_DETECTED, value)
  end.
Definition scout_audience (config : Config) (type_id : TypeId) : result AppError (list ClauseRef) :=
  let r := if bool_decide (type_id = DRONE_TELEMETRY) then Coordinator else Responder in
  built_clauses (audience (swarm_id config) (mission_epoch config))
    (predicate_i64 ROBOT_ROLE Operator.Eq (RobotRole_i64 r)).

Definition coordinator_subscription (config : Config) : result AppError (list ClauseRef) :=
  built_clauses (subscription (swarm_id config) (mission_epoch config))
    (predicate_i64 ROBOT_ROLE Operator.Eq (RobotRole_i64 Scout)).
Definition task_audience (config : Config) (recipient : array 16) : result AppError (list ClauseRef) :=
  built_clauses (audience (swarm_id config) (mission_epoch config)) (
    predicate_i64 ROBOT_ROLE Operator.Eq (RobotRole_i64 Responder);;
    predicate_i64 CAPABILITY Operator.Eq (Capability_i64 Transport);;
    predicate_bool OPERATIONAL Operator.Eq true;;
    predicate_i64 BATTERY_LEVEL Operator.Ge 25;;
    predicate_bytes_value RECIPIENT_ID Operator.Eq (vec_to_list recipient)).
Definition responder_subscription (config : Config) : result AppError (list ClauseRef) :=
  built_clauses (subscription (swarm_id config) (mission_epoch config))
    (predicate_i64 ROBOT_ROLE Operator.Eq (RobotRole_i64 Coordinator)).

Section agent.
Context `{Crypto, Hex}.

Definition scout_line (config : Config) (agent : Agent) (environment : list AttributeRef) (line : Text) :
    M Rng AppError (list (list byte)) :=
  let '(type_id, payload) := scout_type line in
  audience ← lift (scout_audience config type_id);
  frame ← map_errM AppError.Protocol (publish agent type_id audience payload);
  environment ← map_errM AppError.Protocol (Agent.set_environment agent environment);
  mret [environment; frame].

Definition coordinator_request (config : Config) (agent : Agent) : M Rng AppError (list byte) :=
  clauses ← lift (coordinator_subscription config);
  map_errM AppError.Protocol (subscribe_permanent_request agent DRONE_TELEMETRY HANDLER clauses).

(** A line of [coordinator]: the task it publishes. *)
Definition coordinator_line (config : Config) (agent : Agent) (line : Text) : M Rng AppError (list byte) :=
  recipient_task ← lift (ok_or (split_once x20 line) AppError.ExpectedRecipient);
  let '(recipient, task) := recipient_task : Text * Text in
  recipient ← lift (map_err (fun _ => AppError.Hexadecimal) (decode_hex 16 recipient));
  audience ← lift (task_audience config recipient);
  map_errM AppError.Protocol (publish agent TASK_ASSIGNMENT audience task).

(** The subscription a round of [responder] begins with. *)
Definition responder_request (config : Config) (agent : Agent) : M Rng AppError (list byte) :=
  clauses ← lift (responder_subscription config);
  map_errM AppError.Protocol (subscribe agent TASK_ASSIGNMENT HANDLER clauses).
End agent.
End swarm_agent.

(** ** The multi-tenant event bus *)

Module tenant_agent.
Import multi_tenant.

Definition HANDLER : HandlerId := mkHandlerId
  [# x74; x65; x6e; x61; x6e; x74; x2d; x65; x76; x65; x6e; x74; x2d; x68; x6e; x64].

Inductive Role := RolePublisher | RoleConsumer.

Record Config := mkConfig {
  role : Role;
  tenant_id : Text;
  service_id : Text;
  deployment_environment : Z;
  clearance_level : Z;
  region : Text;
  service_health : bool;
}.

Definition service_role (r : Role) : ServiceRole :=
  match r with RolePublisher => Publisher | RoleConsumer => Consumer end.

Definition main_environment (config : Config) : M Environment AppError unit :=
  map_errM invalid (
    environment_bytes_value TENANT_ID (tenant_id config);;
    environment_bytes_value SERVICE_ID (service_id config);;
    environment_i64 DEPLOYMENT_ENVIRONMENT (deployment_environment config);;
    environment_i64 SERVICE_ROLE (ServiceRole_i64 (service_role (role config)));;
    environment_i64 CLEARANCE_LEVEL (clearance_level config);;
    environment_bool SERVICE_HEALTH (service_health config);;
    environment_bytes_value REGION (region config)).

Definition environment_of (config : Config) : result AppError (list AttributeRef) :=
  built_environment (main_environment config).

Definition publisher_audience (config : Config) : result AppError (list ClauseRef) :=
  built_clauses (audience (tenant_id config)) (
    predicate_i64 SERVICE_ROLE Operator.Eq (ServiceRole_i64 Consumer);;
    predicate_i64 CLEARANCE_LEVEL Operator.Ge 1).
Definition consumer_subscription (config : Config) : result AppError (list ClauseRef) :=
  built_clauses (subscription (tenant_id config))
    (predicate_i64 SERVICE_ROLE Operator.Eq (ServiceRole_i64 Publisher)).

Section agent.
Context `{Crypto}.

(** One line of [publish]. *)
Definition publisher_line (config : Config) (agent : Agent) (environment : list AttributeRef) (line : Text) :
    M Rng AppError (list (list byte)) :=
  audience ← lift (publisher_audience config);
  frame ← map_errM AppError.Protocol (publish agent DOMAIN_EVENT audience line);
  environment ← map_errM AppError.Protocol (Agent.set_environment agent environment);
  mret [environment; frame].

Definition consumer_request (config : Config) (agent : Agent) : M Rng AppError (list byte) :=
  clauses ← lift (consumer_subscription config);
  map_errM AppError.Protocol (subscribe_permanent_request agent DOMAIN_EVENT HANDLER clauses).
End agent.
End tenant_agent.

(** ** What the builders hold in the end *)

Definition bounded_value (v : ValueRef) : Prop :=
  match v with ValueRef.Bytes l => length l <= MAX_ATTRIBUTE_BYTES | _ => True end.

(** [m] adds the entries [k] if it succeeds. *)
Definition fills {D F} (m : M (EnvironmentBuilder D) F unit) (k : list AttributeRef) : Prop :=
  forall b l b', environment_holds b l -> m b = (Ok tt, b') ->
    environment_holds b' (l ++ k) /\ Forall (fun a => bounded_value (attr_value a)) k.

(** [m] adds the clauses [k] if it succeeds. *)
Definition narrows {D F} (m : M (PredicateBuilder D) F unit) (k : list ClauseRef) : Prop :=
  forall b l b', predicate_holds b l -> m b = (Ok tt, b') ->
    predicate_holds b' (l ++ k) /\ Forall (fun c => bounded_value (clause_value c)) k.

Section chains.
Context {D F : Type}.

Lemma fills_call (c : EnvironmentCall D) : fills (environment_call c) [call_attribute c].
Proof.
  intros b l b' Hb Hrun. destruct (environment_call_run c b l Hb) as [[e He]|(b1 & Hr & Hb1 & _ & Hlen)].
  - by rewrite He in Hrun.
  - rewrite Hr in Hrun. injection Hrun as <-. split; [done|]. apply Forall_singleton. destruct c; try done.
Qed.

Lemma fills_seq (m1 m2 : M (EnvironmentBuilder D) F unit) k1 k2 :
  fills m1 k1 -> fills m2 k2 -> fills (m1;; m2) (k1 ++ k2).
Proof.
  intros H1 H2 b l b' Hb Hrun. apply M_bind_ok in Hrun as ([] & b1 & Hr1 & Hr2).
  apply (H1 _ _ _ Hb) in Hr1 as [Hb1 Hk1]. apply (H2 _ _ _ Hb1) in Hr2 as [Hb2 Hk2].
  split; [by rewrite app_assoc|by apply Forall_app].
Qed.

Lemma fills_map_err {F'} (f : F -> F') (m : M (EnvironmentBuilder D) F unit) k : fills m k -> fills (map_errM f m) k.
Proof.
  intros Hm b l b' Hb. unfold map_errM. destruct (m b) as [[[]|e|] b1] eqn:Hr; [|done..].
  intros [= <-]. by apply (Hm b l).
Qed.

Lemma fills_lift {A} (r : result F A) (m : A -> M (EnvironmentBuilder D) F unit) k :
  (forall a, r = Ok a -> fills (m a) k) -> fills (a ← lift r; m a) k.
Proof.
  intros Hm b l b' Hb Hrun. apply M_bind_ok in Hrun as (a & b1 & Hr & Hrun). injection Hr as Hr <-.
  by apply (Hm a Hr b l).
Qed.

Lemma narrows_call (c : PredicateCall D) : narrows (predicate_call c) [call_clause c].
Proof.
  intros b l b' Hb Hrun. destruct (predicate_call_run c b l Hb) as [[e He]|(b1 & Hr & Hb1 & Hlen)].
  - by rewrite He in Hrun.
  - rewrite Hr in Hrun. injection Hrun as <-. split; [done|]. apply Forall_singleton. by destruct c.
Qed.

Lemma narrows_seq (m1 m2 : M (PredicateBuilder D) F unit) k1 k2 :
  narrows m1 k1 -> narrows m2 k2 -> narrows (m1;; m2) (k1 ++ k2).
Proof.
  intros H1 H2 b l b' Hb Hrun. apply M_bind_ok in Hrun as ([] & b1 & Hr1 & Hr2).
  apply (H1 _ _ _ Hb) in Hr1 as [Hb1 Hk1]. apply (H2 _ _ _ Hb1) in Hr2 as [Hb2 Hk2].
  split; [by rewrite app_assoc|by apply Forall_app].
Qed.

Lemma narrows_ret : narrows (mret tt : M (PredicateBuilder D) F unit) [].
Proof. intros b l b' Hb [= <-]. by rewrite app_nil_r. Qed.
End chains.

Lemma built_environment_Ok {D} (m : M (EnvironmentBuilder D) AppError unit) k l :
  fills m k -> built_environment m = Ok l ->
  l = k /\ length l <= MAX_ATTRIBUTES /\ Forall (fun a => bounded_value (attr_value a)) l.
Proof.
  intros Hm. unfold built_environment. destruct (m _) as [[[]|e|] b] eqn:Hr; [|done..].
  apply (Hm _ _ _ (environment_holds_new D)) in Hr as [Hb Hk].
  apply environment_holds_attributes in Hb as [-> Hmax]. by intros [= <-].
Qed.

Lemma built_clauses_Ok {D} (m0 m : M (PredicateBuilder D) ModelError unit) k0 k l :
  narrows m0 k0 -> narrows m k -> built_clauses (built m0) m = Ok l ->
  l = k0 ++ k /\ length l <= MAX_CLAUSES /\ Forall (fun c => bounded_value (clause_value c)) l.
Proof.
  intros H0 Hm. unfold built_clauses, built. destruct (m0 _) as [[[]|e|] b0] eqn:Hr0; [|done..].
  cbn [map_err]. rewrite bind_Ok. destruct (m b0) as [[[]|e|] b] eqn:Hr; [|done..].
  apply (H0 _ _ _ (predicate_holds_new D)) in Hr0 as [Hb0 Hk0]. apply (Hm _ _ _ Hb0) in Hr as [Hb Hk].
  apply predicate_holds_clauses in Hb as [-> Hmax]. intros [= <-]. split; [done|]. split; [done|].
  by apply Forall_app.
Qed.

(** The integers of entries and clauses fit. *)
Definition integer_value (v : ValueRef) : Prop := match v with ValueRef.I64 z => i64_wf z | _ => True end.

Lemma value_wf_intro v : bounded_value v -> integer_value v -> value_wf v.
Proof. by destruct v. Qed.

Lemma environment_wf_intro l :
  length l <= MAX_ATTRIBUTES -> Forall (fun a => bounded_value (attr_value a)) l ->
  Forall (fun a => integer_value (attr_value a)) l -> Forall (fun a => attribute_wf (attr_id a)) l ->
  NoDup (attr_id <$> l) -> Operation.environment_wf l.
Proof.
  intros Hlen Hb Hi Hid Hnd. split; [done|]. split; [|done].
  apply Forall_forall. intros a Ha. rewrite Forall_forall in Hb, Hi, Hid.
  split; [by apply Hid|apply value_wf_intro; auto].
Qed.

Lemma clauses_wf_intro l :
  length l <= MAX_CLAUSES -> Forall (fun c => bounded_value (clause_value c)) l ->
  Forall (fun c => integer_value (clause_value c)) l -> Forall (fun c => attribute_wf (clause_attribute c)) l ->
  Operation.clauses_wf l.
Proof.
  intros Hlen Hb Hi Hid. split; [done|].
  apply Forall_forall. intros c Hc. rewrite Forall_forall in Hb, Hi, Hid.
  split; [by apply Hid|apply value_wf_intro; auto].
Qed.

(** *** Eligibility, for stored data that agents built *)

Lemma eligible_built `{HC : CryptoLaws} `{EnvironmentPolicy P} (ca : CertificateAuthority P) v
    publisher subscriber ty handler mine theirs audience clauses :
  Operation.environment_wf mine -> Operation.environment_wf theirs ->
  Operation.clauses_wf audience -> Operation.clauses_wf clauses -> type_wf ty ->
  view_environments v !! subscriber = Some (Operation.wire (Operation.SetEnvironment theirs)) ->
  forall kind encoded,
  (kind, encoded) = (SubscriptionKind.Permanent, Operation.wire (Operation.SubscribePermanent ty clauses)) \/
  (kind, encoded) = (SubscriptionKind.OneShot, Operation.wire (Operation.Subscribe ty clauses)) ->
  eligible ca v publisher (Operation.environment_view mine) ty (Operation.predicate_view audience)
    (mkSubscription subscriber ty handler kind encoded) =
  forallb (clause_holds mine) clauses && (forallb (clause_holds theirs) audience &&
    authorize_delivery (ca_policy ca) publisher (Operation.environment_view mine)
      subscriber (Operation.environment_view theirs) ty).
Proof.
  intros Hmine Htheirs Haud Hcl Hty Henv kind encoded Hkind. unfold eligible, parse_subscription.
  cbn [sub_encoded sub_kind sub_subscriber]. rewrite Henv. unfold parse_environment.
  rewrite (proj2 (parse_operation_iff _ _)
    (ex_intro _ (Operation.SetEnvironment theirs) (conj Htheirs (conj eq_refl eq_refl)))).
  destruct Hkind as [[-> ->]%pair_equal_spec|[-> ->]%pair_equal_spec].
  - rewrite (proj2 (parse_operation_iff _ _)
      (ex_intro _ (Operation.SubscribePermanent ty clauses) (conj (conj Hty Hcl) (conj eq_refl eq_refl)))).
    cbn. rewrite bool_decide_eq_true_2 by done. cbn. by rewrite !evaluate_view.
  - rewrite (proj2 (parse_operation_iff _ _)
      (ex_intro _ (Operation.Subscribe ty clauses) (conj (conj Hty Hcl) (conj eq_refl eq_refl)))).
    cbn. rewrite bool_decide_eq_true_2 by done. cbn. by rewrite !evaluate_view.
Qed.

(** *** The chains of the agents *)

Section calls.
Context {D : Type}.

Lemma fills_bool (a : BoolAttribute D) value :
  fills (environment_bool a value) [mkAttribute (bool_id a) (ValueRef.Bool value)].
Proof. exact (fills_call (PutBool a value)). Qed.
Lemma fills_i64 (a : I64Attribute D) value :
  fills (environment_i64 a value) [mkAttribute (i64_id a) (ValueRef.I64 value)].
Proof. exact (fills_call (PutI64 a value)). Qed.
Lemma fills_bytes (a : BytesAttribute D) value :
  fills (environment_bytes_value a value) [mkAttribute (bytes_id a) (ValueRef.Bytes value)].
Proof. exact (fills_call (PutBytes a value)). Qed.
Lemma narrows_bool (a : BoolAttribute D) op value :
  narrows (predicate_bool a op value) [mkClause (bool_id a) op (ValueRef.Bool value)].
Proof. exact (narrows_call (ClauseBool a op value)). Qed.
Lemma narrows_i64 (a : I64Attribute D) op value :
  narrows (predicate_i64 a op value) [mkClause (i64_id a) op (ValueRef.I64 value)].
Proof. exact (narrows_call (ClauseI64 a op value)). Qed.
Lemma narrows_bytes (a : BytesAttribute D) op value :
  narrows (predicate_bytes_value a op value) [mkClause (bytes_id a) op (ValueRef.Bytes value)].
Proof. exact (narrows_call (ClauseBytes a op value)). Qed.
End calls.

Create HintDb builders.
#[export] Hint Resolve fills_bool fills_i64 fills_bytes fills_map_err fills_seq
  narrows_bool narrows_i64 narrows_bytes narrows_seq narrows_ret : builders.

(** The entries or clauses of a chain that succeeded. *)
Ltac chain H :=
  let Heq := fresh "Heq" in let Hlen := fresh "Hlen" in let Hbound := fresh "Hbound" in
  first
    [ eapply built_environment_Ok in H as (Heq & Hlen & Hbound); [|solve [eauto 40 with builders]]
    | eapply built_clauses_Ok in H as (Heq & Hlen & Hbound);
        [|solve [eauto 20 with builders]|solve [eauto 20 with builders]] ];
  subst; cbn [app] in *.

(** The parts of well-formedness that are seen on a concrete list. *)
Ltac built_wf :=
  first [apply environment_wf_intro | apply clauses_wf_intro];
  try assumption;
  first
    [ apply (bool_decide_unpack _); vm_compute; reflexivity
    | repeat (apply Forall_cons; split;
        [first [exact I|assumption|vm_compute; reflexivity|vm_compute; split; discriminate
               |vm_compute; discriminate|by (match goal with r : _ |- _ => destruct r end; vm_compute; split; discriminate)]|]);
      apply Forall_nil_2 ].

Lemma compare_bytes_eq a b : compare (ValueRef.Bytes a) Operator.Eq (ValueRef.Bytes b) = bool_decide (a = b).
Proof. apply eq_true_iff_eq. rewrite compare_eq_true, bool_decide_eq_true. split; [by intros [= ->]|by intros ->]. Qed.
Lemma compare_i64_eq a b : compare (ValueRef.I64 a) Operator.Eq (ValueRef.I64 b) = bool_decide (a = b).
Proof. apply eq_true_iff_eq. rewrite compare_eq_true, bool_decide_eq_true. split; [by intros [= ->]|by intros ->]. Qed.
Lemma compare_bool_eq a b : compare (ValueRef.Bool a) Operator.Eq (ValueRef.Bool b) = bool_decide (a = b).
Proof. apply eq_true_iff_eq. rewrite compare_eq_true, bool_decide_eq_true. split; [by intros [= ->]|by intros ->]. Qed.
Lemma compare_i64_ge a b : compare (ValueRef.I64 a) Operator.Ge (ValueRef.I64 b) = (b <=? a)%Z.
Proof. cbn. destruct (Z.compare_spec a b); symmetry; rewrite ?Z.leb_le, ?Z.leb_gt; lia. Qed.

(** Evaluates clauses on a list whose identifiers are known. *)
Ltac holds :=
  cbn [forallb]; unfold clause_holds; cbn [clause_attribute clause_operator clause_value];
  repeat match goal with
  | |- context [lookup_attribute ?l ?id] =>
      let o := eval hnf in (lookup_attribute l id) in
      change (lookup_attribute l id) with o
  end; cbn [attr_value]; rewrite ?compare_bytes_eq, ?andb_true_r, ?andb_false_r.

Module building_facts.
Import smart_building building_agent.

Definition config_wf (config : Config) : Prop :=
  i64_wf (temperature_centi_celsius config) /\ forall z, floor_id config = Some z -> i64_wf z.

(** What an agent of each role declares. *)
Definition declared (config : Config) : list AttributeRef :=
  [mkAttribute (bytes_id BUILDING_ID) (ValueRef.Bytes (building_id config));
   mkAttribute (bytes_id ALERT_ZONE) (ValueRef.Bytes (alert_zone config));
   mkAttribute (bool_id OPERATIONAL) (ValueRef.Bool (operational config))] ++
  match role config with
  | RoleSensor =>
      [mkAttribute (i64_id FLOOR_ID) (ValueRef.I64 (default 0%Z (floor_id config)));
       mkAttribute (i64_id DEVICE_CLASS) (ValueRef.I64 1);
       mkAttribute (bool_id CERTIFIED_DEVICE) (ValueRef.Bool true);
       mkAttribute (i64_id TEMPERATURE) (ValueRef.I64 (temperature_centi_celsius config))]
  | RoleControlPanel =>
      [mkAttribute (i64_id DEVICE_CLASS) (ValueRef.I64 2); mkAttribute (i64_id USER_ROLE) (ValueRef.I64 1)]
  | RoleMaintenanceTerminal =>
      [mkAttribute (i64_id DEVICE_CLASS) (ValueRef.I64 3); mkAttribute (i64_id USER_ROLE) (ValueRef.I64 2)]
  end.

Lemma building_environment_of_Ok config l : config_wf config -> environment_of config = Ok l ->
  l = declared config /\ Operation.environment_wf l.
Proof.
  intros [Ht Hf] Hrun. unfold environment_of, main_environment in Hrun. unfold declared.
  destruct (role config).
  - destruct (floor_id config) as [z|]; cbn [ok_or default] in *.
    + specialize (Hf z eq_refl). eapply built_environment_Ok in Hrun as (-> & Hlen & Hb).
      2:{ eapply fills_seq; [solve [eauto 40 with builders]|]. apply fills_lift. intros a [= <-].
          solve [eauto 40 with builders]. }
      cbn [app] in *. split; [done|]. built_wf.
    + unfold built_environment in Hrun. rewrite M_bind_run in Hrun.
      by destruct (map_errM _ _ _) as [[[]|e|] b].
  - chain Hrun. split; [done|]. built_wf.
  - chain Hrun. split; [done|]. built_wf.
Qed.

#[global] Instance Role_eq_dec : EqDecision Role.
Proof. solve_decision. Defined.

Lemma sensor_audience_Ok config l : sensor_audience config = Ok l ->
  l = [mkClause (bytes_id BUILDING_ID) Operator.Eq (ValueRef.Bytes (building_id config));
       mkClause (i64_id USER_ROLE) Operator.Eq (ValueRef.I64 1)] /\ Operation.clauses_wf l.
Proof. intros H. unfold sensor_audience, audience in H. chain H. split; [done|]. built_wf. Qed.

Lemma panel_subscription_Ok config l : panel_subscription config = Ok l ->
  l = [mkClause (bytes_id BUILDING_ID) Operator.Eq (ValueRef.Bytes (building_id config));
       mkClause (bool_id CERTIFIED_DEVICE) Operator.Eq (ValueRef.Bool true)] /\ Operation.clauses_wf l.
Proof. intros H. unfold panel_subscription, subscription in H. chain H. split; [done|]. built_wf. Qed.

Lemma building_audience_holds s r :
  forallb (clause_holds (declared r))
    [mkClause (bytes_id BUILDING_ID) Operator.Eq (ValueRef.Bytes (building_id s));
     mkClause (i64_id USER_ROLE) Operator.Eq (ValueRef.I64 1)] =
  bool_decide (role r = RoleControlPanel) && bool_decide (building_id r = building_id s).
Proof.
  unfold declared. destruct (role r); holds; reflexivity.
Qed.

Lemma building_subscription_holds s r :
  forallb (clause_holds (declared s))
    [mkClause (bytes_id BUILDING_ID) Operator.Eq (ValueRef.Bytes (building_id r));
     mkClause (bool_id CERTIFIED_DEVICE) Operator.Eq (ValueRef.Bool true)] =
  bool_decide (role s = RoleSensor) && bool_decide (building_id s = building_id r).
Proof. unfold declared. destruct (role s); holds; reflexivity. Qed.
End building_facts.

Module swarm_facts.
Import robot_swarm swarm_agent.

#[global] Instance Role_eq_dec : EqDecision Role.
Proof. solve_decision. Defined.

Definition config_wf (config : Config) : Prop :=
  i64_wf (mission_epoch config) /\ i64_wf (capability config) /\ i64_wf (payload_capacity config) /\
  i64_wf (battery_level config).

Definition role_code (r : Role) : Z := match r with RoleScout => 2 | RoleCoordinator => 1 | RoleResponder => 3 end.

(** What an agent of the swarm declares. *)
Definition declared (config : Config) (identity : array 16) : list AttributeRef :=
  [mkAttribute (bytes_id SWARM_ID) (ValueRef.Bytes (swarm_id config));
   mkAttribute (i64_id MISSION_EPOCH) (ValueRef.I64 (mission_epoch config));
   mkAttribute (i64_id ROBOT_ROLE) (ValueRef.I64 (role_code (role config)));
   mkAttribute (i64_id CAPABILITY) (ValueRef.I64 (capability config));
   mkAttribute (i64_id PAYLOAD_CAPACITY) (ValueRef.I64 (payload_capacity config));
   mkAttribute (bool_id OPERATIONAL) (ValueRef.Bool (operational config));
   mkAttribute (i64_id BATTERY_LEVEL) (ValueRef.I64 (battery_level config));
   mkAttribute (bytes_id ZONE) (ValueRef.Bytes (zone config));
   mkAttribute (bytes_id ASSIGNED_TASK) (ValueRef.Bytes none_task);
   mkAttribute (bytes_id RECIPIENT_ID) (ValueRef.Bytes (vec_to_list identity))].

Lemma swarm_role_code_wf r : i64_wf (role_code r).
Proof. destruct r; vm_compute; split; discriminate. Qed.

Lemma swarm_environment_of_Ok `{Hex} config l : config_wf config -> environment_of config = Ok l ->
  exists identity, decode_hex 16 (agent_id_text config) = Ok identity /\
    l = declared config identity /\ Operation.environment_wf l.
Proof.
  intros (He & Hc & Hp & Hb) Hrun. unfold environment_of in Hrun.
  apply result_bind_Ok in Hrun as (identity & Hid%map_err_Ok & Hrun). exists identity. split; [done|].
  unfold main_environment in Hrun. chain Hrun. pose proof (swarm_role_code_wf (role config)) as Hr.
  assert (RobotRole_i64 (robot_role (role config)) = role_code (role config)) as Hcode by (by destruct (role config)).
  rewrite Hcode in *. split; [done|]. built_wf.
Qed.

(** The boundary every predicate of the swarm begins with. *)
Definition boundary (config : Config) : list ClauseRef :=
  [mkClause (bytes_id SWARM_ID) Operator.Eq (ValueRef.Bytes (swarm_id config));
   mkClause (i64_id MISSION_EPOCH) Operator.Eq (ValueRef.I64 (mission_epoch config))].
Definition role_clause (z : Z) : ClauseRef := mkClause (i64_id ROBOT_ROLE) Operator.Eq (ValueRef.I64 z).

Lemma scout_audience_Ok config ty l : i64_wf (mission_epoch config) -> scout_audience config ty = Ok l ->
  l = boundary config ++ [role_clause (if bool_decide (ty = DRONE_TELEMETRY) then 1 else 3)] /\
  Operation.clauses_wf l.
Proof.
  intros He H. unfold scout_audience, audience in H. case_bool_decide; chain H; split; try done; built_wf.
Qed.

Lemma coordinator_subscription_Ok config l : i64_wf (mission_epoch config) ->
  coordinator_subscription config = Ok l -> l = boundary config ++ [role_clause 2] /\ Operation.clauses_wf l.
Proof. intros He H. unfold coordinator_subscription, subscription in H. chain H. split; [done|]. built_wf. Qed.

Lemma responder_subscription_Ok config l : i64_wf (mission_epoch config) ->
  responder_subscription config = Ok l -> l = boundary config ++ [role_clause 1] /\ Operation.clauses_wf l.
Proof. intros He H. unfold responder_subscription, subscription in H. chain H. split; [done|]. built_wf. Qed.

Lemma task_audience_Ok config recipient l : i64_wf (mission_epoch config) ->
  task_audience config recipient = Ok l ->
  l = boundary config ++
      [role_clause 3; mkClause (i64_id CAPABILITY) Operator.Eq (ValueRef.I64 3);
       mkClause (bool_id OPERATIONAL) Operator.Eq (ValueRef.Bool true);
       mkClause (i64_id BATTERY_LEVEL) Operator.Ge (ValueRef.I64 25);
       mkClause (bytes_id RECIPIENT_ID) Operator.Eq (ValueRef.Bytes (vec_to_list recipient))] /\
  Operation.clauses_wf l.
Proof. intros He H. unfold task_audience, audience in H. chain H. split; [done|]. built_wf. Qed.

(** Two members of one swarm and mission. *)
Definition same_mission (c1 c2 : Config) : bool :=
  bool_decide (swarm_id c1 = swarm_id c2) && bool_decide (mission_epoch c1 = mission_epoch c2).

Lemma boundary_holds c1 c2 identity z :
  forallb (clause_holds (declared c1 identity)) (boundary c2 ++ [role_clause z]) =
  same_mission c1 c2 && bool_decide (role_code (role c1) = z).
Proof.
  unfold declared, boundary, role_clause, same_mission. cbn [app]. holds. rewrite !compare_i64_eq, <-?andb_assoc.
  reflexivity.
Qed.

Lemma task_holds c1 c2 identity (recipient : array 16) :
  forallb (clause_holds (declared c1 identity)) (boundary c2 ++
      [role_clause 3; mkClause (i64_id CAPABILITY) Operator.Eq (ValueRef.I64 3);
       mkClause (bool_id OPERATIONAL) Operator.Eq (ValueRef.Bool true);
       mkClause (i64_id BATTERY_LEVEL) Operator.Ge (ValueRef.I64 25);
       mkClause (bytes_id RECIPIENT_ID) Operator.Eq (ValueRef.Bytes (vec_to_list recipient))]) =
  same_mission c1 c2 && (bool_decide (role_code (role c1) = 3%Z) && (bool_decide (capability c1 = 3%Z) &&
    (bool_decide (operational c1 = true) && ((25 <=? battery_level c1)%Z &&
     bool_decide (identity = recipient))))).
Proof.
  unfold declared, boundary, role_clause, same_mission. cbn [app]. holds.
  rewrite !compare_i64_eq, compare_bool_eq, compare_i64_ge, <-?andb_assoc. do 6 f_equal.
  apply bool_decide_ext. split; [apply vec_to_list_inj2|by intros ->].
Qed.
End swarm_facts.

Module tenant_facts.
Import multi_tenant tenant_agent.

#[global] Instance Role_eq_dec : EqDecision Role.
Proof. solve_decision. Defined.

Definition config_wf (config : Config) : Prop :=
  i64_wf (deployment_environment config) /\ i64_wf (clearance_level config).

Definition role_code (r : Role) : Z := match r with RolePublisher => 1 | RoleConsumer => 2 end.

Definition declared (config : Config) : list AttributeRef :=
  [mkAttribute (bytes_id TENANT_ID) (ValueRef.Bytes (tenant_id config));
   mkAttribute (bytes_id SERVICE_ID) (ValueRef.Bytes (service_id config));
   mkAttribute (i64_id DEPLOYMENT_ENVIRONMENT) (ValueRef.I64 (deployment_environment config));
   mkAttribute (i64_id SERVICE_ROLE) (ValueRef.I64 (role_code (role config)));
   mkAttribute (i64_id CLEARANCE_LEVEL) (ValueRef.I64 (clearance_level config));
   mkAttribute (bool_id SERVICE_HEALTH) (ValueRef.Bool (service_health config));
   mkAttribute (bytes_id REGION) (ValueRef.Bytes (region config))].

Lemma tenant_role_code_wf r : i64_wf (role_code r).
Proof. destruct r; vm_compute; split; discriminate. Qed.

Lemma tenant_environment_of_Ok config l : config_wf config -> environment_of config = Ok l ->
  l = declared config /\ Operation.environment_wf l.
Proof.
  intros [Hd Hc] Hrun. unfold environment_of, main_environment in Hrun. chain Hrun.
  pose proof (tenant_role_code_wf (role config)) as Hr.
  assert (ServiceRole_i64 (service_role (role config)) = role_code (role config)) as Hcode
    by (by destruct (role config)).
  rewrite Hcode in *. split; [done|]. built_wf.
Qed.

Lemma publisher_audience_Ok config l : publisher_audience config = Ok l ->
  l = [mkClause (bytes_id TENANT_ID) Operator.Eq (ValueRef.Bytes (tenant_id config));
       mkClause (i64_id SERVICE_ROLE) Operator.Eq (ValueRef.I64 2);
       mkClause (i64_id CLEARANCE_LEVEL) Operator.Ge (ValueRef.I64 1)] /\ Operation.clauses_wf l.
Proof. intros H. unfold publisher_audience, audience in H. chain H. split; [done|]. built_wf. Qed.

Lemma consumer_subscription_Ok config l : consumer_subscription config = Ok l ->
  l = [mkClause (bytes_id TENANT_ID) Operator.Eq (ValueRef.Bytes (tenant_id config));
       mkClause (i64_id SERVICE_ROLE) Operator.Eq (ValueRef.I64 1)] /\ Operation.clauses_wf l.
Proof. intros H. unfold consumer_subscription, subscription in H. chain H. split; [done|]. built_wf. Qed.

Lemma tenant_audience_holds p c :
  forallb (clause_holds (declared c))
    [mkClause (bytes_id TENANT_ID) Operator.Eq (ValueRef.Bytes (tenant_id p));
     mkClause (i64_id SERVICE_ROLE) Operator.Eq (ValueRef.I64 2);
     mkClause (i64_id CLEARANCE_LEVEL) Operator.Ge (ValueRef.I64 1)] =
  bool_decide (tenant_id c = tenant_id p) && (bool_decide (role c = RoleConsumer) && (1 <=? clearance_level c)%Z).
Proof.
  unfold declared. holds. rewrite compare_i64_eq, compare_i64_ge. by destruct (role c).
Qed.

Lemma tenant_subscription_holds p c :
  forallb (clause_holds (declared p))
    [mkClause (bytes_id TENANT_ID) Operator.Eq (ValueRef.Bytes (tenant_id c));
     mkClause (i64_id SERVICE_ROLE) Operator.Eq (ValueRef.I64 1)] =
  bool_decide (tenant_id p = tenant_id c) && bool_decide (role p = RolePublisher).
Proof. unfold declared. holds. rewrite compare_i64_eq. by destruct (role p). Qed.
End tenant_facts.

(** ** Who can receive what *)

Section reach.
Context `{HC : CryptoLaws} `{EnvironmentPolicy P} (ca : CertificateAuthority P) (v : StoreView).

(** The publication of [publisher], from the environment [mine], is for the subscription
    of [subscriber], who declared [theirs], exactly under [condition] and where the
    policy of the CA allows the pair. *)
Definition reaches (publisher : AgentId) (mine : list AttributeRef) (ty : TypeId) (audience : list ClauseRef)
    (subscriber : AgentId) (theirs : list AttributeRef) (handler : HandlerId) (kind : SubscriptionKind)
    (encoded : list byte) (condition : bool) : Prop :=
  view_environments v !! subscriber = Some (Operation.wire (Operation.SetEnvironment theirs)) ->
  eligible ca v publisher (Operation.environment_view mine) ty (Operation.predicate_view audience)
    (mkSubscription subscriber ty handler kind encoded) =
  condition && authorize_delivery (ca_policy ca) publisher (Operation.environment_view mine)
                 subscriber (Operation.environment_view theirs) ty.

Lemma reaches_intro publisher mine ty audience subscriber theirs handler clauses condition kind encoded :
  Operation.environment_wf mine -> Operation.environment_wf theirs ->
  Operation.clauses_wf audience -> Operation.clauses_wf clauses -> type_wf ty ->
  forallb (clause_holds mine) clauses && forallb (clause_holds theirs) audience = condition ->
  (kind, encoded) = (SubscriptionKind.Permanent, Operation.wire (Operation.SubscribePermanent ty clauses)) \/
  (kind, encoded) = (SubscriptionKind.OneShot, Operation.wire (Operation.Subscribe ty clauses)) ->
  reaches publisher mine ty audience subscriber theirs handler kind encoded condition.
Proof.
  intros Hmine Htheirs Ha Hc Hty Hcond Hkind Henv.
  rewrite (eligible_built ca v publisher subscriber ty handler mine theirs audience clauses) by done.
  by rewrite andb_assoc, Hcond.
Qed.
End reach.

(** C7: The bundled agents reach exactly the agents they are meant for. For what agents
    declared and subscribed to, as their programs build it, the CA delivers, where its
    policy allows the pair: a sensor's reading to the control panels of the same
    building; a scout's telemetry to the coordinators, and a coordinator's task to the
    one responder it names, of the same swarm and mission, if that can transport, is
    operational and has a quarter of its battery; a tenant's event to the consumers of
    the same tenant with any clearance. *)
Theorem bundled_agents_reach `{HC : CryptoLaws} `{EnvironmentPolicy P} `{Hex} (ca : CertificateAuthority P) v A B :
  (forall s r mine theirs audience clauses,
     building_facts.config_wf s -> building_facts.config_wf r ->
     building_agent.environment_of s = Ok mine -> building_agent.environment_of r = Ok theirs ->
     building_agent.sensor_audience s = Ok audience -> building_agent.panel_subscription r = Ok clauses ->
     building_agent.role s = building_agent.RoleSensor ->
     reaches ca v A mine smart_building.SENSOR_READING audience B theirs building_agent.HANDLER
       SubscriptionKind.Permanent
       (Operation.wire (Operation.SubscribePermanent smart_building.SENSOR_READING clauses))
       (bool_decide (building_agent.role r = building_agent.RoleControlPanel) &&
        bool_decide (building_agent.building_id s = building_agent.building_id r))) /\
  (forall s r mine theirs audience clauses,
     swarm_facts.config_wf s -> swarm_facts.config_wf r ->
     swarm_agent.environment_of s = Ok mine -> swarm_agent.environment_of r = Ok theirs ->
     swarm_agent.scout_audience s robot_swarm.DRONE_TELEMETRY = Ok audience ->
     swarm_agent.coordinator_subscription r = Ok clauses -> swarm_agent.role s = swarm_agent.RoleScout ->
     reaches ca v A mine robot_swarm.DRONE_TELEMETRY audience B theirs swarm_agent.HANDLER
       SubscriptionKind.Permanent
       (Operation.wire (Operation.SubscribePermanent robot_swarm.DRONE_TELEMETRY clauses))
       (bool_decide (swarm_agent.role r = swarm_agent.RoleCoordinator) && swarm_facts.same_mission s r)) /\
  (forall s r mine theirs recipient audience clauses,
     swarm_facts.config_wf s -> swarm_facts.config_wf r ->
     swarm_agent.environment_of s = Ok mine -> swarm_agent.environment_of r = Ok theirs ->
     swarm_agent.task_audience s recipient = Ok audience ->
     swarm_agent.responder_subscription r = Ok clauses -> swarm_agent.role s = swarm_agent.RoleCoordinator ->
     reaches ca v A mine robot_swarm.TASK_ASSIGNMENT audience B theirs swarm_agent.HANDLER
       SubscriptionKind.OneShot
       (Operation.wire (Operation.Subscribe robot_swarm.TASK_ASSIGNMENT clauses))
       (bool_decide (swarm_agent.role r = swarm_agent.RoleResponder) && swarm_facts.same_mission s r &&
        bool_decide (decode_hex 16 (swarm_agent.agent_id_text r) = Ok recipient) &&
        bool_decide (swarm_agent.capability r = 3%Z) && swarm_agent.operational r &&
        (25 <=? swarm_agent.battery_level r)%Z)) /\
  (forall p c mine theirs audience clauses,
     tenant_facts.config_wf p -> tenant_facts.config_wf c ->
     tenant_agent.environment_of p = Ok mine -> tenant_agent.environment_of c = Ok theirs ->
     tenant_agent.publisher_audience p = Ok audience -> tenant_agent.consumer_subscription c = Ok clauses ->
     tenant_agent.role p = tenant_agent.RolePublisher ->
     reaches ca v A mine multi_tenant.DOMAIN_EVENT audience B theirs tenant_agent.HANDLER
       SubscriptionKind.Permanent
       (Operation.wire (Operation.SubscribePermanent multi_tenant.DOMAIN_EVENT clauses))
       (bool_decide (tenant_agent.role c = tenant_agent.RoleConsumer) &&
        bool_decide (tenant_agent.tenant_id p = tenant_agent.tenant_id c) &&
        (1 <=? tenant_agent.clearance_level c)%Z)).
Proof.
  split; [|split; [|split]].
  - intros s r mine theirs audience clauses Hs Hr (-> & Hm)%building_facts.building_environment_of_Ok
      (-> & Ht)%building_facts.building_environment_of_Ok (-> & Ha)%building_facts.sensor_audience_Ok
      (-> & Hc)%building_facts.panel_subscription_Ok Hrole; try done.
    eapply reaches_intro; [done..|vm_compute; discriminate| |by left].
    rewrite building_facts.building_subscription_holds, building_facts.building_audience_holds, Hrole.
    apply eq_true_iff_eq. autorewrite with bool_prop. naive_solver.
  - intros s r mine theirs audience clauses Hs Hr (i & _ & -> & Hm)%swarm_facts.swarm_environment_of_Ok
      (j & _ & -> & Ht)%swarm_facts.swarm_environment_of_Ok (-> & Ha)%swarm_facts.scout_audience_Ok
      (-> & Hc)%swarm_facts.coordinator_subscription_Ok Hrole; [|by apply Hs || by apply Hr..].
    eapply reaches_intro; [done..|vm_compute; discriminate| |by left].
    rewrite (bool_decide_eq_true_2 (robot_swarm.DRONE_TELEMETRY = _)) by done.
    rewrite !swarm_facts.boundary_holds, Hrole. unfold swarm_facts.same_mission.
    apply eq_true_iff_eq. autorewrite with bool_prop.
    destruct (swarm_agent.role r); cbn; naive_solver.
  - intros s r mine theirs recipient audience clauses Hs Hr (i & _ & -> & Hm)%swarm_facts.swarm_environment_of_Ok
      (j & Hj & -> & Ht)%swarm_facts.swarm_environment_of_Ok (-> & Ha)%swarm_facts.task_audience_Ok
      (-> & Hc)%swarm_facts.responder_subscription_Ok Hrole; [|by apply Hs || by apply Hr..].
    eapply reaches_intro; [done..|vm_compute; discriminate| |by right].
    rewrite swarm_facts.boundary_holds, swarm_facts.task_holds, Hrole, Hj. unfold swarm_facts.same_mission.
    apply eq_true_iff_eq. autorewrite with bool_prop.
    destruct (swarm_agent.role r); cbn; naive_solver.
  - intros p c mine theirs audience clauses Hp Hcw (-> & Hm)%tenant_facts.tenant_environment_of_Ok
      (-> & Ht)%tenant_facts.tenant_environment_of_Ok (-> & Ha)%tenant_facts.publisher_audience_Ok
      (-> & Hc)%tenant_facts.consumer_subscription_Ok Hrole; try done.
    eapply reaches_intro; [done..|vm_compute; discriminate| |by left].
    rewrite tenant_facts.tenant_subscription_holds, tenant_facts.tenant_audience_holds, Hrole.
    apply eq_true_iff_eq. autorewrite with bool_prop. naive_solver.
Qed.

(** A sensor of building "A", a panel of the same building and one of another. *)
Module AppsExample.
#[local] Existing Instance Toy.crypto.
Definition sensor := building_agent.mkConfig building_agent.RoleSensor [x41] (Some 2%Z) [x7a] true 2150.
Definition panel (building : Text) :=
  building_agent.mkConfig building_agent.RoleControlPanel building None [x7a] true 0.
Definition declared_by (config : building_agent.Config) : list AttributeRef :=
  default [] (result_ok (building_agent.environment_of config)).
Definition view (building : Text) : StoreView :=
  mkView ∅ {[CaExample.bob := Operation.wire (Operation.SetEnvironment (declared_by (panel building)))]}
    (fun _ => None) ∅.
Definition audience : list ClauseRef := default [] (result_ok (building_agent.sensor_audience sensor)).
Definition clauses (building : Text) : list ClauseRef :=
  default [] (result_ok (building_agent.panel_subscription (panel building))).
Definition offered (building : Text) : bool :=
  eligible CaExample.ca (view building) CaExample.alice (Operation.environment_view (declared_by sensor))
    smart_building.SENSOR_READING (Operation.predicate_view audience)
    (mkSubscription CaExample.bob smart_building.SENSOR_READING building_agent.HANDLER SubscriptionKind.Permanent
      (Operation.wire (Operation.SubscribePermanent smart_building.SENSOR_READING (clauses building)))).

Lemma sensor_wf : building_facts.config_wf sensor.
Proof. split; [vm_compute; split; discriminate|intros z [= <-]; vm_compute; split; discriminate]. Qed.
Lemma panel_wf building : building_facts.config_wf (panel building).
Proof. split; [vm_compute; split; discriminate|done]. Qed.
End AppsExample.

Lemma bundled_agents_reach_witness :
  AppsExample.offered [x41] = true /\ AppsExample.offered [x42] = false.
Proof.
  destruct (bundled_agents_reach (HC:=Toy.laws) CaExample.ca (AppsExample.view [x41]) CaExample.alice CaExample.bob)
    as [HA _].
  destruct (bundled_agents_reach (HC:=Toy.laws) CaExample.ca (AppsExample.view [x42]) CaExample.alice CaExample.bob)
    as [HB _].
  assert (forall building, is_ok (building_agent.environment_of (AppsExample.panel building)) = true ->
    building_agent.environment_of (AppsExample.panel building)
    = Ok (AppsExample.declared_by (AppsExample.panel building))) as Hpanel.
  { intros building. unfold AppsExample.declared_by. by destruct (building_agent.environment_of _). }
  assert (building_agent.environment_of AppsExample.sensor = Ok (AppsExample.declared_by AppsExample.sensor))
    as Hsensor by (vm_compute; reflexivity).
  assert (building_agent.sensor_audience AppsExample.sensor = Ok AppsExample.audience)
    as Haud by (vm_compute; reflexivity).
  specialize (HA _ _ _ _ _ (AppsExample.clauses [x41]) AppsExample.sensor_wf (AppsExample.panel_wf [x41]) Hsensor
    (Hpanel [x41] ltac:(vm_compute; reflexivity)) Haud ltac:(vm_compute; reflexivity) eq_refl (lookup_singleton_eq _ _)).
  specialize (HB _ _ _ _ _ (AppsExample.clauses [x42]) AppsExample.sensor_wf (AppsExample.panel_wf [x42]) Hsensor
    (Hpanel [x42] ltac:(vm_compute; reflexivity)) Haud ltac:(vm_compute; reflexivity) eq_refl (lookup_singleton_eq _ _)).
  split; [exact HA|exact HB].
Defined.

(** No role of the bundled swarm subscribes to [TARGET_DETECTED]: a scout's "target" lines
    are accepted and delivered to nobody. *)
Example target_type : (swarm_agent.scout_type (swarm_agent.target_prefix ++ [x78])).1 = robot_swarm.TARGET_DETECTED.
Proof. reflexivity. Qed.
