(* ===== verification/AgentRuns.v ===== *)
(** The main loops of the bundled Tokio agents: publishers that submit a line at a time,
    and subscribers that receive for ever, over connections that are made again. *)

From S2P Require Export AgentApps.

(** Why a loop stops: it waits for an attempt to connect that is not given, or it returns
    an error. *)
Module Stopped.
Inductive t := Waiting | Failed (e : AppError).
End Stopped.
Abbreviation Stopped := Stopped.t.

(** [unix_seconds] is a clock; the rest is the agent's randomness and its connections. *)
Record Platform `{Crypto} (St E C : Type) := mkPlatform {
  pf_rng : Rng;
  pf_dialer : Dialer St E;
  pf_clock : C;
}.
Arguments mkPlatform {_ St E C} _ _ _.
Arguments pf_rng {_ St E C} _.
Arguments pf_dialer {_ St E C} _.
Arguments pf_clock {_ St E C} _.

(** What a subscriber reports. *)
Inductive Output (E : Type) :=
| Received (frame : list byte) (now : N) (outcome : Res Delivery)
| BrokerDisconnected (e : TransportError E).
Arguments Received {E} _ _ _.
Arguments BrokerDisconnected {E} _.

Section runs.
Context `{Crypto, Hex} {St E C : Type} `{TokioFramed St E, Clock C}.
Context (common : AgentConfig) (agent : Agent).

Abbreviation Run := (M (Platform St E C) Stopped).

Definition drawing {A} (m : M Rng AppError A) : Run A := fun p =>
  let '(r, g) := m (pf_rng p) in (map_err Stopped.Failed r, mkPlatform g (pf_dialer p) (pf_clock p)).
Definition connected (f : Dialer St E -> option (FramedTransport St) * Dialer St E) : Run (FramedTransport St) := fun p =>
  let '(r, d) := f (pf_dialer p) in
  (match r with Some t => Ok t | None => Err Stopped.Waiting end, mkPlatform (pf_rng p) d (pf_clock p)).

(** *** Publishers: [run_sensor], [scout], [publish] *)

Definition submit (frames : list (list byte)) : Run unit := fun p =>
  let '(finished, d) := send_on_demand_frames common (agent_id agent) frames (pf_dialer p) in
  (if finished then Ok tt else Err Stopped.Waiting, mkPlatform (pf_rng p) d (pf_clock p)).

(** The loop over the lines of the standard input. *)
Fixpoint publish_lines (line_frames : Text -> M Rng AppError (list (list byte))) (lines : list Text) : Run unit :=
  match lines with
  | [] => mret tt
  | line :: lines' =>
      frames ← drawing (line_frames line);
      submit frames;;
      publish_lines line_frames lines'
  end.

(** *** Subscribers: [run_panel], [run_maintenance], [coordinator], [consume] *)

(** Connect, declare the environment, subscribe. *)
Definition subscriber_start (environment : list AttributeRef) (request : M Rng AppError (list byte)) :
    Run (FramedTransport St) :=
  t ← connected (connect_agent common (agent_id agent));
  frame ← drawing (map_errM AppError.Protocol (Agent.set_environment agent environment));
  t ← connected (send_agent_frame common (agent_id agent) frame t);
  frame ← drawing request;
  connected (send_agent_frame common (agent_id agent) frame t).

(** [FixedReplayCache::<256>::new(600)] *)
Definition subscriber_cache : FixedReplayCache := FixedReplayCache_new 256 600.

(** One round: receive a frame and open it, or connect again. *)
Definition consume_step (handler : HandlerId) (t : FramedTransport St) (replay : FixedReplayCache) :
    Run (Output E * (FramedTransport St * FixedReplayCache)) := fun p =>
  match tokio_receive t with
  | (Ok frame, t') =>
      let '(now, clock) := now_seconds (pf_clock p) in
      let '(r, (_, replay')) := receive agent handler now (frame, replay) in
      (Ok (Received frame now r, (t', replay')), mkPlatform (pf_rng p) (pf_dialer p) clock)
  | (Err e, t') =>
      match connect_agent common (agent_id agent) (pf_dialer p) with
      | (Some t2, d) =>
          (Ok (BrokerDisconnected e, (t2, replay)), mkPlatform (pf_rng p) (dropping t' d) (pf_clock p))
      | (None, d) => (Err Stopped.Waiting, mkPlatform (pf_rng p) d (pf_clock p))
      end
  | (Panic, _) => (Panic, p)
  end.

(** The loop, for at most [fuel] rounds, with what it reports. *)
Fixpoint consume_loop (fuel : nat) (handler : HandlerId) (t : FramedTransport St) (replay : FixedReplayCache)
    (p : Platform St E C) : list (Output E) :=
  match fuel with
  | 0 => []
  | S fuel' =>
      match consume_step handler t replay p with
      | (Ok (output, (t', replay')), p') => output :: consume_loop fuel' handler t' replay' p'
      | _ => []
      end
  end.

(** A subscriber from its start. *)
Definition run_subscriber (fuel : nat) (handler : HandlerId) (environment : list AttributeRef)
    (request : M Rng AppError (list byte)) (p : Platform St E C) : list (Output E) :=
  match subscriber_start environment request p with
  | (Ok t, p') => consume_loop fuel handler t subscriber_cache p'
  | _ => []
  end.

(** *** [responder]: a new one-shot subscription after every delivery *)

(** Rounds until a delivery is accepted; whether one was. *)
Fixpoint await_delivery (fuel : nat) (handler : HandlerId) (t : FramedTransport St) (replay : FixedReplayCache)
    (p : Platform St E C) : list (Output E) * option (FramedTransport St * FixedReplayCache * Platform St E C) :=
  match fuel with
  | 0 => ([], None)
  | S fuel' =>
      match consume_step handler t replay p with
      | (Ok (Received frame now (Ok d), (t', replay')), p') =>
          ([Received frame now (Ok d)], Some (t', replay', p'))
      | (Ok (output, (t', replay')), p') =>
          let '(outputs, r) := await_delivery fuel' handler t' replay' p' in (output :: outputs, r)
      | _ => ([], None)
      end
  end.

Fixpoint respond_loop (rounds fuel : nat) (handler : HandlerId) (request : M Rng AppError (list byte))
    (t : FramedTransport St) (replay : FixedReplayCache) (p : Platform St E C) : list (Output E) :=
  match rounds with
  | 0 => []
  | S rounds' =>
      match (frame ← drawing request; connected (send_agent_frame common (agent_id agent) frame t)) p with
      | (Ok t', p') =>
          match await_delivery fuel handler t' replay p' with
          | (outputs, Some (t'', replay', p'')) =>
              outputs ++ respond_loop rounds' fuel handler request t'' replay' p''
          | (outputs, None) => outputs
          end
      | _ => []
      end
  end.

(** Connect and declare the environment: the start of [coordinator] and [responder] in
    [main]. *)
Definition declare_environment (environment : list AttributeRef) : Run (FramedTransport St) :=
  t ← connected (connect_agent common (agent_id agent));
  frame ← drawing (map_errM AppError.Protocol (Agent.set_environment agent environment));
  connected (send_agent_frame common (agent_id agent) frame t).

(** *** [coordinator]: receptions and lines as they come *)

(** The branch of the [select!] that completes: a frame, an error or the end of the
    stream from the transport; a line of the standard input, or its end. *)
Inductive Branch := TransportReady | LineReady (line : option Text).

Record SelectState := mkSelect {
  se_transport : FramedTransport St;
  se_replay : FixedReplayCache;
  se_stdin_open : bool;
}.

Inductive SelectOutput :=
| Reported (o : Output E)
| TaskPublished (frame : list byte)
| InputClosed.

(** One round; the branch of the lines is disabled once the input has ended. *)
Definition select_step (handler : HandlerId) (line_frame : Text -> M Rng AppError (list byte))
    (branch : Branch) (s : SelectState) : Run (list SelectOutput * SelectState) :=
  match branch with
  | TransportReady =>
      r ← consume_step handler (se_transport s) (se_replay s);
      let '(o, (t, replay)) := r : Output E * (FramedTransport St * FixedReplayCache) in
      mret ([Reported o], mkSelect t replay (se_stdin_open s))
  | LineReady line =>
      if se_stdin_open s then
        match line with
        | None => mret ([InputClosed], mkSelect (se_transport s) (se_replay s) false)
        | Some line =>
            frame ← drawing (line_frame line);
            t ← connected (send_agent_frame common (agent_id agent) frame (se_transport s));
            mret ([TaskPublished frame], mkSelect t (se_replay s) (se_stdin_open s))
        end
      else mret ([], s)
  end.

(** The loop over the rounds of a schedule: what it reports, and its state or why it
    stopped. *)
Fixpoint select_loop (handler : HandlerId) (line_frame : Text -> M Rng AppError (list byte))
    (branches : list Branch) (s : SelectState) (p : Platform St E C) :
    list SelectOutput * result Stopped SelectState * Platform St E C :=
  match branches with
  | [] => ([], Ok s, p)
  | branch :: branches' =>
      match select_step handler line_frame branch s p with
      | (Ok (outputs, s'), p') =>
          let '(outputs', r, p'') := select_loop handler line_frame branches' s' p' in
          (outputs ++ outputs', r, p'')
      | (Err e, p') => ([], Err e, p')
      | (Panic, p') => ([], Panic, p')
      end
  end.

(** From the start: connect, declare the environment, subscribe, select. *)
Definition run_select (handler : HandlerId) (environment : list AttributeRef)
    (request : M Rng AppError (list byte)) (line_frame : Text -> M Rng AppError (list byte))
    (branches : list Branch) (p : Platform St E C) :
    list SelectOutput * result Stopped SelectState * Platform St E C :=
  match (t ← declare_environment environment;
         frame ← drawing request;
         connected (send_agent_frame common (agent_id agent) frame t)) p with
  | (Ok t, p') => select_loop handler line_frame branches (mkSelect t subscriber_cache true) p'
  | (Err e, p') => ([], Err e, p')
  | (Panic, p') => ([], Panic, p')
  end.

(** [responder] from the start. *)
Definition run_responder (rounds fuel : nat) (handler : HandlerId) (environment : list AttributeRef)
    (request : M Rng AppError (list byte)) (p : Platform St E C) : list (Output E) :=
  match declare_environment environment p with
  | (Ok t, p') => respond_loop rounds fuel handler request t subscriber_cache p'
  | _ => []
  end.
End runs.
Arguments SelectOutput : clear implicits.
Arguments SelectState : clear implicits.

(** What a schedule reports of the transport, and what it publishes. *)
Definition reports {E} (outputs : list (SelectOutput E)) : list (Output E) :=
  omap (fun o => match o with Reported o => Some o | _ => None end) outputs.
Definition tasks {E} (outputs : list (SelectOutput E)) : list (list byte) :=
  omap (fun o => match o with TaskPublished f => Some f | _ => None end) outputs.

(** ** The agents *)

Section agents.
Context `{Crypto, Hex} {St E C : Type} `{TokioFramed St E, Clock C}.
Context (common : AgentConfig) (agent : Agent).

Definition run_sensor (config : building_agent.Config) (environment : list AttributeRef) (lines : list Text) :
    M (Platform St E C) Stopped unit :=
  publish_lines common agent (building_agent.sensor_line config agent environment) lines.
Definition run_panel (config : building_agent.Config) (environment : list AttributeRef) (fuel : nat)
    (p : Platform St E C) : list (Output E) :=
  run_subscriber common agent fuel building_agent.HANDLER environment (building_agent.panel_request config agent) p.
Definition run_maintenance (config : building_agent.Config) (environment : list AttributeRef) (fuel : nat)
    (p : Platform St E C) : list (Output E) :=
  run_subscriber common agent fuel building_agent.HANDLER environment
    (building_agent.maintenance_request config agent) p.

Definition scout (config : swarm_agent.Config) (environment : list AttributeRef) (lines : list Text) :
    M (Platform St E C) Stopped unit :=
  publish_lines common agent (swarm_agent.scout_line config agent environment) lines.
Definition coordinator (config : swarm_agent.Config) (environment : list AttributeRef) (branches : list Branch)
    (p : Platform St E C) : list (SelectOutput E) * result Stopped (SelectState St) * Platform St E C :=
  run_select common agent swarm_agent.HANDLER environment (swarm_agent.coordinator_request config agent)
    (swarm_agent.coordinator_line config agent) branches p.
Definition responder (config : swarm_agent.Config) (environment : list AttributeRef) (rounds fuel : nat)
    (p : Platform St E C) : list (Output E) :=
  run_responder common agent rounds fuel swarm_agent.HANDLER environment
    (swarm_agent.responder_request config agent) p.

Definition tenant_publish (config : tenant_agent.Config) (environment : list AttributeRef) (lines : list Text) :
    M (Platform St E C) Stopped unit :=
  publish_lines common agent (tenant_agent.publisher_line config agent environment) lines.
Definition tenant_consume (config : tenant_agent.Config) (environment : list AttributeRef) (fuel : nat)
    (p : Platform St E C) : list (Output E) :=
  run_subscriber common agent fuel tenant_agent.HANDLER environment (tenant_agent.consumer_request config agent) p.
End agents.

(** What the programs that receive report of their connections: [run_panel],
    [run_maintenance] and [consume] are of the first kind, [responder] of the second,
    [coordinator] of the third. *)
Inductive program_outputs `{Crypto, Hex} {St E C} `{TokioFramed St E, Clock C} (common : AgentConfig) (agent : Agent)
    (handler : HandlerId) (p : Platform St E C) : list (Output E) -> Prop :=
| subscriber_outputs fuel environment request :
    program_outputs common agent handler p (run_subscriber common agent fuel handler environment request p)
| responder_outputs rounds fuel environment request :
    program_outputs common agent handler p (run_responder common agent rounds fuel handler environment request p)
| select_outputs environment request line_frame branches :
    program_outputs common agent handler p
      (reports (run_select common agent handler environment request line_frame branches p).1.1).

(** ** Subscribers accept authentic deliveries, and none twice *)

Section accepts.
Context `{HC : CryptoLaws, Hex} {St E C : Type} `{TokioFramed St E, Clock C}.
Context (common : AgentConfig) (agent : Agent) (handler : HandlerId).

(** The report of a round, for the cache before and after. *)
Definition reported (o : Output E) (rp rp' : FixedReplayCache) : Prop :=
  match o with
  | Received frame now r => exists frame', receive agent handler now (frame, rp) = (r, (frame', rp'))
  | BrokerDisconnected _ => rp' = rp
  end.

(** A history of reports from the cache [rp] to [rp']. *)
Inductive history : FixedReplayCache -> list (Output E) -> FixedReplayCache -> Prop :=
| history_nil rp : history rp [] rp
| history_cons rp o rp1 os rp2 : reported o rp rp1 -> history rp1 os rp2 -> history rp (o :: os) rp2.

Lemma history_app rp os1 rp1 os2 rp2 : history rp os1 rp1 -> history rp1 os2 rp2 -> history rp (os1 ++ os2) rp2.
Proof. induction 1; [done|]. intros Hos. econstructor; eauto. Qed.

Lemma consume_step_reported t rp (p : Platform St E C) o t' rp' p' :
  consume_step common agent handler t rp p = (Ok (o, (t', rp')), p') -> reported o rp rp'.
Proof.
  unfold consume_step. destruct (tokio_receive t) as [[frame|e|] t1]; [| |done].
  - destruct (now_seconds _) as [now clock]. destruct (receive agent handler now (frame, rp)) as [r [f' rp1]] eqn:Hr.
    intros [= <- _ <- _]. by exists f'.
  - destruct (connect_agent _ _ _) as [[t2|] d]; [|done]. by intros [= <- _ <- _].
Qed.

Lemma consume_loop_history fuel : forall t rp (p : Platform St E C),
  exists rp', history rp (consume_loop common agent fuel handler t rp p) rp'.
Proof.
  induction fuel as [|fuel IH]; intros t rp p; cbn [consume_loop]; [eexists; constructor|].
  destruct (consume_step _ _ _ _ _ _) as [[[o [t' rp']]|e|] p'] eqn:Hstep; [|eexists; constructor..].
  apply consume_step_reported in Hstep. destruct (IH t' rp' p') as [rp2 Hos].
  exists rp2. by econstructor.
Qed.

Lemma await_delivery_history fuel : forall t rp (p : Platform St E C) os r,
  await_delivery common agent fuel handler t rp p = (os, r) ->
  exists rp', history rp os rp' /\ forall t' rp2 p', r = Some (t', rp2, p') -> rp2 = rp'.
Proof.
  induction fuel as [|fuel IH]; intros t rp p os r; cbn [await_delivery].
  { intros [= <- <-]. eexists. split; [constructor|done]. }
  destruct (consume_step _ _ _ _ _ _) as [[[o [t' rp1]]|e|] p1] eqn:Hstep;
    [|by intros [= <- <-]; eexists; split; [constructor|]..].
  apply consume_step_reported in Hstep.
  assert (forall os', let '(outputs, r0) := await_delivery common agent fuel handler t' rp1 p1 in
    (o :: outputs, r0) = (os', r) ->
    exists rp', history rp os' rp' /\ forall t' rp2 p', r = Some (t', rp2, p') -> rp2 = rp') as Hnext.
  { intros os'. destruct (await_delivery _ _ _ _ _ _ _) as [outputs r0] eqn:Hrun. intros [= <- <-].
    apply IH in Hrun as (rp' & Hos & Hr). exists rp'. split; [by econstructor|done]. }
  specialize (Hnext os). destruct (await_delivery _ _ _ _ _ _ _) as [outputs r0].
  destruct o as [frame now [d|e|]|e]; try exact Hnext.
  intros [= <- <-]. exists rp1. split; [econstructor; [done|constructor]|]. by intros t2 rp2 p2 [= _ <- _].
Qed.

Lemma respond_loop_history rounds fuel request : forall t rp (p : Platform St E C),
  exists rp', history rp (respond_loop common agent rounds fuel handler request t rp p) rp'.
Proof.
  induction rounds as [|rounds IH]; intros t rp p; cbn [respond_loop]; [eexists; constructor|].
  match goal with |- context [(?m ≫= ?f) p] => destruct ((m ≫= f) p) as [[t'|e|] p'] end;
    [|eexists; constructor..].
  destruct (await_delivery _ _ _ _ _ _ _) as [os r] eqn:Hrun.
  apply await_delivery_history in Hrun as (rp' & Hos & Hr).
  destruct r as [[[t2 rp2] p2]|]; [|by exists rp'].
  rewrite (Hr _ _ _ eq_refl). destruct (IH t2 rp' p2) as [rp3 Hrest]. exists rp3. by eapply history_app.
Qed.

Lemma select_loop_history line_frame branches : forall s (p : Platform St E C) outputs r p',
  select_loop common agent handler line_frame branches s p = (outputs, r, p') ->
  exists rp', history (se_replay s) (reports outputs) rp'.
Proof.
  induction branches as [|branch branches IH]; intros s p outputs r p'; cbn [select_loop].
  { intros [= <- _ _]. eexists. constructor. }
  destruct (select_step _ _ _ _ _ _ _) as [[[os s1]|e|] p1] eqn:Hstep;
    [|by intros [= <- _ _]; eexists; constructor..].
  destruct (select_loop _ _ _ _ _ _ _) as [[os' r'] p2] eqn:Hrun. intros [= <- _ _].
  apply IH in Hrun as [rp' Hos]. exists rp'. unfold reports. rewrite omap_app. fold (reports os) (reports os').
  eapply history_app; [|exact Hos].
  assert (history (se_replay s) (reports os) (se_replay s1)); [|done]. clear Hos.
  destruct branch as [|[line|]]; cbn [select_step] in Hstep.
  - rewrite M_bind_run in Hstep. destruct (consume_step _ _ _ _ _ _) as [[[o [t rp]]|e|] p3] eqn:Hc; [|done..].
    injection Hstep as <- <- _. econstructor; [by eapply consume_step_reported|constructor].
  - destruct (se_stdin_open s); [|injection Hstep as <- <- _; constructor].
    rewrite M_bind_run in Hstep. destruct (drawing _ _) as [[frame|e|] p3]; [|done..].
    rewrite M_bind_run in Hstep. destruct (connected _ _) as [[t|e|] p4]; [|done..].
    injection Hstep as <- <- _. constructor.
  - destruct (se_stdin_open s); injection Hstep as <- <- _; constructor.
Qed.

(** The test of the cache a report made. *)
Definition report_calls (o : Output E) : list replay_call :=
  match o with
  | Received frame now _ =>
      match receive_checks agent handler frame with
      | Ok e => [((env_sender e, env_session_id e), now)]
      | _ => []
      end
  | BrokerDisconnected _ => []
  end.

Lemma reported_calls o rp rp' : reported o rp rp' -> rp' = (run_checks (report_calls o) rp).2.
Proof.
  destruct o as [frame now r|e]; cbn [reported report_calls]; [|by intros ->].
  intros [frame' Hrun]. pose proof (receive_run agent handler now frame rp) as Hr.
  destruct (receive_checks agent handler frame) as [e|x|]; [|rewrite Hrun in Hr; by injection Hr as _ _ ->..].
  cbn [run_checks fst snd]. destruct (check_and_mark _ _ now rp) as [[[]|x|] rp1]; cbn [snd].
  - destruct Hr as [f2 Hr]. rewrite Hrun in Hr. by injection Hr as _ _ ->.
  - rewrite Hrun in Hr. by injection Hr as _ _ ->.
  - rewrite Hrun in Hr. by injection Hr as _ _ ->.
Qed.

(** An accepted report: what it checked and marked. *)
Lemma reported_accepted frame now d rp rp' : reported (Received frame now (Ok d)) rp rp' ->
  exists e, receive_checks agent handler frame = Ok e /\
    check_and_mark (env_sender e) (env_session_id e) now rp = (Ok tt, rp').
Proof.
  intros [frame' Hrun]. pose proof (receive_run agent handler now frame rp) as Hr.
  destruct (receive_checks agent handler frame) as [e|x|]; [|by rewrite Hrun in Hr..].
  exists e. split; [done|]. destruct (check_and_mark _ _ now rp) as [[[]|x|] rp1]; [|by rewrite Hrun in Hr..].
  destruct Hr as [f2 Hr]. rewrite Hrun in Hr. by injection Hr as _ _ ->.
Qed.

Lemma history_calls rp os rp' : history rp os rp' ->
  rp' = (run_checks (concat (report_calls <$> os)) rp).2.
Proof.
  induction 1 as [|rp o rp1 os rp2 Ho Hos IH]; [done|]. cbn [fmap list_fmap concat].
  rewrite IH, (reported_calls _ _ _ Ho). generalize (concat (report_calls <$> os)). clear.
  intros cs. induction (report_calls o) as [|[k now] ks IH] in rp |- *; [done|].
  cbn [run_checks app]. destruct (check_and_mark _ _ now rp) as [r rp1].
  specialize (IH rp1). destruct (run_checks ks rp1), (run_checks (ks ++ cs) rp1). cbn [snd] in *.
  by rewrite IH.
Qed.

Lemma history_split rp os1 os2 rp' : history rp (os1 ++ os2) rp' ->
  exists rp1, history rp os1 rp1 /\ history rp1 os2 rp'.
Proof.
  induction os1 as [|o os1 IH] in rp |- *; cbn [app]; [intros ?; exists rp; split; [constructor|done]|].
  inversion 1 as [|? ? rp1 ? ? Ho Hos]; subst. apply IH in Hos as (rp2 & ? & ?). exists rp2.
  split; [by econstructor|done].
Qed.

Lemma cache_after calls : replay_inv (run_checks calls subscriber_cache).2 /\
  replay_ttl (run_checks calls subscriber_cache).2 = 600%N.
Proof.
  assert (replay_inv subscriber_cache) as Hinv by (vm_compute; constructor).
  destruct (run_checks calls subscriber_cache) as [rs rp] eqn:Hrun.
  apply run_checks_refines in Hrun as (Hinv' & _ & Httl & _); [|done]. split; [exact Hinv'|exact Httl].
Qed.

(** Accepted at [frame], then at [frame'], after [mid]. *)
Lemma history_distinct pre frame t d mid frame' t' d' post rp' :
  history subscriber_cache (pre ++ Received frame t (Ok d) :: mid ++ Received frame' t' (Ok d') :: post) rp' ->
  Forall (fun o => match o with Received _ now _ => (now < saturating_add t 600)%N | _ => True end) mid ->
  (t' < saturating_add t 600)%N ->
  exists e e', receive_checks agent handler frame = Ok e /\ receive_checks agent handler frame' = Ok e' /\
    (env_sender e, env_session_id e) <> (env_sender e', env_session_id e').
Proof.
  intros (rp1 & Hpre & Hrest)%history_split Hmid Ht.
  inversion Hrest as [|? ? rp2 ? ? Ho Hos]; subst. apply history_split in Hos as (rp3 & Hm & Hrest2).
  inversion Hrest2 as [|? ? rp4 ? ? Ho' _]; subst.
  apply reported_accepted in Ho as (e & He & Hmark). apply reported_accepted in Ho' as (e' & He' & Hmark').
  exists e, e'. do 2 (split; [done|]). intros [= Hs Hi].
  apply history_calls in Hpre as ->. apply history_calls in Hm as ->.
  destruct (cache_after (concat (report_calls <$> pre))) as [Hinv Httl].
  pose proof (accepted_then_replayed _ _ _ _ _ (concat (report_calls <$> mid)) t' Hinv Hmark) as Hrep.
  rewrite Httl in Hrep. rewrite <-Hs, <-Hi in Hmark'.
  assert (Ok tt = Err Error.Replay :> Res unit) as Habs; [|done].
  refine (eq_trans (eq_sym (f_equal fst Hmark')) (Hrep _ Ht)).
  clear -Hmid. induction Hmid as [|o mid Ho Hmid IH]; [by constructor|]. cbn [fmap list_fmap concat].
  apply Forall_app. split; [|done]. destruct o as [f now r|e]; cbn [report_calls]; [|constructor].
  destruct (receive_checks agent handler f); repeat constructor. exact Ho.
Qed.

Lemma program_history (p : Platform St E C) outputs : program_outputs common agent handler p outputs ->
  exists rp', history subscriber_cache outputs rp'.
Proof.
  intros [fuel environment request|rounds fuel environment request|environment request line_frame branches].
  - unfold run_subscriber. destruct (subscriber_start _ _ _ _ _) as [[t|e|] p'];
      [apply consume_loop_history|eexists; constructor..].
  - unfold run_responder. destruct (declare_environment _ _ _ _) as [[t|e|] p'];
      [apply respond_loop_history|eexists; constructor..].
  - unfold run_select. match goal with |- context [(?m ≫= ?f) p] => destruct ((m ≫= f) p) as [[t|e|] p'] end;
      [|eexists; constructor..].
    destruct (select_loop _ _ _ _ _ _ _) as [[os r] p1] eqn:Hrun. by eapply select_loop_history in Hrun.
Qed.

Lemma history_received rp os rp' frame now r : history rp os rp' -> Received frame now r ∈ os ->
  exists rp1 frame' rp2, receive agent handler now (frame, rp1) = (r, (frame', rp2)).
Proof.
  induction 1 as [|rp o rp1 os rp2 Ho Hos IH]; intros Hin; [by apply not_elem_of_nil in Hin|].
  apply elem_of_cons in Hin as [<-|Hin]; [|auto]. destruct Ho as [frame' Hrun]. by exists rp, frame', rp1.
Qed.

Lemma history_authentic rp os rp' frame now d : history rp os rp' -> Received frame now (Ok d) ∈ os ->
  authentic agent handler d /\ delivery_handler d = handler.
Proof. intros Hh Hin. destruct (history_received _ _ _ _ _ _ Hh Hin) as (? & ? & ? & Hrun). by eapply receive_authentic. Qed.
End accepts.

(** ** The properties *)

(** C22: The bundled subscribers accept authentic deliveries, and no session twice. Over any
    number of reconnections and rounds, what a subscriber (a panel, a maintenance
    terminal, a tenant's consumer), a responder, which subscribes again after every
    delivery, or a coordinator, which publishes lines in between, reports as accepted was signed by the CA for this agent and its handler;
    and two accepted deliveries are of different sessions, unless the clock had moved
    on by the ten minutes of the cache when the second, or a frame between them, came. *)
Theorem subscribers_accept_once `{HC : CryptoLaws, Hex} {St E C} `{TokioFramed St E, Clock C}
    common agent handler (p : Platform St E C) outputs :
  program_outputs common agent handler p outputs ->
  (forall frame now d, Received frame now (Ok d) ∈ outputs ->
     authentic agent handler d /\ delivery_handler d = handler) /\
  (forall pre frame t d mid frame' t' d' post,
     outputs = pre ++ Received frame t (Ok d) :: mid ++ Received frame' t' (Ok d') :: post ->
     Forall (fun o => match o with Received _ now _ => (now < saturating_add t 600)%N | _ => True end) mid ->
     (t' < saturating_add t 600)%N ->
     exists e e', receive_checks agent handler frame = Ok e /\ receive_checks agent handler frame' = Ok e' /\
       (env_sender e, env_session_id e) <> (env_sender e', env_session_id e')).
Proof.
  intros [rp' Hh]%program_history. split.
  - intros frame now d. by eapply history_authentic.
  - intros pre frame u d mid frame' u' d' post ->. by eapply history_distinct.
Qed.

(** A subscriber that is sent the same delivery twice. *)
Module RunsExample.
#[local] Existing Instance Toy.crypto.
#[global] Instance clock : Clock N := { now_seconds c := (c, N.succ c) }.
Definition common : AgentConfig := mkAgentConfig [] 0 3 1 [] [] [] [].
Definition stream : list byte * list byte := (frame_wire toy_delivery ++ frame_wire toy_delivery, []).
Definition platform : Platform (list byte * list byte) Empty_set N :=
  mkPlatform 3%N (mkDialer [mkAttempt (Some (inl stream)) None] [] []) 5%N.
Definition request : M Rng AppError (list byte) := mret [x2a].
Definition outputs : list (Output Empty_set) := run_subscriber common toy_agent 2 toy_handler [] request platform.
End RunsExample.

Lemma subscribers_accept_once_witness :
  exists frame now d rest, RunsExample.outputs = Received frame now (Ok d) :: rest /\ length rest = 1 /\
    authentic (H:=Toy.crypto) toy_agent toy_handler d.
Proof.
  assert ((match RunsExample.outputs with
           | Received _ _ r :: rest => is_ok r && (length rest =? 1) | _ => false end) = true) as Hrun
    by (vm_compute; reflexivity).
  destruct (subscribers_accept_once (HC:=Toy.laws) RunsExample.common toy_agent toy_handler RunsExample.platform
    RunsExample.outputs) as [Hauth _].
  { apply subscriber_outputs. }
  destruct RunsExample.outputs as [|[frame now [d|e|]|e] rest]; try discriminate Hrun.
  exists frame, now, d, rest. split; [reflexivity|]. apply andb_true_iff in Hrun as [_ Hl].
  split; [by apply Nat.eqb_eq|]. apply (Hauth frame now d). left.
Defined.
