(* ===== verification/AgentStreams.v ===== *)
(** What the loops of the bundled agents put on their connections: the frames of the
    lines, in order, whatever is received in between and however often they connect
    again. *)

From S2P Require Export AgentRuns.

(** ** Reference: the frames of the lines *)

Section draws.
Context `{Crypto} {A : Type} (line_frames : Text -> M Rng AppError A).

(** The lines one after the other: what they make, up to the line that fails. *)
Fixpoint draws (lines : list Text) (g : Rng) : list A * result AppError unit * Rng :=
  match lines with
  | [] => ([], Ok tt, g)
  | line :: lines' =>
      match line_frames line g with
      | (Ok a, g') => let '(made, r, g'') := draws lines' g' in (a :: made, r, g'')
      | (Err e, g') => ([], Err e, g')
      | (Panic, g') => ([], Panic, g')
      end
  end.
End draws.

(** The lines a schedule reads, up to the end of the input. *)
Fixpoint lines_read (branches : list Branch) : list Text :=
  match branches with
  | [] => []
  | LineReady None :: _ => []
  | LineReady (Some line) :: branches' => line :: lines_read branches'
  | TransportReady :: branches' => lines_read branches'
  end.

(** ** What is on the connections *)

Section streams.
Context `{Crypto} {St E C : Type} `{HL : TokioFramedLaws St E, Clock C}.
Context (common : AgentConfig) (agent : Agent).
Implicit Types p : Platform St E C.
Implicit Types d : Dialer St E.

Abbreviation fresh_dialer d := (Forall Reconnect.fresh (dl_attempts d)).
Abbreviation advances := (advances (agent_id agent)).

(** Since [d0], the frames are on the connections dropped and then on [t], each whole and
    in this order, after the hello of each connection. *)
Definition sent_on d0 (frames : list (list byte)) (t : FramedTransport St) d : Prop :=
  fresh_dialer d /\ exists groups group, advances d0 d groups /\ opened (agent_id agent) group t /\
    concat groups ++ group = frames.

Lemma connect_sent d t d' : fresh_dialer d ->
  connect_agent common (agent_id agent) d = (Some t, d') -> sent_on d [] t d'.
Proof.
  intros Hf Hrun. destruct (connect_agent_spec common _ _ _ _ Hf Hrun) as ([Ht _] & groups & Hadv & Hnil).
  split; [by eapply advances_fresh|]. exists groups, []. by rewrite Hnil.
Qed.

Lemma send_sent d0 frames frame t d t' d' : sent_on d0 frames t d ->
  send_agent_frame common (agent_id agent) frame t d = (Some t', d') -> sent_on d0 (frames ++ [frame]) t' d'.
Proof.
  intros (Hf & groups & group & Hadv & Ht & <-) Hrun. unfold send_agent_frame in Hrun.
  apply (send_loop_spec _ _ _ _ _ _ group) in Hrun as (groups' & Hadv' & group' & Ht' & Heq); [|done..].
  split; [by eapply advances_fresh|]. exists (groups ++ groups'), group'.
  split; [by eapply advances_trans|]. split; [done|]. by rewrite concat_app, <-app_assoc, Heq, app_assoc.
Qed.

(** Reading writes nothing. *)
Lemma receive_sent d0 frames t d r t' : sent_on d0 frames t d -> tokio_receive t = (r, t') ->
  sent_on d0 frames t' d.
Proof.
  intros (Hf & groups & group & Hadv & [Hi Ho] & Heq) Hrun. unfold tokio_receive in Hrun.
  destruct (framed_next _ _) as [r0 s] eqn:Hnext. apply framed_next_output in Hnext as [Hi' Ho']; [|done].
  injection Hrun as _ <-. split; [done|]. exists groups, group. split; [done|]. split; [|done].
  split; [done|]. cbn [ft_framed]. by rewrite Ho'.
Qed.

Lemma reconnect_sent d0 frames t d t' d' : sent_on d0 frames t d ->
  connect_agent common (agent_id agent) d = (Some t', d') -> sent_on d0 frames t' (dropping t d').
Proof.
  intros (Hf & groups & group & Hadv & Ht & Heq) Hrun.
  destruct (connect_agent_spec common _ _ _ _ Hf Hrun) as ([Ht' _] & groups' & Hadv' & Hnil).
  split; [exact (advances_fresh _ _ _ _ Hadv' Hf)|]. exists (groups ++ groups' ++ [group]), [].
  pose proof (advances_trans _ _ _ _ _ _ Hadv Hadv') as Hadv2.
  pose proof (dropping_advances _ t d' group (opened_carries _ _ _ Ht)) as Hdrop.
  split; [rewrite app_assoc; by eapply advances_trans|]. split; [done|].
  rewrite !concat_app, Hnil. cbn [concat app]. by rewrite !app_nil_r.
Qed.

Lemma consume_step_sent d0 frames handler t rp p o t' rp' p' : sent_on d0 frames t (pf_dialer p) ->
  consume_step common agent handler t rp p = (Ok (o, (t', rp')), p') ->
  sent_on d0 frames t' (pf_dialer p') /\ pf_rng p' = pf_rng p.
Proof.
  intros Hs. unfold consume_step. destruct (tokio_receive t) as [[frame|e|] t1] eqn:Hrun; [| |done].
  - eapply receive_sent in Hrun; [|exact Hs].
    destruct (now_seconds _) as [now clock], (receive agent handler now (frame, rp)) as [r [f' rp1]].
    intros [= _ <- _ <-]. split; [exact Hrun|done].
  - eapply receive_sent in Hrun; [|exact Hs].
    destruct (connect_agent _ _ _) as [[t2|] d] eqn:Hconn; [|done]. intros [= _ <- _ <-].
    split; [|done]. by eapply reconnect_sent.
Qed.

(** ** Publishers *)

Lemma publish_lines_sent line_frames lines : forall p r p', fresh_dialer (pf_dialer p) ->
  publish_lines common agent line_frames lines p = (r, p') ->
  exists groups, advances (pf_dialer p) (pf_dialer p') groups /\
    let '(made, stop, g) := draws line_frames lines (pf_rng p) in
    match r with
    | Err Stopped.Waiting => dl_attempts (pf_dialer p') = [] /\ concat groups `prefix_of` concat made
    | _ => concat groups = concat made /\ r = map_err Stopped.Failed stop /\ pf_rng p' = g
    end.
Proof.
  induction lines as [|line lines IH]; intros p r p' Hf; cbn [publish_lines draws].
  { intros [= <- <-]. exists []. split; [apply advances_refl|done]. }
  rewrite M_bind_run. unfold drawing. destruct (line_frames line (pf_rng p)) as [[frames|e|] g];
    cbn [map_err]; [|by intros [= <- <-]; exists []; split; [apply advances_refl|]..].
  rewrite M_bind_run. unfold submit. cbn [pf_dialer pf_rng pf_clock].
  destruct (send_on_demand_frames _ _ _ _) as [finished d1] eqn:Hsend.
  apply on_demand_spec in Hsend as (groups & Hadv & Hg); [|done]. destruct finished.
  - intros Hrun. apply IH in Hrun as (groups' & Hadv' & Hr); [|by eapply advances_fresh].
    cbn [pf_dialer pf_rng] in *. exists (groups ++ groups'). split; [by eapply advances_trans|].
    destruct (draws line_frames lines g) as [[made stop] g']. rewrite concat_app, Hg. cbn [concat].
    destruct r as [[]|[|x]|]; [| | |]; destruct Hr as [Hc Hr].
    + by rewrite Hc.
    + split; [done|]. by apply prefix_app.
    + by rewrite Hc.
    + by rewrite Hc.
  - intros [= <- <-]. exists groups. split; [done|]. destruct Hg as [Hnone Hp].
    destruct (draws line_frames lines g) as [[made stop] g']. split; [done|]. cbn [concat].
    by apply prefix_app_r.
Qed.

(** ** The coordinator *)

Lemma drawing_run {A} (m : M Rng AppError A) p a p' : drawing m p = (Ok a, p') ->
  m (pf_rng p) = (Ok a, pf_rng p') /\ pf_dialer p' = pf_dialer p.
Proof.
  unfold drawing. destruct (m (pf_rng p)) as [[x|e|] g]; [|done..]. by intros [= <- <-].
Qed.

Lemma connected_run f p t p' : connected (E:=E) (C:=C) f p = (Ok t, p') ->
  f (pf_dialer p) = (Some t, pf_dialer p') /\ pf_rng p' = pf_rng p.
Proof. unfold connected. destruct (f (pf_dialer p)) as [[x|] d]; [|done]. by intros [= <- <-]. Qed.

Lemma select_step_sent d0 frames handler line_frame branch s p outputs s' p' :
  sent_on d0 frames (se_transport s) (pf_dialer p) ->
  select_step common agent handler line_frame branch s p = (Ok (outputs, s'), p') ->
  sent_on d0 (frames ++ tasks outputs) (se_transport s') (pf_dialer p') /\
  forall branches, exists rest,
    (if se_stdin_open s then lines_read (branch :: branches) else []) =
      rest ++ (if se_stdin_open s' then lines_read branches else []) /\
    draws line_frame rest (pf_rng p) = (tasks outputs, Ok tt, pf_rng p').
Proof.
  intros Hs. destruct branch as [|[line|]]; cbn [select_step].
  - rewrite M_bind_run. destruct (consume_step _ _ _ _ _ _) as [[[o [t rp]]|e|] p1] eqn:Hc; [|done..].
    intros [= <- <- <-]. eapply consume_step_sent in Hc as [Hs' ->]; [|exact Hs].
    cbn [tasks omap list_omap se_transport se_stdin_open]. rewrite app_nil_r. split; [done|].
    intros branches. by exists [].
  - destruct (se_stdin_open s) eqn:Hopen.
    + rewrite M_bind_run. destruct (drawing _ _) as [[frame|e|] p1] eqn:Hd; [|done..].
      apply drawing_run in Hd as [Hd Hdial]. rewrite M_bind_run.
      destruct (connected _ _) as [[t|e|] p2] eqn:Hc; [|done..].
      apply connected_run in Hc as [Hc Hrng]. intros [= <- <- <-].
      rewrite Hdial in Hc. eapply send_sent in Hc; [|exact Hs].
      split; [done|]. intros branches. exists [line]. cbn. rewrite ?Hopen. split; [done|].
      by rewrite Hd, Hrng.
    + intros [= <- <- <-]. rewrite app_nil_r. split; [done|]. intros branches. exists []. by rewrite ?Hopen.
  - destruct (se_stdin_open s) eqn:Hopen; intros [= <- <- <-]; rewrite app_nil_r; (split; [done|]);
      intros branches; exists []; rewrite ?Hopen; done.
Qed.

Lemma draws_app {A} (f : Text -> M Rng AppError A) l l' g made g' : draws f l g = (made, Ok tt, g') ->
  draws f (l ++ l') g = let '(made', r, g'') := draws f l' g' in (made ++ made', r, g'').
Proof.
  revert g made. induction l as [|line l IH]; intros g made; cbn [draws app].
  { intros [= <- ->]. by destruct (draws f l' g') as [[made' r] g'']. }
  destruct (f line g) as [[a|e|] g1]; [|done..].
  destruct (draws f l g1) as [[made1 r1] g2] eqn:Hrun. intros [= <- -> ->].
  rewrite (IH _ _ Hrun). by destruct (draws f l' g') as [[made' r] g''].
Qed.

Lemma select_loop_sent handler line_frame branches : forall d0 frames s p outputs s' p',
  sent_on d0 frames (se_transport s) (pf_dialer p) ->
  select_loop common agent handler line_frame branches s p = (outputs, Ok s', p') ->
  sent_on d0 (frames ++ tasks outputs) (se_transport s') (pf_dialer p') /\
  draws line_frame (if se_stdin_open s then lines_read branches else []) (pf_rng p)
    = (tasks outputs, Ok tt, pf_rng p').
Proof.
  induction branches as [|branch branches IH]; intros d0 frames s p outputs s' p' Hs; cbn [select_loop].
  { intros [= <- <- <-]. rewrite app_nil_r. split; [done|]. by destruct (se_stdin_open s). }
  destruct (select_step _ _ _ _ _ _ _) as [[[os s1]|e|] p1] eqn:Hstep; [|done..].
  destruct (select_loop _ _ _ _ _ _ _) as [[os' r'] p2] eqn:Hrun. intros [= <- -> <-].
  destruct (select_step_sent _ _ _ _ _ _ _ _ _ _ Hs Hstep) as [Hs1 Hlines].
  destruct (IH _ _ _ _ _ _ _ Hs1 Hrun) as [Hs2 Hdraws].
  unfold tasks. rewrite omap_app. fold (tasks os) (tasks os'). rewrite app_assoc. split; [done|].
  destruct (Hlines branches) as (rest & Heq & Hd). rewrite Heq, (draws_app _ _ _ _ _ _ Hd), Hdraws. done.
Qed.
End streams.

(** ** The properties *)

(** C24: A publisher (a sensor, a scout, a tenant's publisher) sends the frames of its
    lines, in order and whole. The groups of frames its connections carry, each after
    the hello, are together the frames of all the lines when it reaches the end of the
    input, of the lines before the one it stops at with an error, and the first of them
    while it waits for an attempt to connect. *)
Theorem publishers_send_in_order `{Crypto} {St E C} `{HL : TokioFramedLaws St E, Clock C}
    common agent line_frames lines (p : Platform St E C) r p' :
  Forall Reconnect.fresh (dl_attempts (pf_dialer p)) ->
  publish_lines common agent line_frames lines p = (r, p') ->
  exists groups dropped, dl_dropped (pf_dialer p') = dl_dropped (pf_dialer p) ++ dropped /\
    Forall2 (carries (agent_id agent)) groups dropped /\
    let '(made, stop, g) := draws line_frames lines (pf_rng p) in
    match r with
    | Err Stopped.Waiting => dl_attempts (pf_dialer p') = [] /\ concat groups `prefix_of` concat made
    | _ => concat groups = concat made /\ r = map_err Stopped.Failed stop /\ pf_rng p' = g
    end.
Proof.
  intros Hf Hrun. destruct (publish_lines_sent _ _ _ _ _ _ _ Hf Hrun) as (groups & [_ (dropped & Hd & Hall)] & Hr).
  by exists groups, dropped.
Qed.

(** C23: The coordinator of the swarm publishes what it reads, in order, whatever it
    receives in between. After any schedule of the [select!], the frames on its
    connections, each whole and after the hello, are its environment, its subscription
    and the task of every line it has read, made one after the other as without the
    receptions; the last connection is in use. *)
Theorem coordinator_sends_in_order `{Crypto, Hex} {St E C} `{HL : TokioFramedLaws St E, Clock C}
    common agent config environment branches (p : Platform St E C) outputs s p' :
  Forall Reconnect.fresh (dl_attempts (pf_dialer p)) ->
  coordinator common agent config environment branches p = (outputs, Ok s, p') ->
  exists declared subscribed g groups dropped group,
    (declared ← map_errM AppError.Protocol (Agent.set_environment agent environment);
     subscribed ← swarm_agent.coordinator_request config agent;
     mret (declared, subscribed)) (pf_rng p) = (Ok (declared, subscribed), g) /\
    draws (swarm_agent.coordinator_line config agent) (lines_read branches) g = (tasks outputs, Ok tt, pf_rng p') /\
    dl_dropped (pf_dialer p') = dl_dropped (pf_dialer p) ++ dropped /\
    Forall2 (carries (agent_id agent)) groups dropped /\ opened (agent_id agent) group (se_transport s) /\
    concat groups ++ group = declared :: subscribed :: tasks outputs.
Proof.
  intros Hf. unfold coordinator, run_select, declare_environment.
  match goal with |- context [(?m ≫= ?f) p] => destruct ((m ≫= f) p) as [[t|e|] p1] eqn:Hstart end; [|done..].
  intros Hloop.
  rewrite !M_bind_run in Hstart.
  destruct (connected _ p) as [[t0|e|] p2] eqn:Hc; [|done..]. apply connected_run in Hc as [Hc Hg0].
  apply connect_sent in Hc; [|done]. rewrite M_bind_run in Hstart.
  destruct (drawing _ p2) as [[declared|e|] p3] eqn:Hd; [|done..]. apply drawing_run in Hd as [Hd Hd3].
  rewrite <-Hd3 in Hc.
  destruct (connected _ p3) as [[t1|e|] p4] eqn:Hs1; [|done..]. apply connected_run in Hs1 as [Hs1 Hg1].
  eapply send_sent in Hs1; [|exact Hc]. rewrite M_bind_run in Hstart.
  destruct (drawing _ p4) as [[subscribed|e|] p5] eqn:Hd2; [|done..]. apply drawing_run in Hd2 as [Hd2 Hd5].
  rewrite <-Hd5 in Hs1. apply connected_run in Hstart as [Hs2 Hg2]. eapply send_sent in Hs2; [|exact Hs1].
  destruct (select_loop_sent _ _ _ _ _ _ _ (mkSelect t subscriber_cache true) _ _ _ _ Hs2 Hloop)
    as [(_ & groups & group & [_ (dropped & Hdr & Hall)] & Ho & Heq) Hdraws].
  exists declared, subscribed, (pf_rng p1), groups, dropped, group.
  split; [|done]. rewrite M_bind_run, <-Hg0, Hd, M_bind_run, <-Hg1, Hd2, Hg2. done.
Qed.

Lemma is_ok_Ok {E A} (r : result E A) : is_ok r = true -> exists a, r = Ok a.
Proof. destruct r as [a|e|]; [by exists a|done..]. Qed.

Lemma triple_eta {A B C} (x : A * B * C) : x = (x.1.1, x.1.2, x.2).
Proof. by destruct x as [[a b] c]. Qed.

(** A publisher whose second connection fails, and a coordinator that loses its
    connection between its subscription and a task. *)
Module StreamsExample.
#[local] Existing Instance Toy.crypto.
#[local] Existing Instance ConfigExample.hex.
#[local] Existing Instance ReconnectExample.stream.
#[local] Existing Instance ReconnectExample.stream_laws.
Definition common : AgentConfig := ReconnectExample.config.
Definition platform (attempts : list nat) : Platform ReconnectExample.Stream unit N :=
  mkPlatform 3%N (mkDialer (ReconnectExample.opens <$> attempts) [] []) 5%N.
Definition line_frames (line : Text) : M Rng AppError (list (list byte)) := mret [line; line].
Definition publisher := publish_lines common toy_agent line_frames [[x01]; [x02]; [x03]] (platform [3; 2; 9; 9]).

Definition config : swarm_agent.Config :=
  swarm_agent.mkConfig [] swarm_agent.RoleCoordinator [x41] 1 2 3 90 true [x7a].
Definition line : Text := replicate 32 x31 ++ [x20; x67].
Definition branches : list Branch :=
  [TransportReady; LineReady (Some line); TransportReady; LineReady None; LineReady (Some line)].
Definition run := coordinator common toy_agent config [] branches (platform [3; 4; 9]).
End StreamsExample.

Lemma publishers_send_in_order_witness :
  exists groups dropped, dl_dropped (pf_dialer StreamsExample.publisher.2) = dropped /\
    Forall2 (carries (agent_id toy_agent)) groups dropped /\
    concat groups = [[x01]; [x01]; [x02]; [x02]; [x03]; [x03]].
Proof.
  destruct (publishers_send_in_order (HL:=ReconnectExample.stream_laws) StreamsExample.common toy_agent
    StreamsExample.line_frames [[x01]; [x02]; [x03]] (StreamsExample.platform [3; 2; 9; 9])
    StreamsExample.publisher.1 StreamsExample.publisher.2) as (groups & dropped & Hd & Hall & Hc).
  - repeat (apply Forall_cons; split; [done|]). by apply Forall_nil.
  - apply surjective_pairing.
  - exists groups, dropped. split; [exact Hd|]. split; [exact Hall|].
    assert (StreamsExample.publisher.1 = Ok tt) as Hr by (vm_compute; reflexivity).
    rewrite Hr in Hc. destruct Hc as [Hc _]. exact Hc.
Defined.

Lemma coordinator_sends_in_order_witness :
  is_ok StreamsExample.run.1.2 = true /\ length (tasks StreamsExample.run.1.1) = 1 /\
  exists declared subscribed groups dropped group,
    dl_dropped (pf_dialer StreamsExample.run.2) = dropped /\
    Forall2 (carries (agent_id toy_agent)) groups dropped /\
    concat groups ++ group = declared :: subscribed :: tasks StreamsExample.run.1.1.
Proof.
  assert (is_ok StreamsExample.run.1.2 = true) as Hok by (vm_compute; reflexivity).
  assert (length (tasks StreamsExample.run.1.1) = 1) as Hlen by (vm_compute; reflexivity).
  split; [exact Hok|]. split; [exact Hlen|].
  destruct (is_ok_Ok _ Hok) as [s Hs].
  destruct (coordinator_sends_in_order (H:=Toy.crypto) (H0:=ConfigExample.hex) (HL:=ReconnectExample.stream_laws)
    StreamsExample.common toy_agent StreamsExample.config [] StreamsExample.branches
    (StreamsExample.platform [3; 4; 9]) StreamsExample.run.1.1 s StreamsExample.run.2)
    as (declared & subscribed & g & groups & dropped & group & _ & _ & Hd & Hall & _ & Heq).
  - repeat (apply Forall_cons; split; [exact (conj I eq_refl)|]). apply Forall_nil. exact I.
  - rewrite <-Hs. unfold StreamsExample.run. apply triple_eta.
  - exists declared, subscribed, groups, dropped, group. exact (conj Hd (conj Hall Heq)).
Defined.
