(* ===== verification/EmbassySensor.v ===== *)
(** The allocation-free sensor of apps/smart-building-embassy-agent/src/lib.rs, and what it
    writes to its stream. *)

From S2P Require Export AgentApps.

Record SensorConfig := mkSensorConfig {
  sc_building_id : list byte;
  sc_alert_zone : list byte;
  sc_floor_id : Z;
  sc_operational : bool;
  sc_initial_temperature : Z;
}.

Module SensorError.
Inductive t (E : Type) :=
| Model (e : ModelError)
| Protocol (e : Error)
| Transport (e : EmbassyTransportError E).
Arguments Model {E} e.
Arguments Protocol {E} e.
Arguments Transport {E} e.
End SensorError.
Abbreviation SensorError := SensorError.t.

Record EmbassySensorAgent := mkSensorAgent { sa_agent : Agent; sa_config : SensorConfig }.

(** The entries of a builder that a chain of calls filled. *)
Definition filled_environment {D} (m : M (EnvironmentBuilder D) ModelError unit) : result ModelError (list AttributeRef) :=
  match m EnvironmentBuilder_new with
  | (Ok _, b) => environment_attributes b
  | (Err e, _) => Err e
  | (Panic, _) => Panic
  end.
Definition filled_clauses {D} (predicate : result ModelError (PredicateBuilder D))
    (m : M (PredicateBuilder D) ModelError unit) : result ModelError (list ClauseRef) :=
  b ← predicate;
  match m b with
  | (Ok _, b') => predicate_clauses b'
  | (Err e, _) => Err e
  | (Panic, _) => Panic
  end.

Section sensor.
Import smart_building.
Context `{Crypto} {St E : Type} `{EmbassyIo St E}.

(** What the methods are given mutable references to. *)
Record SensorState := mkSensorState {
  ss_transport : EmbassyFramedTransport St;
  ss_rng : Rng;
  ss_frame : list byte;
}.

Abbreviation SensorM := (M SensorState (SensorError E)).

Definition sensor_transport (m : M (EmbassyFramedTransport St) (EmbassyTransportError E) unit) : SensorM unit := fun s =>
  let '(r, t) := m (ss_transport s) in
  (map_err SensorError.Transport r, mkSensorState t (ss_rng s) (ss_frame s)).
Definition sensor_request (m : M (list byte * Rng) Error nat) : SensorM nat := fun s =>
  let '(r, (f, g)) := m (ss_frame s, ss_rng s) in
  (map_err SensorError.Protocol r, mkSensorState (ss_transport s) g f).

(** [transport.send(&frame[..length])] *)
Definition sensor_send (len : nat) : SensorM unit := fun s =>
  match slice (E:=E) (ss_frame s) 0 len with
  | Ok bytes => sensor_transport (embassy_send bytes) s
  | _ => (Panic, s)
  end.

Definition sensor_environment (config : SensorConfig) : M Environment ModelError unit :=
  environment_bytes_value BUILDING_ID (sc_building_id config);;
  environment_bytes_value ALERT_ZONE (sc_alert_zone config);;
  environment_i64 FLOOR_ID (sc_floor_id config);;
  environment_i64 DEVICE_CLASS (DeviceClass_i64 Sensor);;
  environment_bool CERTIFIED_DEVICE true;;
  environment_bool OPERATIONAL (sc_operational config);;
  environment_i64 TEMPERATURE (sc_initial_temperature config).

Definition initialize (a : EmbassySensorAgent) : SensorM unit :=
  sensor_transport (embassy_send_hello (agent_id (sa_agent a)));;
  attributes ← lift (map_err SensorError.Model (filled_environment (sensor_environment (sa_config a))));
  len ← sensor_request (set_environment_into (sa_agent a) attributes);
  sensor_send len.

Definition publish_temperature (a : EmbassySensorAgent) (temperature_centi_celsius : Z) : SensorM unit :=
  clauses ← lift (map_err SensorError.Model
    (filled_clauses (audience (sc_building_id (sa_config a)))
       (predicate_i64 USER_ROLE Operator.Eq (UserRole_i64 ControlOperator))));
  len ← sensor_request
    (publish_into (sa_agent a) SENSOR_READING clauses (i64_to_be temperature_centi_celsius));
  sensor_send len.

(** [for] every reading of the firmware's loop. *)
Fixpoint publish_temperatures (a : EmbassySensorAgent) (readings : list Z) : SensorM unit :=
  match readings with
  | [] => mret tt
  | reading :: readings' => publish_temperature a reading;; publish_temperatures a readings'
  end.
End sensor.
Arguments SensorState {_} _.

(** ** What the sensor declares and asks for *)

Section facts.
Import smart_building.

Definition sensor_config_wf (config : SensorConfig) : Prop :=
  length (sc_building_id config) <= MAX_ATTRIBUTE_BYTES /\ length (sc_alert_zone config) <= MAX_ATTRIBUTE_BYTES /\
  i64_wf (sc_floor_id config) /\ i64_wf (sc_initial_temperature config).

Definition sensor_declared (config : SensorConfig) : list AttributeRef :=
  [mkAttribute (bytes_id BUILDING_ID) (ValueRef.Bytes (sc_building_id config));
   mkAttribute (bytes_id ALERT_ZONE) (ValueRef.Bytes (sc_alert_zone config));
   mkAttribute (i64_id FLOOR_ID) (ValueRef.I64 (sc_floor_id config));
   mkAttribute (i64_id DEVICE_CLASS) (ValueRef.I64 1);
   mkAttribute (bool_id CERTIFIED_DEVICE) (ValueRef.Bool true);
   mkAttribute (bool_id OPERATIONAL) (ValueRef.Bool (sc_operational config));
   mkAttribute (i64_id TEMPERATURE) (ValueRef.I64 (sc_initial_temperature config))].

Definition sensor_clauses (config : SensorConfig) : list ClauseRef :=
  [mkClause (bytes_id BUILDING_ID) Operator.Eq (ValueRef.Bytes (sc_building_id config));
   mkClause (i64_id USER_ROLE) Operator.Eq (ValueRef.I64 1)].

Lemma sensor_environment_run config : sensor_config_wf config ->
  filled_environment (sensor_environment config) = Ok (sensor_declared config) /\
  Operation.environment_wf (sensor_declared config).
Proof.
  intros (Hb & Hz & Hf & Ht). split.
  - unfold filled_environment, sensor_environment, environment_bytes_value.
    rewrite !(proj2 (Nat.ltb_ge _ _)) by done. reflexivity.
  - assert (Forall (fun x => bounded_value (attr_value x)) (sensor_declared config)) as Hbound
      by (repeat (apply Forall_cons; split; [first [exact I|assumption]|]); apply Forall_nil_2).
    built_wf.
Qed.

Lemma sensor_clauses_run config : sensor_config_wf config ->
  filled_clauses (audience (sc_building_id config))
    (predicate_i64 USER_ROLE Operator.Eq (UserRole_i64 ControlOperator)) = Ok (sensor_clauses config) /\
  Operation.clauses_wf (sensor_clauses config).
Proof.
  intros (Hb & _). split.
  - unfold filled_clauses, audience, built, predicate_bytes_value.
    rewrite (proj2 (Nat.ltb_ge _ _)) by done. reflexivity.
  - assert (Forall (fun x => bounded_value (clause_value x)) (sensor_clauses config)) as Hbound
      by (repeat (apply Forall_cons; split; [first [exact I|assumption]|]); apply Forall_nil_2).
    built_wf.
Qed.
End facts.

(** ** What is on the wire *)

Section wire.
Context `{HC : CryptoLaws} `{HL : EmbassyIoLaws St E} (a : Agent) (secret : array 32).
Hypothesis Hca : ca_x25519 (agent_ca a) = x25519_public secret.

(** The stream works and the buffer has room. *)
Definition sensor_ready (s : SensorState St) : Prop :=
  io_inv (et_stream (ss_transport s)) /\ MAX_FRAME_LEN <= length (ss_frame s).

(** The shared secret of a request is not the one that is refused. *)
Definition agrees (g : Rng) : Prop := x25519 (drawn_secret g) (x25519_public secret) <> zero32.

(** A step that sends a frame, or fails in the transport. *)
Definition sends_frame (s : SensorState St) (r : result (SensorError E) unit) (s' : SensorState St)
    (g' : Rng) (good : list byte -> Prop) : Prop :=
  (r = Ok tt /\ sensor_ready s' /\ ss_rng s' = g' /\ exists frame, good frame /\
     io_output (et_stream (ss_transport s')) = io_output (et_stream (ss_transport s)) ++ frame_wire frame) \/
  exists e, r = Err (SensorError.Transport e).

Lemma sensor_transport_run bytes s r s' : sensor_ready s -> sensor_transport (embassy_send bytes) s = (r, s') ->
  sends_frame s r s' (ss_rng s) (eq bytes).
Proof.
  intros [Hs Hlen]. unfold sensor_transport. destruct (embassy_send _ _) as [r0 t] eqn:Hsend.
  apply embassy_send_spec in Hsend as (Hs' & Hnp & _ & Hr); [|done]. intros [= <- <-].
  destruct r0 as [[]|e|]; [|right; by eexists|done]. left. destruct Hr as [_ Ho].
  split; [done|]. split; [done|]. split; [done|]. by exists bytes.
Qed.

Lemma request_length h op out g res out' g' : Operation.wf op -> is_request op = true -> is_subscription op = false ->
  MAX_FRAME_LEN <= length out -> agrees g -> request a h op (out, g) = (res, (out', g')) ->
  length out' = length out.
Proof.
  intros Hop Hreq Hsub Hout Hz. rewrite request_eq, Hsub by done. cbn [andb]. unfold request_into.
  autorewrite with rust. cbn [fst]. rewrite (proj2 (Nat.ltb_ge _ _)), Hca by done.
  pose proof (length_wire op Hop) as Hlen.
  eapply (seal_encoded_length (request_type op) (agent_id a) AgentId_CA (request_handler h op)
    (keys_signing (agent_keys a)) secret (Operation.encode op) (Operation.wire op)); try done.
  - by apply encode_encodes.
  - unfold MAX_PLAINTEXT_LEN. lia.
Qed.

(** Building a request and sending it. *)
Lemma submit_run op s r s' : Operation.wf op -> is_request op = true -> is_subscription op = false ->
  sensor_ready s -> agrees (ss_rng s) ->
  (len ← sensor_request (request a HandlerId_NONE op); sensor_send len) s = (r, s') ->
  sends_frame s r s' (drawn_rng (ss_rng s)) (fun frame =>
    request_frame a (request_type op) HandlerId_NONE (ss_rng s) secret (Operation.wire op) frame).
Proof.
  intros Hop Hreq Hsub [Hs Hlen] Hz Hrun.
  destruct (request_run a HandlerId_NONE op (ss_frame s) (ss_rng s) secret) as (frame & rest & Hr & Hframe);
    try done; [by left|].
  pose proof (request_length _ _ _ _ _ _ _ Hop Hreq Hsub Hlen Hz Hr) as Hl.
  rewrite M_bind_run in Hrun. unfold sensor_request in Hrun. rewrite Hr in Hrun. cbn [map_err] in Hrun.
  unfold sensor_send in Hrun. cbn [ss_frame] in Hrun.
  rewrite (slice_app [] frame rest 0 (length frame)) in Hrun by done.
  apply sensor_transport_run in Hrun; [|by split; [|cbn; rewrite Hl]].
  destruct Hrun as [(-> & Hready & Hg & f & <- & Ho)|He]; [left|by right].
  do 2 (split; [done|]). split; [done|]. exists frame. split; [|done].
  by assert (request_handler HandlerId_NONE op = HandlerId_NONE) as <- by (by destruct op).
Qed.
End wire.

Section run.
Context `{HC : CryptoLaws} `{HL : EmbassyIoLaws St E} (a : EmbassySensorAgent) (secret : array 32).
Hypothesis Hca : ca_x25519 (agent_ca (sa_agent a)) = x25519_public secret.
Hypothesis Hconfig : sensor_config_wf (sa_config a).

(** The operations of the sensor. *)
Definition declaration : Operation := Operation.SetEnvironment (sensor_declared (sa_config a)).
Definition reading_operation (z : Z) : Operation :=
  Operation.Publish smart_building.SENSOR_READING (sensor_clauses (sa_config a)) (i64_to_be z).

Lemma reading_wf z : Operation.wf (reading_operation z).
Proof.
  split; [vm_compute; discriminate|]. split; [by apply sensor_clauses_run|].
  rewrite length_i64_to_be. apply (bool_decide_unpack _). vm_compute. reflexivity.
Qed.

(** The frame carries the request, as drawn from [g]. *)
Definition carries_request (op : Operation) (g : Rng) (frame : list byte) : Prop :=
  request_frame (sa_agent a) (request_type op) HandlerId_NONE g secret (Operation.wire op) frame.

Lemma initialize_run s r s' : sensor_ready s -> agrees secret (ss_rng s) -> initialize a s = (r, s') ->
  (r = Ok tt /\ sensor_ready s' /\ ss_rng s' = drawn_rng (ss_rng s) /\
   exists frame, carries_request declaration (ss_rng s) frame /\
     io_output (et_stream (ss_transport s')) = io_output (et_stream (ss_transport s)) ++
       concat (frame_wire <$> [hello (agent_id (sa_agent a)); frame])) \/
  exists e, r = Err (SensorError.Transport e).
Proof.
  intros Hs Hz Hrun. unfold initialize in Hrun. rewrite M_bind_run in Hrun.
  destruct (sensor_transport _ s) as [r1 s1] eqn:Hhello.
  apply sensor_transport_run in Hhello as [(-> & Hs1 & Hg1 & f & <- & Ho1)|[e ->]]; [|injection Hrun as <- <-; right; by exists e|done].
  destruct (sensor_environment_run _ Hconfig) as [Henv Hwf]. rewrite Henv in Hrun. cbn [map_err] in Hrun.
  rewrite bind_lift_ok in Hrun.
  rewrite <-Hg1 in *.
  apply (submit_run (sa_agent a) secret Hca declaration) in Hrun
    as [(-> & Hs' & Hg & frame & Hframe & Ho)|He]; [left|by right|done..].
  do 2 (split; [done|]). split; [done|]. exists frame. split; [done|].
  rewrite Ho, Ho1. cbn [fmap list_fmap concat]. by rewrite app_nil_r, app_assoc.
Qed.

Lemma publish_temperature_run z s r s' : sensor_ready s -> agrees secret (ss_rng s) ->
  publish_temperature a z s = (r, s') ->
  sends_frame s r s' (drawn_rng (ss_rng s)) (carries_request (reading_operation z) (ss_rng s)).
Proof.
  intros Hs Hz Hrun. unfold publish_temperature in Hrun.
  destruct (sensor_clauses_run _ Hconfig) as [Hcl _]. rewrite Hcl in Hrun. cbn [map_err] in Hrun.
  rewrite bind_lift_ok in Hrun.
  apply (submit_run (sa_agent a) secret Hca (reading_operation z)) in Hrun; [done| |done..]. apply reading_wf.
Qed.

Lemma publish_temperatures_run readings : forall s r s', sensor_ready s ->
  (forall k, k < length readings -> agrees secret (Nat.iter k drawn_rng (ss_rng s))) ->
  publish_temperatures a readings s = (r, s') ->
  (r = Ok tt /\ exists frames,
     io_output (et_stream (ss_transport s')) = io_output (et_stream (ss_transport s)) ++ concat (frame_wire <$> frames) /\
     length frames = length readings /\
     forall i z frame, readings !! i = Some z -> frames !! i = Some frame ->
       carries_request (reading_operation z) (Nat.iter i drawn_rng (ss_rng s)) frame) \/
  exists e, r = Err (SensorError.Transport e).
Proof.
  induction readings as [|z readings IH]; intros s r s' Hs Hz; cbn [publish_temperatures].
  { intros [= <- <-]. left. split; [done|]. exists []. by rewrite app_nil_r. }
  rewrite M_bind_run. destruct (publish_temperature a z s) as [r1 s1] eqn:Hpub.
  apply publish_temperature_run in Hpub as [(-> & Hs1 & Hg1 & f & Hf & Ho1)|[e ->]];
    [|intros [= <- <-]; right; by exists e|done|apply (Hz 0); cbn; lia].
  intros Hrun. apply IH in Hrun as [(-> & frames & Ho & Hl & Hall)|He]; [left|by right|done|].
  - split; [done|]. exists (f :: frames). split; [|split; [cbn; by rewrite Hl|]].
    + rewrite Ho, Ho1. cbn [fmap list_fmap concat]. by rewrite app_assoc.
    + intros [|i] y frame; [by intros [= <-] [= <-]|]. cbn [lookup list_lookup].
      intros Hy Hfr. specialize (Hall i y frame Hy Hfr). by rewrite Hg1, <-Nat.iter_succ_r in Hall.
  - intros k Hk. rewrite Hg1, <-Nat.iter_succ_r. apply Hz. cbn. lia.
Qed.
End run.

(** ** The property *)

(** C21: The firmware's sensor speaks the protocol. Given a configuration within the
    protocol's limits and a buffer of a frame, initialising it and then publishing any
    readings either fails in the transport or leaves on the stream, and nothing else:
    the agent's hello, then, for the holder of the CA's key, the environment of the
    sensor, then one publication for each reading, in order, with the reading as its
    value and the control operators of the building as its audience. *)
Theorem embassy_sensor_speaks `{HC : CryptoLaws} `{HL : EmbassyIoLaws St E} (a : EmbassySensorAgent) readings
    secret (s s' : SensorState St) r :
  ca_x25519 (agent_ca (sa_agent a)) = x25519_public secret -> sensor_config_wf (sa_config a) ->
  sensor_ready s -> (forall k, k <= length readings -> agrees secret (Nat.iter k drawn_rng (ss_rng s))) ->
  (initialize a;; publish_temperatures a readings) s = (r, s') ->
  (r = Ok tt /\ exists environment publications,
     io_output (et_stream (ss_transport s')) = io_output (et_stream (ss_transport s)) ++
       concat (frame_wire <$> hello (agent_id (sa_agent a)) :: environment :: publications) /\
     carries_request a secret (declaration a) (ss_rng s) environment /\
     length publications = length readings /\
     forall i z frame, readings !! i = Some z -> publications !! i = Some frame ->
       carries_request a secret (reading_operation a z) (Nat.iter (S i) drawn_rng (ss_rng s)) frame) \/
  exists e, r = Err (SensorError.Transport e).
Proof.
  intros Hca Hconfig Hs Hz Hrun. rewrite M_bind_run in Hrun.
  destruct (initialize a s) as [r1 s1] eqn:Hinit.
  apply (initialize_run a secret) in Hinit as [(-> & Hs1 & Hg1 & env & Henv & Ho1)|[e ->]];
    [|injection Hrun as <- <-; right; by exists e|done|done|done|apply (Hz 0); lia].
  apply (publish_temperatures_run a secret) in Hrun as [(-> & frames & Ho & Hl & Hall)|He];
    [left|by right|done|done|done|].
  - split; [done|]. exists env, frames. split; [|split; [done|split; [done|]]].
    + rewrite Ho, Ho1. cbn [fmap list_fmap concat]. by rewrite app_nil_r, <-!app_assoc.
    + intros i z frame Hi Hf. specialize (Hall i z frame Hi Hf). by rewrite Hg1, <-Nat.iter_succ_r in Hall.
  - intros k Hk. rewrite Hg1, <-Nat.iter_succ_r. apply Hz. lia.
Qed.

Module SensorExample.
#[local] Existing Instance Toy.crypto.
Definition agent := mkSensorAgent EndToEndExample.alice (mkSensorConfig [x41] [x7a] 2 true 2150).
Definition state : SensorState FragmentedIo :=
  mkSensorState (EmbassyFramedTransport_new (mkFragmentedIo [] [] 1)) 3%N EndToEndExample.buffer.
Abbreviation run := ((initialize agent;; publish_temperatures agent [2225%Z]) state).
End SensorExample.

Lemma embassy_sensor_speaks_witness :
  is_ok SensorExample.run.1 = true /\
  exists environment publications, length publications = 1 /\
    io_output (et_stream (ss_transport SensorExample.run.2)) =
    io_output (et_stream (ss_transport SensorExample.state)) ++
      concat (frame_wire <$> hello (agent_id (sa_agent SensorExample.agent)) :: environment :: publications).
Proof.
  assert (is_ok SensorExample.run.1 = true) as Hok by (vm_compute; reflexivity). split; [exact Hok|].
  destruct (embassy_sensor_speaks (HC:=Toy.laws) SensorExample.agent [2225%Z] (vreplicate 32 x09)
    SensorExample.state SensorExample.run.2 SensorExample.run.1)
    as [(_ & environment & publications & Ho & _ & Hl & _)|[e He]].
  - reflexivity.
  - split; [vm_compute; lia|]. split; [vm_compute; lia|]. split; (split; vm_compute; discriminate).
  - split; [cbn; lia|]. unfold SensorExample.state, EndToEndExample.buffer. cbn [ss_frame].
    by rewrite length_replicate.
  - intros [|[|k]] Hk; [vm_compute; discriminate..|cbn in Hk; lia].
  - apply surjective_pairing.
  - exists environment, publications. split; [exact Hl|exact Ho].
  - rewrite He in Hok. discriminate Hok.
Defined.
