(* ===== verification/LinkSession.v ===== *)
(** The link between the broker and the CA: [run_ca_session] of
    apps/brokerd/src/main.rs and the session loop of apps/cad/src/main.rs, over the
    bookkeeping of infrastructure-link, and the system of both. *)

From S2P Require Export Broker CaEngine.
From S2P Require Export Link.

(** ** What a session does

    A reaction to one event of the [select!]: the frames handed to the link, in
    order, whether the loop goes on, and what the daemon did: the broker took a
    request from the router's queue, or dropped one it took because it could not name
    or encode it, or routed a delivery; the CA processed a request and
    acquired its deliveries, or processed it and gave up before it acquired them.
    A send that fails ends the session after the reaction: that is an event of the
    system below. *)

Inductive Progress :=
| Running      (* the loop goes on *)
| Over         (* [break] or [return]: the session is over, the state is kept *)
| Exited.      (* [?] in [main]: the daemon ends *)

#[export] Instance Progress_eq_dec : EqDecision Progress.
Proof. solve_decision. Defined.

Inductive LinkEvent :=
| Taken (id : MessageId) (request : list byte)
| Dropped (request : list byte)
| Routed (id : MessageId) (f : list byte)
| Handled (id : MessageId) (request : list byte) (deliveries : list (MessageId * list byte))
| Lost (id : MessageId) (request : list byte).

Record Reaction := mkReaction {
  reply : list (list byte);
  progress : Progress;
  events : list LinkEvent;
}.

Definition go_on (sent : list (list byte)) : Reaction := mkReaction sent Running [].

(** ** brokerd: [run_ca_session] *)

(** What the CA link uses of the router: its queue of requests and its delivery. *)
Class DeliveryRouter (R : Type) := {
  next_request : R -> option (list byte) * R;
  deliver : list byte -> R -> bool * R;
}.

#[export] Instance BrokerRouter_delivery {Ch Q} `{Mpsc Ch, OfflineQueueStore Q} :
    DeliveryRouter (BrokerRouter Ch Q) := {
  next_request r := let '(f, c) := mpsc_try_recv (rt_ca_channel r) in (f, set_ca_channel c r);
  deliver f r := let '(res, r') := route_ca_delivery f r in (is_ok res, r');
}.

Section brokerd.
Context {R : Type} `{DeliveryRouter R}.

(** [pending] and [acquired_deliveries], which outlive the sessions. *)
Record BrokerLink := mkBrokerLink {
  bl_router : R;
  bl_pending : PendingFrames;
  bl_acquired : DedupWindow;
}.

(** The state of [maintain_ca_link] at its start. *)
Definition maintain_ca_link_init (router : R) (pending_depth dedup_depth : nat) : BrokerLink :=
  mkBrokerLink router (PendingFrames_new pending_depth) (DedupWindow_new dedup_depth).

(** The retransmission at the start of a session and at a tick of [retry]. *)
Definition broker_resend (b : BrokerLink) : Reaction := go_on (pending_snapshot (bl_pending b)).

(** [request = requests.recv(), if pending.is_empty() && !pending.is_full()]; the
    identifier is the outcome of [random_id]. *)
Definition broker_request (id : option MessageId) (b : BrokerLink) : Reaction * BrokerLink :=
  if pending_is_empty (bl_pending b) && negb (pending_is_full (bl_pending b)) then
    match next_request (bl_router b) with
    | (None, router) => (go_on [], mkBrokerLink router (bl_pending b) (bl_acquired b))
    | (Some request, router) =>
        let dropped := (mkReaction [] Running [Dropped request],
                        mkBrokerLink router (bl_pending b) (bl_acquired b)) in
        match id with
        | None => dropped
        | Some id =>
            match encode FrameKind.Request id request with
            | Ok encoded =>
                match pending_insert id encoded (bl_pending b) with
                | (Ok _, pending) =>
                    (mkReaction [encoded] Running [Taken id request],
                     mkBrokerLink router pending (bl_acquired b))
                | _ => dropped
                end
            | _ => dropped
            end
        end
    end
  else (go_on [], b).

(** [encode(FrameKind::Ack, id, &[])], sent. *)
Definition acknowledge (id : MessageId) (log : list LinkEvent) (failed : Progress) : Reaction :=
  match encode FrameKind.Ack id [] with
  | Ok ack => mkReaction [ack] Running log
  | _ => mkReaction [] failed log
  end.

(** [incoming = reader.next()] on the bytes of a frame. *)
Definition broker_incoming (bytes : list byte) (b : BrokerLink) : Reaction * BrokerLink :=
  match decode bytes with
  | Ok f =>
      match link_kind f with
      | FrameKind.Ack =>
          (go_on [], mkBrokerLink (bl_router b) (pending_acknowledge (link_id f) (bl_pending b)).2
                       (bl_acquired b))
      | FrameKind.Delivery =>
          if dedup_contains (link_id f) (bl_acquired b) then (acknowledge (link_id f) [] Over, b) else
          let '(accepted, router) := deliver (link_payload f) (bl_router b) in
          if accepted : bool then
            let log := [Routed (link_id f) (link_payload f)] in
            match dedup_insert (link_id f) (bl_acquired b) with
            | (Ok _, acquired) =>
                (acknowledge (link_id f) log Over, mkBrokerLink router (bl_pending b) acquired)
            | (_, acquired) => (mkReaction [] Over log, mkBrokerLink router (bl_pending b) acquired)
            end
          else (mkReaction [] Over [], mkBrokerLink router (bl_pending b) (bl_acquired b))
      | _ => (mkReaction [] Over [], b)
      end
  | _ => (mkReaction [] Over [], b)
  end.
End brokerd.
Arguments BrokerLink R : clear implicits.

(** ** cad: the session loop of [main] *)

(** What the loop uses of the CA. *)
Class RequestHandler (S : Type) := {
  handle : list byte -> N -> M S Error ProcessResult;
}.

(** [ca.process(&mut envelope, unix_seconds(), &mut rng)]; the policy of the CA is
    exchanged by a reload, so it is part of the state. *)
#[export] Instance CertificateAuthority_handler `{Crypto} {T P} `{CaStore T} `{EnvironmentPolicy P} :
    RequestHandler (CertificateAuthority P * (T * Rng)) := {
  handle envelope now s :=
    let '(r, (_, sg')) := process s.1 now (envelope, s.2) in (r, (s.1, sg'));
}.

Section cad.
Context {S : Type} `{RequestHandler S}.

(** The variables of [main] that outlive the sessions. *)
Record CaLink := mkCaLink {
  cl_ca : S;
  cl_pending : PendingFrames;
  cl_acquired : DedupWindow;
  cl_current : option MessageId;
}.

Definition cad_init (ca : S) (pending_deliveries dedup_entries : nat) : CaLink :=
  mkCaLink ca (PendingFrames_new pending_deliveries) (DedupWindow_new dedup_entries) None.

Definition cad_resend (c : CaLink) : Reaction := go_on (pending_snapshot (cl_pending c)).

(** The loop that acquires the deliveries: [ids] are the outcomes of
    [random_link_id]. *)
Fixpoint encode_deliveries (deliveries : list (list byte)) (ids : list MessageId) :
    M PendingFrames LinkError (list (list byte) * list (MessageId * list byte)) :=
  match deliveries with
  | [] => mret ([], [])
  | delivery :: deliveries' =>
      match ids with
      | [] => fail LinkError.Authentication
      | id :: ids' =>
          encoded ← lift (encode FrameKind.Delivery id delivery);
          pending_insert id encoded;;
          rest ← encode_deliveries deliveries' ids';
          mret (encoded :: rest.1, (id, delivery) :: rest.2)
      end
  end.

(** [acquired_requests.insert(request_id)?], the ACK and its send. *)
Definition finish_request (id : MessageId) (log : list LinkEvent) (c : CaLink) : Reaction * CaLink :=
  match dedup_insert id (cl_acquired c) with
  | (Ok _, acquired) =>
      (acknowledge id log Exited, mkCaLink (cl_ca c) (cl_pending c) acquired (cl_current c))
  | (_, acquired) =>
      (mkReaction [] Exited log, mkCaLink (cl_ca c) (cl_pending c) acquired (cl_current c))
  end.

(** The arm of a request that is neither current nor acquired. *)
Definition cad_request (id : MessageId) (payload : list byte) (now : N) (ids : list MessageId)
    (c : CaLink) : Reaction * CaLink :=
  let '(r, ca) := handle payload now (cl_ca c) in
  let c := mkCaLink ca (cl_pending c) (cl_acquired c) (cl_current c) in
  match r with
  | Ok ProcessResult.Accepted | Err _ => finish_request id [Handled id payload []] c
  | Ok (ProcessResult.Deliveries deliveries) =>
      if pending_remaining (cl_pending c) <? length deliveries
      then (mkReaction [] Over [Lost id payload], c)
      else
        match encode_deliveries deliveries ids (cl_pending c) with
        | (Ok (encoded, acquired_deliveries), pending) =>
            let c := mkCaLink ca pending (cl_acquired c) (cl_current c) in
            let log := [Handled id payload acquired_deliveries] in
            match encoded with
            | [] => finish_request id log c
            | _ =>
                match dedup_insert id (cl_acquired c) with
                | (Ok _, acquired) =>
                    (mkReaction encoded Running log, mkCaLink ca pending acquired (Some id))
                | (_, acquired) =>
                    (mkReaction [] Exited log, mkCaLink ca pending acquired (cl_current c))
                end
            end
        | (_, pending) =>
            (mkReaction [] Exited [Lost id payload],
             mkCaLink ca pending (cl_acquired c) (cl_current c))
        end
  | Panic => (mkReaction [] Exited [], c)
  end.

(** [incoming = framed.next()] on the bytes of a frame. *)
Definition cad_incoming (bytes : list byte) (now : N) (ids : list MessageId) (c : CaLink) :
    Reaction * CaLink :=
  match decode bytes with
  | Ok f =>
      let id := link_id f in
      match link_kind f with
      | FrameKind.Ack =>
          let pending := (pending_acknowledge id (cl_pending c)).2 in
          match cl_current c with
          | Some request_id =>
              if pending_is_empty pending
              then (acknowledge request_id [] Exited, mkCaLink (cl_ca c) pending (cl_acquired c) None)
              else (go_on [], mkCaLink (cl_ca c) pending (cl_acquired c) (cl_current c))
          | None => (go_on [], mkCaLink (cl_ca c) pending (cl_acquired c) (cl_current c))
          end
      | FrameKind.Request =>
          if bool_decide (cl_current c = Some id) then (go_on [], c) else
          if dedup_contains id (cl_acquired c) then (acknowledge id [] Exited, c) else
          if bool_decide (cl_current c = None) then cad_request id (link_payload f) now ids c
          else (mkReaction [] Over [], c)
      | _ => (mkReaction [] Over [], c)
      end
  | _ => (mkReaction [] Over [], c)
  end.
End cad.
Arguments CaLink S : clear implicits.

(** ** Bookkeeping of the endpoints *)

Lemma pending_insert_cases p id encoded r p' : pending_inv p -> pending_insert id encoded p = (r, p') ->
  pending_inv p' /\ pf_maximum p' = pf_maximum p /\ r <> Panic /\
  match r with
  | Ok _ => (id ∉ (pending_view p).*1) /\ pending_view p' = pending_view p ++ [(id, encoded)]
  | _ => p' = p
  end.
Proof.
  intros Hp Hrun. pose proof (pending_refines (PendingOp.Insert id encoded) p Hp) as Href.
  cbn [pending_step] in Href. rewrite Hrun in Href. destruct Href as (Hp' & Hmax & Hl).
  split; [done|]. split; [done|]. cbn [list_step] in Hl.
  case_bool_decide as Hin; [|destruct (_ <=? _) eqn:Hfull]; injection Hl as <- Hl; (split; [done|]).
  - unfold pending_insert in Hrun. autorewrite with rust in Hrun.
    rewrite bool_decide_eq_true_2 in Hrun by (by apply pending_member). by injection Hrun as <-.
  - unfold pending_insert in Hrun. autorewrite with rust in Hrun.
    rewrite bool_decide_eq_false_2 in Hrun by (by rewrite pending_member).
    rewrite pending_size, Hfull in Hrun by done. by injection Hrun as <-.
  - done.
Qed.

Lemma pending_acknowledge_view p id : pending_inv p ->
  let p' := (pending_acknowledge id p).2 in
  pending_inv p' /\ pf_maximum p' = pf_maximum p /\
  pending_view p' = filter (fun kv => kv.1 <> id) (pending_view p).
Proof.
  intros Hp. pose proof (pending_refines (PendingOp.Acknowledge id) p Hp) as Href.
  cbn [pending_step] in Href. destruct (pending_acknowledge id p) as [b p'] eqn:Hrun. cbn [snd].
  destruct Href as (? & ? & Hl). cbn [list_step] in Hl. by injection Hl as _ ->.
Qed.

Lemma pending_is_empty_view p : pending_inv p -> pending_is_empty p = bool_decide (pending_view p = []).
Proof.
  intros Hp. unfold pending_is_empty. rewrite pending_size by done.
  destruct (pending_view p); [by rewrite bool_decide_eq_true_2|by rewrite bool_decide_eq_false_2].
Qed.

Lemma dedup_insert_cases w id r w' : dedup_inv w -> dedup_insert id w = (r, w') ->
  dedup_inv w' /\ r <> Panic /\
  (r = Ok tt -> dedup_contains id w' = true) /\
  (forall x, dedup_contains x w' = true -> dedup_contains x w = true \/ x = id).
Proof.
  intros Hw Hrun. pose proof (dedup_refines id w Hw) as Href. rewrite Hrun in Href.
  destruct Href as (Hw' & _ & Hr & Ho). split; [done|]. split; [rewrite Hr; by destruct (_ =? _)|].
  rewrite dedup_contains_order by done.
  setoid_rewrite dedup_contains_order; [|done..]. setoid_rewrite bool_decide_eq_true.
  rewrite Ho, Hr. destruct Hw as (_ & _ & Hlen).
  destruct (Nat.eqb_spec (dw_maximum w) 0); [split; [done|auto]|].
  unfold window_insert. case_bool_decide; [auto|]. split.
  - intros _. rewrite drop_app. apply elem_of_app. right.
    replace (_ - _ - _) with 0 by lia. cbn. by apply list_elem_of_singleton.
  - intros x Hx. assert (x ∈ dw_order w ++ [id]) as Hin.
    { eapply elem_of_sublist; [exact Hx|apply sublist_drop]. }
    by apply elem_of_app in Hin as [?| ->%list_elem_of_singleton]; auto.
Qed.
