(* ===== verification/LinkSystem.v ===== *)
(** The broker and the CA over a link that loses connections: what both sides do, in
    any order, and that requests are processed at most once and none that was taken is lost. *)

From S2P Require Export LinkSession.
From S2P Require Export Link.

(** ** The system

    Both daemons, what each has sent and the other has not read, and what they did.
    A session is up on either side until that side ends it; the two sides notice
    the loss of the connection at different times, and [cad] accepts the next
    connection only after its session has ended. *)

Section system.
Context {R S : Type} `{DeliveryRouter R, RequestHandler S}.

Record System := mkSystem {
  sy_broker : BrokerLink R;
  sy_ca : CaLink S;
  sy_to_ca : list (list byte);
  sy_to_broker : list (list byte);
  sy_broker_up : bool;
  sy_ca_up : bool;
  sy_ca_exited : bool;
  sy_log : list LinkEvent;
}.

(** What can happen next, in any order. *)
Inductive LinkStep :=
| Connect                                          (* a connection, authenticated *)
| BrokerCut | CaCut                                (* a side ends its session *)
| LoseToCa (n : nat) | LoseToBroker (n : nat)      (* only [n] frames still arrive *)
| BrokerTakes (id : option MessageId)              (* [requests.recv()] *)
| BrokerReads | CaReads (now : N) (ids : list MessageId)
| BrokerRetry | CaRetry                            (* [retry.tick()] *)
| RouterChanges (router : R)                       (* the agents' side of the router *)
| CaReloads (ca : S).                              (* [reload.tick()] *)

(** A reaction of a side: what it sends joins what is on the way. *)
Definition broker_reacts (x : Reaction * BrokerLink R) (to_broker : list (list byte)) (y : System) : System :=
  mkSystem x.2 (sy_ca y) (sy_to_ca y ++ reply x.1) to_broker
    (bool_decide (progress x.1 = Running)) (sy_ca_up y) (sy_ca_exited y) (sy_log y ++ events x.1).
Definition ca_reacts (x : Reaction * CaLink S) (to_ca : list (list byte)) (y : System) : System :=
  mkSystem (sy_broker y) x.2 to_ca (sy_to_broker y ++ reply x.1)
    (sy_broker_up y) (bool_decide (progress x.1 = Running))
    (sy_ca_exited y || bool_decide (progress x.1 = Exited)) (sy_log y ++ events x.1).

Definition link_step (st : LinkStep) (y : System) : System :=
  match st with
  | Connect =>
      if sy_broker_up y || sy_ca_up y || sy_ca_exited y then y else
      mkSystem (sy_broker y) (sy_ca y) (reply (broker_resend (sy_broker y)))
        (reply (cad_resend (sy_ca y))) true true false (sy_log y)
  | BrokerCut => mkSystem (sy_broker y) (sy_ca y) (sy_to_ca y) (sy_to_broker y) false (sy_ca_up y)
                   (sy_ca_exited y) (sy_log y)
  | CaCut => mkSystem (sy_broker y) (sy_ca y) (sy_to_ca y) (sy_to_broker y) (sy_broker_up y) false
               (sy_ca_exited y) (sy_log y)
  | LoseToCa n => mkSystem (sy_broker y) (sy_ca y) (take n (sy_to_ca y)) (sy_to_broker y)
                    (sy_broker_up y) (sy_ca_up y) (sy_ca_exited y) (sy_log y)
  | LoseToBroker n => mkSystem (sy_broker y) (sy_ca y) (sy_to_ca y) (take n (sy_to_broker y))
                        (sy_broker_up y) (sy_ca_up y) (sy_ca_exited y) (sy_log y)
  | BrokerTakes id =>
      if sy_broker_up y then broker_reacts (broker_request id (sy_broker y)) (sy_to_broker y) y else y
  | BrokerReads =>
      match sy_broker_up y, sy_to_broker y with
      | true, bytes :: rest => broker_reacts (broker_incoming bytes (sy_broker y)) rest y
      | _, _ => y
      end
  | CaReads now ids =>
      match sy_ca_up y, sy_to_ca y with
      | true, bytes :: rest => ca_reacts (cad_incoming bytes now ids (sy_ca y)) rest y
      | _, _ => y
      end
  | BrokerRetry =>
      if sy_broker_up y && negb (pending_is_empty (bl_pending (sy_broker y)))
      then broker_reacts (broker_resend (sy_broker y), sy_broker y) (sy_to_broker y) y else y
  | CaRetry =>
      if sy_ca_up y && negb (pending_is_empty (cl_pending (sy_ca y)))
      then ca_reacts (cad_resend (sy_ca y), sy_ca y) (sy_to_ca y) y else y
  | RouterChanges router =>
      mkSystem (mkBrokerLink router (bl_pending (sy_broker y)) (bl_acquired (sy_broker y))) (sy_ca y)
        (sy_to_ca y) (sy_to_broker y) (sy_broker_up y) (sy_ca_up y) (sy_ca_exited y) (sy_log y)
  | CaReloads ca =>
      mkSystem (sy_broker y)
        (mkCaLink ca (cl_pending (sy_ca y)) (cl_acquired (sy_ca y)) (cl_current (sy_ca y)))
        (sy_to_ca y) (sy_to_broker y) (sy_broker_up y) (sy_ca_up y) (sy_ca_exited y) (sy_log y)
  end.

Definition link_run (steps : list LinkStep) (y : System) : System :=
  foldl (fun y st => link_step st y) y steps.

Definition link_init (router : R) (ca : S) (broker_pending broker_dedup ca_pending ca_dedup : nat) : System :=
  mkSystem (maintain_ca_link_init router broker_pending broker_dedup)
    (cad_init ca ca_pending ca_dedup) [] [] false false false [].

(** The identifiers drawn in a step. *)
Definition drawn (st : LinkStep) : list MessageId :=
  match st with
  | BrokerTakes (Some id) => [id]
  | CaReads _ ids => ids
  | _ => []
  end.
End system.
Arguments System R S : clear implicits.
Arguments LinkStep R S : clear implicits.

(** ** What the log says *)

Definition taken_id (e : LinkEvent) : option MessageId :=
  match e with Taken id _ => Some id | _ => None end.
(** Processed by the CA. *)
Definition processed_id (e : LinkEvent) : option MessageId :=
  match e with Handled id _ _ | Lost id _ => Some id | _ => None end.
Definition generated (e : LinkEvent) : list (MessageId * list byte) :=
  match e with Handled _ _ ds => ds | _ => [] end.

Definition taken_ids (log : list LinkEvent) : list MessageId := omap taken_id log.
Definition processed_ids (log : list LinkEvent) : list MessageId := omap processed_id log.
Definition all_generated (log : list LinkEvent) : list (MessageId * list byte) :=
  concat (generated <$> log).

(** The router has accepted the delivery. *)
Definition routed (log : list LinkEvent) (id : MessageId) : Prop := exists f, Routed id f ∈ log.

(** The request was processed and all of its deliveries are routed. *)
Definition completed (log : list LinkEvent) (id : MessageId) : Prop :=
  exists request ds, Handled id request ds ∈ log /\ Forall (fun d => routed log d.1) ds.

(** ** The invariant *)

(** The identifiers of the requests among frames on the way to the CA. *)
Definition request_id (bytes : list byte) : option MessageId :=
  match decode bytes with
  | Ok f => if bool_decide (link_kind f = FrameKind.Request) then Some (link_id f) else None
  | _ => None
  end.
Definition request_ids (frames : list (list byte)) : list MessageId := omap request_id frames.

(** What a frame on the way to the CA, and to the broker, tells. *)
Definition to_ca_ok (log : list LinkEvent) (bytes : list byte) : Prop :=
  exists f, decode bytes = Ok f /\
    match link_kind f with
    | FrameKind.Request => Taken (link_id f) (link_payload f) ∈ log
    | FrameKind.Ack => routed log (link_id f)
    | _ => False
    end.
Definition to_broker_ok (log : list LinkEvent) (bytes : list byte) : Prop :=
  exists f, decode bytes = Ok f /\
    match link_kind f with
    | FrameKind.Delivery => (link_id f, link_payload f) ∈ all_generated log
    | FrameKind.Ack => completed log (link_id f)
    | _ => False
    end.

(** The daemons did what they did once, in the names drawn so far. *)
Record log_ok (used : list MessageId) (log : list LinkEvent) : Prop := mkLogOk {
  lo_taken : NoDup (taken_ids log);
  lo_taken_used : taken_ids log ⊆ used;
  lo_processed : NoDup (processed_ids log);
  lo_generated : NoDup (all_generated log).*1;
  lo_generated_used : (all_generated log).*1 ⊆ used;
  lo_routed : forall id f, Routed id f ∈ log -> (id, f) ∈ all_generated log;
  lo_handled : forall id request ds, Handled id request ds ∈ log -> Taken id request ∈ log;
  lo_lost : forall id request, Lost id request ∈ log -> Taken id request ∈ log;
}.

(** The request the broker waits for: if the CA has processed it, nothing later. *)
Definition awaits (log : list LinkEvent) (entry : MessageId * list byte) : Prop :=
  exists request, Taken entry.1 request ∈ log /\
    encode FrameKind.Request entry.1 request = Ok entry.2 /\
    (entry.1 ∈ processed_ids log -> last (processed_ids log) = Some entry.1).

Record broker_ok {R} (log : list LinkEvent) (b : BrokerLink R) : Prop := mkBrokerOk {
  bo_pending : pending_inv (bl_pending b);
  bo_window : dedup_inv (bl_acquired b);
  bo_one : length (pending_view (bl_pending b)) <= 1;
  bo_awaits : Forall (awaits log) (pending_view (bl_pending b));
  bo_acquired : forall id, dedup_contains id (bl_acquired b) = true -> routed log id;
  bo_kept : forall id request, Taken id request ∈ log ->
    id ∈ (pending_view (bl_pending b)).*1 \/ completed log id;
}.

(** Requests on the way: copies of the one processed last, then of the one the
    broker waits for. *)
Record wire_ok (log : list LinkEvent) (awaited : list MessageId)
    (to_ca to_broker : list (list byte)) : Prop := mkWireOk {
  wo_to_ca : Forall (to_ca_ok log) to_ca;
  wo_to_broker : Forall (to_broker_ok log) to_broker;
  wo_requests : exists old new, request_ids to_ca = old ++ new /\
    Forall (fun id => last (processed_ids log) = Some id) old /\
    Forall (fun id => (id ∉ processed_ids log) /\ id ∈ awaited) new;
}.

Section ca_invariant.
Context {S : Type} (handler_inv : S -> Prop) (maximum : nat).

(** The delivery group of a request: acquired, or on the link. *)
Definition group_ok (log : list LinkEvent) (current : option MessageId)
    (group : list (MessageId * list byte)) : Prop :=
  match current with
  | None => group = []
  | Some id => last (processed_ids log) = Some id /\
      exists request ds, Handled id request ds ∈ log /\
        Forall (fun d => routed log d.1 \/ d.1 ∈ group.*1) ds
  end.

Record ca_ok (log : list LinkEvent) (c : CaLink S) : Prop := mkCaOk {
  co_handler : handler_inv (cl_ca c);
  co_pending : pending_inv (cl_pending c);
  co_maximum : pf_maximum (cl_pending c) = maximum;
  co_window : dedup_inv (cl_acquired c);
  co_entries : Forall (fun e => exists f, (e.1, f) ∈ all_generated log /\
    encode FrameKind.Delivery e.1 f = Ok e.2) (pending_view (cl_pending c));
  co_last : forall id, last (processed_ids log) = Some id -> dedup_contains id (cl_acquired c) = true;
  co_acquired : forall id, dedup_contains id (cl_acquired c) = true ->
    completed log id \/ cl_current c = Some id;
  co_group : group_ok log (cl_current c) (pending_view (cl_pending c));
}.
End ca_invariant.

(** Nothing is claimed of a CA that has exited: the process ends. *)
Definition ca_alive_ok {S} (handler_inv : S -> Prop) maximum log (exited up : bool) (c : CaLink S) : Prop :=
  if exited then up = false
  else ca_ok handler_inv maximum log c /\ forall id request, Lost id request ∉ log.

Record link_inv {R S} (handler_inv : S -> Prop) maximum used (y : System R S) : Prop := mkLinkInv {
  li_log : log_ok used (sy_log y);
  li_broker : broker_ok (sy_log y) (sy_broker y);
  li_wire : wire_ok (sy_log y) (pending_view (bl_pending (sy_broker y))).*1 (sy_to_ca y) (sy_to_broker y);
  li_ca : ca_alive_ok handler_inv maximum (sy_log y) (sy_ca_exited y) (sy_ca_up y) (sy_ca y);
}.

(** ** Growing the log *)

Lemma taken_ids_app l l' : taken_ids (l ++ l') = taken_ids l ++ taken_ids l'.
Proof. apply omap_app. Qed.
Lemma processed_ids_app l l' : processed_ids (l ++ l') = processed_ids l ++ processed_ids l'.
Proof. apply omap_app. Qed.
Lemma all_generated_app l l' : all_generated (l ++ l') = all_generated l ++ all_generated l'.
Proof. unfold all_generated. by rewrite fmap_app, concat_app. Qed.
Lemma request_ids_app l l' : request_ids (l ++ l') = request_ids l ++ request_ids l'.
Proof. apply omap_app. Qed.
Create Rewrite HintDb log.
#[local] Hint Rewrite taken_ids_app processed_ids_app all_generated_app request_ids_app : log.

Lemma routed_app l l' id : routed l id -> routed (l ++ l') id.
Proof. intros [f ?]. exists f. apply elem_of_app. by left. Qed.

Lemma completed_app l l' id : completed l id -> completed (l ++ l') id.
Proof.
  intros (request & ds & ? & Hall). exists request, ds. split; [apply elem_of_app; by left|].
  eapply Forall_impl; [exact Hall|]. intros d. apply routed_app.
Qed.

Lemma to_ca_ok_app l l' bytes : to_ca_ok l bytes -> to_ca_ok (l ++ l') bytes.
Proof.
  intros (f & Hd & Hf). exists f. split; [done|].
  destruct (link_kind f); try done; [apply elem_of_app; by left|by apply routed_app].
Qed.

Lemma to_broker_ok_app l l' bytes : to_broker_ok l bytes -> to_broker_ok (l ++ l') bytes.
Proof.
  intros (f & Hd & Hf). exists f. split; [done|]. rewrite all_generated_app.
  destruct (link_kind f); try done; [apply elem_of_app; by left|by apply completed_app].
Qed.

Lemma link_decode_encode kind id payload bytes :
  encode kind id payload = Ok bytes -> decode bytes = Ok (mkLinkFrame kind id payload).
Proof. apply decode_iff. Qed.

Lemma ack_encodes id : exists ack, encode FrameKind.Ack id [] = Ok ack.
Proof. eexists. apply encode_Ok. split; [|reflexivity]. split; [apply Nat.le_0_l|done]. Qed.

Lemma acknowledge_spec id log failed : exists ack,
  encode FrameKind.Ack id [] = Ok ack /\ acknowledge id log failed = mkReaction [ack] Running log.
Proof. destruct (ack_encodes id) as [ack He]. exists ack. unfold acknowledge. by rewrite He. Qed.

Lemma request_id_encoded id payload bytes :
  encode FrameKind.Request id payload = Ok bytes -> request_id bytes = Some id.
Proof. intros H%link_decode_encode. unfold request_id. by rewrite H. Qed.

Lemma request_id_ack id payload bytes : encode FrameKind.Ack id payload = Ok bytes -> request_id bytes = None.
Proof. intros H%link_decode_encode. unfold request_id. by rewrite H. Qed.

(** The broker's share of the log does not touch what the CA did. *)
Lemma broker_events_quiet log e : processed_id e = None -> generated e = [] ->
  processed_ids (log ++ [e]) = processed_ids log /\ all_generated (log ++ [e]) = all_generated log.
Proof.
  intros Hp Hg. autorewrite with log. unfold processed_ids at 2, all_generated at 2. cbn.
  rewrite Hp, Hg. cbn. by rewrite !app_nil_r.
Qed.

Lemma ca_ok_quiet {S} (handler_inv : S -> Prop) maximum log l c :
  processed_ids (log ++ l) = processed_ids log -> all_generated (log ++ l) = all_generated log ->
  ca_ok handler_inv maximum log c -> ca_ok handler_inv maximum (log ++ l) c.
Proof.
  intros Hp Hg []. constructor; try done; rewrite ?Hp, ?Hg; try done.
  - intros id Hid. destruct (co_acquired0 id Hid); [left; by apply completed_app|by right].
  - unfold group_ok in *. destruct (cl_current c) as [id|]; [|done]. rewrite Hp.
    destruct co_group0 as (? & request & ds & ? & Hall). split; [done|]. exists request, ds.
    split; [apply elem_of_app; by left|]. eapply Forall_impl; [exact Hall|].
    intros d [?|?]; [left; by apply routed_app|by right].
Qed.

Lemma log_ok_mono used used' log : used ⊆ used' -> log_ok used log -> log_ok used' log.
Proof. intros Hsub []. constructor; try done; by etrans. Qed.

Lemma broker_ok_mono {R} log l (b : BrokerLink R) : taken_ids l = [] ->
  (forall id, id ∈ processed_ids (log ++ l) -> id ∈ (pending_view (bl_pending b)).*1 ->
     last (processed_ids (log ++ l)) = Some id) ->
  broker_ok log b -> broker_ok (log ++ l) b.
Proof.
  intros Ht Hlast []. constructor; try done.
  - apply Forall_forall. intros e He. rewrite Forall_forall in bo_awaits0.
    destruct (bo_awaits0 e He) as (request & ? & ? & _). exists request.
    split; [apply elem_of_app; by left|]. split; [done|]. intros Hp. apply Hlast; [done|].
    by apply list_elem_of_fmap_2.
  - intros id Hid. apply routed_app. by apply bo_acquired0.
  - intros id request [Hin|Hin]%elem_of_app.
    + destruct (bo_kept0 id request Hin); [by left|right]. by apply completed_app.
    + assert (id ∈ taken_ids l) as Habs by (apply list_elem_of_omap; by exists (Taken id request)).
      rewrite Ht in Habs. by apply elem_of_nil in Habs.
Qed.

(** ** What is on the way *)

Lemma wire_ok_take n m log awaited to_ca to_broker :
  wire_ok log awaited to_ca to_broker -> wire_ok log awaited (take n to_ca) (take m to_broker).
Proof.
  intros [Hc Hb (old & new & Hr & Ho & Hn)].
  constructor; [by apply Forall_take|by apply Forall_take|].
  assert (request_ids (take n to_ca) `prefix_of` old ++ new) as [rest Hp].
  { exists (request_ids (drop n to_ca)). by rewrite <-Hr, <-request_ids_app, take_drop. }
  exists (take (length (request_ids (take n to_ca))) old),
    (take (length (request_ids (take n to_ca)) - length old) new).
  split; [|split; by apply Forall_take].
  rewrite <-take_app, Hp. by rewrite take_app_length.
Qed.

(** The first frame is read. *)
Lemma wire_ok_tail_ca log awaited bytes to_ca to_broker :
  wire_ok log awaited (bytes :: to_ca) to_broker -> wire_ok log awaited to_ca to_broker.
Proof.
  intros [Hc Hb (old & new & Hr & Ho & Hn)]. apply Forall_cons in Hc as [_ Hc].
  constructor; [done..|]. unfold request_ids in *. cbn in Hr.
  destruct (request_id bytes) as [id|]; [|by exists old, new].
  destruct old as [|id' old]; [destruct new as [|id' new]; [done|]|]; cbn in Hr; injection Hr as -> ->.
  - apply Forall_cons in Hn as [_ Hn]. by exists [], new.
  - apply Forall_cons in Ho as [_ Ho]. by exists old, new.
Qed.

Lemma wire_ok_tail_broker log awaited bytes to_ca to_broker :
  wire_ok log awaited to_ca (bytes :: to_broker) -> wire_ok log awaited to_ca to_broker.
Proof. intros [Hc Hb Hr]. apply Forall_cons in Hb as [_ Hb]. by constructor. Qed.

(** Frames that carry no request join it. *)
Lemma wire_ok_quiet log l awaited to_ca to_broker more more' :
  processed_ids (log ++ l) = processed_ids log ->
  Forall (to_ca_ok (log ++ l)) more -> request_ids more = [] -> Forall (to_broker_ok (log ++ l)) more' ->
  wire_ok log awaited to_ca to_broker ->
  wire_ok (log ++ l) awaited (to_ca ++ more) (to_broker ++ more').
Proof.
  intros Hp Hm Hq Hm' [Hc Hb Hr]. constructor.
  - apply Forall_app. split; [|done]. eapply Forall_impl; [exact Hc|]. intros. by apply to_ca_ok_app.
  - apply Forall_app. split; [|done]. eapply Forall_impl; [exact Hb|]. intros. by apply to_broker_ok_app.
  - by rewrite request_ids_app, Hq, app_nil_r, Hp.
Qed.

(** The broker sends again what it waits for. *)
Lemma resend_ok {R} log (b : BrokerLink R) to_ca to_broker : broker_ok log b ->
  wire_ok log (pending_view (bl_pending b)).*1 to_ca to_broker ->
  wire_ok log (pending_view (bl_pending b)).*1 (to_ca ++ reply (broker_resend b)) to_broker.
Proof.
  intros [_ _ Hone Ha _ _] [Hc Hb (old & new & Hr & Ho & Hn)].
  unfold broker_resend, go_on. cbn [reply]. rewrite pending_snapshot_view.
  destruct (pending_view (bl_pending b)) as [|[id bytes] [|? ?]]; cbn [length] in Hone; [| |lia]; cbn.
  { rewrite app_nil_r. constructor; try done. by exists old, new. }
  apply Forall_singleton in Ha as (request & Ht & He & Hlast). cbn [fst snd] in *.
  constructor; [|done|].
  - apply Forall_app. split; [done|]. apply Forall_singleton. apply link_decode_encode in He.
    eexists. split; [exact He|]. done.
  - rewrite request_ids_app, Hr. unfold request_ids. cbn. rewrite (request_id_encoded _ _ _ He).
    destruct (decide (id ∈ processed_ids log)) as [Hin|Hin].
    + assert (new = []) as ->.
      { destruct new as [|x new]; [done|]. apply Forall_cons in Hn as [[Hx Hx'] _].
        apply list_elem_of_singleton in Hx' as ->. done. }
      exists (old ++ [id]), []. rewrite !app_nil_r. split; [done|]. split; [|by constructor].
      apply Forall_app. split; [done|]. apply Forall_singleton. auto.
    + exists old, (new ++ [id]). rewrite app_assoc. split; [done|]. split; [done|].
      apply Forall_app. split; [done|]. apply Forall_singleton. split; [done|]. by left.
Qed.

(** ** The steps of the broker *)

Lemma taken_in log id request : Taken id request ∈ log -> id ∈ taken_ids log.
Proof. intros H. apply list_elem_of_omap. by exists (Taken id request). Qed.

Lemma processed_taken used log id : log_ok used log -> id ∈ processed_ids log -> id ∈ taken_ids log.
Proof.
  intros [_ _ _ _ _ _ Hh Hl] (e & He & Hid)%list_elem_of_omap.
  destruct e; try done; injection Hid as ->; eauto using taken_in.
Qed.

(** What the broker adds to the log changes only what it did. *)
Definition quiet (l : list LinkEvent) : Prop := processed_ids l = [] /\ all_generated l = [].

Lemma quiet_app log l : quiet l ->
  processed_ids (log ++ l) = processed_ids log /\ all_generated (log ++ l) = all_generated log.
Proof. intros [Hp Hg]. rewrite processed_ids_app, all_generated_app, Hp, Hg. by rewrite !app_nil_r. Qed.

Lemma quiet_nil : quiet [].
Proof. done. Qed.

Section broker_steps.
Context {R : Type} `{DeliveryRouter R}.
Implicit Types b : BrokerLink R.

(** What a step of the broker keeps. *)
Record broker_keeps used log to_ca to_broker (x : Reaction * BrokerLink R) : Prop := mkBrokerKeeps {
  bk_log : log_ok used (log ++ events x.1);
  bk_broker : broker_ok (log ++ events x.1) x.2;
  bk_wire : wire_ok (log ++ events x.1) (pending_view (bl_pending x.2)).*1
    (to_ca ++ reply x.1) to_broker;
  bk_quiet : quiet (events x.1);
}.

Lemma broker_keeps_silent used log to_ca to_broker p b : log_ok used log -> broker_ok log b ->
  wire_ok log (pending_view (bl_pending b)).*1 to_ca to_broker ->
  broker_keeps used log to_ca to_broker (mkReaction [] p [], b).
Proof. intros. constructor; cbn [events reply fst snd]; rewrite ?app_nil_r; done. Qed.

(** A request dropped says nothing of the others. *)
Lemma broker_keeps_dropped used log to_ca to_broker request p b : log_ok used log -> broker_ok log b ->
  wire_ok log (pending_view (bl_pending b)).*1 to_ca to_broker ->
  broker_keeps used log to_ca to_broker (mkReaction [] p [Dropped request], b).
Proof.
  intros Hlog Hb Hw. destruct (quiet_app log [Dropped request]) as [Hq1 Hq2]; [done|].
  constructor; cbn [events reply fst snd]; [| | |done].
  - destruct Hlog. constructor; rewrite ?taken_ids_app, ?Hq1, ?Hq2, ?app_nil_r; try done.
    + intros i g [?|[=]%list_elem_of_singleton]%elem_of_app. auto.
    + intros i r ds [?|[=]%list_elem_of_singleton]%elem_of_app. apply elem_of_app. eauto.
    + intros i r [?|[=]%list_elem_of_singleton]%elem_of_app. apply elem_of_app. eauto.
  - apply broker_ok_mono; [done| |done]. intros x Hx (e & -> & He)%list_elem_of_fmap.
    rewrite Hq1 in *. destruct Hb. rewrite Forall_forall in bo_awaits0.
    destruct (bo_awaits0 e He) as (? & _ & _ & Hlast). auto.
  - rewrite app_nil_r, <-(app_nil_r to_ca), <-(app_nil_r to_broker). by apply wire_ok_quiet.
Qed.

Lemma broker_ok_router log b (router : R) :
  broker_ok log b -> broker_ok log (mkBrokerLink router (bl_pending b) (bl_acquired b)).
Proof. intros []. by constructor. Qed.

Lemma broker_takes_ok used log to_ca to_broker b (router : R) pending id request encoded :
  log_ok used log -> broker_ok log b ->
  wire_ok log (pending_view (bl_pending b)).*1 to_ca to_broker ->
  id ∉ used -> pending_view (bl_pending b) = [] ->
  encode FrameKind.Request id request = Ok encoded ->
  pending_insert id encoded (bl_pending b) = (Ok tt, pending) ->
  broker_keeps (used ++ [id]) log to_ca to_broker
    (mkReaction [encoded] Running [Taken id request], mkBrokerLink router pending (bl_acquired b)).
Proof.
  intros Hlog Hb [Hc Hbr (old & new & Hr & Ho & Hn)] Hid Hempty Henc Hins.
  apply pending_insert_cases in Hins as (Hp & _ & _ & _ & Hview); [|apply Hb]. rewrite Hempty in *.
  assert (new = []) as -> by (destruct new as [|x new]; [done|]; apply Forall_cons in Hn as [[_ []%elem_of_nil] _]).
  assert (id ∉ taken_ids log) as Hnew by (intros Hin; apply Hid; by apply (lo_taken_used _ _ Hlog)).
  assert (id ∉ processed_ids log) as Hnp by (intros Hin; by apply Hnew, (processed_taken used)).
  destruct (quiet_app log [Taken id request]) as [Hq1 Hq2]; [done|].
  constructor; cbn [events reply fst snd bl_pending]; [| | |done].
  - destruct Hlog. constructor; rewrite ?taken_ids_app, ?Hq1, ?Hq2; try done.
    + apply NoDup_app. split; [done|]. split; [|apply NoDup_singleton].
      intros x Hx ->%list_elem_of_singleton. done.
    + set_solver.
    + set_solver.
    + intros i f [?|[=]%list_elem_of_singleton]%elem_of_app. auto.
    + intros i r ds [?|[=]%list_elem_of_singleton]%elem_of_app. apply elem_of_app. eauto.
    + intros i r [?|[=]%list_elem_of_singleton]%elem_of_app. apply elem_of_app. eauto.
  - destruct Hb. constructor; cbn [bl_pending bl_acquired]; rewrite ?Hview; try done.
    + apply Forall_singleton. exists request. cbn [fst snd]. split; [apply elem_of_app; right; by left|].
      split; [done|]. by rewrite Hq1.
    + intros. by apply routed_app, bo_acquired0.
    + intros i r [Hi|[= -> ->]%list_elem_of_singleton]%elem_of_app; [|left; by left].
      destruct (bo_kept0 i r Hi) as [Habs|]; [|right; by apply completed_app].
      rewrite Hempty in Habs. by apply elem_of_nil in Habs.
  - rewrite Hview. constructor.
    + apply Forall_app. split; [eapply Forall_impl; [exact Hc|]; intros; by apply to_ca_ok_app|].
      apply Forall_singleton. apply link_decode_encode in Henc. eexists. split; [exact Henc|].
      apply elem_of_app. right. by left.
    + eapply Forall_impl; [exact Hbr|]. intros. by apply to_broker_ok_app.
    + rewrite app_nil_r in Hr. rewrite request_ids_app, Hr, Hq1. exists old, [id].
      unfold request_ids. cbn. rewrite (request_id_encoded _ _ _ Henc). split; [done|]. split; [done|].
      apply Forall_singleton. split; [done|by left].
Qed.

Lemma broker_request_ok used log to_ca to_broker b id :
  log_ok used log -> broker_ok log b ->
  wire_ok log (pending_view (bl_pending b)).*1 to_ca to_broker ->
  (forall x, id = Some x -> x ∉ used) ->
  broker_keeps (used ++ option_list id) log to_ca to_broker (broker_request id b).
Proof.
  intros Hlog Hb Hw Hid.
  assert (log_ok (used ++ option_list id) log) as Hlog' by (eapply log_ok_mono; [|done]; set_solver).
  assert (forall router request, broker_keeps (used ++ option_list id) log to_ca to_broker
            (mkReaction [] Running [Dropped request], mkBrokerLink router (bl_pending b) (bl_acquired b))) as Hdrop.
  { intros router request. apply broker_keeps_dropped; [done|by apply broker_ok_router|done]. }
  unfold broker_request. destruct (_ && _) eqn:Hguard; [|by apply broker_keeps_silent].
  apply andb_true_iff in Hguard as [Hempty _].
  rewrite pending_is_empty_view, bool_decide_eq_true in Hempty by apply Hb.
  destruct (next_request _) as [[request|] router];
    [|apply broker_keeps_silent; [done|by apply broker_ok_router|done]].
  destruct id as [id|]; [|apply Hdrop].
  destruct (encode _ id request) as [encoded|e|] eqn:Henc; [|apply Hdrop..].
  destruct (pending_insert _ _ _) as [[[]|e|] pending] eqn:Hins; [|apply Hdrop..].
  eapply broker_takes_ok; [done..| |done|exact Henc|exact Hins]. by apply Hid.
Qed.

Lemma broker_acknowledged log b id :
  broker_ok log b -> completed log id ->
  broker_ok log (mkBrokerLink (bl_router b) (pending_acknowledge id (bl_pending b)).2 (bl_acquired b)).
Proof.
  intros [] Hdone. destruct (pending_acknowledge_view (bl_pending b) id) as (Hp & _ & Hv); [done|].
  constructor; cbn [bl_pending bl_acquired]; try done; rewrite ?Hv.
  - etrans; [apply length_filter|done].
  - apply Forall_forall. intros e [_ He]%list_elem_of_filter. rewrite Forall_forall in bo_awaits0. auto.
  - intros x r Hx. destruct (bo_kept0 x r Hx) as [(e & -> & He)%list_elem_of_fmap|]; [|by right].
    destruct (decide (e.1 = id)) as [->|Hne]; [by right|left].
    apply list_elem_of_fmap. exists e. split; [done|]. by apply list_elem_of_filter.
Qed.

(** The request awaited is not on the way behind its acknowledgement. *)
Lemma wire_acknowledged used log p id to_ca to_broker : log_ok used log -> pending_inv p ->
  completed log id -> wire_ok log (pending_view p).*1 to_ca to_broker ->
  wire_ok log (pending_view (pending_acknowledge id p).2).*1 to_ca to_broker.
Proof.
  intros Hlog Hp (request & ds & Hdone & _) [Hc Hb (old & new & Hr & Ho & Hn)].
  destruct (pending_acknowledge_view p id) as (_ & _ & ->); [done|].
  constructor; [done..|]. exists old, new. split; [done|]. split; [done|].
  eapply Forall_impl; [exact Hn|]. intros x [Hx (e & -> & He)%list_elem_of_fmap]. split; [done|].
  apply list_elem_of_fmap. exists e. split; [done|]. apply list_elem_of_filter. split; [|done].
  intros Heq. apply Hx. apply list_elem_of_omap. exists (Handled id request ds). by rewrite Heq.
Qed.

(** A delivery that the router accepts. *)
Lemma broker_routes_ok used log to_ca to_broker b (router : R) acquired id f ack :
  log_ok used log -> broker_ok log b ->
  wire_ok log (pending_view (bl_pending b)).*1 to_ca to_broker ->
  (id, f) ∈ all_generated log -> dedup_inv acquired ->
  (forall x, dedup_contains x acquired = true -> dedup_contains x (bl_acquired b) = true \/ x = id) ->
  Forall (fun a => encode FrameKind.Ack id [] = Ok a) ack -> forall p,
  broker_keeps used log to_ca to_broker
    (mkReaction ack p [Routed id f], mkBrokerLink router (bl_pending b) acquired).
Proof.
  intros Hlog Hb Hw Hgen Hinv Hacq Hack p.
  assert (quiet [Routed id f]) as Hq by done. destruct (quiet_app log _ Hq) as [Hq1 Hq2].
  assert (routed (log ++ [Routed id f]) id) as Hrouted.
  { exists f. apply elem_of_app. right. by left. }
  constructor; cbn [events reply fst snd bl_pending]; [| | |done].
  - destruct Hlog. constructor; rewrite ?taken_ids_app, ?Hq1, ?Hq2, ?app_nil_r; try done.
    + intros i g [?|[= -> ->]%list_elem_of_singleton]%elem_of_app; auto.
    + intros i r ds [?|[=]%list_elem_of_singleton]%elem_of_app. apply elem_of_app. eauto.
    + intros i r [?|[=]%list_elem_of_singleton]%elem_of_app. apply elem_of_app. eauto.
  - assert (broker_ok (log ++ [Routed id f]) b) as [].
    { apply broker_ok_mono; [done| |done]. intros x Hx (e & -> & He)%list_elem_of_fmap.
      rewrite Hq1 in *. destruct Hb. rewrite Forall_forall in bo_awaits0.
      destruct (bo_awaits0 e He) as (? & _ & _ & Hlast). auto. }
    constructor; try done. intros x [Hx| ->]%Hacq; [by apply bo_acquired0|done].
  - rewrite <-(app_nil_r to_broker). apply wire_ok_quiet; [done| | |by constructor|done].
    + eapply Forall_impl; [exact Hack|]. intros a Ha%link_decode_encode. by eexists.
    + clear Hw. induction Hack as [|a l Ha _ IH]; [done|]. unfold request_ids in *. cbn.
      by rewrite (request_id_ack _ _ _ Ha).
Qed.

Lemma broker_incoming_ok used log bytes to_ca to_broker b : log_ok used log -> broker_ok log b ->
  wire_ok log (pending_view (bl_pending b)).*1 to_ca (bytes :: to_broker) ->
  broker_keeps used log to_ca to_broker (broker_incoming bytes b).
Proof.
  intros Hlog Hb Hw. pose proof (wire_ok_tail_broker _ _ _ _ _ Hw) as Hw'.
  pose proof (wo_to_broker _ _ _ _ Hw) as [(f & Hd & Hf) _]%Forall_cons.
  unfold broker_incoming. rewrite Hd. destruct (link_kind f); try done; cycle 1.
  - apply broker_keeps_silent; cbn [bl_pending]; [done|by apply broker_acknowledged|].
    eapply wire_acknowledged; [done|apply Hb|done..].
  - destruct (dedup_contains _ _) eqn:Hdup.
    + destruct (acknowledge_spec (link_id f) [] Over) as (ack & He & ->).
      constructor; cbn [events reply fst snd]; rewrite ?app_nil_r; try done.
      rewrite <-(app_nil_r to_broker), <-(app_nil_r log).
      apply wire_ok_quiet; rewrite ?app_nil_r; try done.
      * apply Forall_singleton. eexists. split; [by apply link_decode_encode|]. cbn. by apply Hb.
      * unfold request_ids. cbn. by rewrite (request_id_ack _ _ _ He).
    + destruct (deliver _ _) as [[] router]; [|apply broker_keeps_silent; [done|by apply broker_ok_router|done]].
      destruct (dedup_insert _ _) as [r acquired] eqn:Hins.
      apply dedup_insert_cases in Hins as (Hinv & _ & _ & Hacq); [|apply Hb].
      destruct (acknowledge_spec (link_id f) [Routed (link_id f) (link_payload f)] Over) as (ack & He & ->).
      destruct r; apply broker_routes_ok; try done; by apply Forall_singleton.
Qed.
End broker_steps.

(** ** The steps of the CA *)

Lemma encode_deliveries_run deliveries ids p r p' : pending_inv p ->
  encode_deliveries deliveries ids p = (r, p') ->
  pending_inv p' /\ pf_maximum p' = pf_maximum p /\
  match r with
  | Ok (encoded, acquired) =>
      acquired.*1 `prefix_of` ids /\
      Forall2 (fun d e => encode FrameKind.Delivery d.1 d.2 = Ok e) acquired encoded /\
      pending_view p' = pending_view p ++ zip acquired.*1 encoded
  | _ => True
  end.
Proof.
  revert ids p r p'. induction deliveries as [|f deliveries IH]; intros ids p r p' Hp; cbn [encode_deliveries].
  { intros [= <- <-]. do 2 (split; [done|]). split; [apply prefix_nil|]. split; [constructor|].
    cbn. by rewrite app_nil_r. }
  destruct ids as [|id ids]; [by intros [= <- <-]|]. rewrite M_bind_run. unfold lift.
  destruct (encode _ id f) as [encoded|e|] eqn:Henc; [|by intros [= <- <-]..].
  rewrite M_bind_run. destruct (pending_insert _ _ _) as [r1 p1] eqn:Hins.
  apply pending_insert_cases in Hins as (Hp1 & Hmax & _ & Hr1); [|done].
  destruct r1 as [[]|e|]; [|by intros [= <- <-]; subst..]. destruct Hr1 as [_ Hv].
  rewrite M_bind_run. destruct (encode_deliveries deliveries ids p1) as [r2 p2] eqn:Hrun.
  apply IH in Hrun as (Hp2 & Hmax2 & Hr2); [|done]. rewrite Hmax in Hmax2.
  destruct r2 as [[enc acq]|e|]; intros [= <- <-]; [|done..].
  destruct Hr2 as (Hpre & Hall & Hv2). do 2 (split; [done|]). cbn.
  split; [by apply prefix_cons|]. split; [by constructor|]. by rewrite Hv2, Hv, <-app_assoc.
Qed.

(** The log after the CA has processed a request. *)
Lemma log_ok_processed used ids log id request e ds : log_ok used log ->
  processed_id e = Some id -> generated e = ds -> taken_id e = None ->
  match e with Handled _ r _ | Lost _ r => r = request | _ => True end ->
  id ∉ processed_ids log -> Taken id request ∈ log ->
  NoDup ids -> (forall x, x ∈ ids -> x ∉ used) -> ds.*1 `prefix_of` ids ->
  log_ok (used ++ ids) (log ++ [e]).
Proof.
  intros [] He Hds Htk Hreq Hid Htaken Hnd Hfresh [rest Hpre].
  assert (all_generated [e] = ds) as Hg by (unfold all_generated; cbn; by rewrite Hds, app_nil_r).
  assert (processed_ids [e] = [id]) as Hp by (unfold processed_ids; cbn; by rewrite He).
  assert (taken_ids [e] = []) as Ht by (unfold taken_ids; cbn; by rewrite Htk).
  subst ids. apply NoDup_app in Hnd as (Hnd & _ & _).
  constructor; rewrite ?taken_ids_app, ?processed_ids_app, ?all_generated_app, ?Hg, ?Hp, ?Ht, ?app_nil_r; try done.
  - set_solver.
  - apply NoDup_app. split; [done|]. split; [|apply NoDup_singleton]. set_solver.
  - rewrite fmap_app. apply NoDup_app. split; [done|]. split; [|done].
    intros x Hx1%lo_generated_used0 Hx2. apply (Hfresh x); [|done]. apply elem_of_app. by left.
  - rewrite fmap_app. set_solver.
  - intros i f [Hi| <-%list_elem_of_singleton]%elem_of_app; [|done]. apply elem_of_app. left. auto.
  - intros i r l [Hi| <-%list_elem_of_singleton]%elem_of_app; apply elem_of_app; left; [eauto|].
    injection He as ->. by subst r.
  - intros i r [Hi| <-%list_elem_of_singleton]%elem_of_app; apply elem_of_app; left; [eauto|].
    injection He as ->. by subst r.
Qed.

(** What is left on the way are copies of the request that was just processed. *)
Lemma wire_processed log l awaited id bytes to_ca to_broker more :
  wire_ok log awaited (bytes :: to_ca) to_broker -> request_id bytes = Some id ->
  length awaited <= 1 -> id ∉ processed_ids log -> processed_ids l = [id] ->
  (forall x, last (processed_ids log) = Some x -> x ∈ processed_ids log) ->
  Forall (to_broker_ok (log ++ l)) more ->
  wire_ok (log ++ l) awaited to_ca (to_broker ++ more) /\ awaited = [id].
Proof.
  intros [Hc Hb (old & new & Hr & Ho & Hn)] Hid Hlen Hnew Hl Hlast Hm.
  apply Forall_cons in Hc as [_ Hc]. unfold request_ids in Hr. cbn in Hr. rewrite Hid in Hr.
  destruct old as [|x old]; cycle 1.
  { injection Hr as <- _. apply Forall_cons in Ho as [Ho _]. by apply Hlast in Ho. }
  cbn in Hr. rewrite <-Hr in Hn. apply Forall_cons in Hn as [[_ Hin] Hn].
  assert (awaited = [id]) as ->.
  { destruct awaited as [|x [|? ?]]; cbn [length] in Hlen; [|by apply list_elem_of_singleton in Hin as ->|lia].
    by apply elem_of_nil in Hin. }
  split; [|done]. constructor.
  - eapply Forall_impl; [exact Hc|]. intros. by apply to_ca_ok_app.
  - apply Forall_app. split; [|done]. eapply Forall_impl; [exact Hb|]. intros. by apply to_broker_ok_app.
  - exists (request_ids to_ca), []. rewrite app_nil_r. split; [done|]. split; [|constructor].
    rewrite processed_ids_app, Hl. eapply Forall_impl; [exact Hn|].
    intros x [_ ->%list_elem_of_singleton]. by rewrite last_snoc.
Qed.

Lemma last_in {A} (l : list A) x : last l = Some x -> x ∈ l.
Proof. intros (l' & ->)%last_Some. apply elem_of_app. right. by left. Qed.

(** What the link needs of the CA: it does not answer a request with more
    deliveries than [pending_deliveries] holds. *)
Class RequestHandlerLaws (S : Type) `{RequestHandler S} (handler_inv : S -> Prop) (maximum : nat) : Prop := {
  handle_law envelope now s r s' : handler_inv s -> handle envelope now s = (r, s') ->
    handler_inv s' /\
    match r with Ok (ProcessResult.Deliveries ds) => length ds <= maximum | _ => True end;
}.

Section ca_steps.
Context {S : Type} `{HS : RequestHandlerLaws S handler_inv maximum}.
Implicit Types c : CaLink S.

Abbreviation ca_ok := (ca_ok handler_inv maximum).

Lemma ca_ok_processed log c id request ds ca pending acquired current :
  ca_ok log c -> cl_current c = None -> handler_inv ca -> pending_inv pending ->
  pf_maximum pending = maximum ->
  dedup_insert id (cl_acquired c) = (Ok tt, acquired) ->
  Forall (fun e => exists f, (e.1, f) ∈ ds /\ encode FrameKind.Delivery e.1 f = Ok e.2)
    (pending_view pending) ->
  Forall (fun d => d.1 ∈ (pending_view pending).*1) ds ->
  match current with None => ds = [] /\ pending_view pending = [] | Some x => x = id end ->
  ca_ok (log ++ [Handled id request ds]) (mkCaLink ca pending acquired current).
Proof.
  intros [] Hnone Hca Hp Hmax Hins Hent Hall Hcur.
  apply dedup_insert_cases in Hins as (Hw & _ & Hin & Hacq); [|done].
  assert (last (processed_ids (log ++ [Handled id request ds])) = Some id) as Hlast.
  { rewrite processed_ids_app. unfold processed_ids at 2. cbn. apply last_snoc. }
  assert (Handled id request ds ∈ log ++ [Handled id request ds]) as Hhandled.
  { apply elem_of_app. right. by left. }
  constructor; cbn [cl_ca cl_pending cl_acquired cl_current]; try done.
  - eapply Forall_impl; [exact Hent|]. intros e (f & Hf & ?). exists f. split; [|done].
    rewrite all_generated_app. apply elem_of_app. right. unfold all_generated. cbn. by rewrite app_nil_r.
  - intros x. rewrite Hlast. intros [= <-]. by apply Hin.
  - intros x [Hx| ->]%Hacq.
    + left. apply completed_app. destruct (co_acquired0 x Hx) as [|Habs]; [done|]. by rewrite Hnone in Habs.
    + destruct current as [x|]; [right; by subst|left]. destruct Hcur as [-> _].
      exists request, []. split; [done|constructor].
  - destruct current as [x|]; [subst x|tauto]. split; [done|]. exists request, ds. split; [done|].
    eapply Forall_impl; [exact Hall|]. auto.
Qed.

(** What a step of the CA keeps. *)
Record ca_keeps used log awaited to_ca to_broker (x : Reaction * CaLink S) : Prop := mkCaKeeps {
  ck_log : log_ok used (log ++ events x.1);
  ck_wire : wire_ok (log ++ events x.1) awaited to_ca (to_broker ++ reply x.1);
  ck_alive : progress x.1 = Exited \/
    (ca_ok (log ++ events x.1) x.2 /\ forall id request, Lost id request ∉ events x.1);
  ck_taken : taken_ids (events x.1) = [];
  ck_awaited : (forall x, x ∈ processed_ids log -> x ∈ awaited -> last (processed_ids log) = Some x) ->
    forall y, y ∈ processed_ids (log ++ events x.1) -> y ∈ awaited ->
      last (processed_ids (log ++ events x.1)) = Some y;
}.

Lemma ca_keeps_silent used log awaited to_ca to_broker c p frames : log_ok used log ->
  wire_ok log awaited to_ca to_broker -> Forall (to_broker_ok log) frames -> ca_ok log c ->
  ca_keeps used log awaited to_ca to_broker (mkReaction frames p [], c).
Proof.
  intros. constructor; cbn [events reply progress fst snd]; rewrite ?app_nil_r; try done.
  - rewrite <-(app_nil_r to_ca), <-(app_nil_r log). apply wire_ok_quiet; rewrite ?app_nil_r; done.
  - right. split; [done|]. intros id request []%elem_of_nil.
Qed.

Lemma ca_acknowledges used log awaited to_ca to_broker c id : log_ok used log ->
  wire_ok log awaited to_ca to_broker -> ca_ok log c -> completed log id ->
  ca_keeps used log awaited to_ca to_broker (acknowledge id [] Exited, c).
Proof.
  intros Hlog Hw Hc Hdone. destruct (acknowledge_spec id [] Exited) as (ack & He & ->).
  apply ca_keeps_silent; try done. apply Forall_singleton. apply link_decode_encode in He. by eexists.
Qed.

Lemma ca_keeps_processed used ids log awaited bytes to_ca to_broker c e ds frames p id request :
  log_ok used log -> wire_ok log awaited (bytes :: to_ca) to_broker ->
  request_id bytes = Some id -> length awaited <= 1 -> id ∉ processed_ids log ->
  Taken id request ∈ log -> NoDup ids -> (forall x, x ∈ ids -> x ∉ used) ->
  e = Handled id request ds \/ e = Lost id request /\ ds = [] ->
  ds.*1 `prefix_of` ids -> Forall (to_broker_ok (log ++ [e])) frames ->
  p = Exited \/ (e = Handled id request ds /\ ca_ok (log ++ [e]) c) ->
  ca_keeps (used ++ ids) log awaited to_ca to_broker (mkReaction frames p [e], c).
Proof.
  intros Hlog Hw Hrid Hlen Hid Ht Hnd Hfresh He Hpre Hframes Hp.
  assert (processed_ids [e] = [id] /\ taken_ids [e] = [] /\ processed_id e = Some id /\
    generated e = ds /\ taken_id e = None /\
    match e with Handled _ r _ | Lost _ r => r = request | _ => True end)
    as (Hp1 & Ht1 & He1 & He2 & He3 & He4) by (destruct He as [->|[-> ->]]; done).
  eapply (wire_processed log [e]) in Hw as [Hw Haw]; [|done..| |done]; cycle 1.
  { intros x. apply last_in. }
  constructor; cbn [events reply progress fst snd]; try done.
  - eapply log_ok_processed; done.
  - destruct Hp as [|[-> ?]]; [by left|right]. split; [done|].
    intros i r [=]%list_elem_of_singleton.
  - intros _ y _. rewrite Haw. intros ->%list_elem_of_singleton.
    by rewrite processed_ids_app, Hp1, last_snoc.
Qed.

Lemma finish_request_ok used ids log awaited bytes to_ca to_broker c ca id request :
  log_ok used log -> wire_ok log awaited (bytes :: to_ca) to_broker ->
  request_id bytes = Some id -> length awaited <= 1 -> id ∉ processed_ids log ->
  Taken id request ∈ log -> NoDup ids -> (forall x, x ∈ ids -> x ∉ used) ->
  ca_ok log c -> cl_current c = None -> handler_inv ca -> forall pending,
  pending_inv pending -> pf_maximum pending = maximum -> pending_view pending = [] ->
  ca_keeps (used ++ ids) log awaited to_ca to_broker
    (finish_request id [Handled id request []] (mkCaLink ca pending (cl_acquired c) None)).
Proof.
  intros Hlog Hw Hrid Hlen Hid Ht Hnd Hfresh Hc Hnone Hca pending Hp Hmax Hempty.
  unfold finish_request. cbn [cl_ca cl_pending cl_acquired cl_current].
  destruct (acknowledge_spec id [Handled id request []] Exited) as (ack & He & ->).
  assert (to_broker_ok (log ++ [Handled id request []]) ack) as Hack.
  { eexists. split; [by apply link_decode_encode|]. exists request, [].
    split; [apply elem_of_app; right; by left|constructor]. }
  destruct (dedup_insert _ _) as [[[]|x|] acquired] eqn:Hins;
    eapply ca_keeps_processed; try done; try (by left); try (by apply prefix_nil);
    try (by apply Forall_singleton); try (by constructor).
  right. split; [done|]. eapply ca_ok_processed; try done; rewrite ?Hempty; done || constructor.
Qed.

Lemma zip_entries (l : list (MessageId * list byte)) enc :
  Forall2 (fun d e => encode FrameKind.Delivery d.1 d.2 = Ok e) l enc ->
  Forall (fun e => exists f, (e.1, f) ∈ l /\ encode FrameKind.Delivery e.1 f = Ok e.2) (zip l.*1 enc) /\
  (zip l.*1 enc).*1 = l.*1 /\ length enc = length l.
Proof.
  induction 1 as [|[id f] e l enc He Hall (IH1 & IH2 & IH3)]; [done|]. cbn [fmap list_fmap zip zip_with fst snd] in *.
  split; [|split; [by rewrite IH2|cbn; by rewrite IH3]]. constructor.
  - exists f. split; [by left|done].
  - eapply Forall_impl; [exact IH1|]. intros x (g & ? & ?). exists g. split; [by right|done].
Qed.

Lemma cad_request_ok used ids log awaited bytes to_ca to_broker c id request now :
  log_ok used log -> wire_ok log awaited (bytes :: to_ca) to_broker ->
  request_id bytes = Some id -> length awaited <= 1 -> id ∉ processed_ids log ->
  Taken id request ∈ log -> NoDup ids -> (forall x, x ∈ ids -> x ∉ used) ->
  ca_ok log c -> cl_current c = None ->
  ca_keeps (used ++ ids) log awaited to_ca to_broker (cad_request id request now ids c).
Proof.
  intros Hlog Hw Hrid Hlen Hid Ht Hnd Hfresh Hc Hnone.
  pose proof (co_group _ _ _ _ Hc) as Hempty. rewrite Hnone in Hempty. cbn in Hempty.
  pose proof (co_pending _ _ _ _ Hc) as Hp. pose proof (co_maximum _ _ _ _ Hc) as Hmax.
  unfold cad_request. destruct (handle _ _ _) as [r ca] eqn:Hrun.
  apply handle_law in Hrun as [Hca Hr]; [|apply Hc].
  assert (ca_keeps (used ++ ids) log awaited to_ca to_broker
    (finish_request id [Handled id request []] (mkCaLink ca (cl_pending c) (cl_acquired c) None))) as Hfin.
  { eapply finish_request_ok; done. }
  cbn [cl_ca cl_pending cl_acquired cl_current]. rewrite Hnone.
  destruct r as [[|ds]|x|]; [exact Hfin| |exact Hfin|]; cycle 1.
  { constructor; cbn [events reply progress fst snd]; rewrite ?app_nil_r; try done.
    - eapply log_ok_mono; [|done]. set_solver.
    - by eapply wire_ok_tail_ca.
    - by left. }
  unfold pending_remaining. rewrite pending_size, Hempty, Hmax, Nat.sub_0_r, (proj2 (Nat.ltb_ge _ _)) by done.
  destruct (encode_deliveries _ _ _) as [r pending] eqn:Hrun.
  apply encode_deliveries_run in Hrun as (Hp' & Hmax' & Hr'); [|done].
  destruct r as [[enc acq]|x|];
    [|eapply ca_keeps_processed; try done; auto using prefix_nil, Forall_nil_2..].
  rewrite Hempty in Hr'. cbn [app] in Hr'. destruct Hr' as (Hpre & Hall & Hview).
  destruct (zip_entries _ _ Hall) as (Hent & Hids & Henc).
  assert (Forall (to_broker_ok (log ++ [Handled id request acq])) enc) as Hsent.
  { apply Forall_forall. intros e (i & He)%list_elem_of_lookup.
    destruct (Forall2_lookup_r _ _ _ _ _ Hall He) as ([d f] & Hd & ?%link_decode_encode).
    eexists. split; [done|]. cbn. rewrite all_generated_app. apply elem_of_app. right.
    unfold all_generated. cbn. rewrite app_nil_r. by eapply list_elem_of_lookup_2. }
  destruct enc as [|e0 enc].
  { destruct acq; [|done]. eapply finish_request_ok; try done. by rewrite Hmax'. }
  destruct (dedup_insert _ _) as [[[]|x|] acquired] eqn:Hins;
    eapply ca_keeps_processed; try done; auto using Forall_nil_2.
  right. split; [done|]. eapply ca_ok_processed; try done; rewrite ?Hview, ?Hmax'; try done.
  apply Forall_forall. intros d Hd. rewrite Hids. by apply list_elem_of_fmap_2.
Qed.

Lemma ca_acknowledged log c id current : ca_ok log c -> routed log id ->
  let pending := (pending_acknowledge id (cl_pending c)).2 in
  (current = cl_current c \/ current = None /\ pending_view pending = [] /\
     forall x, cl_current c = Some x -> completed log x) ->
  ca_ok log (mkCaLink (cl_ca c) pending (cl_acquired c) current).
Proof.
  intros [] Hrouted. destruct (pending_acknowledge_view (cl_pending c) id) as (Hp & Hmax & Hv); [done|].
  intros pending Hcur. subst pending.
  constructor; cbn [cl_ca cl_pending cl_acquired cl_current]; try done.
  - rewrite Hv. apply Forall_forall. intros e [_ He]%list_elem_of_filter.
    rewrite Forall_forall in co_entries0. auto.
  - intros x Hx. destruct (co_acquired0 x Hx) as [|Heq]; [by left|].
    destruct Hcur as [->|(_ & _ & Hdone)]; [by right|left; auto].
  - destruct Hcur as [->|(-> & -> & _)]; [|done]. rewrite Hv. unfold group_ok in *.
    destruct (cl_current c) as [x|]; [|by rewrite co_group0].
    destruct co_group0 as (? & request & ds & ? & Hall). split; [done|]. exists request, ds. split; [done|].
    eapply Forall_impl; [exact Hall|]. intros d [|(e & He & Hin)%list_elem_of_fmap]; [by left|].
    destruct (decide (e.1 = id)) as [<-|Hne]; [left; by rewrite He|right].
    apply list_elem_of_fmap. exists e. split; [done|]. by apply list_elem_of_filter.
Qed.

(** The request is completed when its last delivery is acknowledged. *)
Lemma group_completed log c id : ca_ok log c -> routed log id ->
  pending_view (pending_acknowledge id (cl_pending c)).2 = [] ->
  forall x, cl_current c = Some x -> completed log x.
Proof.
  intros [] Hrouted Hempty x Hx. rewrite Hx in co_group0.
  destruct (pending_acknowledge_view (cl_pending c) id) as (_ & _ & Hv); [done|]. rewrite Hempty in Hv.
  destruct co_group0 as (_ & request & ds & ? & Hall). exists request, ds. split; [done|].
  eapply Forall_impl; [exact Hall|]. intros d [|(e & He & Hin)%list_elem_of_fmap]; [done|].
  destruct (decide (e.1 = id)) as [<-|Hne]; [by rewrite He|].
  assert (e ∈ filter (fun kv => kv.1 <> id) (pending_view (cl_pending c))) as Habs
    by by apply list_elem_of_filter.
  rewrite <-Hv in Habs. by apply elem_of_nil in Habs.
Qed.

Lemma cad_incoming_ok used ids log awaited bytes to_ca to_broker c now :
  log_ok used log -> wire_ok log awaited (bytes :: to_ca) to_broker -> length awaited <= 1 ->
  NoDup ids -> (forall x, x ∈ ids -> x ∉ used) -> ca_ok log c ->
  ca_keeps (used ++ ids) log awaited to_ca to_broker (cad_incoming bytes now ids c).
Proof.
  intros Hlog Hw Hlen Hnd Hfresh Hc. pose proof (wire_ok_tail_ca _ _ _ _ _ Hw) as Hw'.
  assert (log_ok (used ++ ids) log) as Hlog' by (eapply log_ok_mono; [|done]; set_solver).
  pose proof (wo_to_ca _ _ _ _ Hw) as [(f & Hd & Hf) _]%Forall_cons.
  assert (link_kind f = FrameKind.Request -> request_id bytes = Some (link_id f)) as Hrid.
  { intros Hk. unfold request_id. by rewrite Hd, bool_decide_eq_true_2. }
  unfold cad_incoming. rewrite Hd. destruct (link_kind f) eqn:Hk; try done.
  - case_bool_decide as Hcur; [by apply ca_keeps_silent|].
    destruct (dedup_contains _ _) eqn:Hdup.
    { apply ca_acknowledges; try done. by destruct (co_acquired _ _ _ _ Hc _ Hdup). }
    case_bool_decide as Hnone; [|by apply ca_keeps_silent]. specialize (Hrid eq_refl).
    eapply cad_request_ok; try done. intros Hin.
    destruct (wo_requests _ _ _ _ Hw) as (old & new & Hr & Ho & Hn).
    unfold request_ids in Hr. cbn in Hr. rewrite Hrid in Hr. destruct old as [|x old].
    + cbn in Hr. rewrite <-Hr in Hn. by apply Forall_cons in Hn as [[? _] _].
    + injection Hr as <- _. apply Forall_cons in Ho as [Ho _].
      apply (co_last _ _ _ _ Hc) in Ho. by rewrite Ho in Hdup.
  - destruct (cl_current c) as [x|] eqn:Hcur.
    + pose proof (ca_acknowledged log c (link_id f)) as Hack. rewrite Hcur in Hack.
      rewrite pending_is_empty_view by by apply pending_acknowledge_view, Hc.
      case_bool_decide as Hempty; [|by apply ca_keeps_silent; auto].
      pose proof (group_completed log c (link_id f) Hc Hf Hempty) as Hdone. rewrite Hcur in Hdone.
      apply ca_acknowledges; auto 6.
    + apply ca_keeps_silent; try done. apply ca_acknowledged; auto.
Qed.
End ca_steps.

(** ** The steps of the system *)

(** Names without duplicates name one element each. *)
Lemma NoDup_omap_inj {A B} (f : A -> option B) l x y b :
  NoDup (omap f l) -> x ∈ l -> y ∈ l -> f x = Some b -> f y = Some b -> x = y.
Proof.
  induction l as [|z l IH]; cbn; [by intros _ ?%elem_of_nil|].
  intros Hnd [->|Hx]%elem_of_cons [->|Hy]%elem_of_cons Hfx Hfy; [done| | |].
  - rewrite Hfx in Hnd. apply NoDup_cons in Hnd as [[] _]. apply list_elem_of_omap. by exists y.
  - rewrite Hfy in Hnd. apply NoDup_cons in Hnd as [[] _]. apply list_elem_of_omap. by exists x.
  - apply IH; try done. destruct (f z); [by apply NoDup_cons in Hnd as [_ ?]|done].
Qed.

Lemma NoDup_fst_inj {A B} (l : list (A * B)) a b b' :
  NoDup l.*1 -> (a, b) ∈ l -> (a, b') ∈ l -> b = b'.
Proof.
  intros Hnd H1 H2. assert (omap (fun e => Some e.1) l = l.*1) as Heq.
  { clear. induction l as [|e l IH]; [done|]. cbn. by rewrite <-IH. }
  rewrite <-Heq in Hnd. by injection (NoDup_omap_inj _ l _ _ a Hnd H1 H2).
Qed.

Section system_steps.
Context {R S : Type} `{DeliveryRouter R} `{HS : RequestHandlerLaws S handler_inv maximum}.
Implicit Types y : System R S.

Abbreviation link_inv := (link_inv handler_inv maximum).

(** The identifiers of a step are new, and a reload keeps the CA well formed. *)
Definition step_ok (used : list MessageId) (st : LinkStep R S) : Prop :=
  NoDup (drawn st) /\ (forall x, x ∈ drawn st -> x ∉ used) /\
  match st with CaReloads ca => handler_inv ca | _ => True end.

Lemma broker_reacts_inv used used' y x to_broker :
  link_inv used y ->
  broker_keeps used' (sy_log y) (sy_to_ca y) to_broker x ->
  link_inv used' (broker_reacts x to_broker y).
Proof.
  intros [_ _ _ Hca] [Hlog Hb Hw Hq]. destruct (quiet_app (sy_log y) _ Hq) as [Hq1 Hq2].
  constructor; cbn [broker_reacts sy_log sy_broker sy_to_ca sy_to_broker sy_ca sy_ca_up sy_ca_exited]; try done.
  unfold ca_alive_ok in *. destruct (sy_ca_exited y); [done|]. destruct Hca as [Hca Hlost].
  split; [by apply ca_ok_quiet|]. intros id r [Hin|Hin]%elem_of_app; [by eapply Hlost|].
  assert (id ∈ processed_ids (events x.1)) as Habs by (apply list_elem_of_omap; by exists (Lost id r)).
  destruct Hq as [Hq _]. rewrite Hq in Habs. by apply elem_of_nil in Habs.
Qed.

Lemma ca_reacts_inv used used' y x to_ca :
  link_inv used y -> sy_ca_exited y = false ->
  ca_keeps (handler_inv:=handler_inv) (maximum:=maximum) used' (sy_log y)
    (pending_view (bl_pending (sy_broker y))).*1 to_ca (sy_to_broker y) x ->
  link_inv used' (ca_reacts x to_ca y).
Proof.
  intros [_ Hb _ Hca] Hup [Hlog Hw Halive Ht Haw]. rewrite Hup in Hca. destruct Hca as [_ Hlost].
  constructor; cbn [ca_reacts sy_log sy_broker sy_to_ca sy_to_broker sy_ca sy_ca_up sy_ca_exited]; try done.
  - apply broker_ok_mono; [done| |done]. intros id Hp Hin. apply Haw; [|done..].
    intros z Hz (e & -> & He)%list_elem_of_fmap. destruct Hb. rewrite Forall_forall in bo_awaits0.
    destruct (bo_awaits0 e He) as (? & _ & _ & Hl). auto.
  - rewrite Hup. cbn [orb]. unfold ca_alive_ok. case_bool_decide as Hex; [by rewrite Hex|].
    destruct Halive as [|[Hc Hl]]; [done|]. split; [done|].
    intros id r [?|?]%elem_of_app; [by eapply Hlost|by eapply Hl].
Qed.

(** A session that is up belongs to a CA that has not exited. *)
Lemma up_not_exited used y : link_inv used y -> sy_ca_up y = true -> sy_ca_exited y = false.
Proof. intros [_ _ _ Hca] Hup. unfold ca_alive_ok in Hca. destruct (sy_ca_exited y); [congruence|done]. Qed.

Lemma cad_resend_ok log c : ca_ok handler_inv maximum log c ->
  Forall (to_broker_ok log) (reply (cad_resend c)).
Proof.
  intros []. unfold cad_resend, go_on. cbn [reply]. rewrite pending_snapshot_view.
  apply Forall_forall. intros bytes (e & -> & He)%list_elem_of_fmap.
  rewrite Forall_forall in co_entries0. destruct (co_entries0 e He) as (f & ? & Henc%link_decode_encode).
  by eexists.
Qed.

Lemma connect_inv used y : link_inv used y -> link_inv used (link_step Connect y).
Proof.
  intros Hy. cbn [link_step]. destruct (_ || _) eqn:Hguard; [done|].
  apply orb_false_iff in Hguard as [_ Hex]. destruct Hy as [Hlog Hb Hw Hca]. rewrite Hex in Hca.
  pose proof Hca as [Hc _]. constructor; cbn [sy_log sy_broker sy_to_ca sy_to_broker sy_ca sy_ca_up sy_ca_exited];
    try done.
  apply (resend_ok _ _ [] _ Hb). constructor; [constructor|by apply cad_resend_ok|].
  exists [], []. split; [done|by split; constructor].
Qed.

Lemma link_step_inv used st y :
  link_inv used y -> step_ok used st -> link_inv (used ++ drawn st) (link_step st y).
Proof.
  intros Hy (Hnd & Hfresh & Hca). pose proof Hy as [Hlog Hb Hw Halive].
  destruct st as [| | |n|n|id| |now ids| | |router|ca]; cbn [drawn] in *; rewrite ?app_nil_r.
  - by apply connect_inv.
  - by constructor.
  - constructor; [done..|]. cbn. unfold ca_alive_ok in *. by destruct (sy_ca_exited y).
  - constructor; [done|done| |done]. cbn [link_step sy_log sy_broker sy_to_ca sy_to_broker].
    rewrite <-(firstn_all (sy_to_broker y)). by apply wire_ok_take.
  - constructor; [done|done| |done]. cbn [link_step sy_log sy_broker sy_to_ca sy_to_broker].
    rewrite <-(firstn_all (sy_to_ca y)). by apply wire_ok_take.
  - change (match id with Some x => [x] | None => [] end) with (option_list id).
    assert (link_inv (used ++ option_list id) y) as Hy'.
    { constructor; [|done..]. eapply log_ok_mono; [|done]. set_solver. }
    cbn [link_step]. destruct (sy_broker_up y); [|done].
    eapply broker_reacts_inv; [done|]. apply broker_request_ok; [done..|].
    intros x ->. apply Hfresh. by left.
  - cbn [link_step]. destruct (sy_broker_up y); [|done]. destruct (sy_to_broker y) as [|bytes rest]; [done|].
    eapply broker_reacts_inv; [done|]. by apply broker_incoming_ok.
  - assert (link_inv (used ++ ids) y) as Hy'.
    { constructor; [|done..]. eapply log_ok_mono; [|done]. set_solver. }
    cbn [link_step]. destruct (sy_ca_up y) eqn:Hup; [|done].
    destruct (sy_to_ca y) as [|bytes rest]; [done|].
    pose proof (up_not_exited _ _ Hy Hup) as Hex. eapply ca_reacts_inv; [done..|].
    unfold ca_alive_ok in Halive. rewrite Hex in Halive. destruct Halive as [Hc _].
    apply cad_incoming_ok; try done. rewrite length_fmap. apply Hb.
  - cbn [link_step]. destruct (_ && _); [|done]. eapply broker_reacts_inv; [done|].
    constructor; cbn [fst snd events broker_resend go_on]; rewrite ?app_nil_r; try done.
    by apply resend_ok.
  - cbn [link_step]. destruct (sy_ca_up y) eqn:Hup; [|done]. destruct (negb _); [|done].
    pose proof (up_not_exited _ _ Hy Hup) as Hex. eapply ca_reacts_inv; [done..|].
    unfold ca_alive_ok in Halive. rewrite Hex in Halive. destruct Halive as [Hc _].
    apply ca_keeps_silent; try done. by apply cad_resend_ok.
  - constructor; [done|by apply broker_ok_router|done..].
  - constructor; [done..|]. cbn. unfold ca_alive_ok in *. destruct (sy_ca_exited y); [done|].
    destruct Halive as [[] ?]. split; [|done]. by constructor.
Qed.

(** Every identifier is drawn once. *)
Definition drawn_once (steps : list (LinkStep R S)) : Prop :=
  NoDup (concat (drawn <$> steps)).

Definition reloads_ok (steps : list (LinkStep R S)) : Prop :=
  Forall (fun st => match st with CaReloads ca => handler_inv ca | _ => True end) steps.

Lemma link_run_inv steps : forall used y,
  link_inv used y -> reloads_ok steps -> NoDup (used ++ concat (drawn <$> steps)) ->
  link_inv (used ++ concat (drawn <$> steps)) (link_run steps y).
Proof.
  induction steps as [|st steps IH]; intros used y Hy Hok Hnd; cbn in *.
  { by rewrite app_nil_r. }
  apply Forall_cons in Hok as [Hst Hok]. rewrite app_assoc in Hnd |- *.
  apply IH; [|done..]. apply NoDup_app in Hnd as (Hnd & _ & _).
  apply NoDup_app in Hnd as (_ & Hfresh & Hnd). apply link_step_inv; [done|].
  split; [done|]. split; [|done]. intros x Hx Hused. by apply (Hfresh x).
Qed.

Lemma link_init_inv (router : R) ca broker_pending broker_dedup ca_dedup :
  handler_inv ca -> link_inv [] (link_init router ca broker_pending broker_dedup maximum ca_dedup).
Proof.
  intros Hca. assert (forall n, pending_inv (PendingFrames_new n)) as Hp.
  { intros n. split; [constructor|done]. }
  assert (forall n, dedup_inv (DedupWindow_new n)) as Hd.
  { intros n. split; [constructor|]. split; [done|]. cbn. lia. }
  constructor; cbn.
  - constructor; cbn; try done; try constructor; intros; by exfalso; eapply not_elem_of_nil.
  - constructor; cbn; try done; try lia.
    intros id r Hin. by apply elem_of_nil in Hin.
  - constructor; [constructor..|]. exists [], []. split; [done|by split; constructor].
  - split; [constructor; cbn; try done|by intros id r Hin%elem_of_nil].
Qed.

(** What the invariant says of the processed requests and the routed deliveries. *)
Lemma completed_routed used log id request ds : log_ok used log -> Handled id request ds ∈ log ->
  Forall (fun d => routed log d.1) ds -> Forall (fun d => Routed d.1 d.2 ∈ log) ds.
Proof.
  intros [] Hh Hall. apply Forall_forall. intros d Hd. rewrite Forall_forall in Hall.
  destruct (Hall d Hd) as [f Hf]. pose proof (lo_routed0 _ _ Hf) as Hgen.
  assert (d ∈ all_generated log) as Hgen'.
  { unfold all_generated. apply list_elem_of_In, in_concat. exists ds.
    split; apply list_elem_of_In; [|done]. apply list_elem_of_fmap. by exists (Handled id request ds). }
  destruct d as [i g]. cbn [fst snd] in *. replace g with f; [done|].
  by eapply (NoDup_fst_inj _ i).
Qed.

(** A request is processed once, as it was taken. *)
Lemma completed_payload used log id request : log_ok used log -> Taken id request ∈ log ->
  completed log id -> exists ds, Handled id request ds ∈ log /\
    Forall (fun d => Routed d.1 d.2 ∈ log) ds.
Proof.
  intros Hlog Ht (request' & ds & Hh & Hall). pose proof (lo_handled _ _ Hlog _ _ _ Hh) as Ht'.
  assert (request' = request) as ->.
  { by injection (NoDup_omap_inj taken_id log _ _ id (lo_taken _ _ Hlog) Ht' Ht). }
  exists ds. split; [done|]. by eapply completed_routed.
Qed.
End system_steps.

(** ** The requests the broker drops *)

Section drops.
Context {R S : Type} `{DeliveryRouter R, RequestHandler S}.

(** A request is dropped when no identifier could be drawn for it, or the link cannot
    carry it. *)
Lemma broker_request_drops log id (b : BrokerLink R) request : broker_ok log b ->
  Dropped request ∈ events (broker_request id b).1 -> id = None \/ MAX_FRAME_LEN < length request.
Proof.
  intros Hb Hin. revert Hin. unfold broker_request. destruct (_ && _) eqn:Hguard; [|intros []%elem_of_nil].
  apply andb_true_iff in Hguard as [Hempty Hfull].
  rewrite pending_is_empty_view, bool_decide_eq_true in Hempty by apply Hb.
  destruct (next_request _) as [[r|] router]; [|intros []%elem_of_nil].
  destruct id as [id|]; [|by left].
  destruct (encode FrameKind.Request id r) as [encoded|e|] eqn:Henc.
  2, 3: intros [= ->]%list_elem_of_singleton; right; apply Nat.nle_gt; intros Hle;
    assert (encode FrameKind.Request id r = Ok (concat (link_segments FrameKind.Request id r))) as Hok
      by (by apply encode_Ok); congruence.
  intros Hin. destruct (pending_insert id encoded (bl_pending b)) as [res pending] eqn:Hins. exfalso.
  unfold pending_insert in Hins. autorewrite with rust in Hins.
  rewrite bool_decide_eq_false_2 in Hins
    by (rewrite pending_member by apply Hb; rewrite Hempty; apply not_elem_of_nil).
  unfold pending_is_full in Hfull. apply negb_true_iff in Hfull. rewrite Hfull in Hins.
  injection Hins as <- <-. by apply list_elem_of_singleton in Hin.
Qed.

Lemma broker_incoming_no_drop bytes (b : BrokerLink R) request :
  Dropped request ∉ events (broker_incoming bytes b).1.
Proof.
  unfold broker_incoming. intros Hin. revert Hin.
  repeat case_match; unfold acknowledge; repeat case_match; cbn [fst events go_on];
    rewrite ?list_elem_of_singleton; (done || intros []%elem_of_nil).
Qed.

Lemma cad_incoming_no_drop bytes now ids (c : CaLink S) request :
  Dropped request ∉ events (cad_incoming bytes now ids c).1.
Proof.
  unfold cad_incoming, cad_request, finish_request. intros Hin. revert Hin.
  repeat case_match; unfold acknowledge; repeat case_match; cbn [fst events go_on];
    rewrite ?list_elem_of_singleton; (done || intros []%elem_of_nil).
Qed.

Lemma broker_reacts_drops x to_broker (y : System R S) request :
  Dropped request ∈ sy_log (broker_reacts x to_broker y) ->
  Dropped request ∈ sy_log y \/ Dropped request ∈ events x.1.
Proof. by intros Hin%elem_of_app. Qed.

Lemma ca_reacts_drops x to_ca (y : System R S) request :
  Dropped request ∈ sy_log (ca_reacts x to_ca y) ->
  Dropped request ∈ sy_log y \/ Dropped request ∈ events x.1.
Proof. by intros Hin%elem_of_app. Qed.

Lemma link_step_drops st (y : System R S) request : broker_ok (sy_log y) (sy_broker y) ->
  Dropped request ∈ sy_log (link_step st y) ->
  Dropped request ∈ sy_log y \/ st = BrokerTakes None \/ MAX_FRAME_LEN < length request.
Proof.
  intros Hb. destruct st as [| | |n|n|id| |now ids| | |router|ca]; cbn [link_step]; try by left.
  - destruct (_ || _); by left.
  - destruct (sy_broker_up y); [|by left].
    intros [?|[->|?]%(broker_request_drops (sy_log y))]%broker_reacts_drops; auto.
  - destruct (sy_broker_up y); [|by left]. destruct (sy_to_broker y) as [|bytes rest]; [by left|].
    intros [?|[]%broker_incoming_no_drop]%broker_reacts_drops; by left.
  - destruct (sy_ca_up y); [|by left]. destruct (sy_to_ca y) as [|bytes rest]; [by left|].
    intros [?|[]%cad_incoming_no_drop]%ca_reacts_drops; by left.
  - destruct (_ && _); [|by left]. intros [?|[]%elem_of_nil]%broker_reacts_drops; by left.
  - destruct (_ && _); [|by left]. intros [?|[]%elem_of_nil]%ca_reacts_drops; by left.
Qed.
End drops.

Lemma link_run_drops {R S} `{DeliveryRouter R} `{HS : RequestHandlerLaws S handler_inv maximum}
    (steps : list (LinkStep R S)) request : forall used y,
  link_inv handler_inv maximum used y -> reloads_ok (handler_inv:=handler_inv) steps ->
  NoDup (used ++ concat (drawn <$> steps)) -> Dropped request ∈ sy_log (link_run steps y) ->
  Dropped request ∈ sy_log y \/ BrokerTakes None ∈ steps \/ MAX_FRAME_LEN < length request.
Proof.
  induction steps as [|st steps IH]; intros used y Hy Hok Hnd Hin; [by left|].
  apply Forall_cons in Hok as [Hst Hok]. cbn in Hnd, Hin. rewrite app_assoc in Hnd.
  apply (IH (used ++ drawn st)) in Hin as [Hin|[Hin|Hin]]; [| |by auto| |done..].
  - destruct (link_step_drops st y request (li_broker _ _ _ _ Hy) Hin) as [?|[->|?]]; [by left| |by auto].
    right. left. by left.
  - right. left. by right.
  - apply NoDup_app in Hnd as (Hnd & _ & _). apply NoDup_app in Hnd as (_ & Hfresh & Hnd).
    apply link_step_inv; [done|]. split; [done|]. split; [|done]. intros x Hx Hused. by apply (Hfresh x).
Qed.

(** What every run keeps, read off the invariant. *)
Lemma link_run_facts {R S} `{DeliveryRouter R} `{HS : RequestHandlerLaws S handler_inv maximum}
    (router : R) (ca : S) broker_pending broker_dedup ca_dedup (steps : list (LinkStep R S)) :
  handler_inv ca -> reloads_ok (handler_inv:=handler_inv) steps -> drawn_once steps ->
  let y := link_run steps (link_init router ca broker_pending broker_dedup maximum ca_dedup) in
  NoDup (processed_ids (sy_log y)) /\
  (forall id request ds, Handled id request ds ∈ sy_log y -> Taken id request ∈ sy_log y) /\
  (forall id request, Taken id request ∈ sy_log y ->
     id ∈ (pending_view (bl_pending (sy_broker y))).*1 \/
     exists ds, Handled id request ds ∈ sy_log y /\ Forall (fun d => Routed d.1 d.2 ∈ sy_log y) ds) /\
  (forall id f, Routed id f ∈ sy_log y -> (id, f) ∈ all_generated (sy_log y)) /\
  (forall id request, Lost id request ∈ sy_log y -> sy_ca_exited y = true).
Proof.
  intros Hca Hok Hnd y.
  destruct (link_run_inv (handler_inv:=handler_inv) (maximum:=maximum) steps []
    (link_init router ca broker_pending broker_dedup maximum ca_dedup)) as [Hlog Hb _ Halive];
    [by apply link_init_inv|done..|].
  fold y in Hlog, Hb, Halive. split; [apply Hlog|]. split; [apply Hlog|]. split.
  - intros id request Ht. destruct (bo_kept _ _ Hb id request Ht) as [|Hdone]; [by left|right].
    by eapply completed_payload.
  - split; [apply Hlog|]. intros id request Hlost. unfold ca_alive_ok in Halive.
    destruct (sy_ca_exited y); [done|]. destruct Halive as [_ Hno]. by apply Hno in Hlost.
Qed.

(** ** The properties *)

(** C11: Once a request is taken from the broker's queue and named, the link processes
    it at most once and does not lose it, however often connections are lost, frames
    repeated and either side cut off, as long as both processes live and no identifier
    is drawn twice. The CA processes no request twice, only requests the broker took,
    and with the bytes it took. A request taken is either still pending at the broker,
    which sends it again, or was processed and every delivery of it has been accepted
    by the router, at least once. What the router is given comes from a request that was
    processed. A request is dropped on the way from the queue only when no identifier
    could be drawn for it or it is longer than a frame may be; it is then never seen by
    the CA, and the log says so. As the limits of cad demand, a group of deliveries
    always fits: if a request is processed and its deliveries are lost, the daemon has
    ended. *)
Theorem link_processes_once {R S} `{DeliveryRouter R} `{HS : RequestHandlerLaws S handler_inv maximum}
    (router : R) (ca : S) broker_pending broker_dedup ca_dedup (steps : list (LinkStep R S)) :
  handler_inv ca -> reloads_ok (handler_inv:=handler_inv) steps -> drawn_once steps ->
  let y := link_run steps (link_init router ca broker_pending broker_dedup maximum ca_dedup) in
  NoDup (processed_ids (sy_log y)) /\
  (forall id request ds, Handled id request ds ∈ sy_log y -> Taken id request ∈ sy_log y) /\
  (forall id request, Taken id request ∈ sy_log y ->
     id ∈ (pending_view (bl_pending (sy_broker y))).*1 \/
     exists ds, Handled id request ds ∈ sy_log y /\ Forall (fun d => Routed d.1 d.2 ∈ sy_log y) ds) /\
  (forall id f, Routed id f ∈ sy_log y -> (id, f) ∈ all_generated (sy_log y)) /\
  (forall id request, Lost id request ∈ sy_log y -> sy_ca_exited y = true) /\
  (forall request, Dropped request ∈ sy_log y ->
     BrokerTakes None ∈ steps \/ MAX_FRAME_LEN < length request).
Proof.
  intros Hca Hok Hnd y.
  destruct (link_run_facts (HS:=HS) router ca broker_pending broker_dedup ca_dedup steps Hca Hok Hnd)
    as (? & ? & ? & ? & ?).
  do 5 (split; [done|]). intros request Hin.
  destruct (link_run_drops (HS:=HS) steps request [] _ (link_init_inv _ _ _ _ _ Hca) Hok Hnd Hin)
    as [[]%elem_of_nil|Hdrop]. exact Hdrop.
Qed.

(** A router that holds a list of requests and keeps what it is given, and a CA
    that answers a request with two copies of it. *)
Module LinkExample.
#[local] Instance router : DeliveryRouter (list (list byte) * list (list byte)) := {
  next_request r := match r.1 with [] => (None, r) | q :: qs => (Some q, (qs, r.2)) end;
  deliver f r := (true, (r.1, r.2 ++ [f]));
}.
#[local] Instance handler : RequestHandler nat := {
  handle envelope now n := (Ok (ProcessResult.Deliveries [envelope; envelope]), S n);
}.
#[local] Instance handler_laws : RequestHandlerLaws nat (fun _ => True) 2.
Proof. split. intros envelope now s r s' _ [= <- <-]. split; [done|]. cbn. lia. Qed.

Definition id (n : N) : MessageId := mkMessageId (vreplicate 16 (byte_of n)).

(** The request crosses; the CA answers; the connection is lost when one of the two
    deliveries has been routed; the request is sent again, and so are the
    deliveries; then the next request is taken. *)
Definition steps : list (LinkStep (list (list byte) * list (list byte)) nat) :=
  [Connect; BrokerTakes (Some (id 1)); BrokerRetry; CaReads 0 [id 2; id 3]; BrokerReads;
   BrokerCut; CaCut; LoseToCa 0; Connect; CaReads 0 []; CaRetry; BrokerReads; BrokerReads; BrokerReads;
   CaReads 0 []; CaReads 0 []; BrokerReads; BrokerReads; BrokerTakes (Some (id 4)); CaReads 0 []; CaReads 0 [];
   CaReads 0 [id 5; id 6]].
Abbreviation final := (link_run (H:=router) (H0:=handler) steps (link_init ([[x01]; [x02]], []) 0 1 8 2 8)).

Lemma final_log : sy_log final =
  [Taken (id 1) [x01]; Handled (id 1) [x01] [(id 2, [x01]); (id 3, [x01])];
   Routed (id 2) [x01]; Routed (id 3) [x01]; Taken (id 4) [x02];
   Handled (id 4) [x02] [(id 5, [x02]); (id 6, [x02])]].
Proof. vm_compute. reflexivity. Qed.
End LinkExample.

Lemma link_processes_once_witness :
  NoDup (processed_ids (sy_log LinkExample.final)) /\
  exists ds, Handled (LinkExample.id 1) [x01] ds ∈ sy_log LinkExample.final /\
    Forall (fun d => Routed d.1 d.2 ∈ sy_log LinkExample.final) ds.
Proof.
  destruct (link_processes_once (HS:=LinkExample.handler_laws) (H:=LinkExample.router)
    ([[x01]; [x02]], []) 0 1 8 8 LinkExample.steps) as (Hnd & _ & Hkept & _).
  - done.
  - repeat (apply Forall_cons; split; [done|]). by apply Forall_nil.
  - unfold drawn_once. apply (bool_decide_unpack _). vm_compute. reflexivity.
  - split; [exact Hnd|].
    destruct (Hkept (LinkExample.id 1) [x01]) as [Hin|Hdone]; [| |exact Hdone].
    + rewrite LinkExample.final_log. left.
    + exfalso. revert Hin. apply (bool_decide_eq_false _). vm_compute. reflexivity.
Defined.
