(* ===== verification/LinkProgress.v ===== *)
(** The link makes progress: once a connection is up and stays up, both daemons reading
    what arrives, in any order, deliver everything that was taken, in a bounded number
    of rounds. *)

From S2P Require Export LinkSystem.
From S2P Require Export Link.

(** ** What progress needs of both ends *)

(** A router that accepts [deliverable] frames as long as it has room: for [n] more, if
    [router_room n]. *)
Class AcceptingRouter (R : Type) `{DeliveryRouter R} (deliverable : list byte -> Prop) (router_room : nat -> R -> Prop) :
    Prop := {
  accepts n f r : router_room (Datatypes.S n) r -> deliverable f -> exists r', deliver f r = (true, r') /\ router_room n r';
  room_law n r : router_room (Datatypes.S n) r -> router_room n r;
}.

Lemma room_weaken `{AcceptingRouter R deliverable router_room} n m r : m <= n -> router_room n r -> router_room m r.
Proof. induction 1; [done|]. intros Hr. by apply IHle, room_law. Qed.

(** The router of brokerd is one: each agent must have room, whether it is connected or
    not, and a frame be a delivery of the CA. *)
#[export] Instance BrokerRouter_accepts {Ch Q} `{HM : MpscLaws Ch, HQ : OfflineQueueLaws Q} :
  AcceptingRouter (BrokerRouter Ch Q) ca_delivery broker_room.
Proof.
  split; [|apply room_less]. intros n f r Hr Hf. cbn [deliver BrokerRouter_delivery].
  destruct (delivery_room n f r Hr Hf) as (r' & -> & Hr'). by exists r'.
Qed.

(** A CA that does not stop, and whose deliveries fit the link and are deliverable. *)
Class ResponsiveHandler (S : Type) `{RequestHandler S} (handler_inv : S -> Prop) (deliverable : list byte -> Prop) :
    Prop := {
  responds envelope now s : handler_inv s ->
    match (handle envelope now s).1 with
    | Ok (ProcessResult.Deliveries ds) => Forall (fun d => length d <= MAX_FRAME_LEN /\ deliverable d) ds
    | Panic => False
    | _ => True
    end;
}.

(** ** The frames on the way, by kind *)

Definition kind_id (kind : FrameKind) (bytes : list byte) : option MessageId :=
  match decode bytes with
  | Ok f => if bool_decide (link_kind f = kind) then Some (link_id f) else None
  | _ => None
  end.
Definition kind_ids (kind : FrameKind) (frames : list (list byte)) : list MessageId :=
  omap (kind_id kind) frames.

Lemma kind_ids_app kind l l' : kind_ids kind (l ++ l') = kind_ids kind l ++ kind_ids kind l'.
Proof. apply omap_app. Qed.

Lemma kind_ids_cons kind bytes l :
  kind_ids kind (bytes :: l) = option_list (kind_id kind bytes) ++ kind_ids kind l.
Proof. unfold kind_ids. cbn. by destruct (kind_id kind bytes). Qed.

Lemma kind_id_encoded kind id payload bytes : encode kind id payload = Ok bytes ->
  forall k, kind_id k bytes = if bool_decide (kind = k) then Some id else None.
Proof. intros H%link_decode_encode k. unfold kind_id. by rewrite H. Qed.

Lemma kind_id_decoded bytes f : decode bytes = Ok f ->
  forall k, kind_id k bytes = if bool_decide (link_kind f = k) then Some (link_id f) else None.
Proof. intros H k. unfold kind_id. by rewrite H. Qed.

Lemma kind_ids_take kind n l id : id ∈ kind_ids kind (take n l) -> id ∈ kind_ids kind l.
Proof. intros Hid. rewrite <-(take_drop n l), kind_ids_app. apply elem_of_app. by left. Qed.

(** A frame has one kind. *)
Lemma kind_id_only kind bytes id : kind_id kind bytes = Some id ->
  forall k, kind_id k bytes = if bool_decide (kind = k) then Some id else None.
Proof.
  unfold kind_id. destruct (decode bytes) as [f|e|]; [|done..]. case_bool_decide as Hk; [|done].
  by intros [= ->] k; rewrite Hk.
Qed.

(** What an acknowledgement leaves pending. *)
Lemma unacknowledged (l : list (MessageId * list byte)) id x :
  x ∈ (filter (fun kv => kv.1 <> id) l).*1 <-> x <> id /\ x ∈ l.*1.
Proof.
  rewrite !list_elem_of_fmap. split.
  - intros (e & -> & [Hne He]%list_elem_of_filter). eauto.
  - intros (Hne & e & -> & He). exists e. split; [done|]. by apply list_elem_of_filter.
Qed.

(** Frames encoded from a list of entries with their identifiers. *)
Lemma kind_ids_entries kind (l : list (MessageId * list byte)) :
  Forall (fun e => exists f, encode kind e.1 f = Ok e.2) l -> forall k,
  kind_ids k l.*2 = if bool_decide (kind = k) then l.*1 else [].
Proof.
  induction 1 as [|[id bytes] l (f & He) _ IH]; intros k; [by case_bool_decide|].
  cbn [fmap list_fmap fst snd] in *. rewrite kind_ids_cons, (kind_id_encoded _ _ _ _ He), IH.
  by case_bool_decide.
Qed.

(** ** What a frame on the way still costs *)

Lemma sum_list_app (l l' : list nat) : sum_list (l ++ l') = sum_list l + sum_list l'.
Proof. induction l as [|n l IH]; cbn; [done|]. rewrite IH. lia. Qed.

Section weight.
Context (maximum : nat).

(** A request causes at most [maximum] deliveries or an acknowledgement, a delivery an
    acknowledgement, and that at most the acknowledgement of the request. *)
Definition to_ca_weight (bytes : list byte) : nat :=
  match kind_id FrameKind.Request bytes with Some _ => 3 * maximum + 2 | None => 2 end.
Definition to_broker_weight (bytes : list byte) : nat :=
  match kind_id FrameKind.Delivery bytes with Some _ => 3 | None => 1 end.

Lemma frame_weights kind bytes id : kind_id kind bytes = Some id ->
  match kind with
  | FrameKind.Request => to_ca_weight bytes = 3 * maximum + 2
  | FrameKind.Delivery => to_broker_weight bytes = 3
  | FrameKind.Ack => to_ca_weight bytes = 2 /\ to_broker_weight bytes = 1
  | _ => True
  end.
Proof.
  intros Hk. pose proof (kind_id_only _ _ _ Hk) as Hkind. unfold to_ca_weight, to_broker_weight.
  destruct kind; rewrite ?Hkind; done.
Qed.

Lemma ack_weights id ack : encode FrameKind.Ack id [] = Ok ack ->
  to_ca_weight ack = 2 /\ to_broker_weight ack = 1.
Proof. intros He. apply (frame_weights FrameKind.Ack ack id). by rewrite (kind_id_encoded _ _ _ _ He). Qed.

Definition on_the_way {R S} (to_ca to_broker : list byte -> nat) (y : System R S) : nat :=
  sum_list (to_ca <$> sy_to_ca y) + sum_list (to_broker <$> sy_to_broker y).
Definition wire_weight {R S} (y : System R S) : nat := on_the_way to_ca_weight to_broker_weight y.

(** The deliveries the router may still be given. *)
Definition to_ca_room (bytes : list byte) : nat :=
  match kind_id FrameKind.Request bytes with Some _ => maximum | None => 0 end.
Definition to_broker_room (bytes : list byte) : nat :=
  match kind_id FrameKind.Delivery bytes with Some _ => 1 | None => 0 end.
Definition room_needed {R S} (y : System R S) : nat := on_the_way to_ca_room to_broker_room y.

Lemma frame_rooms kind bytes id : kind_id kind bytes = Some id ->
  match kind with
  | FrameKind.Request => to_ca_room bytes = maximum
  | FrameKind.Delivery => to_broker_room bytes = 1
  | FrameKind.Ack => to_ca_room bytes = 0 /\ to_broker_room bytes = 0
  | _ => True
  end.
Proof.
  intros Hk. pose proof (kind_id_only _ _ _ Hk) as Hkind. unfold to_ca_room, to_broker_room.
  destruct kind; rewrite ?Hkind; done.
Qed.

Lemma ack_rooms id ack : encode FrameKind.Ack id [] = Ok ack -> to_ca_room ack = 0 /\ to_broker_room ack = 0.
Proof. intros He. apply (frame_rooms FrameKind.Ack ack id). by rewrite (kind_id_encoded _ _ _ _ He). Qed.

Lemma wire_weight_zero {R S} (y : System R S) :
  wire_weight y = 0 -> sy_to_ca y = [] /\ sy_to_broker y = [].
Proof.
  unfold wire_weight, on_the_way, to_ca_weight, to_broker_weight.
  destruct (sy_to_ca y) as [|b l], (sy_to_broker y) as [|b' l']; cbn; [done| | |];
    repeat destruct (kind_id _ _); lia.
Qed.
End weight.

(** ** What keeps a session going *)

Section invariants.
Context {R S : Type} (maximum : nat).

(** Of every reachable state: the CA works on a request the broker waits for and has
    not been told of, and holds deliveries of it. *)
Record link_live (y : System R S) : Prop := mkLinkLive {
  ll_broker_window : dw_maximum (bl_acquired (sy_broker y)) <> 0;
  ll_ca_window : dw_maximum (cl_acquired (sy_ca y)) <> 0;
  ll_bound : length (pending_view (cl_pending (sy_ca y))) <= maximum;
  ll_awaited : forall id, cl_current (sy_ca y) = Some id -> id ∈ (pending_view (bl_pending (sy_broker y))).*1;
  ll_unacked : forall id, cl_current (sy_ca y) = Some id -> id ∉ kind_ids FrameKind.Ack (sy_to_broker y);
  ll_group : is_Some (cl_current (sy_ca y)) -> pending_view (cl_pending (sy_ca y)) <> [];
}.

(** Of a session that has lost nothing: what either side waits for is on the way. *)
Record session_ok (y : System R S) : Prop := mkSessionOk {
  se_broker_up : sy_broker_up y = true;
  se_ca_up : sy_ca_up y = true;
  se_requests : forall id, id ∈ (pending_view (bl_pending (sy_broker y))).*1 ->
    cl_current (sy_ca y) = Some id \/ id ∈ kind_ids FrameKind.Request (sy_to_ca y) \/
    id ∈ kind_ids FrameKind.Ack (sy_to_broker y);
  se_deliveries : forall id, id ∈ (pending_view (cl_pending (sy_ca y))).*1 ->
    id ∈ kind_ids FrameKind.Delivery (sy_to_broker y) \/ id ∈ kind_ids FrameKind.Ack (sy_to_ca y);
}.

(** When nothing is on the way, nothing is left to do. *)
Lemma session_quiescent y : link_live y -> session_ok y -> sy_to_ca y = [] -> sy_to_broker y = [] ->
  pending_view (bl_pending (sy_broker y)) = [] /\ pending_view (cl_pending (sy_ca y)) = [].
Proof.
  intros [_ _ _ _ _ Hgroup] [_ _ Hr Hd] Hc Hb. rewrite Hc, Hb in *.
  assert (pending_view (cl_pending (sy_ca y)) = []) as Hempty.
  { destruct (pending_view (cl_pending (sy_ca y))) as [|e l]; [done|].
    destruct (Hd e.1) as [[]%elem_of_nil|[]%elem_of_nil]. by left. }
  split; [|done]. destruct (pending_view (bl_pending (sy_broker y))) as [|e l]; [done|].
  destruct (Hr e.1) as [Hcur|[[]%elem_of_nil|[]%elem_of_nil]]; [by left|].
  exfalso. apply Hgroup; [|done]. by rewrite Hcur.
Qed.
End invariants.

(** ** What a read does *)

Lemma dedup_insert_window w id r w' : dedup_inv w -> dedup_insert id w = (r, w') ->
  dw_maximum w' = dw_maximum w /\ (dw_maximum w <> 0 -> r = Ok tt).
Proof.
  intros Hw Hrun. pose proof (dedup_refines id w Hw) as Href. rewrite Hrun in Href.
  destruct Href as (_ & -> & -> & _). split; [done|]. intros Hne. by rewrite (proj2 (Nat.eqb_neq _ _)).
Qed.

(** [brokerd] reads an acknowledgement or a delivery. *)
Inductive broker_read {R} (bytes : list byte) (b : BrokerLink R) : Reaction * BrokerLink R -> Prop :=
| read_broker_ack id pending router acquired :
    kind_id FrameKind.Ack bytes = Some id ->
    pending_view pending = filter (fun kv => kv.1 <> id) (pending_view (bl_pending b)) ->
    router = bl_router b -> acquired = bl_acquired b ->
    broker_read bytes b (go_on [], mkBrokerLink router pending acquired)
| read_delivery id answer p log router acquired :
    kind_id FrameKind.Delivery bytes = Some id ->
    dw_maximum acquired = dw_maximum (bl_acquired b) ->
    answer = [] /\ p = Over \/
      (exists ack, encode FrameKind.Ack id [] = Ok ack /\ answer = [ack]) ->
    broker_read bytes b (mkReaction answer p log, mkBrokerLink router (bl_pending b) acquired).

(** [cad] reads a request it answers at once, a request it works on, or an
    acknowledgement. *)
Inductive ca_read {S} (maximum : nat) (bytes : list byte) (c : CaLink S) : Reaction * CaLink S -> Prop :=
| read_answered id answer p log ca acquired :
    kind_id FrameKind.Request bytes = Some id ->
    dw_maximum acquired = dw_maximum (cl_acquired c) ->
    forall pending, pending_view pending = pending_view (cl_pending c) ->
    answer = [] /\ (p = Running -> cl_current c = Some id) \/
      cl_current c <> Some id /\ (exists ack, encode FrameKind.Ack id [] = Ok ack /\ answer = [ack]) ->
    ca_read maximum bytes c (mkReaction answer p log, mkCaLink ca pending acquired (cl_current c))
| read_worked id log ca pending acquired :
    kind_id FrameKind.Request bytes = Some id ->
    cl_current c = None -> dedup_contains id (cl_acquired c) = false ->
    dw_maximum acquired = dw_maximum (cl_acquired c) ->
    pending_view pending <> [] -> length (pending_view pending) <= maximum ->
    Forall (fun e => exists f, encode FrameKind.Delivery e.1 f = Ok e.2) (pending_view pending) ->
    ca_read maximum bytes c
      (mkReaction (pending_view pending).*2 Running log, mkCaLink ca pending acquired (Some id))
| read_ca_ack id answer log pending current :
    kind_id FrameKind.Ack bytes = Some id ->
    pending_view pending = filter (fun kv => kv.1 <> id) (pending_view (cl_pending c)) ->
    answer = [] /\ current = cl_current c /\ (is_Some current -> pending_view pending <> []) \/
      (exists r ack, cl_current c = Some r /\ current = None /\ pending_view pending = [] /\
         encode FrameKind.Ack r [] = Ok ack /\ answer = [ack]) ->
    ca_read maximum bytes c
      (mkReaction answer Running log, mkCaLink (cl_ca c) pending (cl_acquired c) current).

Section broker_reads.
Context {R : Type} `{DeliveryRouter R}.
Implicit Types b : BrokerLink R.

Lemma broker_incoming_cases log bytes b : broker_ok log b -> to_broker_ok log bytes ->
  broker_read bytes b (broker_incoming bytes b).
Proof.
  intros [Hp Hw _ _ _ _] (f & Hd & Hf). pose proof (kind_id_decoded _ _ Hd) as Hk.
  unfold broker_incoming. rewrite Hd.
  destruct (link_kind f) eqn:Hkind; try done; cycle 1.
  { destruct (pending_acknowledge_view (bl_pending b) (link_id f) Hp) as (_ & _ & Hv).
    eapply (read_broker_ack _ _ (link_id f)); [by rewrite Hk|exact Hv|done..]. }
  specialize (Hk FrameKind.Delivery). rewrite bool_decide_eq_true_2 in Hk by done.
  assert (forall log', exists ack, encode FrameKind.Ack (link_id f) [] = Ok ack /\
    acknowledge (link_id f) log' Over = mkReaction [ack] Running log') as Hack.
  { intros log'. apply acknowledge_spec. }
  destruct (dedup_contains _ _).
  { destruct (Hack []) as (ack & He & ->). destruct b. by econstructor; eauto. }
  destruct (deliver _ _) as [[] router]; [|eapply read_delivery; eauto].
  destruct (dedup_insert _ _) as [r acquired] eqn:Hins.
  apply dedup_insert_window in Hins as [Hmax _]; [|done].
  destruct (Hack [Routed (link_id f) (link_payload f)]) as (ack & He & ->).
  destruct r; eapply read_delivery; eauto.
Qed.

(** With a router that accepts and a window that is not empty, the session goes on. *)
Lemma broker_incoming_running `{!AcceptingRouter R deliverable router_room} log bytes b n :
  broker_ok log b -> to_broker_ok log bytes -> router_room (to_broker_room bytes + n) (bl_router b) ->
  (forall id f, (id, f) ∈ all_generated log -> deliverable f) ->
  dw_maximum (bl_acquired b) <> 0 ->
  progress (broker_incoming bytes b).1 = Running /\ router_room n (bl_router (broker_incoming bytes b).2).
Proof.
  intros [_ Hw _ _ _ _] (f & Hd & Hf) Hr Hall Hmax.
  assert (router_room n (bl_router b)) as Hless by (eapply room_weaken; [|exact Hr]; lia).
  pose proof (kind_id_decoded _ _ Hd FrameKind.Delivery) as Hk.
  unfold broker_incoming. rewrite Hd. destruct (link_kind f); try done.
  destruct (dedup_contains _ _).
  { by destruct (acknowledge_spec (link_id f) [] Over) as (ack & _ & ->). }
  unfold to_broker_room in Hr. rewrite Hk in Hr. cbn in Hr.
  destruct (accepts n (link_payload f) _ Hr) as (router & -> & Hr'); [by eapply Hall|].
  destruct (dedup_insert _ _) as [r acquired] eqn:Hins.
  apply dedup_insert_window in Hins as [_ Hok]; [|done]. rewrite (Hok Hmax).
  by destruct (acknowledge_spec (link_id f) [Routed (link_id f) (link_payload f)] Over) as (ack & _ & ->).
Qed.
End broker_reads.

Section ca_reads.
Context {S : Type} `{HS : RequestHandlerLaws S handler_inv maximum}.
Implicit Types c : CaLink S.

(** What is acquired are the deliveries. *)
Lemma encode_deliveries_payloads deliveries ids p encoded acquired p' :
  encode_deliveries deliveries ids p = (Ok (encoded, acquired), p') -> acquired.*2 = deliveries.
Proof.
  revert ids p encoded acquired p'. induction deliveries as [|d deliveries IH]; intros ids p enc acq p';
    cbn [encode_deliveries]; [by intros [= _ <- _]|].
  destruct ids as [|id ids]; [done|]. rewrite M_bind_run. unfold lift.
  destruct (encode _ id d) as [bytes|e|]; [|done..]. rewrite M_bind_run.
  destruct (pending_insert _ _ _) as [[[]|e|] p1]; [|done..]. rewrite M_bind_run.
  destruct (encode_deliveries deliveries ids p1) as [[[enc' acq']|e|] p2] eqn:Hrun; [|done..].
  intros [= <- <- <-]. cbn. f_equal. by eapply IH.
Qed.

Lemma finish_request_cases bytes id log c ca pending :
  kind_id FrameKind.Request bytes = Some id -> cl_current c = None -> dedup_inv (cl_acquired c) ->
  pending_view pending = pending_view (cl_pending c) ->
  let x := finish_request id log (mkCaLink ca pending (cl_acquired c) (cl_current c)) in
  progress x.1 <> Exited -> ca_read maximum bytes c x.
Proof.
  intros Hk Hnone Hw Hv. cbn. unfold finish_request. cbn [cl_ca cl_pending cl_acquired cl_current].
  destruct (dedup_insert _ _) as [r acquired] eqn:Hins.
  apply dedup_insert_window in Hins as [Hmax _]; [|done].
  destruct (acknowledge_spec id log Exited) as (ack & He & ->).
  destruct r; cbn [fst progress]; [intros _|done..].
  eapply (read_answered _ _ _ id); [done..|]. right. split; [by rewrite Hnone|eauto].
Qed.

Lemma cad_request_cases log bytes id payload now ids c :
  ca_ok handler_inv maximum log c -> kind_id FrameKind.Request bytes = Some id ->
  cl_current c = None -> dedup_contains id (cl_acquired c) = false ->
  progress (cad_request id payload now ids c).1 <> Exited ->
  ca_read maximum bytes c (cad_request id payload now ids c).
Proof.
  intros Hc Hk Hnone Hdup. pose proof (co_group _ _ _ _ Hc) as Hempty. rewrite Hnone in Hempty.
  cbn in Hempty. pose proof (co_pending _ _ _ _ Hc) as Hp. pose proof (co_window _ _ _ _ Hc) as Hw.
  unfold cad_request. destruct (handle _ _ _) as [r ca] eqn:Hrun.
  apply handle_law in Hrun as [Hca Hr]; [|apply Hc]. cbn [cl_ca cl_pending cl_acquired cl_current].
  destruct r as [[|ds]|x|]; [by apply finish_request_cases| |by apply finish_request_cases|done].
  destruct (_ <? _); [intros _; eapply (read_answered _ _ _ id); eauto; by left|].
  destruct (encode_deliveries _ _ _) as [r pending] eqn:Hrun.
  pose proof (encode_deliveries_run _ _ _ _ _ Hp Hrun) as (_ & _ & Hr').
  destruct r as [[enc acq]|x|]; [|done..]. rewrite Hempty in Hr'. cbn [app] in Hr'.
  destruct Hr' as (_ & Hall & Hview). destruct (zip_entries _ _ Hall) as (Hent & _ & Henc).
  destruct enc as [|e enc].
  { destruct acq; [|done]. apply finish_request_cases; try done. by rewrite Hview, Hempty. }
  destruct (dedup_insert _ _) as [r acquired] eqn:Hins.
  apply dedup_insert_window in Hins as [Hmax _]; [|done]. destruct r; [intros _|done..].
  assert ((pending_view pending).*2 = e :: enc) as <-.
  { rewrite Hview. apply snd_zip. by rewrite length_fmap, Henc. }
  eapply (read_worked _ _ _ id); rewrite ?Hview; try done.
  - by destruct acq.
  - apply encode_deliveries_payloads in Hrun. rewrite length_zip, length_fmap, Henc, Nat.min_id.
    by rewrite <-(length_fmap snd acq), Hrun.
  - eapply Forall_impl; [exact Hent|]. intros z (f & _ & ?). eauto.
Qed.

Lemma cad_incoming_cases log bytes now ids c :
  ca_ok handler_inv maximum log c -> to_ca_ok log bytes ->
  progress (cad_incoming bytes now ids c).1 <> Exited ->
  ca_read maximum bytes c (cad_incoming bytes now ids c).
Proof.
  intros Hc (f & Hd & Hf). pose proof (kind_id_decoded _ _ Hd) as Hk.
  unfold cad_incoming. rewrite Hd.
  destruct (link_kind f) eqn:Hkind; try done.
  - specialize (Hk FrameKind.Request). rewrite bool_decide_eq_true_2 in Hk by done.
    case_bool_decide as Hcur; [intros _; destruct c; eapply read_answered; eauto|].
    destruct (dedup_contains _ _) eqn:Hdup.
    { destruct (acknowledge_spec (link_id f) [] Exited) as (ack & He & ->). intros _.
      destruct c; eapply read_answered; eauto. }
    case_bool_decide as Hnone; [by eapply cad_request_cases|]. intros _.
    destruct c; eapply read_answered; eauto. by left.
  - specialize (Hk FrameKind.Ack). rewrite bool_decide_eq_true_2 in Hk by done. intros _.
    destruct (pending_acknowledge_view (cl_pending c) (link_id f)) as (Hp & _ & Hv); [apply Hc|].
    destruct (cl_current c) as [x|] eqn:Hcur.
    + rewrite pending_is_empty_view by done. case_bool_decide as Hempty.
      * destruct (acknowledge_spec x [] Exited) as (ack & He & ->).
        eapply read_ca_ack; [done|done|]. right. eauto 10.
      * eapply read_ca_ack; [done|done|]. by left.
    + eapply read_ca_ack; [done|done|]. left. split; [done|]. split; [done|]. by intros [].
Qed.

(** ** The session goes on *)

Context `{!ResponsiveHandler S handler_inv deliverable}.

Lemma encode_deliveries_succeeds deliveries ids p : pending_inv p ->
  Forall (fun d => length d <= MAX_FRAME_LEN) deliveries -> length deliveries <= length ids ->
  NoDup ids -> (forall x, x ∈ ids -> x ∉ (pending_view p).*1) ->
  length (pending_view p) + length deliveries <= pf_maximum p ->
  exists out p', encode_deliveries deliveries ids p = (Ok out, p').
Proof.
  revert ids p. induction deliveries as [|d deliveries IH]; intros ids p Hp Hfit Hids Hnd Hfresh Hroom;
    cbn [encode_deliveries]; [by eexists _, p|].
  destruct ids as [|id ids]; [cbn in Hids; lia|]. cbn [length] in Hids, Hroom.
  apply Forall_cons in Hfit as [Hd Hfit]. apply NoDup_cons in Hnd as [Hid Hnd].
  assert (exists bytes, encode FrameKind.Delivery id d = Ok bytes) as [bytes He].
  { eexists. apply encode_Ok. split; [split; [exact Hd|done]|reflexivity]. }
  rewrite M_bind_run. unfold lift. rewrite He, M_bind_run.
  destruct (pending_insert id bytes p) as [r p1] eqn:Hins.
  pose proof (pending_refines (PendingOp.Insert id bytes) p Hp) as Href. cbn [pending_step] in Href.
  rewrite Hins in Href. destruct Href as (Hp1 & Hmax & Hl). cbn [list_step] in Hl.
  rewrite bool_decide_eq_false_2, (proj2 (Nat.leb_gt _ _)) in Hl by (lia || (apply Hfresh; by left)).
  injection Hl as <- Hv. rewrite M_bind_run.
  destruct (IH ids p1) as (out & p' & ->); try done; try lia.
  - intros x Hx. rewrite <-Hv, fmap_app. intros [Hin|Hin]%elem_of_app; [by apply (Hfresh x); [right|]|].
    apply list_elem_of_singleton in Hin as ->. done.
  - rewrite <-Hv, length_app, Hmax. cbn. lia.
  - by eexists _, p'.
Qed.

Lemma finish_request_running id log c : dedup_inv (cl_acquired c) -> dw_maximum (cl_acquired c) <> 0 ->
  progress (finish_request id log c).1 = Running.
Proof.
  intros Hw Hmax. unfold finish_request. destruct (dedup_insert _ _) as [r acquired] eqn:Hins.
  apply dedup_insert_window in Hins as [_ Hok]; [|done]. rewrite (Hok Hmax).
  by destruct (acknowledge_spec id log Exited) as (ack & _ & ->).
Qed.

Lemma cad_request_running log id payload now ids c :
  ca_ok handler_inv maximum log c -> cl_current c = None -> dw_maximum (cl_acquired c) <> 0 ->
  NoDup ids -> maximum <= length ids ->
  progress (cad_request id payload now ids c).1 = Running.
Proof.
  intros Hc Hnone Hmax Hnd Hids. pose proof (co_group _ _ _ _ Hc) as Hempty. rewrite Hnone in Hempty.
  cbn in Hempty. pose proof (co_pending _ _ _ _ Hc) as Hp. pose proof (co_window _ _ _ _ Hc) as Hw.
  unfold cad_request. destruct (handle _ _ _) as [r ca] eqn:Hrun.
  pose proof (responds payload now (cl_ca c) (co_handler _ _ _ _ Hc)) as Hresp. rewrite Hrun in Hresp.
  apply handle_law in Hrun as [_ Hr]; [|apply Hc]. cbn [fst] in Hresp.
  destruct r as [[|ds]|x|]; [by apply finish_request_running| |by apply finish_request_running|done].
  cbn [cl_ca cl_pending cl_acquired cl_current].
  pose proof (co_maximum _ _ _ _ Hc) as Hpm.
  unfold pending_remaining. rewrite pending_size, Hempty, Hpm, Nat.sub_0_r, (proj2 (Nat.ltb_ge _ _)) by done.
  destruct (encode_deliveries_succeeds ds ids (cl_pending c)) as ([enc acq] & pending & ->); try done.
  - eapply Forall_impl; [exact Hresp|]. by intros d [].
  - lia.
  - intros x _. rewrite Hempty. apply not_elem_of_nil.
  - rewrite Hempty, Hpm. done.
  - destruct enc; [by apply finish_request_running|].
    destruct (dedup_insert _ _) as [r acquired] eqn:Hins.
    apply dedup_insert_window in Hins as [_ Hok]; [|done]. by rewrite (Hok Hmax).
Qed.
End ca_reads.

Lemma generated_handled id f log : (id, f) ∈ all_generated log ->
  exists rid request ds, Handled rid request ds ∈ log /\ (id, f) ∈ ds.
Proof.
  induction log as [|e log IH]; [by intros ?%elem_of_nil|]. unfold all_generated. cbn [fmap list_fmap concat].
  intros [Hin|(rid & request & ds & ? & ?)%IH]%elem_of_app.
  - destruct e as [| | |rid request ds|]; try by apply elem_of_nil in Hin. exists rid, request, ds. split; [by left|done].
  - exists rid, request, ds. split; [by right|done].
Qed.

(** ** What cad answers *)

Section events.
Context {R S : Type} `{DeliveryRouter R, RequestHandler S}.

Lemma broker_incoming_events bytes (b : BrokerLink R) x b' : broker_incoming bytes b = (x, b') ->
  (bl_router b' = bl_router b /\ events x = []) \/
  exists id f, bl_router b' = (deliver f (bl_router b)).2 /\
    events x = if (deliver f (bl_router b)).1 then [Routed id f] else [].
Proof.
  unfold broker_incoming. destruct (decode bytes) as [f|e|]; [|intros [= <- <-]; by left..].
  destruct (link_kind f); try (intros [= <- <-]; by left).
  destruct (dedup_contains _ _).
  { intros [= <- <-]. left. split; [done|]. unfold acknowledge. by destruct (encode FrameKind.Ack (link_id f) []). }
  destruct (deliver (link_payload f) (bl_router b)) as [accepted router] eqn:Hd.
  intros Hrun. right. exists (link_id f), (link_payload f). rewrite Hd. cbn [fst snd]. revert Hrun.
  destruct accepted; [|by intros [= <- <-]].
  destruct (dedup_insert (link_id f) (bl_acquired b)) as [[[]|e|] acquired]; intros [= <- <-]; [|done..].
  split; [done|]. unfold acknowledge. by destruct (encode FrameKind.Ack (link_id f) []).
Qed.

Lemma acknowledge_events id log failed : events (acknowledge id log failed) = log.
Proof. unfold acknowledge. by destruct (encode FrameKind.Ack id []). Qed.

Lemma finish_request_events id log (c : CaLink S) : events (finish_request id log c).1 = log.
Proof.
  unfold finish_request. destruct (dedup_insert id (cl_acquired c)) as [[[]|e|] acquired]; [|done..].
  apply acknowledge_events.
Qed.

End events.

Section answers.
Context {R S : Type} `{DeliveryRouter R} `{HS : RequestHandlerLaws S handler_inv maximum}.

(** The deliveries are what a well-formed CA made of the request. *)
Definition answered (request : list byte) (ds : list (list byte)) : Prop :=
  exists now s s', handler_inv s /\ handle request now s = (Ok (ProcessResult.Deliveries ds), s').

Definition all_answered (log : list LinkEvent) : Prop :=
  forall rid request ds, Handled rid request ds ∈ log -> ds = [] \/ answered request ds.*2.

Lemma all_answered_app log more : all_answered log -> all_answered more -> all_answered (log ++ more).
Proof. intros Hl Hm rid request ds [Hin|Hin]%elem_of_app; [by eapply Hl|by eapply Hm]. Qed.

Lemma all_answered_none more : processed_ids more = [] -> all_answered more.
Proof.
  intros Hnone rid request ds Hin. exfalso. assert (rid ∈ processed_ids more) as Habs.
  { apply list_elem_of_omap. by exists (Handled rid request ds). }
  rewrite Hnone in Habs. by apply elem_of_nil in Habs.
Qed.

Lemma all_answered_one e : match e with Handled _ request ds => ds = [] \/ answered request ds.*2 | _ => True end ->
  all_answered [e].
Proof. intros He rid request ds Hin%list_elem_of_singleton. by subst e. Qed.

Lemma cad_incoming_answered bytes now ids (c : CaLink S) : handler_inv (cl_ca c) ->
  all_answered (events (cad_incoming bytes now ids c).1).
Proof.
  intros Hc. assert (all_answered []) as Hnil by by apply all_answered_none.
  unfold cad_incoming. destruct (decode bytes) as [f|e|]; [|done..]. destruct (link_kind f); [|done| |done..].
  - case_bool_decide; [done|]. destruct (dedup_contains _ _); [cbn; by rewrite acknowledge_events|].
    case_bool_decide; [|done]. unfold cad_request.
    destruct (handle (link_payload f) now (cl_ca c)) as [[[|deliveries]|e|] s] eqn:Hrun; cycle -1; [done|..];
      rewrite ?finish_request_events; try (apply all_answered_one; by left).
    case_match; [by apply all_answered_one|].
    destruct (encode_deliveries _ _ _) as [[[encoded acquired]|e|] pending] eqn:Henc; [|by apply all_answered_one..].
    apply encode_deliveries_payloads in Henc as <-.
    assert (all_answered [Handled (link_id f) (link_payload f) acquired]) as Hone.
    { apply all_answered_one. right. by exists now, (cl_ca c), s. }
    destruct encoded; [by rewrite finish_request_events|]. by destruct (dedup_insert _ _) as [[[]|e|] ?].
  - destruct (cl_current c); [|done]. destruct (pending_is_empty _); [|done]. cbn. by rewrite acknowledge_events.
Qed.

Lemma broker_request_processed id (b : BrokerLink R) : processed_ids (events (broker_request id b).1) = [].
Proof.
  unfold broker_request. destruct (_ && _); [|done]. destruct (next_request _) as [[request|] router]; [|done].
  destruct id as [id|]; [|done]. destruct (encode FrameKind.Request id request) as [encoded|e|]; [|done..].
  by destruct (pending_insert id encoded (bl_pending b)) as [[[]|e|] pending].
Qed.

Lemma broker_incoming_processed bytes (b : BrokerLink R) : processed_ids (events (broker_incoming bytes b).1) = [].
Proof.
  destruct (broker_incoming bytes b) as [x b'] eqn:Hrun.
  cbn [fst]. apply broker_incoming_events in Hrun as [[_ ->]|(id & f & _ & ->)]; [done|].
  by destruct (deliver f (bl_router b)).1.
Qed.

Lemma link_step_answered used st (y : System R S) : link_inv handler_inv maximum used y ->
  all_answered (sy_log y) -> all_answered (sy_log (link_step st y)).
Proof.
  intros Hy Hlog. assert (all_answered []) as Hnil by by apply all_answered_none.
  destruct st as [| | |n|n|id| |now ids| | |router|ca]; cbn [link_step]; try done.
  - by destruct (_ || _).
  - destruct (sy_broker_up y); [|done]. cbn [broker_reacts sy_log]. apply all_answered_app; [done|].
    apply all_answered_none, broker_request_processed.
  - destruct (sy_broker_up y); [|done]. destruct (sy_to_broker y) as [|bytes rest]; [done|].
    cbn [broker_reacts sy_log]. apply all_answered_app; [done|]. apply all_answered_none, broker_incoming_processed.
  - destruct (sy_ca_up y) eqn:Hup; [|done]. destruct (sy_to_ca y) as [|bytes rest]; [done|].
    cbn [ca_reacts sy_log]. apply all_answered_app; [done|]. apply cad_incoming_answered.
    pose proof (up_not_exited _ _ Hy Hup) as Hex. destruct Hy as [_ _ _ Hca]. unfold ca_alive_ok in Hca.
    rewrite Hex in Hca. destruct Hca as [[] _]. done.
  - destruct (_ && _); [|done]. by apply all_answered_app.
  - destruct (_ && _); [|done]. by apply all_answered_app.
Qed.

Lemma link_run_answered steps : forall used (y : System R S), link_inv handler_inv maximum used y ->
  reloads_ok (handler_inv:=handler_inv) steps -> NoDup (used ++ concat (drawn <$> steps)) ->
  all_answered (sy_log y) -> all_answered (sy_log (link_run steps y)).
Proof.
  induction steps as [|st steps IH]; intros used y Hy Hok Hnd Hlog; [done|]. cbn in *.
  apply Forall_cons in Hok as [Hst Hok]. rewrite app_assoc in Hnd. apply (IH (used ++ drawn st)); [|done..|].
  - apply NoDup_app in Hnd as (Hnd & _ & _). apply NoDup_app in Hnd as (_ & Hfresh & Hnd).
    apply link_step_inv; [done|]. split; [done|]. split; [|done]. intros x Hx Hused. by apply (Hfresh x).
  - by eapply link_step_answered.
Qed.

(** So they are deliverable. *)
Lemma generated_deliverable `{!ResponsiveHandler S handler_inv deliverable} log id f :
  all_answered log -> (id, f) ∈ all_generated log -> deliverable f.
Proof.
  intros Hlog (rid & request & ds & Hin & Hf)%generated_handled.
  destruct (Hlog _ _ _ Hin) as [->|(now & s & s' & Hs & Hrun)]; [by apply elem_of_nil in Hf|].
  pose proof (responds request now s Hs) as Hresp. rewrite Hrun in Hresp. cbn [fst] in Hresp.
  rewrite Forall_forall in Hresp. apply Hresp. apply list_elem_of_fmap. by exists (id, f).
Qed.
End answers.

(** ** Reachable states *)

Section live.
Context {R S : Type} `{DeliveryRouter R} `{HS : RequestHandlerLaws S handler_inv maximum}.
Implicit Types y : System R S.

Abbreviation link_inv := (link_inv handler_inv maximum).
Abbreviation link_live := (link_live maximum).

Lemma broker_reacts_live y x to_broker : link_live y ->
  dw_maximum (bl_acquired x.2) = dw_maximum (bl_acquired (sy_broker y)) ->
  (forall id, cl_current (sy_ca y) = Some id -> id ∈ (pending_view (bl_pending x.2)).*1) ->
  (forall id, id ∈ kind_ids FrameKind.Ack to_broker -> id ∈ kind_ids FrameKind.Ack (sy_to_broker y)) ->
  link_live (broker_reacts x to_broker y).
Proof.
  intros [] Hw Ha Hacks. constructor; cbn [broker_reacts sy_broker sy_ca sy_to_broker]; try done.
  - by rewrite Hw.
  - intros id Hid Hin. by eapply ll_unacked0, Hacks.
Qed.

(** The broker takes a request only when it waits for none. *)
Lemma broker_request_keeps log b id : broker_ok log b ->
  bl_acquired (broker_request id b).2 = bl_acquired b /\
  forall x, x ∈ (pending_view (bl_pending b)).*1 -> x ∈ (pending_view (bl_pending (broker_request id b).2)).*1.
Proof.
  intros Hb. unfold broker_request. destruct (_ && _) eqn:Hguard; [|done].
  apply andb_true_iff in Hguard as [Hempty _].
  rewrite pending_is_empty_view, bool_decide_eq_true in Hempty by apply Hb. rewrite Hempty.
  split; [|intros x []%elem_of_nil].
  destruct (next_request _) as [[request|] router]; [|done]. destruct id as [id|]; [|done].
  destruct (encode _ id request); [|done..]. by destruct (pending_insert _ _ _) as [[] ?].
Qed.

Lemma broker_read_live log y bytes rest : link_live y -> broker_ok log (sy_broker y) ->
  to_broker_ok log bytes -> sy_to_broker y = bytes :: rest ->
  link_live (broker_reacts (broker_incoming bytes (sy_broker y)) rest y).
Proof.
  intros Hl Hb Hok Hwire. pose proof (ll_awaited _ _ Hl) as Haw. pose proof (ll_unacked _ _ Hl) as Hun.
  rewrite Hwire in Hun. setoid_rewrite kind_ids_cons in Hun.
  assert (forall id, id ∈ kind_ids FrameKind.Ack rest -> id ∈ kind_ids FrameKind.Ack (sy_to_broker y)) as Hsub.
  { intros id Hid. rewrite Hwire, kind_ids_cons. apply elem_of_app. by right. }
  destruct (broker_incoming_cases log bytes (sy_broker y) Hb Hok) as
    [id pending router acquired Hk Hv -> -> | id answer p l router acquired Hk Hmax _];
    apply broker_reacts_live; try done; cbn [snd bl_pending].
  intros x Hx. rewrite Hv. pose proof (Haw x Hx) as (e & -> & He)%list_elem_of_fmap.
  apply list_elem_of_fmap. exists e. split; [done|]. apply list_elem_of_filter. split; [|done].
  intros Heq. apply (Hun _ Hx). rewrite Hk, Heq. by left.
Qed.

(** A request the CA starts on is one the broker waits for and that nothing on the
    way acknowledges. *)
Lemma worked_is_awaited used y bytes rest id : link_inv used y ->
  sy_ca_exited y = false -> sy_to_ca y = bytes :: rest ->
  kind_id FrameKind.Request bytes = Some id -> dedup_contains id (cl_acquired (sy_ca y)) = false ->
  id ∈ (pending_view (bl_pending (sy_broker y))).*1 /\ id ∉ kind_ids FrameKind.Ack (sy_to_broker y).
Proof.
  intros [Hlog _ Hw Hca] Hex Hwire Hk Hdup. unfold ca_alive_ok in Hca. rewrite Hex in Hca.
  destruct Hca as [Hc _]. destruct Hw as [_ Hb (old & new & Hr & Ho & Hn)].
  rewrite Hwire in Hr. change (request_ids (bytes :: rest)) with (kind_ids FrameKind.Request (bytes :: rest)) in Hr.
  rewrite kind_ids_cons, Hk in Hr. cbn [option_list app] in Hr.
  assert ((id ∉ processed_ids (sy_log y)) /\ id ∈ (pending_view (bl_pending (sy_broker y))).*1) as [Hnew Haw].
  { destruct old as [|x old]; cbn [app] in Hr.
    - rewrite <-Hr in Hn. by apply Forall_cons in Hn as [? _].
    - injection Hr as <- _. apply Forall_cons in Ho as [Ho _]. apply (co_last _ _ _ _ Hc) in Ho. congruence. }
  split; [done|]. intros (a & Ha & Hka)%list_elem_of_omap. rewrite Forall_forall in Hb.
  apply Hb in Ha as (f & Hd & Hf). rewrite (kind_id_decoded _ _ Hd) in Hka.
  case_bool_decide as Hkind; [|done]. injection Hka as <-. rewrite Hkind in Hf.
  destruct Hf as (request & ds & Hh & _). apply Hnew, list_elem_of_omap. by eexists.
Qed.

Lemma ca_read_live used y bytes rest now ids : link_inv used y -> link_live y ->
  sy_ca_exited y = false -> sy_to_ca y = bytes :: rest ->
  progress (cad_incoming bytes now ids (sy_ca y)).1 <> Exited ->
  link_live (ca_reacts (cad_incoming bytes now ids (sy_ca y)) rest y).
Proof.
  intros Hy [] Hex Hwire Hprog. pose proof Hy as [Hlog _ Hw Hca]. unfold ca_alive_ok in Hca.
  rewrite Hex in Hca. destruct Hca as [Hc _]. pose proof (wo_to_ca _ _ _ _ Hw) as Hok.
  rewrite Hwire in Hok. apply Forall_cons in Hok as [Hok _].
  pose proof (worked_is_awaited used y bytes rest) as Hworked.
  pose proof (cad_incoming_cases _ bytes now ids _ Hc Hok Hprog) as Hread.
  destruct Hread as [id answer p l ca acquired Hk Hmax pending Hv Hans
    |id l ca pending acquired Hk Hnone Hdup Hmax Hne Hlen Hent|id answer l pending current Hk Hv Hans];
    constructor; cbn [ca_reacts sy_broker sy_ca sy_to_broker fst snd reply cl_ca cl_pending cl_acquired cl_current];
    rewrite ?Hmax; try done; rewrite ?Hv; try done.
  - intros x Hx. rewrite kind_ids_app. intros [Hin|Hin]%elem_of_app; [by eapply ll_unacked0|].
    destruct Hans as [[-> _]|(Hne & ack & He & ->)]; [by apply elem_of_nil in Hin|].
    rewrite kind_ids_cons, (kind_id_encoded _ _ _ _ He) in Hin.
    apply list_elem_of_singleton in Hin as ->. done.
  - intros x [= <-]. by apply (Hworked id).
  - intros x [= <-]. rewrite kind_ids_app, (kind_ids_entries FrameKind.Delivery) by done.
    rewrite bool_decide_eq_false_2, app_nil_r by done. by apply (Hworked id).
  - etrans; [apply length_filter|done].
  - intros x Hx. apply ll_awaited0. destruct Hans as [(_ & -> & _)|(r & ack & _ & -> & _)]; [done|done].
  - intros x Hx. destruct Hans as [(-> & -> & _)|(r & ack & _ & -> & _)]; [|done].
    rewrite app_nil_r. by apply ll_unacked0.
  - intros [x Hx]. destruct Hans as [(_ & _ & Hne)|(r & ack & _ & -> & _)]; [|done].
    rewrite <-Hv. apply Hne. by eexists.
Qed.

Lemma link_live_step used st y : link_inv used y -> step_ok (handler_inv:=handler_inv) used st ->
  (sy_ca_exited y = false -> link_live y) ->
  sy_ca_exited (link_step st y) = false -> link_live (link_step st y).
Proof.
  intros Hy Hst Hl Hex'. assert (broker_ok (sy_log y) (sy_broker y)) as Hb by apply Hy.
  destruct (sy_ca_exited y) eqn:Hex.
  { exfalso. revert Hex'. clear -Hex. destruct st; cbn; rewrite ?Hex, ?orb_true_r; cbn; try done;
      repeat case_match; cbn; by rewrite ?Hex. }
  specialize (Hl eq_refl). pose proof Hl as [].
  destruct st as [| | |n|n|id| |now ids| | |router|ca]; cbn [link_step] in *.
  - destruct (_ || _); [done|]. constructor; try done. cbn [sy_to_broker].
    intros id _. unfold cad_resend, go_on. cbn [reply]. rewrite pending_snapshot_view.
    rewrite (kind_ids_entries FrameKind.Delivery); [by apply not_elem_of_nil|].
    pose proof (li_ca _ _ _ _ Hy) as Hca. unfold ca_alive_ok in Hca. rewrite Hex in Hca.
    destruct Hca as [Hc _]. eapply Forall_impl; [apply Hc|]. intros e (f & _ & ?). eauto.
  - by constructor.
  - by constructor.
  - by constructor.
  - constructor; try done. cbn. intros id Hid Hin. by eapply ll_unacked0, kind_ids_take.
  - destruct (sy_broker_up y); [|done].
    destruct (broker_request_keeps _ _ id Hb) as [Hacq Hin].
    apply broker_reacts_live; try done; [by rewrite Hacq|auto].
  - destruct (sy_broker_up y); [|done]. destruct (sy_to_broker y) as [|bytes rest] eqn:Hwire; [done|].
    eapply broker_read_live; try done. pose proof (wo_to_broker _ _ _ _ (li_wire _ _ _ _ Hy)) as Hok.
    rewrite Hwire in Hok. by apply Forall_cons in Hok as [? _].
  - destruct (sy_ca_up y); [|done]. destruct (sy_to_ca y) as [|bytes rest] eqn:Hwire; [done|].
    eapply ca_read_live; try done. intros Habs. cbn in Hex'. by rewrite Habs, orb_true_r in Hex'.
  - destruct (_ && _); [|done]. by apply broker_reacts_live.
  - destruct (_ && _); [|done]. constructor; try done. cbn [ca_reacts sy_to_broker sy_ca fst snd].
    intros id Hid. rewrite kind_ids_app. intros [Hin|Hin]%elem_of_app; [by eapply ll_unacked0|].
    unfold cad_resend, go_on in Hin. cbn [reply] in Hin. rewrite pending_snapshot_view in Hin.
    rewrite (kind_ids_entries FrameKind.Delivery) in Hin; [by apply elem_of_nil in Hin|].
    pose proof (li_ca _ _ _ _ Hy) as Hca. unfold ca_alive_ok in Hca. rewrite Hex in Hca.
    destruct Hca as [Hc _]. eapply Forall_impl; [apply Hc|]. intros e (f & _ & ?). eauto.
  - by constructor.
  - by constructor.
Qed.
End live.

(** ** A session that stays up *)

Section session.
Context {R S : Type} `{HR : AcceptingRouter R deliverable router_room} `{HS : RequestHandlerLaws S handler_inv maximum}.
Context `{!ResponsiveHandler S handler_inv deliverable}.
Implicit Types y : System R S.

Abbreviation link_inv := (link_inv handler_inv maximum).
Abbreviation link_live := (link_live maximum).
Abbreviation wire_weight := (wire_weight maximum).
Abbreviation room_needed := (room_needed maximum).

(** The fields of a system after a reaction. *)
Ltac fields := cbn [broker_reacts ca_reacts sy_broker sy_ca sy_to_ca sy_to_broker sy_broker_up sy_ca_up
  sy_ca_exited sy_log fst snd reply progress events bl_router bl_pending bl_acquired cl_ca cl_pending
  cl_acquired cl_current go_on].

Lemma delivery_weights (l : list (MessageId * list byte)) :
  Forall (fun e => exists f, encode FrameKind.Delivery e.1 f = Ok e.2) l ->
  Forall (fun bytes => to_broker_weight bytes = 3) l.*2.
Proof.
  intros Hl. apply Forall_fmap. eapply Forall_impl; [exact Hl|]. intros e (f & He).
  apply (frame_weights maximum FrameKind.Delivery _ e.1). by rewrite (kind_id_encoded _ _ _ _ He).
Qed.

Lemma delivery_rooms (l : list (MessageId * list byte)) :
  Forall (fun e => exists f, encode FrameKind.Delivery e.1 f = Ok e.2) l ->
  Forall (fun bytes => to_broker_room bytes = 1) l.*2.
Proof.
  intros Hl. apply Forall_fmap. eapply Forall_impl; [exact Hl|]. intros e (f & He).
  apply (frame_rooms maximum FrameKind.Delivery _ e.1). by rewrite (kind_id_encoded _ _ _ _ He).
Qed.

Lemma broker_reacts_way f g x rest y bytes : sy_to_broker y = bytes :: rest ->
  on_the_way f g (broker_reacts x rest y) + g bytes = on_the_way f g y + sum_list (f <$> reply x.1).
Proof.
  intros Hw. unfold on_the_way. cbn [broker_reacts sy_to_ca sy_to_broker].
  rewrite Hw, fmap_app, sum_list_app. cbn. lia.
Qed.

Lemma ca_reacts_way f g x rest y bytes : sy_to_ca y = bytes :: rest ->
  on_the_way f g (ca_reacts x rest y) + f bytes = on_the_way f g y + sum_list (g <$> reply x.1).
Proof.
  intros Hw. unfold on_the_way. cbn [ca_reacts sy_to_ca sy_to_broker].
  rewrite Hw, fmap_app, sum_list_app. cbn. lia.
Qed.

(** The router has room for all that may come. *)
Definition roomy y : Prop := room_needed y <= 2 * maximum /\ router_room (room_needed y) (bl_router (sy_broker y)).

Lemma broker_read_session used y bytes rest : link_inv used y -> link_live y -> session_ok y -> roomy y ->
  all_answered (handler_inv:=handler_inv) (sy_log y) -> sy_to_broker y = bytes :: rest ->
  let y' := broker_reacts (broker_incoming bytes (sy_broker y)) rest y in
  session_ok y' /\ roomy y' /\ wire_weight y' < wire_weight y.
Proof.
  intros Hy Hl [] [Hmost Hroom] Hans0 Hwire y'. pose proof (li_broker _ _ _ _ Hy) as Hb.
  pose proof (wo_to_broker _ _ _ _ (li_wire _ _ _ _ Hy)) as Hok. rewrite Hwire in Hok.
  apply Forall_cons in Hok as [Hok _].
  pose proof (broker_reacts_way (to_ca_room maximum) to_broker_room (broker_incoming bytes (sy_broker y)) rest y bytes Hwire) as Hway.
  pose proof (broker_reacts_way (to_ca_weight maximum) to_broker_weight (broker_incoming bytes (sy_broker y)) rest y bytes Hwire)
    as Hweigh. fold y' in Hway, Hweigh.
  change (on_the_way (to_ca_room maximum) to_broker_room) with (LinkProgress.room_needed (R:=R) (S:=S) maximum) in Hway.
  change (on_the_way (to_ca_weight maximum) to_broker_weight) with (LinkProgress.wire_weight (R:=R) (S:=S) maximum) in Hweigh.
  assert (to_broker_room bytes <= room_needed y) as Hle.
  { unfold LinkProgress.room_needed, on_the_way. rewrite Hwire. cbn. lia. }
  destruct (broker_incoming_running _ bytes (sy_broker y) (room_needed y - to_broker_room bytes) Hb Hok) as [Hrun Hr].
  { by replace (to_broker_room bytes + _) with (room_needed y) by lia. }
  { intros id f. by apply generated_deliverable. }
  { apply Hl. }
  assert (sum_list (to_ca_room maximum <$> reply (broker_incoming bytes (sy_broker y)).1) = 0 -> roomy y') as Hroomy.
  { intros Hz. assert (room_needed y' = room_needed y - to_broker_room bytes) as Heq by lia.
    split; rewrite Heq; [lia|exact Hr]. }
  assert (sum_list (to_ca_weight maximum <$> reply (broker_incoming bytes (sy_broker y)).1) < to_broker_weight bytes ->
    wire_weight y' < wire_weight y) as Hless by lia.
  clear Hway Hweigh. subst y'.
  rewrite Hwire in se_requests0, se_deliveries0. setoid_rewrite kind_ids_cons in se_requests0.
  setoid_rewrite kind_ids_cons in se_deliveries0.
  destruct (broker_incoming_cases _ bytes (sy_broker y) Hb Hok) as
    [id pending router acquired Hk Hv -> -> | id answer p l router acquired Hk Hmax Hans];
    pose proof (kind_id_only _ _ _ Hk) as Hkind; cbn [fst snd progress bl_router] in *.
  - split; [constructor; fields; rewrite ?Hv, ?app_nil_r; try done|].
    + intros x [Hne Hx]%unacknowledged. specialize (se_requests0 x Hx). rewrite Hk in se_requests0.
      set_solver.
    + intros x Hx. specialize (se_deliveries0 x Hx). rewrite (Hkind FrameKind.Delivery) in se_deliveries0.
      set_solver.
    + split; [by apply Hroomy|]. apply Hless. pose proof (frame_weights maximum _ _ _ Hk) as Hweight.
      cbn in Hweight |- *. lia.
  - destruct Hans as [[_ ->]|(ack & He & ->)]; [done|].
    pose proof (kind_id_encoded _ _ _ _ He) as Hack.
    split; [constructor; fields; rewrite ?Hrun; try done|].
    + intros x Hx. specialize (se_requests0 x Hx). rewrite (Hkind FrameKind.Ack) in se_requests0.
      rewrite kind_ids_app. set_solver.
    + intros x Hx. specialize (se_deliveries0 x Hx). rewrite Hk in se_deliveries0.
      rewrite kind_ids_app, kind_ids_cons, Hack. set_solver.
    + pose proof (ack_weights maximum _ _ He). pose proof (ack_rooms maximum _ _ He).
      split; [apply Hroomy; cbn; lia|]. apply Hless.
      pose proof (frame_weights maximum _ _ _ Hk) as Hweight. cbn in Hweight |- *. lia.
Qed.

Lemma cad_incoming_running used y bytes rest now ids : link_inv used y -> link_live y ->
  sy_ca_exited y = false -> sy_to_ca y = bytes :: rest -> NoDup ids -> maximum <= length ids ->
  progress (cad_incoming bytes now ids (sy_ca y)).1 = Running.
Proof.
  intros Hy Hl Hex Hwire Hnd Hids. pose proof (li_ca _ _ _ _ Hy) as Hca. unfold ca_alive_ok in Hca.
  rewrite Hex in Hca. destruct Hca as [Hc _]. destruct (li_wire _ _ _ _ Hy) as [Hw _ Hreq].
  rewrite Hwire in Hw, Hreq. apply Forall_cons in Hw as [(f & Hd & Hf) _].
  unfold cad_incoming. rewrite Hd. destruct (link_kind f) eqn:Hkind; try done.
  - case_bool_decide as Hcur; [done|]. destruct (dedup_contains _ _) eqn:Hdup.
    { by destruct (acknowledge_spec (link_id f) [] Exited) as (ack & _ & ->). }
    case_bool_decide as Hnone; [eapply cad_request_running; try done; apply Hl|].
    exfalso. destruct (cl_current (sy_ca y)) as [x|] eqn:Hx; [|done].
    destruct (worked_is_awaited (handler_inv:=handler_inv) (maximum:=maximum) used y bytes rest (link_id f)) as [Haw _]; try done.
    { by rewrite (kind_id_decoded _ _ Hd), bool_decide_eq_true_2. }
    pose proof (ll_awaited _ _ Hl x Hx) as Hxaw. pose proof (bo_one _ _ (li_broker _ _ _ _ Hy)) as Hone.
    destruct (pending_view (bl_pending (sy_broker y))) as [|e [|? ?]]; cbn [length fmap list_fmap] in *;
      [by apply elem_of_nil in Haw| |lia].
    apply list_elem_of_singleton in Haw, Hxaw. congruence.
  - destruct (cl_current (sy_ca y)) as [x|]; [|done].
    destruct (pending_is_empty _); [|done].
    by destruct (acknowledge_spec x [] Exited) as (ack & _ & ->).
Qed.

Lemma ca_read_session used y bytes rest now ids : link_inv used y -> link_live y -> session_ok y ->
  sy_ca_exited y = false -> sy_to_ca y = bytes :: rest -> NoDup ids -> maximum <= length ids ->
  let y' := ca_reacts (cad_incoming bytes now ids (sy_ca y)) rest y in
  sy_ca_exited y' = false /\ session_ok y' /\ room_needed y' <= room_needed y /\ wire_weight y' < wire_weight y.
Proof.
  intros Hy Hl [] Hex Hwire Hnd Hids y'.
  pose proof (cad_incoming_running used y bytes rest now ids Hy Hl Hex Hwire Hnd Hids) as Hrun.
  pose proof (li_ca _ _ _ _ Hy) as Hca. unfold ca_alive_ok in Hca. rewrite Hex in Hca. destruct Hca as [Hc _].
  pose proof (wo_to_ca _ _ _ _ (li_wire _ _ _ _ Hy)) as Hok. rewrite Hwire in Hok.
  apply Forall_cons in Hok as [Hok _].
  pose proof (ca_reacts_way (to_ca_room maximum) to_broker_room (cad_incoming bytes now ids (sy_ca y)) rest y bytes Hwire) as Hway.
  pose proof (ca_reacts_way (to_ca_weight maximum) to_broker_weight (cad_incoming bytes now ids (sy_ca y)) rest y bytes Hwire)
    as Hweigh. fold y' in Hway, Hweigh.
  change (on_the_way (to_ca_room maximum) to_broker_room) with (LinkProgress.room_needed (R:=R) (S:=S) maximum) in Hway.
  change (on_the_way (to_ca_weight maximum) to_broker_weight) with (LinkProgress.wire_weight (R:=R) (S:=S) maximum) in Hweigh.
  assert (forall x, (cad_incoming bytes now ids (sy_ca y)) = x ->
    sum_list (to_broker_room <$> reply x.1) <= to_ca_room maximum bytes ->
    sum_list (to_broker_weight <$> reply x.1) < to_ca_weight maximum bytes ->
    room_needed (ca_reacts x rest y) <= room_needed y /\ wire_weight (ca_reacts x rest y) < wire_weight y) as Hless.
  { intros x <-. fold y'. lia. }
  clear Hway Hweigh. subst y'.
  assert (progress (cad_incoming bytes now ids (sy_ca y)).1 <> Exited) as Hne by (by rewrite Hrun).
  split; [cbn; by rewrite Hex, Hrun|].
  rewrite Hwire in se_requests0, se_deliveries0. setoid_rewrite kind_ids_cons in se_requests0.
  setoid_rewrite kind_ids_cons in se_deliveries0.
  pose proof (cad_incoming_cases _ bytes now ids _ Hc Hok Hne) as Hread.
  destruct Hread as [id answer p l ca acquired Hk Hmax pending Hv Hans
    |id l ca pending acquired Hk Hnone Hdup Hmax Hnil Hlen Hent|id answer l pending current Hk Hv Hans];
    pose proof (kind_id_only _ _ _ Hk) as Hkind; cbn [fst snd progress] in Hrun; clear Hne.
  - split; [constructor; fields; rewrite ?Hv, ?Hrun; try done|].
    + intros x Hx. specialize (se_requests0 x Hx). rewrite Hk in se_requests0. rewrite kind_ids_app.
      destruct Hans as [[-> Hcur]|(Hcur & ack & He & ->)]; [specialize (Hcur Hrun); set_solver|].
      rewrite kind_ids_cons, (kind_id_encoded _ _ _ _ He). set_solver.
    + intros x Hx. specialize (se_deliveries0 x Hx). rewrite (Hkind FrameKind.Ack) in se_deliveries0.
      rewrite kind_ids_app. set_solver.
    + pose proof (frame_weights maximum _ _ _ Hk) as Hweight. pose proof (frame_rooms maximum _ _ _ Hk) as Hroom.
      cbn in Hweight, Hroom.
      destruct Hans as [[-> _]|(_ & ack & He & ->)]; (apply Hless; [done|..]); cbn; [lia..| |];
        pose proof (ack_weights maximum _ _ He); pose proof (ack_rooms maximum _ _ He); lia.
  - split; [constructor; fields; try done|].
    + intros x Hx. specialize (se_requests0 x Hx). rewrite Hk, Hnone in se_requests0.
      rewrite kind_ids_app. set_solver.
    + intros x Hx. left. rewrite kind_ids_app, (kind_ids_entries FrameKind.Delivery) by done.
      rewrite bool_decide_eq_true_2 by done. apply elem_of_app. by right.
    + pose proof (frame_weights maximum _ _ _ Hk) as Hweight. pose proof (frame_rooms maximum _ _ _ Hk) as Hroom.
      cbn in Hweight, Hroom.
      apply Hless; [done|..]; cbn [fst reply].
      * rewrite (sum_list_fmap_same 1 _ to_broker_room), length_fmap by by apply delivery_rooms. lia.
      * rewrite (sum_list_fmap_same 3 _ to_broker_weight), length_fmap by by apply delivery_weights. lia.
  - split; [constructor; fields; rewrite ?Hv; try done|].
    + intros x Hx. specialize (se_requests0 x Hx). rewrite (Hkind FrameKind.Request) in se_requests0.
      rewrite kind_ids_app. destruct Hans as [(-> & -> & _)|(r & ack & Hcur & -> & _ & He & ->)]; [set_solver|].
      rewrite kind_ids_cons, (kind_id_encoded _ _ _ _ He). rewrite Hcur in se_requests0. set_solver.
    + intros x [Hne Hx]%unacknowledged. specialize (se_deliveries0 x Hx). rewrite Hk in se_deliveries0.
      rewrite kind_ids_app. set_solver.
    + pose proof (frame_weights maximum _ _ _ Hk) as Hweight. pose proof (frame_rooms maximum _ _ _ Hk) as Hroom.
      cbn in Hweight, Hroom.
      destruct Hans as [(-> & _)|(r & ack & _ & _ & _ & He & ->)]; (apply Hless; [done|..]); cbn; [lia..| |];
        pose proof (ack_weights maximum _ _ He); pose proof (ack_rooms maximum _ _ He); lia.
Qed.

(** *** Runs of reads *)

(** What the daemons do while the connection is up and the broker takes no request:
    they read, and the agents and the configuration go on. *)
Definition session_step (st : LinkStep R S) : Prop :=
  match st with
  | BrokerReads => True
  | CaReads _ ids => maximum <= length ids
  | RouterChanges router => router_room (2 * maximum) router
  | CaReloads ca => handler_inv ca
  | _ => False
  end.

(** Both sides read in the round. *)
Definition both_read (round : list (LinkStep R S)) : Prop :=
  BrokerReads ∈ round /\ exists now ids, CaReads now ids ∈ round.

(** The states of a session, in the names drawn so far. *)
Record going (used : list MessageId) y : Prop := mkGoing {
  go_inv : link_inv used y;
  go_live : link_live y;
  go_alive : sy_ca_exited y = false;
  go_session : session_ok y;
  go_room : roomy y;
  go_answered : all_answered (handler_inv:=handler_inv) (sy_log y);
}.

Lemma session_step_going used st y : going used y -> session_step st ->
  NoDup (drawn st) -> (forall x, x ∈ drawn st -> x ∉ used) ->
  going (used ++ drawn st) (link_step st y) /\
  (wire_weight (link_step st y) < wire_weight y \/
   sy_to_ca (link_step st y) = sy_to_ca y /\ sy_to_broker (link_step st y) = sy_to_broker y /\
   match st with BrokerReads => sy_to_broker y = [] | CaReads _ _ => sy_to_ca y = [] | _ => True end).
Proof.
  intros [Hy Hl Hex Hs Hro Hans] Hst Hnd Hfresh.
  assert (step_ok (handler_inv:=handler_inv) used st) as Hok.
  { split; [done|]. split; [done|]. by destruct st. }
  pose proof (link_step_inv used st y Hy Hok) as Hy'.
  pose proof (link_live_step used st y Hy Hok (fun _ => Hl)) as Hl'.
  pose proof (link_step_answered used st y Hy Hans) as Hans'.
  cut (sy_ca_exited (link_step st y) = false /\ session_ok (link_step st y) /\ roomy (link_step st y) /\
    (wire_weight (link_step st y) < wire_weight y \/
     sy_to_ca (link_step st y) = sy_to_ca y /\ sy_to_broker (link_step st y) = sy_to_broker y /\
     match st with BrokerReads => sy_to_broker y = [] | CaReads _ _ => sy_to_ca y = [] | _ => True end)).
  { intros (? & ? & ? & ?). split; [constructor; auto|done]. }
  clear Hy' Hl' Hans'. pose proof Hs as [Hb Hc _ _]. destruct st as [| | |n|n|id| |now ids| | |router|ca]; try done;
    cbn [link_step drawn session_step] in *.
  - rewrite Hb. destruct (sy_to_broker y) as [|bytes rest] eqn:Hwire; [by auto 10|].
    destruct (broker_read_session used y bytes rest Hy Hl Hs Hro Hans Hwire) as (? & ? & ?). auto.
  - rewrite Hc. destruct (sy_to_ca y) as [|bytes rest] eqn:Hwire; [by auto 10|].
    destruct (ca_read_session used y bytes rest now ids Hy Hl Hs Hex Hwire Hnd Hst) as (? & ? & Hless & ?).
    split; [done|]. split; [done|]. split; [|auto]. destruct Hro as [Hmost Hroom]. split; [lia|].
    by eapply room_weaken.
  - split; [done|]. split; [by destruct Hs; constructor|]. split; [|by auto 10]. destruct Hro as [Hmost _].
    split; [done|]. by eapply room_weaken.
  - split; [done|]. split; [by destruct Hs; constructor|]. by auto 10.
Qed.

Lemma session_run_going steps : forall used y, going used y -> Forall session_step steps ->
  NoDup (used ++ concat (drawn <$> steps)) ->
  going (used ++ concat (drawn <$> steps)) (link_run steps y) /\
  (wire_weight (link_run steps y) < wire_weight y \/
   sy_to_ca (link_run steps y) = sy_to_ca y /\ sy_to_broker (link_run steps y) = sy_to_broker y /\
   (BrokerReads ∈ steps -> sy_to_broker y = []) /\
   (forall now ids, CaReads now ids ∈ steps -> sy_to_ca y = [])).
Proof.
  induction steps as [|st steps IH]; intros used y Hy Hst Hnd; cbn [fmap list_fmap concat] in *.
  { rewrite app_nil_r. split; [done|]. right.
    split_and!; [done|done|by intros []%elem_of_nil|by intros ? ? []%elem_of_nil]. }
  apply Forall_cons in Hst as [Hst Hrest]. rewrite app_assoc in Hnd |- *.
  pose proof Hnd as (Hnd1 & _ & _)%NoDup_app. apply NoDup_app in Hnd1 as (_ & Hfresh & Hnd1).
  destruct (session_step_going used st y Hy Hst Hnd1) as [Hy1 Hw].
  { intros x Hx Hused. by apply (Hfresh x). }
  destruct (IH _ _ Hy1 Hrest Hnd) as (Hy2 & Hw2). split; [done|]. clear IH.
  change (link_run (st :: steps) y) with (link_run steps (link_step st y)).
  destruct Hw as [Hw|(Hc & Hb & Hnone)].
  { left. destruct Hw2 as [|(Hc2 & Hb2 & _)]; [lia|]. unfold LinkProgress.wire_weight, on_the_way in *. by rewrite Hc2, Hb2. }
  rewrite Hc, Hb in Hw2. destruct Hw2 as [Hw2|(Hc2 & Hb2 & Hbr & Hcr)].
  { left. unfold LinkProgress.wire_weight, on_the_way in *. by rewrite Hc, Hb in Hw2. }
  right. split; [done|]. split; [done|].
  split; [|intros now ids]; intros [<-|?]%elem_of_cons; eauto.
Qed.

(** Every round takes something off the way, until nothing is on it. *)
Lemma rounds_going rounds : forall used y, going used y -> Forall (Forall session_step) rounds ->
  Forall both_read rounds -> NoDup (used ++ concat (drawn <$> concat rounds)) ->
  going (used ++ concat (drawn <$> concat rounds)) (link_run (concat rounds) y) /\
  (wire_weight (link_run (concat rounds) y) = 0 \/
   wire_weight (link_run (concat rounds) y) + length rounds <= wire_weight y).
Proof.
  induction rounds as [|round rounds IH]; intros used y Hy Hok Hboth Hnd; cbn [concat fmap list_fmap] in *.
  { rewrite app_nil_r. split; [done|]. right. cbn. lia. }
  apply Forall_cons in Hok as [Hr Hok], Hboth as [(Hbr & now & ids & Hcr) Hboth].
  rewrite fmap_app, concat_app, app_assoc in Hnd |- *. pose proof Hnd as (Hnd1 & _ & _)%NoDup_app.
  destruct (session_run_going round used y Hy Hr Hnd1) as [Hy1 Hw].
  assert (link_run (round ++ concat rounds) y = link_run (concat rounds) (link_run round y)) as ->
    by apply foldl_app.
  destruct (IH _ _ Hy1 Hok Hboth Hnd) as [Hy2 Hw2]. split; [done|]. cbn [length].
  destruct Hw2 as [|Hw2]; [by left|]. destruct Hw as [Hw|(Hc & Hb & Hbn & Hcn)]; [right; lia|].
  left. assert (wire_weight (link_run round y) = 0) as Hz; [|lia].
  unfold LinkProgress.wire_weight, on_the_way. by rewrite Hc, Hb, (Hbn Hbr), (Hcn _ _ Hcr).
Qed.

(** The start of a session: both sides send what they wait for. *)
Lemma connect_going used y : link_inv used y -> link_live y -> sy_broker_up y = false ->
  sy_ca_up y = false -> sy_ca_exited y = false -> router_room (2 * maximum) (bl_router (sy_broker y)) ->
  all_answered (handler_inv:=handler_inv) (sy_log y) ->
  going used (link_step Connect y) /\ wire_weight (link_step Connect y) <= 6 * maximum + 2.
Proof.
  intros Hy Hl Hb Hc Hex Hr Hans.
  assert (step_ok (R:=R) (handler_inv:=handler_inv) used Connect) as Hok.
  { split; [constructor|]. split; [by intros x Hx%elem_of_nil|done]. }
  pose proof (link_live_step used Connect y Hy Hok (fun _ => Hl)) as Hl'.
  pose proof (connect_inv used y Hy) as Hy'. pose proof (link_step_answered used Connect y Hy Hans) as Hans'. cbn [link_step] in *. rewrite Hb, Hc, Hex in *. cbn [orb] in *.
  specialize (Hl' eq_refl). pose proof (li_ca _ _ _ _ Hy) as Hca. unfold ca_alive_ok in Hca.
  rewrite Hex in Hca. destruct Hca as [Hca _].
  assert (Forall (fun e => exists f, encode FrameKind.Delivery e.1 f = Ok e.2)
    (pending_view (cl_pending (sy_ca y)))) as Hds.
  { eapply Forall_impl; [apply Hca|]. intros e (f & _ & ?). eauto. }
  assert (Forall (fun e => exists f, encode FrameKind.Request e.1 f = Ok e.2)
    (pending_view (bl_pending (sy_broker y)))) as Hqs.
  { eapply Forall_impl; [apply (bo_awaits _ _ (li_broker _ _ _ _ Hy))|]. intros e (f & _ & ? & _). eauto. }
  unfold broker_resend, cad_resend, go_on in *. cbn [reply] in *.
  rewrite !pending_snapshot_view in *. split.
  - constructor; [done..| | |done]; [constructor; fields; try done|].
    + intros x Hx. right. left. by rewrite (kind_ids_entries FrameKind.Request).
    + intros x Hx. left. by rewrite (kind_ids_entries FrameKind.Delivery).
    + assert (forall z, room_needed z <= 2 * maximum -> router_room (2 * maximum) (bl_router (sy_broker z)) -> roomy z) as Hroomy
        by (intros z Hle Hz; split; [done|by eapply room_weaken]).
      apply Hroomy; [|exact Hr]. unfold LinkProgress.room_needed, on_the_way. cbn [sy_to_ca sy_to_broker].
      rewrite (sum_list_fmap_same 1 _ to_broker_room), (sum_list_fmap_same maximum _ (to_ca_room maximum)), !length_fmap.
      * pose proof (bo_one _ _ (li_broker _ _ _ _ Hy)). pose proof (ll_bound _ _ Hl). nia.
      * apply Forall_fmap. eapply Forall_impl; [exact Hqs|]. intros e (f & He).
        apply (frame_rooms maximum FrameKind.Request _ e.1). by rewrite (kind_id_encoded _ _ _ _ He).
      * by apply delivery_rooms.
  - unfold LinkProgress.wire_weight, on_the_way. cbn [sy_to_ca sy_to_broker].
    rewrite (sum_list_fmap_same 3 _ to_broker_weight), (sum_list_fmap_same (3 * maximum + 2)), !length_fmap.
    + pose proof (bo_one _ _ (li_broker _ _ _ _ Hy)). pose proof (ll_bound _ _ Hl). nia.
    + apply Forall_fmap. eapply Forall_impl; [exact Hqs|]. intros e (f & He).
      apply (frame_weights maximum FrameKind.Request _ e.1). by rewrite (kind_id_encoded _ _ _ _ He).
    + by apply delivery_weights.
Qed.

(** *** Runs from the start *)

Lemma link_run_live steps : forall used y, link_inv used y ->
  reloads_ok (handler_inv:=handler_inv) steps -> NoDup (used ++ concat (drawn <$> steps)) ->
  (sy_ca_exited y = false -> link_live y) ->
  sy_ca_exited (link_run steps y) = false -> link_live (link_run steps y).
Proof.
  induction steps as [|st steps IH]; intros used y Hy Hok Hnd Hl; cbn in *; [done|].
  apply Forall_cons in Hok as [Hst Hok]. rewrite app_assoc in Hnd.
  pose proof Hnd as (Hnd1 & _ & _)%NoDup_app. apply NoDup_app in Hnd1 as (_ & Hfresh & Hnd1).
  assert (step_ok (handler_inv:=handler_inv) used st) as Hok1.
  { split; [done|]. split; [|done]. intros x Hx Hused. by apply (Hfresh x). }
  apply (IH (used ++ drawn st)); [by apply link_step_inv|done..|].
  intros Hex. by eapply link_live_step.
Qed.

Lemma link_init_live (router : R) (ca : S) broker_pending broker_dedup ca_dedup :
  broker_dedup <> 0 -> ca_dedup <> 0 ->
  link_live (link_init router ca broker_pending broker_dedup maximum ca_dedup).
Proof. intros Hb Hc. constructor; cbn; try done. lia. Qed.
End session.

(** ** The property *)

(** C13: Nothing taken stays behind. Whatever happened before, if both sides have noticed
    that the connection is gone and a new one comes up, then [6 * maximum + 2] rounds in
    which both daemons read at least once, in any order and with the agents and the
    configuration going on, drain the link: the session stays up, nothing is on the way
    or pending at either end, and every request the broker has taken was processed and
    all its deliveries were accepted by the router. This is under a router with room for
    [2 * maximum] deliveries when the connection comes up and whenever the agents have
    moved it, a CA that does not stop and whose deliveries the router can route, and
    deduplication windows that are not empty. brokerd's router and cad's engine are such. *)
Theorem link_drains {R S} `{HR : AcceptingRouter R deliverable router_room}
    `{HS : RequestHandlerLaws S handler_inv maximum} `{HA : !ResponsiveHandler S handler_inv deliverable}
    (router : R) (ca : S) broker_pending broker_dedup ca_dedup
    (steps : list (LinkStep R S)) (rounds : list (list (LinkStep R S))) :
  handler_inv ca -> broker_dedup <> 0 -> ca_dedup <> 0 ->
  reloads_ok (handler_inv:=handler_inv) steps -> drawn_once (steps ++ concat rounds) ->
  let y := link_run steps (link_init router ca broker_pending broker_dedup maximum ca_dedup) in
  sy_broker_up y = false -> sy_ca_up y = false -> sy_ca_exited y = false ->
  router_room (2 * maximum) (bl_router (sy_broker y)) ->
  Forall (Forall (session_step (maximum:=maximum) (router_room:=router_room) (handler_inv:=handler_inv))) rounds ->
  Forall both_read rounds -> 6 * maximum + 2 <= length rounds ->
  let y' := link_run (concat rounds) (link_step Connect y) in
  sy_broker_up y' = true /\ sy_ca_up y' = true /\ sy_to_ca y' = [] /\ sy_to_broker y' = [] /\
  pending_view (bl_pending (sy_broker y')) = [] /\ pending_view (cl_pending (sy_ca y')) = [] /\
  forall id request, Taken id request ∈ sy_log y' ->
    exists ds, Handled id request ds ∈ sy_log y' /\ Forall (fun d => Routed d.1 d.2 ∈ sy_log y') ds.
Proof.
  intros Hca Hbd Hcd Hok Hnd y Hb Hc Hex Hr Hst Hboth Hlen y'.
  unfold drawn_once in Hnd. rewrite fmap_app, concat_app in Hnd.
  pose proof Hnd as (Hnd1 & _ & _)%NoDup_app.
  pose proof (link_init_inv (handler_inv:=handler_inv) (maximum:=maximum) router ca broker_pending broker_dedup ca_dedup Hca) as Hi.
  pose proof (link_run_inv steps [] _ Hi Hok Hnd1) as Hy.
  pose proof (link_run_live steps [] _ Hi Hok Hnd1 (fun _ => link_init_live router ca broker_pending
    broker_dedup ca_dedup Hbd Hcd) Hex) as Hl.
  pose proof (link_run_answered steps [] _ Hi Hok Hnd1 (all_answered_none [] eq_refl)) as Hans.
  destruct (connect_going _ _ Hy Hl Hb Hc Hex Hr Hans) as [Hgo Hw].
  destruct (rounds_going rounds _ _ Hgo Hst Hboth Hnd) as [[Hy' Hl' _ Hs' _ _] Hw'].
  fold y y' in Hy', Hl', Hs', Hw'. destruct (wire_weight_zero maximum y') as [Hz1 Hz2].
  { destruct Hw' as [|Hw']; [done|]. fold y in Hw. lia. }
  destruct (session_quiescent _ _ Hl' Hs' Hz1 Hz2) as [Hp1 Hp2].
  do 2 (split; [apply Hs'|]). do 4 (split; [done|]). intros id request Ht.
  destruct (bo_kept _ _ (li_broker _ _ _ _ Hy') id request Ht) as [Habs|Hdone].
  - rewrite Hp1 in Habs. by apply elem_of_nil in Habs.
  - eapply completed_payload; [|done..]. apply Hy'.
Qed.

(** brokerd's router, which has queued two requests of an agent, and a CA that answers a
    request with two deliveries; the connection is lost between the two. *)
Module ProgressExample.
#[local] Instance handler : RequestHandler nat := {
  handle envelope now n := (Ok (ProcessResult.Deliveries [sample_delivery x01; sample_delivery x02]), S n);
}.
#[local] Instance handler_laws : RequestHandlerLaws nat (fun _ => True) 2.
Proof. split. intros envelope now s r s' _ [= <- <-]. split; [done|]. cbn. lia. Qed.

Lemma sample_ok k : length (sample_delivery k) <= MAX_FRAME_LEN /\ ca_delivery (sample_delivery k).
Proof. split; [vm_compute; lia|]. eexists. split; [vm_compute; reflexivity|]. by vm_compute. Qed.
#[local] Instance handler_responds : ResponsiveHandler nat (fun _ => True) ca_delivery.
Proof.
  split. intros envelope now s _. cbn [handle handler fst].
  apply Forall_cons. split; [apply sample_ok|]. apply Forall_singleton. apply sample_ok.
Qed.

Definition agent : AgentId := BrokerExample.agent.
Definition sample_request (k : byte) : list byte :=
  header_bytes MessageType.Publish agent AgentId_CA
    HandlerId_NONE (mkSessionId (vreplicate 16 x02)) (vreplicate 32 x03) (vreplicate 32 x04) 1
    ++ [k] ++ replicate 80 x00.
Abbreviation Router := (BrokerRouter ListChannel MemoryOfflineQueueStore).
Definition router : Router :=
  (route_agent_request agent (sample_request x02) (route_agent_request agent (sample_request x01) (with_limits 4 8 8 8)).2).2.

Definition id := LinkExample.id.
Definition steps : list (LinkStep Router nat) :=
  [Connect; BrokerTakes (Some (id 1)); CaReads 0 [id 2; id 3]; BrokerReads; BrokerCut; CaCut].
Definition rounds : list (list (LinkStep Router nat)) :=
  (fun n => [CaReads 0 [id (2 * n); id (2 * n + 1)]; BrokerReads]) <$>
    [2; 3; 4; 5; 6; 7; 8; 9; 10; 11; 12; 13; 14; 15]%N.
Definition start : System Router nat := link_init router 0 1 8 2 8.
Definition final := link_run (concat rounds) (link_step Connect (link_run steps start)).

(** One delivery is stored for the agent; there is room for seven more. *)
Lemma room : broker_room 4 (bl_router (sy_broker (link_run steps start))).
Proof.
  destruct (memory_inv_dec (rt_offline (bl_router (sy_broker (link_run steps start)))) 4) as [Hinv Hroom];
    [vm_compute; reflexivity|vm_compute; lia|].
  assert (rt_connections (bl_router (sy_broker (link_run steps start))) = ∅) as Hnone by (vm_compute; reflexivity).
  split; [exact Hinv|exact Hroom|]. intros a c. rewrite Hnone, lookup_empty. done.
Qed.
End ProgressExample.

Lemma link_drains_witness :
  sy_to_ca ProgressExample.final = [] /\ sy_to_broker ProgressExample.final = [] /\
  exists ds, Handled (ProgressExample.id 1) (ProgressExample.sample_request x01) ds ∈ sy_log ProgressExample.final /\
    Forall (fun d => Routed d.1 d.2 ∈ sy_log ProgressExample.final) ds.
Proof.
  destruct (link_drains (HR:=BrokerRouter_accepts) (HS:=ProgressExample.handler_laws)
    (HA:=ProgressExample.handler_responds)
    ProgressExample.router 0 1 8 8 ProgressExample.steps ProgressExample.rounds)
    as (_ & _ & Hc & Hb & _ & _ & Hdone).
  - done.
  - done.
  - done.
  - repeat (apply Forall_cons; split; [done|]). by apply Forall_nil.
  - unfold drawn_once. apply (bool_decide_unpack _). vm_compute. reflexivity.
  - vm_compute. reflexivity.
  - vm_compute. reflexivity.
  - vm_compute. reflexivity.
  - exact ProgressExample.room.
  - repeat (apply Forall_cons; split; [repeat (apply Forall_cons; split; [cbn; lia || done|]); by apply Forall_nil|]).
    by apply Forall_nil.
  - apply Forall_fmap. apply Forall_forall. intros n _. split; [right; left|]. eexists _, _. left.
  - cbn. lia.
  - split; [exact Hc|]. split; [exact Hb|]. apply Hdone.
    apply (list_elem_of_lookup_2 _ 0). vm_compute. reflexivity.
Defined.
