(* ===== verification/LinkStreams.v ===== *)
(** The sessions of both daemons over the framed streams of their connection:
    [run_ca_session] and [send_link_frame] of apps/brokerd/src/main.rs, the session loop
    of [main] in apps/cad/src/main.rs; and that they are the system of LinkSystem.v. *)

From S2P Require Export LinkSystem Handshake BrokerDaemon.
From S2P Require Export Link.

(** ** Sessions *)

Section sessions.
Context {St E : Type} `{TokioFramed St E}.

(** The sends of a reaction, or of a retransmission, up to the first that fails. *)
Fixpoint send_link_frames (deadline : N) (frames : list (list byte)) : M St LinkError unit :=
  match frames with
  | [] => mret tt
  | f :: frames' => send_link_frame deadline f;; send_link_frames deadline frames'
  end.

(** A send that fails ends the session. *)
Definition settle_session {X} (deadline : N) (x : Reaction * X) (s : St) : (Progress * X) * St :=
  match send_link_frames deadline (reply x.1) s with
  | (Ok _, s') => (progress x.1, x.2, s')
  | (_, s') => (Over, x.2, s')
  end.

(** [reader.next()] and [framed.next()] of the sessions have no deadline. *)
Definition no_deadline : N := duration_max.

(** *** brokerd *)

(** The branch of the [select!] of [run_ca_session] that completes. *)
Inductive BrokerBranch := RequestReady (id : option MessageId) | CaFrameReady | BrokerTick.

Definition run_ca_session_branch {R} `{DeliveryRouter R} (branch : BrokerBranch) (b : BrokerLink R) (s : St) :
    (Reaction * BrokerLink R) * St :=
  match branch with
  | RequestReady id => (broker_request id b, s)
  | CaFrameReady =>
      match framed_next no_deadline s with
      | (Ok (Some bytes), s') => (broker_incoming bytes b, s')
      | (_, s') => ((mkReaction [] Over [], b), s')
      end
  | BrokerTick =>
      if pending_is_empty (bl_pending b) then ((go_on [], b), s) else ((broker_resend b, b), s)
  end.

(** *** cad *)

(** The branch of the [select!] in [main] that completes; [CaReloads] of the system is
    its last one. *)
Inductive CadBranch := BrokerFrameReady (now : N) (ids : list MessageId) | CadTick.

Definition cad_session_branch {S} `{RequestHandler S} (branch : CadBranch) (c : CaLink S) (s : St) :
    (Reaction * CaLink S) * St :=
  match branch with
  | BrokerFrameReady now ids =>
      match framed_next no_deadline s with
      | (Ok (Some bytes), s') => (cad_incoming bytes now ids c, s')
      | (_, s') => ((mkReaction [] Over [], c), s')
      end
  | CadTick =>
      if pending_is_empty (cl_pending c) then ((go_on [], c), s) else ((cad_resend c, c), s)
  end.
End sessions.

(** ** Both daemons and their connection *)

Section streams.
Context {R S St E : Type} `{DeliveryRouter R, RequestHandler S, TokioFramed St E, Sha256}.

(** The deadlines of cad: [auth_deadline] and [io_deadline]. *)
Context (config : CaLinkConfig) (cad_psk : array 32) (auth_deadline cad_io_deadline : N).

(** An end of a connection: its stream as it was opened and as it is, and whether a
    session is running on it. *)
Record LinkEnd := mkLinkEnd { le_opened : St; le_stream : St; le_up : bool }.

(** The ends are those of the last connection, the broker's first. *)
Record StreamSystem := mkStreamSystem {
  ss_broker : BrokerLink R;
  ss_ca : CaLink S;
  ss_connection : option (LinkEnd * LinkEnd);
  ss_exited : bool;
  ss_log : list LinkEvent;
}.

Inductive StreamStep :=
| Connection (broker_stream ca_stream : St) (challenge : option MessageId) (challenge_bytes : option (array 32))
| BrokerDoes (branch : BrokerBranch)
| CadDoes (branch : CadBranch)
| RouterMoves (router : R)
| CadReloads (ca : S).

(** The start of a session: the authentication, then the frames that are pending. *)
Definition open_session (deadline : N) (authenticated : result LinkError unit * St) (resend : Reaction) (opened : St) :
    LinkEnd :=
  match authenticated with
  | (Ok _, s) =>
      let '(p, _, s') := settle_session deadline (resend, tt) s in
      mkLinkEnd opened s' (bool_decide (p = Running))
  | (_, s) => mkLinkEnd opened s false
  end.

Definition is_up (e : option LinkEnd) : bool := match e with Some e => le_up e | None => false end.

(** cad accepts the next connection when its session is over; the broker connects when
    its own is. *)
Definition connection_step (sb sc : St) challenge challenge_bytes (y : StreamSystem) : StreamSystem :=
  if ss_exited y || is_up (fst <$> ss_connection y) || is_up (snd <$> ss_connection y) then y else
  let broker_end := open_session (lc_connect_deadline config)
    (authenticate_ca (lc_psk config) (lc_connect_deadline config) sb) (broker_resend (ss_broker y)) sb in
  let ca_end := open_session cad_io_deadline
    (authenticate_broker challenge challenge_bytes cad_psk auth_deadline sc) (cad_resend (ss_ca y)) sc in
  mkStreamSystem (ss_broker y) (ss_ca y) (Some (broker_end, ca_end)) false (ss_log y).

Definition broker_does (branch : BrokerBranch) (y : StreamSystem) : StreamSystem :=
  match ss_connection y with
  | Some (b, c) =>
      if le_up b then
        let '(x, s) := run_ca_session_branch branch (ss_broker y) (le_stream b) in
        let '(p, broker, s') := settle_session (lc_connect_deadline config) x s in
        mkStreamSystem broker (ss_ca y) (Some (mkLinkEnd (le_opened b) s' (bool_decide (p = Running)), c))
          (ss_exited y) (ss_log y ++ events x.1)
      else y
  | None => y
  end.

Definition cad_does (branch : CadBranch) (y : StreamSystem) : StreamSystem :=
  match ss_connection y with
  | Some (b, c) =>
      if le_up c then
        let '(x, s) := cad_session_branch branch (ss_ca y) (le_stream c) in
        let '(p, ca, s') := settle_session cad_io_deadline x s in
        mkStreamSystem (ss_broker y) ca (Some (b, mkLinkEnd (le_opened c) s' (bool_decide (p = Running))))
          (ss_exited y || bool_decide (p = Exited)) (ss_log y ++ events x.1)
      else y
  | None => y
  end.

Definition stream_step (st : StreamStep) (y : StreamSystem) : StreamSystem :=
  match st with
  | Connection sb sc challenge challenge_bytes => connection_step sb sc challenge challenge_bytes y
  | BrokerDoes branch => broker_does branch y
  | CadDoes branch => cad_does branch y
  | RouterMoves router =>
      mkStreamSystem (mkBrokerLink router (bl_pending (ss_broker y)) (bl_acquired (ss_broker y))) (ss_ca y)
        (ss_connection y) (ss_exited y) (ss_log y)
  | CadReloads ca =>
      mkStreamSystem (ss_broker y)
        (mkCaLink ca (cl_pending (ss_ca y)) (cl_acquired (ss_ca y)) (cl_current (ss_ca y)))
        (ss_connection y) (ss_exited y) (ss_log y)
  end.

Definition stream_run (steps : list StreamStep) (y : StreamSystem) : StreamSystem :=
  foldl (fun y st => stream_step st y) y steps.

(** The daemons before any connection. *)
Definition stream_init (broker : BrokerLink R) (ca : CaLink S) : StreamSystem :=
  mkStreamSystem broker ca None false [].

(** The identifiers drawn for frames in a step. *)
Definition stream_drawn (st : StreamStep) : list MessageId :=
  match st with
  | BrokerDoes (RequestReady (Some id)) => [id]
  | CadDoes (BrokerFrameReady _ ids) => ids
  | _ => []
  end.
End streams.
Arguments LinkEnd St : clear implicits.
Arguments StreamSystem R S St : clear implicits.
Arguments StreamStep R S St : clear implicits.

(** ** The frames on a stream *)

(** [infrastructure_link::codec()]: a frame beyond [MAX_LINK_FRAME_LEN] is not written,
    what is written of another is its wire form or, if the send failed, a part of it
    from its start; a frame that is read is what the stream carries next. *)
Class LinkCodecLaws (St E : Type) `{HL : TokioFramedLaws St E} : Prop := {
  codec_send d frame s r s' : framed_inv s -> framed_send d frame s = (r, s') ->
    exists part, part `prefix_of` frame_wire frame /\ framed_output s' = framed_output s ++ part /\
      (part <> [] -> length frame <= MAX_LINK_FRAME_LEN) /\ (r = Ok tt -> part = frame_wire frame);
  codec_next d s frame s' : framed_inv s -> framed_next d s = (Ok (Some frame), s') ->
    length frame <= MAX_LINK_FRAME_LEN /\ framed_input s = frame_wire frame ++ framed_input s';
}.

Definition small (f : list byte) : Prop := length f <= MAX_LINK_FRAME_LEN.

(** What a send that failed leaves on the stream. *)
Definition partial (part : list byte) : Prop :=
  part = [] \/ exists f, small f /\ part `prefix_of` frame_wire f /\ part <> frame_wire f.

Lemma max_link_frame_u32 : (N.of_nat MAX_LINK_FRAME_LEN < 256 ^ N.of_nat 4)%N.
Proof. vm_compute. reflexivity. Qed.

Lemma small_wire_inj f g rest rest' : small f -> small g ->
  frame_wire f ++ rest = frame_wire g ++ rest' -> f = g /\ rest = rest'.
Proof.
  intros Hf Hg. unfold frame_wire. rewrite <-!app_assoc. pose proof max_link_frame_u32. unfold small in *.
  intros [Hp Heq]%app_inj_1; [|unfold length_prefix; by rewrite !length_to_be].
  apply (f_equal from_be) in Hp. unfold length_prefix in Hp. rewrite !from_be_to_be_small in Hp by lia.
  by apply app_inj_1 in Heq; [|lia].
Qed.

Lemma frame_wire_nonempty f rest : frame_wire f ++ rest <> [].
Proof. intros Heq. apply (f_equal length) in Heq. unfold frame_wire, length_prefix in Heq. by rewrite !length_app, length_to_be in Heq. Qed.

(** The bytes of a stream determine its frames. *)
Lemma wire_prefix got : forall sent part, Forall small got -> Forall small sent -> partial part ->
  wire got `prefix_of` wire sent ++ part -> got `prefix_of` sent.
Proof.
  induction got as [|f got IH]; intros sent part Hgot Hsent Hpart Hp; [apply prefix_nil|].
  apply Forall_cons in Hgot as [Hf Hgot]. destruct Hp as [rest Hp]. unfold wire in Hp.
  cbn [fmap list_fmap concat] in Hp. rewrite <-app_assoc in Hp. fold (wire got) in Hp.
  destruct sent as [|g sent]; cbn [fmap list_fmap concat app] in Hp.
  - exfalso. destruct Hpart as [->|(g & Hg & [more Hmore] & Hne)]; [symmetry in Hp; by apply frame_wire_nonempty in Hp|].
    rewrite Hp, <-app_assoc in Hmore. rewrite <-(app_nil_r (frame_wire g)) in Hmore.
    apply small_wire_inj in Hmore as [<- Hnil]; [|done..]. symmetry in Hnil.
    apply app_eq_nil in Hnil as [Hnil ->]. apply Hne. by rewrite Hp, Hnil, app_nil_r.
  - apply Forall_cons in Hsent as [Hg Hsent]. fold (wire sent) in Hp. rewrite <-app_assoc in Hp.
    apply small_wire_inj in Hp as [-> Hp]; [|done..]. apply prefix_cons. eapply IH; [done..|].
    exists rest. by symmetry.
Qed.

Section frames.
Context {St E : Type} `{HC : LinkCodecLaws St E}.

Lemma send_effect e d f s r s' : framed_inv s -> send_or e d f s = (r, s') ->
  framed_inv s' /\ framed_input s' = framed_input s /\
  exists sent part, framed_output s' = framed_output s ++ wire sent ++ part /\ Forall small sent /\ partial part /\
    (r = Ok tt -> sent = [f] /\ part = []) /\ (r <> Ok tt -> sent `prefix_of` [f]).
Proof.
  intros Hs. unfold send_or. destruct (framed_send d f s) as [r0 s0] eqn:Hrun. intros [= <- <-].
  destruct (framed_send_law _ _ _ _ _ Hs Hrun) as (Hi & Hin & _).
  apply codec_send in Hrun as (part & Hpart & Ho & Hsmall & Hok); [|done]. split; [done|]. split; [done|].
  destruct (decide (part = frame_wire f)) as [->|Hne].
  - exists [f], []. rewrite Ho. unfold wire. cbn. rewrite !app_nil_r.
    split; [done|]. split; [|split; [by left|done]]. constructor; [|done]. apply Hsmall.
    rewrite <-(app_nil_r (frame_wire f)). apply frame_wire_nonempty.
  - exists [], part. split; [done|]. split; [done|]. split.
    + destruct part; [by left|right]. exists f. split; [by apply Hsmall|done].
    + split; [|intros _; apply prefix_nil]. intros Hr. destruct Hne. apply Hok. by destruct r0 as [[]|[]|].
Qed.

(** What a reaction leaves on the stream: some of its frames, in order, and all of them
    unless the session ends. *)
Lemma send_link_frames_effect d frames : forall s r s', framed_inv s -> send_link_frames d frames s = (r, s') ->
  framed_inv s' /\ framed_input s' = framed_input s /\
  exists n part, framed_output s' = framed_output s ++ wire (take n frames) ++ part /\
    Forall small (take n frames) /\ partial part /\
    (r = Ok tt /\ take n frames = frames /\ part = [] \/ r <> Ok tt /\ frames <> []).
Proof.
  induction frames as [|f frames IH]; intros s r s' Hs; cbn [send_link_frames].
  { intros [= <- <-]. do 2 (split; [done|]). exists 0, []. cbn. rewrite app_nil_r. split; [done|].
    split; [done|]. split; [by left|]. by left. }
  rewrite M_bind_run. destruct (send_link_frame d f s) as [r0 s0] eqn:Hsend.
  apply send_effect in Hsend as (Hs0 & Hin0 & sent & part & Ho & Hsm & Hpart & Hok & Hfail); [|done].
  assert (r0 = Ok tt \/ r0 <> Ok tt) as [->|Hr0] by (destruct r0 as [[]|e|]; auto).
  - destruct (Hok eq_refl) as [-> ->]. intros Hrun. apply IH in Hrun as (Hs' & Hin' & n & part' & Ho' & Hsm' & Hpart' & Hr); [|done].
    split; [done|]. split; [congruence|]. exists (S n), part'. cbn [take].
    rewrite Ho', Ho, app_nil_r, <-app_assoc, (app_assoc (wire [f])), <-wire_app. split; [done|].
    apply Forall_cons in Hsm as [Hf _]. split; [by constructor|]. split; [done|].
    destruct Hr as [(-> & -> & ->)|[Hr _]]; [by left|by right].
  - intros Hrun. assert (r <> Ok tt /\ s' = s0) as [Hr ->].
    { destruct r0 as [[]|e|]; [done|by injection Hrun as <- <-..]. }
    do 2 (split; [done|]). apply Hfail in Hr0. exists (length sent), part.
    assert (take (length sent) (f :: frames) = sent) as ->.
    { destruct Hr0 as [more Heq]. change (f :: frames) with ([f] ++ frames). rewrite Heq, <-app_assoc. by rewrite take_app_length. }
    split; [done|]. split; [done|]. split; [done|]. by right.
Qed.

Lemma settle_effect {X} d (x : Reaction * X) s p a s' : framed_inv s -> settle_session d x s = (p, a, s') ->
  framed_inv s' /\ framed_input s' = framed_input s /\ a = x.2 /\
  exists n part, framed_output s' = framed_output s ++ wire (take n (reply x.1)) ++ part /\
    Forall small (take n (reply x.1)) /\ partial part /\
    (p = progress x.1 /\ take n (reply x.1) = reply x.1 /\ part = [] \/ p = Over /\ reply x.1 <> []).
Proof.
  intros Hs. unfold settle_session. destruct (send_link_frames d (reply x.1) s) as [r s0] eqn:Hrun.
  apply send_link_frames_effect in Hrun as (Hs0 & Hin & n & part & Ho & Hsm & Hpart & Hr); [|done].
  destruct r as [[]|e|]; intros [= <- <- <-]; do 3 (split; [done|]); exists n, part; do 3 (split; [done|]);
    destruct Hr as [(? & ? & ?)|[? ?]]; done || auto.
Qed.

(** *** The authentication: how many frames it reads and writes *)

Definition speaks {X} (m : M St LinkError X) (reads writes : nat) : Prop := forall s r s',
  framed_inv s -> m s = (r, s') -> framed_inv s' /\
  exists sent part, framed_output s' = framed_output s ++ wire sent ++ part /\ Forall small sent /\ partial part /\
    length sent <= writes /\
    (is_ok r = true -> part = [] /\ length sent = writes /\
       exists got, Forall small got /\ length got = reads /\ framed_input s = wire got ++ framed_input s').

Lemma speaks_lift {X} (r : result LinkError X) : speaks (lift r) 0 0.
Proof.
  intros s r' s' Hs [= <- <-]. split; [done|]. exists [], []. cbn. rewrite app_nil_r. split; [done|].
  split; [done|]. split; [by left|]. split; [done|]. intros _. do 2 (split; [done|]). by exists [].
Qed.

Lemma speaks_fail {X} e n k : speaks (fail e : M St LinkError X) n k.
Proof.
  intros s r' s' Hs [= <- <-]. split; [done|]. exists [], []. cbn. rewrite app_nil_r. split; [done|].
  split; [done|]. split; [by left|]. split; [lia|done].
Qed.

Lemma speaks_send e d f : speaks (send_or e d f) 0 1.
Proof.
  intros s r s' Hs Hrun. apply send_effect in Hrun as (Hs' & Hin & sent & part & Ho & Hsm & Hpart & Hok & Hfail); [|done].
  split; [done|]. exists sent, part. do 3 (split; [done|]).
  assert (r = Ok tt \/ r <> Ok tt) as [->|Hr] by (destruct r as [[]|?|]; auto).
  - destruct (Hok eq_refl) as [-> ->]. split; [done|]. intros _. do 2 (split; [done|]). by exists [].
  - split; [apply (prefix_length _ [f]); by apply Hfail|]. by destruct r as [[]| |].
Qed.

Lemma speaks_next d : speaks (next_frame d) 1 0.
Proof.
  intros s r s' Hs. unfold next_frame. destruct (framed_next d s) as [r0 s0] eqn:Hrun.
  destruct (framed_next_output _ _ _ _ Hs Hrun) as [Hs0 Ho]. intros Heq.
  assert (s' = s0) as -> by (destruct r0 as [[]| |]; by injection Heq). split; [done|].
  exists [], []. rewrite Ho. cbn. rewrite app_nil_r. split; [done|]. split; [done|]. split; [by left|]. split; [done|].
  destruct r0 as [[bytes|]|e|]; injection Heq as <-; [|done..]. intros _. do 2 (split; [done|]).
  apply codec_next in Hrun as [Hsm Hin]; [|done]. exists [bytes]. rewrite Hin. unfold wire. cbn.
  rewrite app_nil_r. split; [by constructor|done].
Qed.

Lemma speaks_bind {X Y} (m : M St LinkError X) (k : X -> M St LinkError Y) n1 w1 n2 w2 :
  speaks m n1 w1 -> (forall a, speaks (k a) n2 w2) -> speaks (m ≫= k) (n1 + n2) (w1 + w2).
Proof.
  intros Hm Hk s r s' Hs. rewrite M_bind_run. destruct (m s) as [r1 s1] eqn:H1.
  apply Hm in H1 as (Hs1 & sent1 & part1 & Ho1 & Hsm1 & Hp1 & Hl1 & Hok1); [|done].
  destruct r1 as [a|e|]; cycle 1.
  1, 2: intros [= <- <-]; split; [done|]; exists sent1, part1; do 3 (split; [done|]); split; [lia|done].
  destruct (Hok1 eq_refl) as (-> & Hw1 & got1 & Hsg1 & Hg1 & Hi1). intros H2.
  apply Hk in H2 as (Hs2 & sent2 & part2 & Ho2 & Hsm2 & Hp2 & Hl2 & Hok2); [|done]. split; [done|].
  exists (sent1 ++ sent2), part2. rewrite Ho2, Ho1, app_nil_r, wire_app, <-!app_assoc. split; [done|].
  split; [by apply Forall_app|]. split; [done|]. rewrite !length_app. split; [lia|]. intros Hr.
  destruct (Hok2 Hr) as (-> & Hw2 & got2 & Hsg2 & Hg2 & Hi2). split; [done|]. split; [lia|].
  exists (got1 ++ got2). split; [by apply Forall_app|]. rewrite length_app. split; [lia|].
  by rewrite Hi1, Hi2, wire_app, <-app_assoc.
Qed.

Context `{Sha256}.

Lemma speaks_authenticate_ca psk d : speaks (authenticate_ca psk d) 2 1.
Proof.
  unfold authenticate_ca. apply (speaks_bind _ _ 1 0 1 1 (speaks_next d)). intros incoming.
  apply (speaks_bind _ _ 0 0 1 1 (speaks_lift _)). intros challenge. destruct (_ || _); [apply speaks_fail|].
  do 3 (apply (speaks_bind _ _ 0 0 1 1 (speaks_lift _)); intros ?).
  apply (speaks_bind _ _ 0 1 1 0 (speaks_send _ _ _)). intros _.
  apply (speaks_bind _ _ 1 0 0 0 (speaks_next d)). intros ?.
  apply (speaks_bind _ _ 0 0 0 0 (speaks_lift _)). intros ?.
  destruct (_ && _); [apply (speaks_lift (Ok tt))|apply speaks_fail].
Qed.

Lemma speaks_authenticate_broker challenge challenge_bytes psk d :
  speaks (authenticate_broker challenge challenge_bytes psk d) 1 2.
Proof.
  unfold authenticate_broker. do 3 (apply (speaks_bind _ _ 0 0 1 2 (speaks_lift _)); intros ?).
  apply (speaks_bind _ _ 0 1 1 1 (speaks_send _ _ _)). intros _.
  apply (speaks_bind _ _ 1 0 0 1 (speaks_next d)). intros ?.
  apply (speaks_bind _ _ 0 0 0 1 (speaks_lift _)). intros ?. destruct (_ || _); [apply speaks_fail|].
  do 2 (apply (speaks_bind _ _ 0 0 0 1 (speaks_lift _)); intros ?). apply speaks_send.
Qed.
End frames.

(** ** The simulation *)

Section simulation.
Context {R S St E : Type} `{DeliveryRouter R, RequestHandler S} `{HC : LinkCodecLaws St E} `{Sha256}.
Context (config : CaLinkConfig) (cad_psk : array 32) (auth_deadline cad_io_deadline : N).
Implicit Types (w r : LinkEnd St) (x : StreamSystem R S St) (y : System R S).
Abbreviation step := (stream_step config cad_psk auth_deadline cad_io_deadline).

(** The network: what an end has read, the other end has written before, in order. *)
Definition received w r : Prop := forall consumed,
  framed_input (le_opened r) = consumed ++ framed_input (le_stream r) ->
  consumed `prefix_of` framed_output (le_stream w).

Definition network x : Prop :=
  match ss_connection x with Some (b, c) => received b c /\ received c b | None => True end.

(** The streams of a connection as they are opened. *)
Definition fresh_streams (st : StreamStep R S St) : Prop :=
  match st with Connection sb sc _ _ => new_stream sb /\ new_stream sc | _ => True end.

(** From an end to the other: the frames written are those read and those on the way,
    as long as the reader has a session. *)
Definition carried w r (way : list (list byte)) : Prop :=
  exists sent part, framed_output (le_stream w) = wire sent ++ part /\ Forall small sent /\ partial part /\
    (le_up w = true -> part = []) /\
    (le_up r = true -> exists got, Forall small got /\
       framed_input (le_opened r) = wire got ++ framed_input (le_stream r) /\ sent = got ++ way).

Definition simulates x y : Prop :=
  sy_broker y = ss_broker x /\ sy_ca y = ss_ca x /\ sy_ca_exited y = ss_exited x /\ sy_log y = ss_log x /\
  sy_broker_up y = is_up (fst <$> ss_connection x) /\ sy_ca_up y = is_up (snd <$> ss_connection x) /\
  match ss_connection x with
  | Some (b, c) => framed_inv (le_stream b) /\ framed_inv (le_stream c) /\
      carried b c (sy_to_ca y) /\ carried c b (sy_to_broker y)
  | None => True
  end.

(** The steps of the system for one of the streams: no other identifiers are drawn and
    no other CA is loaded. *)
Definition stands_for (st : StreamStep R S St) (steps : list (LinkStep R S)) : Prop :=
  concat (drawn <$> steps) `sublist_of` stream_drawn st /\
  forall ca, CaReloads ca ∈ steps -> st = CadReloads ca.

Lemma carried_write w r way s up new part : carried w r way -> le_up w = true ->
  framed_output s = framed_output (le_stream w) ++ wire new ++ part -> Forall small new -> partial part ->
  (up = true -> part = []) -> carried (mkLinkEnd (le_opened w) s up) r (way ++ new).
Proof.
  intros (sent & part0 & Ho & Hsm & _ & Hup & Hr) Hw Hs Hnew Hpart Hend. rewrite (Hup Hw), app_nil_r in Ho.
  exists (sent ++ new), part. cbn [le_stream le_up]. rewrite Hs, Ho, wire_app, app_assoc. split; [done|].
  split; [by apply Forall_app|]. split; [done|]. split; [done|]. intros Hru.
  destruct (Hr Hru) as (got & Hg & Hi & ->). exists got. by rewrite app_assoc.
Qed.

Lemma carried_keep w r way s up : carried w r way -> framed_input s = framed_input (le_stream r) ->
  (up = true -> le_up r = true) -> carried w (mkLinkEnd (le_opened r) s up) way.
Proof.
  intros (sent & part & Ho & Hsm & Hp & Hup & Hr) Hs Hru. exists sent, part. do 4 (split; [done|]).
  cbn [le_up le_opened le_stream]. rewrite Hs. auto.
Qed.

Lemma carried_down w r way way' : carried w r way -> le_up r = false -> carried w r way'.
Proof. intros (sent & part & ? & ? & ? & ? & _) Hr. exists sent, part. do 4 (split; [done|]). by rewrite Hr. Qed.

(** What is read is the next frame on the way. *)
Lemma carried_read w r way f s up : carried w r way -> le_up r = true -> small f ->
  framed_input (le_stream r) = frame_wire f ++ framed_input s -> received w (mkLinkEnd (le_opened r) s up) ->
  exists way', way = f :: way' /\ carried w (mkLinkEnd (le_opened r) s true) way'.
Proof.
  intros (sent & part & Ho & Hsm & Hp & Hup & Hr) Hru Hf Hin Hnet.
  destruct (Hr Hru) as (got & Hg & Hi & ->).
  assert (framed_input (le_opened r) = wire (got ++ [f]) ++ framed_input s) as Hi'.
  { rewrite Hi, Hin, wire_app. unfold wire at 3. cbn. by rewrite app_nil_r, <-app_assoc. }
  assert (got ++ [f] `prefix_of` got ++ way) as [rest Heq]%prefix_app_inv.
  { eapply wire_prefix; [apply Forall_app; split; [done|by constructor]|exact Hsm|exact Hp|].
    rewrite <-Ho. by apply Hnet. }
  exists rest. split; [done|]. exists (got ++ way), part. do 4 (split; [done|]). intros _.
  exists (got ++ [f]). split; [apply Forall_app; split; [done|by constructor]|]. split; [done|].
  by rewrite Heq, <-app_assoc.
Qed.

(** The sends of an end. *)
Lemma settle_carried {X} w r way d (z : Reaction * X) s p a s' : carried w r way -> le_up w = true ->
  framed_inv s -> framed_output s = framed_output (le_stream w) -> settle_session d z s = (p, a, s') ->
  framed_inv s' /\ framed_input s' = framed_input s /\ a = z.2 /\
  exists n, carried (mkLinkEnd (le_opened w) s' (bool_decide (p = Running))) r (way ++ take n (reply z.1)) /\
    (p = progress z.1 /\ take n (reply z.1) = reply z.1 \/ p = Over /\ reply z.1 <> []).
Proof.
  intros Hc Hw Hs Ho Hrun. apply settle_effect in Hrun as (Hs' & Hi & -> & n & part & Ho' & Hsm & Hp & Hr); [|done].
  do 3 (split; [done|]). exists n. rewrite Ho in Ho'. split.
  - eapply carried_write; [done..|]. intros Hup%bool_decide_eq_true. destruct Hr as [(_ & _ & ?)|[-> _]]; done.
  - destruct Hr as [(? & ? & _)|?]; auto.
Qed.

(** A read: the next frame on the way, or the end of the session. *)
Lemma next_carried w r way res s0 : carried w r way -> le_up r = true -> framed_inv (le_stream r) ->
  framed_next no_deadline (le_stream r) = (res, s0) ->
  framed_inv s0 /\ framed_output s0 = framed_output (le_stream r) /\
  match res with
  | Ok (Some f) => forall s up, framed_input s = framed_input s0 -> received w (mkLinkEnd (le_opened r) s up) ->
      exists way', way = f :: way' /\ carried w (mkLinkEnd (le_opened r) s up) way'
  | _ => forall s way', carried w (mkLinkEnd (le_opened r) s false) way'
  end.
Proof.
  intros Hc Hup Hi Hnext. destruct (framed_next_output _ _ _ _ Hi Hnext) as [Hs0 Ho0].
  do 2 (split; [done|]).
  assert (forall s way', carried w (mkLinkEnd (le_opened r) s false) way') as Hdown.
  { intros s way'. destruct Hc as (sent & part & ? & ? & ? & ? & _). by exists sent, part. }
  destruct res as [[f|]|e|]; [|done..]. intros s up Hs Hnet. apply codec_next in Hnext as [Hsm Hin]; [|done].
  rewrite <-Hs in Hin. destruct (carried_read _ _ _ _ s up Hc Hup Hsm Hin Hnet) as (way' & -> & Hc').
  exists way'. split; [done|]. by apply (carried_keep _ _ _ s up) in Hc'.
Qed.

(** *** The broker's session *)

Lemma broker_branch_simulated branch x y b c z s p broker s' : simulates x y -> ss_connection x = Some (b, c) ->
  le_up b = true -> run_ca_session_branch branch (ss_broker x) (le_stream b) = (z, s) ->
  settle_session (lc_connect_deadline config) z s = (p, broker, s') ->
  received c (mkLinkEnd (le_opened b) s' (bool_decide (p = Running))) ->
  framed_inv s /\ framed_output s = framed_output (le_stream b) /\
  exists steps way, stands_for (BrokerDoes branch) steps /\ link_run steps y = broker_reacts z way y /\
    carried c (mkLinkEnd (le_opened b) s' (bool_decide (p = Running))) way.
Proof.
  intros (Hb & _ & _ & _ & Hbu & _ & Hcon) Hx Hup Hrun Hset Hnet. rewrite Hx in Hbu, Hcon. cbn in Hbu.
  destruct Hcon as (Hib & _ & _ & Hcb). rewrite Hup in Hbu.
  assert (framed_inv s -> framed_input s' = framed_input s) as Hin.
  { intros Hs. by apply settle_effect in Hset as (_ & ? & _). }
  assert (s = le_stream b -> carried c (mkLinkEnd (le_opened b) s' (bool_decide (p = Running))) (sy_to_broker y)) as Hkeep.
  { intros Hs. apply carried_keep; [done| |done]. rewrite Hin; by rewrite Hs. }
  destruct branch as [id| |]; cbn [run_ca_session_branch] in Hrun.
  - injection Hrun as <- <-. do 2 (split; [done|]). exists [BrokerTakes id], (sy_to_broker y).
    split; [split; [cbn; by destruct id|intros ca [=]%list_elem_of_singleton]|].
    split; [cbn; by rewrite Hbu, Hb|auto].
  - destruct (framed_next no_deadline (le_stream b)) as [r0 s0] eqn:Hnext.
    apply (next_carried _ _ _ _ _ Hcb Hup Hib) in Hnext as (Hs0 & Ho0 & Hr0).
    destruct r0 as [[bytes|]|e|]; injection Hrun as <- <-; do 2 (split; [done|]).
    { destruct (Hr0 _ _ (Hin Hs0) Hnet) as (way & Hway & Hc).
      exists [BrokerReads], way. split; [split; [done|intros ca [=]%list_elem_of_singleton]|].
      split; [cbn; by rewrite Hbu, Hway, Hb|done]. }
    all: injection Hset as <- <- <-; exists [BrokerCut], (sy_to_broker y);
      (split; [split; [done|intros ca [=]%list_elem_of_singleton]|]); (split; [|by apply Hr0]);
      cbn; unfold broker_reacts; cbn; by rewrite !app_nil_r, Hb.
  - destruct (pending_is_empty _) eqn:Hempty; injection Hrun as <- <-; do 2 (split; [done|]).
    + exists [], (sy_to_broker y). split; [split; [done|by intros ca ?%elem_of_nil]|]. split; [|auto].
      unfold broker_reacts. cbn. rewrite !app_nil_r, <-Hb. destruct y. cbn in *. by subst.
    + exists [BrokerRetry], (sy_to_broker y). split; [split; [done|intros ca [=]%list_elem_of_singleton]|].
      split; [|auto]. cbn. by rewrite Hbu, Hb, Hempty.
Qed.

Lemma stands_for_app st steps steps' : stands_for st steps -> concat (drawn <$> steps') = [] ->
  (forall ca, CaReloads ca ∉ steps') -> stands_for st (steps ++ steps').
Proof.
  intros [Hd Hr] Hd' Hr'. split; [by rewrite fmap_app, concat_app, Hd', app_nil_r|].
  intros ca [?|?%Hr']%elem_of_app; [auto|done].
Qed.

Lemma stands_for_none st : stands_for st [].
Proof. split; [apply sublist_nil_l|by intros ca ?%elem_of_nil]. Qed.

Lemma broker_does_simulated branch x y : simulates x y -> network (broker_does config branch x) ->
  exists steps, stands_for (BrokerDoes branch) steps /\ simulates (broker_does config branch x) (link_run steps y).
Proof.
  intros Hsim Hnet. unfold broker_does in *. destruct (ss_connection x) as [[b c]|] eqn:Hx; cycle 1.
  1: exists []; split; [apply stands_for_none|done].
  destruct (le_up b) eqn:Hup; cycle 1.
  1: exists []; split; [apply stands_for_none|done].
  destruct (run_ca_session_branch branch (ss_broker x) (le_stream b)) as [z s] eqn:Hrun.
  destruct (settle_session _ z s) as [[p broker] s'] eqn:Hset. destruct Hnet as [_ Hnet].
  destruct (broker_branch_simulated _ _ _ _ _ _ _ _ _ _ Hsim Hx Hup Hrun Hset Hnet)
    as (Hs & Ho & steps & way & Hfor & Hlink & Hin).
  destruct Hsim as (Hb & Hc & He & Hl & Hbu & Hcu & Hcon). rewrite Hx in Hbu, Hcu, Hcon.
  destruct Hcon as (Hib & Hic & Hbc & Hcb).
  destruct (settle_carried _ _ _ _ _ _ _ _ _ Hbc Hup Hs Ho Hset) as (Hs' & Hi' & -> & n & Hout & Hp).
  destruct Hp as [[-> Htake]|[-> Hreply]].
  - exists steps. split; [done|]. rewrite Hlink. rewrite Htake in Hout.
    unfold simulates. cbn. rewrite Hc, He, Hl, Hcu. done.
  - exists (steps ++ [LoseToCa (length (sy_to_ca y) + n); BrokerCut]). split.
    { apply stands_for_app; [done..|]. intros ca. rewrite !elem_of_cons, elem_of_nil. naive_solver. }
    unfold link_run in *. rewrite foldl_app, Hlink. unfold simulates. cbn.
    rewrite Hc, He, Hl, Hcu, take_app_add. done.
Qed.

(** *** cad's session *)

Lemma acknowledge_reply id log failed :
  reply (acknowledge id log failed) <> [] -> progress (acknowledge id log failed) <> Exited.
Proof. unfold acknowledge. by destruct (encode FrameKind.Ack id []). Qed.

Lemma finish_request_reply id log (ca : CaLink S) :
  reply (finish_request id log ca).1 <> [] -> progress (finish_request id log ca).1 <> Exited.
Proof. unfold finish_request. destruct (dedup_insert _ _) as [[]]; [apply acknowledge_reply|done..]. Qed.

Lemma cad_request_reply id payload now ids (ca : CaLink S) :
  reply (cad_request id payload now ids ca).1 <> [] -> progress (cad_request id payload now ids ca).1 <> Exited.
Proof.
  unfold cad_request. destruct (handle payload now (cl_ca ca)) as [[[|deliveries]|e|] s];
    [apply finish_request_reply| |apply finish_request_reply|done].
  case_match; [done|]. destruct (encode_deliveries _ _ _) as [[[encoded acquired]|e|] pending]; [|done..].
  destruct encoded; [apply finish_request_reply|]. by destruct (dedup_insert _ _) as [[]].
Qed.

(** A reaction that sends goes on or is over. *)
Lemma cad_incoming_reply bytes now ids (ca : CaLink S) :
  reply (cad_incoming bytes now ids ca).1 <> [] -> progress (cad_incoming bytes now ids ca).1 <> Exited.
Proof.
  unfold cad_incoming. destruct (decode bytes) as [f|e|]; [|done..]. destruct (link_kind f); [|done| |done..].
  - case_bool_decide; [done|]. destruct (dedup_contains _ _).
    { apply acknowledge_reply. }
    case_bool_decide; [apply cad_request_reply|done].
  - destruct (cl_current ca); [|done]. destruct (pending_is_empty _); [|done].
    apply acknowledge_reply.
Qed.

Lemma cad_branch_simulated branch x y b c z s p ca s' : simulates x y -> ss_connection x = Some (b, c) ->
  le_up c = true -> cad_session_branch branch (ss_ca x) (le_stream c) = (z, s) ->
  settle_session cad_io_deadline z s = (p, ca, s') ->
  received b (mkLinkEnd (le_opened c) s' (bool_decide (p = Running))) ->
  framed_inv s /\ framed_output s = framed_output (le_stream c) /\ (reply z.1 <> [] -> progress z.1 <> Exited) /\
  exists steps way, stands_for (CadDoes branch) steps /\ link_run steps y = ca_reacts z way y /\
    carried b (mkLinkEnd (le_opened c) s' (bool_decide (p = Running))) way.
Proof.
  intros (_ & Hca & _ & _ & _ & Hcu & Hcon) Hx Hup Hrun Hset Hnet. rewrite Hx in Hcu, Hcon. cbn in Hcu.
  destruct Hcon as (_ & Hic & Hbc & _). rewrite Hup in Hcu.
  assert (framed_inv s -> framed_input s' = framed_input s) as Hin.
  { intros Hs. by apply settle_effect in Hset as (_ & ? & _). }
  assert (s = le_stream c -> carried b (mkLinkEnd (le_opened c) s' (bool_decide (p = Running))) (sy_to_ca y)) as Hkeep.
  { intros Hs. apply carried_keep; [done| |done]. rewrite Hin; by rewrite Hs. }
  destruct branch as [now ids|]; cbn [cad_session_branch] in Hrun.
  - destruct (framed_next no_deadline (le_stream c)) as [r0 s0] eqn:Hnext.
    apply (next_carried _ _ _ _ _ Hbc Hup Hic) in Hnext as (Hs0 & Ho0 & Hr0).
    destruct r0 as [[bytes|]|e|]; injection Hrun as <- <-; do 2 (split; [done|]).
    { split; [apply cad_incoming_reply|]. destruct (Hr0 _ _ (Hin Hs0) Hnet) as (way & Hway & Hc).
      exists [CaReads now ids], way. split; [split; [cbn; by rewrite app_nil_r|intros ? [=]%list_elem_of_singleton]|].
      split; [cbn; by rewrite Hcu, Hway, Hca|done]. }
    all: (split; [done|]); injection Hset as <- <- <-; exists [CaCut], (sy_to_ca y);
      (split; [split; [apply sublist_nil_l|intros ? [=]%list_elem_of_singleton]|]); (split; [|by apply Hr0]);
      cbn; unfold ca_reacts; cbn; by rewrite !app_nil_r, Hca, orb_false_r.
  - destruct (pending_is_empty _) eqn:Hempty; injection Hrun as <- <-; do 2 (split; [done|]); (split; [done|]).
    + exists [], (sy_to_ca y). split; [apply stands_for_none|]. split; [|auto].
      unfold ca_reacts. cbn. rewrite !app_nil_r, <-Hca, orb_false_r. destruct y. cbn in *. by subst.
    + exists [CaRetry], (sy_to_ca y). split; [split; [done|intros ? [=]%list_elem_of_singleton]|].
      split; [|auto]. cbn. by rewrite Hcu, Hca, Hempty.
Qed.

Lemma cad_does_simulated branch x y : simulates x y -> network (cad_does cad_io_deadline branch x) ->
  exists steps, stands_for (CadDoes branch) steps /\
    simulates (cad_does cad_io_deadline branch x) (link_run steps y).
Proof.
  intros Hsim Hnet. unfold cad_does in *. destruct (ss_connection x) as [[b c]|] eqn:Hx; cycle 1.
  1: exists []; split; [apply stands_for_none|done].
  destruct (le_up c) eqn:Hup; cycle 1.
  1: exists []; split; [apply stands_for_none|done].
  destruct (cad_session_branch branch (ss_ca x) (le_stream c)) as [z s] eqn:Hrun.
  destruct (settle_session _ z s) as [[p ca] s'] eqn:Hset. destruct Hnet as [Hnet _].
  destruct (cad_branch_simulated _ _ _ _ _ _ _ _ _ _ Hsim Hx Hup Hrun Hset Hnet)
    as (Hs & Ho & Hnoexit & steps & way & Hfor & Hlink & Hin).
  destruct Hsim as (Hb & Hc & He & Hl & Hbu & Hcu & Hcon). rewrite Hx in Hbu, Hcu, Hcon.
  destruct Hcon as (Hib & Hic & Hbc & Hcb).
  destruct (settle_carried _ _ _ _ _ _ _ _ _ Hcb Hup Hs Ho Hset) as (Hs' & Hi' & -> & n & Hout & Hp).
  destruct Hp as [[-> Htake]|[-> Hreply]].
  - exists steps. split; [done|]. rewrite Hlink. rewrite Htake in Hout.
    unfold simulates. cbn. rewrite Hb, He, Hl, Hbu. done.
  - exists (steps ++ [LoseToBroker (length (sy_to_broker y) + n); CaCut]). split.
    { apply stands_for_app; [done..|]. intros ?. rewrite !elem_of_cons, elem_of_nil. naive_solver. }
    unfold link_run in *. rewrite foldl_app, Hlink. unfold simulates. cbn.
    rewrite Hb, He, Hl, Hbu, take_app_add, (bool_decide_eq_false_2 (progress z.1 = Exited)) by auto. done.
Qed.

(** *** A connection *)

Lemma open_session_effect d m frames opened reads writes : speaks m reads writes -> new_stream opened ->
  let e := open_session d (m opened) (go_on frames) opened in
  le_opened e = opened /\ framed_inv (le_stream e) /\
  exists hs n part, framed_output (le_stream e) = wire (hs ++ take n frames) ++ part /\
    Forall small (hs ++ take n frames) /\ partial part /\ length hs <= writes /\
    (length hs < writes -> take n frames = []) /\
    (le_up e = true -> part = [] /\ take n frames = frames /\
       exists got, Forall small got /\ length got = reads /\
         framed_input opened = wire got ++ framed_input (le_stream e)).
Proof.
  intros Hm [Hi Ho]. unfold open_session. destruct (m opened) as [res s] eqn:Hrun.
  apply Hm in Hrun as (Hs & hs & part & Hout & Hsm & Hp & Hlen & Hok); [|done]. rewrite Ho in Hout.
  destruct res as [[]|e|]; cycle 1.
  1, 2: split; [done|]; split; [done|]; exists hs, 0, part; cbn; rewrite app_nil_r; done.
  destruct (Hok eq_refl) as (-> & Hw & got & Hg & Hr & Hin). cbn in Hout. rewrite app_nil_r in Hout.
  destruct (settle_session d (go_on frames, ()) s) as [[p u] s'] eqn:Hset. cbn.
  apply settle_effect in Hset as (Hs' & Hin' & _ & n & part & Ho' & Hsm' & Hp' & Hcase); [|done].
  split; [done|]. split; [done|]. exists hs, n, part. rewrite Ho', Hout, wire_app, <-app_assoc. split; [done|].
  split; [by apply Forall_app|]. do 2 (split; [done|]). split; [lia|]. intros Hup%bool_decide_eq_true.
  destruct Hcase as [(_ & ? & ?)|[-> _]]; [|done]. do 2 (split; [done|]). exists got. by rewrite Hin'.
Qed.

(** What was read of the authentication is what was written of it. *)
Lemma handshake_aligned (got hs rest : list (list byte)) k : got `prefix_of` hs ++ rest -> length got = k ->
  length hs <= k -> (length hs < k -> rest = []) -> hs = got.
Proof.
  intros [more Heq] Hg Hle Hrest. destruct (decide (length hs < k)) as [Hlt|Hge].
  - rewrite (Hrest Hlt), app_nil_r in Heq. apply (f_equal length) in Heq. rewrite length_app in Heq. lia.
  - apply app_inj_1 in Heq as [? _]; [done|lia].
Qed.

(** From one end to the other after both have opened their sessions. *)
Lemma connection_carried w r opened hs (frames : list (list byte)) part k :
  framed_output (le_stream w) = wire (hs ++ frames) ++ part -> Forall small (hs ++ frames) -> partial part ->
  length hs <= k -> (length hs < k -> frames = []) -> (le_up w = true -> part = []) -> received w r ->
  le_opened r = opened ->
  (le_up r = true -> exists got, Forall small got /\ length got = k /\
     framed_input opened = wire got ++ framed_input (le_stream r)) ->
  carried w r frames.
Proof.
  intros Ho Hsm Hp Hlen Hshort Hup Hnet <- Hr. exists (hs ++ frames), part. do 4 (split; [done|]).
  intros Hru. destruct (Hr Hru) as (got & Hg & Hk & Hin). exists got. do 2 (split; [done|]).
  f_equal. eapply handshake_aligned; [|exact Hk|done..].
  eapply wire_prefix; [done..|]. rewrite <-Ho. by apply Hnet.
Qed.

Abbreviation connect := (connection_step config cad_psk auth_deadline cad_io_deadline).

Lemma connection_simulated sb sc challenge challenge_bytes x y : simulates x y ->
  new_stream sb -> new_stream sc -> network (connect sb sc challenge challenge_bytes x) ->
  exists steps, stands_for (Connection sb sc challenge challenge_bytes) steps /\
    simulates (connect sb sc challenge challenge_bytes x) (link_run steps y).
Proof.
  intros (Hb & Hc & He & Hl & Hbu & Hcu & Hcon) Hsb Hsc. unfold connection_step.
  destruct (ss_exited x || is_up (fst <$> ss_connection x) || is_up (snd <$> ss_connection x)) eqn:Hguard.
  { intros _. exists []. split; [apply stands_for_none|done]. }
  apply orb_false_iff in Hguard as [[Hex Hbd]%orb_false_iff Hcd].
  destruct (open_session_effect (lc_connect_deadline config) _ (pending_snapshot (bl_pending (ss_broker x))) sb 2 1
    (speaks_authenticate_ca (lc_psk config) (lc_connect_deadline config)) Hsb)
    as (Hbo & Hbi & hsb & nb & pb & Hob & Hsmb & Hpb & Hlb & Hshb & Hupb).
  destruct (open_session_effect cad_io_deadline _ (pending_snapshot (cl_pending (ss_ca x))) sc 1 2
    (speaks_authenticate_broker challenge challenge_bytes cad_psk auth_deadline) Hsc)
    as (Hco & Hci & hsc & nc & pc & Hoc & Hsmc & Hpc & Hlc & Hshc & Hupc).
  unfold broker_resend, cad_resend. revert Hbo Hbi Hob Hupb Hco Hci Hoc Hupc.
  generalize (open_session (lc_connect_deadline config) (authenticate_ca (lc_psk config) (lc_connect_deadline config) sb)
    (go_on (pending_snapshot (bl_pending (ss_broker x)))) sb).
  generalize (open_session cad_io_deadline (authenticate_broker challenge challenge_bytes cad_psk auth_deadline sc)
    (go_on (pending_snapshot (cl_pending (ss_ca x)))) sc).
  intros c b Hbo Hbi Hob Hupb Hco Hci Hoc Hupc [Hnbc Hncb]; cbn [ss_connection] in *.
  assert (carried b c (take nb (pending_snapshot (bl_pending (ss_broker x))))) as Hbc.
  { eapply (connection_carried b c sc hsb _ pb 1); try done; naive_solver. }
  assert (carried c b (take nc (pending_snapshot (cl_pending (ss_ca x))))) as Hcb.
  { eapply (connection_carried c b sb hsc _ pc 2); try done; naive_solver. }
  exists ([Connect] ++ (if le_up b then [] else [LoseToCa nb; BrokerCut]) ++
          (if le_up c then [] else [LoseToBroker nc; CaCut])).
  split; [split; [by destruct (le_up b), (le_up c)|]|].
  { intros ca. destruct (le_up b), (le_up c); cbn; rewrite !elem_of_cons, elem_of_nil; naive_solver. }
  unfold simulates, link_run. cbn [app foldl link_step fst snd ss_broker ss_ca ss_connection ss_exited ss_log fmap option_fmap option_map is_up].
  rewrite Hbu, Hbd, Hcu, Hcd, He, Hex. cbn [orb]. rewrite Hb, Hc, Hl.
  destruct (le_up b) eqn:Hub, (le_up c) eqn:Huc; cbn; do 8 (split; [done|]);
    (split; [try (destruct (Hupb eq_refl) as (_ & <- & _))|try (destruct (Hupc eq_refl) as (_ & <- & _))]); done.
Qed.

(** *** Runs *)

Lemma stream_step_simulated st x y : simulates x y -> fresh_streams st -> network (step st x) ->
  exists steps, stands_for st steps /\ simulates (step st x) (link_run steps y).
Proof.
  intros Hsim Hfresh Hnet. destruct st as [sb sc challenge bytes|branch|branch|router|ca]; cbn [stream_step] in *.
  - destruct Hfresh. by apply connection_simulated.
  - by apply broker_does_simulated.
  - by apply cad_does_simulated.
  - exists [RouterChanges router]. split; [split; [done|intros ca [=]%list_elem_of_singleton]|].
    destruct Hsim as (Hb & Hrest). unfold simulates. cbn. by rewrite Hb.
  - exists [CaReloads ca]. split; [split; [done|by intros ca' [= ->]%list_elem_of_singleton]|].
    destruct Hsim as (Hb & Hc & Hrest). unfold simulates. cbn. by rewrite Hb, Hc.
Qed.

(** The network all along a run. *)
Definition network_run (steps : list (StreamStep R S St)) x : Prop :=
  forall n, network (stream_run config cad_psk auth_deadline cad_io_deadline (take n steps) x).

Lemma stream_run_simulated steps : forall x y, simulates x y -> Forall fresh_streams steps -> network_run steps x ->
  exists steps', concat (drawn <$> steps') `sublist_of` concat (stream_drawn <$> steps) /\
    (forall ca, CaReloads ca ∈ steps' -> CadReloads ca ∈ steps) /\
    simulates (stream_run config cad_psk auth_deadline cad_io_deadline steps x) (link_run steps' y).
Proof.
  induction steps as [|st steps IH]; intros x y Hsim Hfresh Hnet.
  { exists []. split; [done|]. split; [by intros ca ?%elem_of_nil|done]. }
  apply Forall_cons in Hfresh as [Hst Hfresh].
  destruct (stream_step_simulated st x y Hsim Hst) as (steps1 & [Hd1 Hr1] & Hsim1).
  { specialize (Hnet 1). cbn in Hnet. by rewrite take_0 in Hnet. }
  destruct (IH (step st x) _ Hsim1 Hfresh) as (steps2 & Hd2 & Hr2 & Hsim2); [intros n; apply (Hnet (Datatypes.S n))|].
  exists (steps1 ++ steps2). split; [|split].
  - rewrite fmap_app, concat_app. cbn. by apply sublist_app.
  - intros ca [Hin%Hr1|Hin%Hr2]%elem_of_app; [rewrite Hin; by left|by right].
  - unfold link_run in *. by rewrite foldl_app.
Qed.

(** [network_run], of streams that have not failed. *)
Definition has_received w r : bool :=
  let n := length (framed_input (le_opened r)) - length (framed_input (le_stream r)) in
  bool_decide (take n (framed_input (le_opened r)) `prefix_of` framed_output (le_stream w)).
Definition carries_network x : bool :=
  match ss_connection x with Some (b, c) => has_received b c && has_received c b | None => true end.

Lemma has_received_received w r : has_received w r = true -> received w r.
Proof.
  intros Hr%bool_decide_eq_true consumed Heq. rewrite Heq in Hr. rewrite length_app, Nat.add_sub in Hr.
  by rewrite take_app_length in Hr.
Qed.

Lemma carries_network_network x : carries_network x = true -> network x.
Proof.
  unfold carries_network, network. destruct (ss_connection x) as [[b c]|]; [|done].
  intros [? ?]%andb_true_iff. split; by apply has_received_received.
Qed.

(** A run of [l] has only its prefixes. *)
Lemma prefixes_carry {A} (f : list A -> StreamSystem R S St) l :
  forallb (fun k => carries_network (f (take k l))) (seq 0 (Datatypes.S (length l))) = true ->
  forall n, network (f (take n l)).
Proof.
  rewrite forallb_forall. intros Hall n. apply carries_network_network.
  assert (take n l = take (n `min` length l) l) as ->
    by (destruct (decide (n <= length l)); [by rewrite Nat.min_l|by rewrite Nat.min_r, !take_ge by lia]).
  apply (Hall (n `min` length l)), in_seq. lia.
Qed.

Lemma stream_init_simulates broker ca :
  simulates (stream_init broker ca) (mkSystem broker ca [] [] false false false []).
Proof. done. Qed.
End simulation.

(** ** The property *)

(** C12: The sessions over byte streams are the system of frames. Whatever connections are
    made, authenticated or not, and broken, in the middle of a frame too, as long as the
    network gives each end only bytes the other end has written, in order: every run of
    the two daemons over their streams is a run of [link_step], that draws no identifier
    and loads no CA the run did not, and ends with the same state of the broker's link and
    of the CA, the same sessions and the same history. What holds of all runs of the
    system holds of the daemons on their sockets. *)
Theorem link_streams_refine {R S St E} `{DeliveryRouter R, RequestHandler S} `{HC : LinkCodecLaws St E} `{Sha256}
    config cad_psk auth_deadline cad_io_deadline broker ca (steps : list (StreamStep R S St)) :
  Forall fresh_streams steps ->
  network_run config cad_psk auth_deadline cad_io_deadline steps (stream_init broker ca) ->
  let x := stream_run config cad_psk auth_deadline cad_io_deadline steps (stream_init broker ca) in
  exists steps', concat (drawn <$> steps') `sublist_of` concat (stream_drawn <$> steps) /\
    (forall ca', CaReloads ca' ∈ steps' -> CadReloads ca' ∈ steps) /\
    let y := link_run steps' (mkSystem broker ca [] [] false false false []) in
    sy_broker y = ss_broker x /\ sy_ca y = ss_ca x /\ sy_ca_exited y = ss_exited x /\ sy_log y = ss_log x /\
    sy_broker_up y = is_up (fst <$> ss_connection x) /\ sy_ca_up y = is_up (snd <$> ss_connection x).
Proof.
  intros Hfresh Hnet x. destruct (stream_run_simulated config cad_psk auth_deadline cad_io_deadline steps _ _
    (stream_init_simulates broker ca) Hfresh Hnet) as (steps' & Hd & Hr & Hsim). exists steps'.
  do 2 (split; [done|]). destruct Hsim as (? & ? & ? & ? & ? & ? & _). done.
Qed.

(** The first connection breaks in the middle of an acknowledgement; the second carries
    on. *)
Module LinkStreamsExample.
#[local] Existing Instance HandshakeExample.sha.
#[local] Existing Instance LinkExample.router.
#[local] Existing Instance LinkExample.handler.

(** Streams that carry a number of frames; of the next one they write three bytes. *)
Definition Stream : Type := nat * (list byte * list byte).
#[global] Instance stream : TokioFramed Stream Empty_set := {
  framed_send _ frame s :=
    if MAX_LINK_FRAME_LEN <? length frame then (Err None, s) else
    match s.1 with
    | 0 => (Err None, (0, (s.2.1, s.2.2 ++ take 3 (frame_wire frame))))
    | S n => (Ok tt, (n, (s.2.1, s.2.2 ++ frame_wire frame)))
    end;
  framed_next _ s :=
    let n := N.to_nat (from_be (take 4 s.2.1)) in
    if MAX_LINK_FRAME_LEN <? n then (Err None, s) else
    if length s.2.1 <? 4 + n then (Ok None, s)
    else (Ok (Some (take n (drop 4 s.2.1))), (s.1, (drop (4 + n) s.2.1, s.2.2)));
}.
#[global, program] Instance stream_laws : TokioFramedLaws Stream Empty_set := {
  framed_inv _ := True;
  framed_input s := s.2.1;
  framed_output s := s.2.2;
}.
Next Obligation.
  intros d frame [n [i o]] r s' _; cbn [framed_send stream fst snd].
  destruct (Nat.ltb _ _); [by intros [= <- <-]|]. destruct n; intros [= <- <-]; cbn [fst snd];
    (do 3 (split; [done|])); (split; [by apply prefix_app_r|done]).
Qed.
Next Obligation.
  intros d [n [i o]] r s' frame rest _; cbn [framed_next stream fst snd]. intros Hrun Hmax ->. revert Hrun.
  unfold frame_wire. rewrite <-app_assoc, take_app_length' by (unfold length_prefix; by rewrite length_to_be).
  rewrite length_prefix_value, Nat2N.id by done.
  assert (length (length_prefix frame) = 4) as Hp by (unfold length_prefix; by rewrite length_to_be).
  rewrite (proj2 (Nat.ltb_ge MAX_LINK_FRAME_LEN _)) by (unfold MAX_LINK_FRAME_LEN; lia).
  rewrite !length_app, Hp, (proj2 (Nat.ltb_ge _ _)) by lia.
  rewrite (drop_app_length' _ _ 4), take_app_length by done.
  rewrite app_assoc, drop_app_length' by (rewrite length_app; lia). intros [= <- <-].
  do 2 (split; [done|]). by left.
Qed.
Next Obligation.
  intros d [n [i o]] r s' _; cbn [framed_next stream fst snd].
  destruct (Nat.ltb _ _); [by intros [= <- <-]|]. destruct (Nat.ltb _ _); by intros [= <- <-].
Qed.
#[global] Instance codec_laws : LinkCodecLaws Stream Empty_set.
Proof.
  split.
  - intros d frame [n [i o]] r s' _; cbn [framed_send stream fst snd].
    destruct (Nat.ltb_spec MAX_LINK_FRAME_LEN (length frame)).
    { intros [= <- <-]. exists []. cbn. rewrite app_nil_r. split; [apply prefix_nil|done]. }
    destruct n; intros [= <- <-]; cbn [fst snd framed_output stream_laws].
    + exists (take 3 (frame_wire frame)). split; [by apply prefix_take|done].
    + exists (frame_wire frame). done.
  - intros d [n [i o]] frame s' _; cbn [framed_next stream fst snd framed_input stream_laws].
    destruct (Nat.ltb_spec MAX_LINK_FRAME_LEN (N.to_nat (from_be (take 4 i)))); [done|].
    destruct (Nat.ltb_spec (length i) (4 + N.to_nat (from_be (take 4 i)))) as [|Hlen]; [done|].
    set (k := N.to_nat (from_be (take 4 i))) in *. intros [= <- <-]. cbn [fst snd].
    assert (length (take k (drop 4 i)) = k) as Hk by (rewrite length_take, length_drop; lia).
    rewrite Hk. split; [done|]. unfold frame_wire, length_prefix. rewrite Hk.
    replace (N.of_nat k) with (from_be (take 4 i)) by (unfold k; by rewrite N2Nat.id).
    replace (to_be 4 _) with (take 4 i).
    + change (S (S (S (S k)))) with (4 + k). rewrite <-app_assoc, <-drop_drop, !take_drop. done.
    + rewrite <-(to_be_from_be (take 4 i)) at 1. f_equal. rewrite length_take. lia.
Qed.

Definition id (n : N) : MessageId := LinkExample.id n.
Definition challenge := HandshakeExample.challenge.
Definition psk := HandshakeExample.psk.
Definition config : CaLinkConfig := mkCaLinkConfig 5 1 30 2 psk 1 8.

(** What cad, and the broker, write in their authentication. *)
Definition cad_greets : list byte :=
  handshake_wire FrameKind.AuthChallenge (id 9) (vec_to_list challenge) ++ handshake_wire FrameKind.AuthOk (id 9) [].
Definition broker_greets : list byte := handshake_wire FrameKind.AuthResponse (id 9) (answer psk challenge).
Definition request : list byte := handshake_wire FrameKind.Request (id 1) [x01].
Definition delivery (n : N) : list byte := handshake_wire FrameKind.Delivery (id n) [x01].
Definition ack (n : N) : list byte := handshake_wire FrameKind.Ack (id n) [].
Definition connection (writes : nat) (broker_reads cad_reads : list byte) :
    StreamStep (list (list byte) * list (list byte)) nat Stream :=
  Connection (writes, (cad_greets ++ broker_reads, [])) (9, (broker_greets ++ cad_reads, []))
    (Some (id 9)) (Some challenge).

Definition steps : list (StreamStep (list (list byte) * list (list byte)) nat Stream) :=
  [connection 2 (delivery 2 ++ delivery 3) (request ++ take 3 (ack 2));
   BrokerDoes (RequestReady (Some (id 1))); CadDoes (BrokerFrameReady 0 [id 2; id 3]);
   BrokerDoes CaFrameReady; CadDoes (BrokerFrameReady 0 []);
   connection 9 (delivery 2 ++ delivery 3 ++ ack 1) (request ++ ack 2 ++ ack 3);
   CadDoes (BrokerFrameReady 0 []); BrokerDoes CaFrameReady; BrokerDoes CaFrameReady;
   CadDoes (BrokerFrameReady 0 []); CadDoes (BrokerFrameReady 0 []); BrokerDoes CaFrameReady].
Abbreviation broker := (maintain_ca_link_init ([[x01]; [x02]], []) 1 8).
Abbreviation ca := (cad_init 0 2 8).
Abbreviation start := (stream_init (St:=Stream) broker ca).
Abbreviation run k := (stream_run (E:=Empty_set) config psk 5 5 (take k steps) start).

Lemma log : ss_log (run 12) =
  [Taken (id 1) [x01]; Handled (id 1) [x01] [(id 2, [x01]); (id 3, [x01])]; Routed (id 2) [x01]; Routed (id 3) [x01]].
Proof. vm_compute. reflexivity. Qed.

Lemma network_steps : network_run (E:=Empty_set) config psk 5 5 steps start.
Proof. unfold network_run. apply prefixes_carry. vm_compute. reflexivity. Qed.
End LinkStreamsExample.

Lemma link_streams_refine_witness :
  exists steps', sy_log (link_run (H:=LinkExample.router) (H0:=LinkExample.handler) steps'
      (mkSystem LinkStreamsExample.broker LinkStreamsExample.ca [] [] false false false [])) =
    [Taken (LinkStreamsExample.id 1) [x01];
     Handled (LinkStreamsExample.id 1) [x01] [(LinkStreamsExample.id 2, [x01]); (LinkStreamsExample.id 3, [x01])];
     Routed (LinkStreamsExample.id 2) [x01]; Routed (LinkStreamsExample.id 3) [x01]].
Proof.
  destruct (link_streams_refine (H:=LinkExample.router) (H0:=LinkExample.handler) (H2:=HandshakeExample.sha)
    (HC:=LinkStreamsExample.codec_laws) LinkStreamsExample.config LinkStreamsExample.psk 5 5
    LinkStreamsExample.broker LinkStreamsExample.ca LinkStreamsExample.steps) as (steps' & _ & _ & _ & _ & _ & Hlog & _).
  - repeat (apply Forall_cons; split; [first [exact (conj (conj I eq_refl) (conj I eq_refl))|exact I]|]). by apply Forall_nil.
  - exact LinkStreamsExample.network_steps.
  - exists steps'. exact (eq_trans Hlog LinkStreamsExample.log).
Defined.
