(* ===== verification/CaService.v ===== *)
(** The daemon of the CA put together, apps/cad/src/main.rs: start-up, the reload of the
    configuration, and the engine over the file-backed store behind the link. *)

From S2P Require Export CaConfig Durable CaEngine LinkSystem LinkProgress LinkStreams.

(** ** Start-up and reload *)

(** The settings [main] uses, but the socket and the path of the state. *)
Record Config := mkConfig {
  cfg_ca_ed25519_secret_file : Text;
  cfg_ca_x25519_secret_file : Text;
  cfg_broker_link_psk_file : Text;
  cfg_broker_auth_timeout_seconds : N;
  cfg_broker_link_io_timeout_seconds : N;
  cfg_broker_link_retry_seconds : N;
  cfg_broker_pending_deliveries : nat;
  cfg_broker_dedup_entries : nat;
  cfg_limits : Limits;
  cfg_agent_entries : list AgentEntry;
  cfg_policy : PolicyConfig;
  cfg_reload_seconds : N;
}.

Definition default_auth_timeout_seconds : N := 5.
Definition default_link_io_timeout_seconds : N := 10.
Definition default_link_retry_seconds : N := 2.
Definition default_reload_seconds : N := 2.

Definition default_pending_deliveries : nat := N.to_nat 4096.
Definition default_dedup_entries : nat := N.to_nat 8192.

(** [auth_deadline], [io_deadline], [retry_period] and [reload_period] of [main]. *)
Definition cad_auth_deadline (config : Config) : N :=
  duration_from_secs (N.max (cfg_broker_auth_timeout_seconds config) 1).
Definition cad_io_deadline (config : Config) : N :=
  duration_from_secs (N.max (cfg_broker_link_io_timeout_seconds config) 1).
Definition cad_retry_period (config : Config) : N :=
  duration_from_secs (N.max (cfg_broker_link_retry_seconds config) 1).
Definition cad_reload_period (config : Config) : N :=
  duration_from_secs (N.max (cfg_reload_seconds config) 1).

Abbreviation CaState := (CertificateAuthority DynamicEnvironmentPolicy * (PersistentStore * Rng))%type.

Section daemon.
Context `{Crypto, Hex}.

(** [main] up to the listener, with the outcome of [SystemRandom::new]: the psk and the
    state of the link. What is on the disk when it fails is not observed: the process
    ends. *)
Definition cad_start (config : Config) (files : Text -> option Text) (disk : Disk) (rng : Rng) :
    result ConfigError (array 32 * CaLink CaState) :=
  let limits := resolve (cfg_limits config) in
  if cfg_broker_pending_deliveries config <? lim_subscriptions limits
  then Err ConfigError.PendingDeliveries else
  broker_psk ← read_hex_file 32 files (cfg_broker_link_psk_file config);
  store ← map_err ConfigError.Store (PersistentStore_open limits disk);
  agents ← configured_agents files (cfg_agent_entries config);
  let '(reconciled, store) := PersistentStore_reconcile_agents agents store in
  map_err ConfigError.Store reconciled;;
  policy ← build_policy (cfg_policy config);
  ed25519 ← read_hex_file 32 files (cfg_ca_ed25519_secret_file config);
  x25519 ← read_hex_file 32 files (cfg_ca_x25519_secret_file config);
  let ca := with_policy (CaKeys_from_seeds ed25519 x25519) (DynamicEnvironmentPolicy_new policy) in
  Ok (broker_psk, cad_init (ca, (store, rng)) (cfg_broker_pending_deliveries config)
                    (cfg_broker_dedup_entries config)).

(** [reload.tick()]: [candidate] is the outcome of [load]. *)
Definition cad_reload (candidate : result ConfigError Config) (files : Text -> option Text) (s : CaState) :
    CaState :=
  let '(ca, (store, rng)) := s in
  match (candidate ← candidate;
         policy ← build_policy (cfg_policy candidate);
         agents ← configured_agents files (cfg_agent_entries candidate);
         Ok (policy, agents)) with
  | Ok (policy, agents) =>
      match PersistentStore_reconcile_agents agents store with
      | (Ok _, store') => (mkCa (ca_keys ca) (dynamic_replace policy (ca_policy ca)), (store', rng))
      | (_, store') => (ca, (store', rng))
      end
  | _ => s
  end.
End daemon.

(** ** The store stays within its limits *)

(** A store of these limits that holds no more subscriptions than they allow. *)
Record within (limits : StoreLimits) (s : PersistentStore) : Prop := mkWithin {
  wi_inv : persistent_inv s;
  wi_limits : ps_limits s = limits;
  wi_count : count_subscriptions (st_subscriptions (ps_state s)) <= lim_subscriptions limits;
}.

Lemma within_commit limits next s r s' :
  within limits s -> PersistentStore_commit next s = (r, s') ->
  count_subscriptions (st_subscriptions next) <= lim_subscriptions limits ->
  persistent_inv s' -> within limits s'.
Proof.
  intros [_ Hl Hc] (Hl' & _ & Hst)%persistent_commit_cases Hn Hs'. constructor; [done|by rewrite Hl'|].
  destruct r as [[]|e|]; destruct Hst as [-> _]; done.
Qed.

Lemma within_provision limits a k s r s' : within limits s -> PersistentStore_provision a k s = (r, s') ->
  within limits s'.
Proof.
  intros Hs Hrun. pose proof (persistent_provision a k s r s' (wi_inv _ _ Hs) Hrun) as [Hs' _].
  destruct (provision_shape s a k) as [[e Heq]|(_ & _ & Heq)]; rewrite Heq in Hrun.
  - by injection Hrun as _ <-.
  - eapply within_commit; [done..| |done]. apply Hs.
Qed.

Lemma within_set_environment limits a e s r s' : within limits s ->
  PersistentStore_set_environment a e s = (r, s') -> within limits s'.
Proof.
  intros Hs Hrun. pose proof (persistent_set_environment a e s r s' (wi_inv _ _ Hs) Hrun) as [Hs' _].
  destruct (set_environment_shape s a e) as [[x Heq]|(_ & _ & Heq)]; rewrite Heq in Hrun.
  - by injection Hrun as _ <-.
  - eapply within_commit; [done..| |done]. apply Hs.
Qed.

Lemma within_put limits sub s r s' : within limits s ->
  PersistentStore_put_subscription sub s = (r, s') -> within limits s'.
Proof.
  intros Hs Hrun. pose proof (persistent_put sub s r s' (wi_inv _ _ Hs) Hrun) as [Hs' _].
  destruct (put_shape s sub (pinv_buckets s (wi_inv _ _ Hs))) as [[x Heq]|(_ & m' & _ & Hc & Heq)];
    rewrite Heq in Hrun.
  - by injection Hrun as _ <-.
  - eapply within_commit; [done..| |done]. cbn. destruct Hs as [_ Hl Hs]. rewrite Hl in Hc. auto.
Qed.

Lemma within_claim limits sub s r s' : within limits s ->
  PersistentStore_claim_subscription sub s = (r, s') -> within limits s'.
Proof.
  intros Hs Hrun. pose proof (persistent_claim sub s r s' (wi_inv _ _ Hs) Hrun) as [Hs' _].
  destruct (claim_shape s sub (pinv_buckets s (wi_inv _ _ Hs))) as [[Heq _]|(_ & _ & m' & _ & Hc & Heq)];
    rewrite Heq in Hrun.
  - by injection Hrun as _ <-.
  - rewrite M_bind_run in Hrun. destruct (PersistentStore_commit _ s) as [r0 s0] eqn:Hcommit.
    assert (s' = s0) as -> by (destruct r0; by injection Hrun as _ <-).
    eapply within_commit; [done..| |done]. cbn. destruct Hs as [_ _ Hs]. lia.
Qed.

Lemma within_check limits sender session now s r s' : within limits s ->
  PersistentStore_check_and_mark sender session now s = (r, s') -> within limits s'.
Proof.
  intros Hs Hrun. pose proof (persistent_check sender session now s r s' (wi_inv _ _ Hs) Hrun) as [Hs' _].
  destruct (check_shape s sender session now) as [(e & Heq & _)|(_ & _ & Heq)]; rewrite Heq in Hrun.
  - by injection Hrun as _ <-.
  - eapply within_commit; [done..| |done]. apply Hs.
Qed.

(** The storage interface, for the stores of given limits. *)
Program Definition within_laws (limits : StoreLimits) : CaStoreLaws PersistentStore := {|
  store_inv := within limits;
  store_view := persistent_view;
  store_ttl s := rc_ttl_seconds (st_replay (ps_state s));
|}.
Next Obligation. intros limits a s Hs. exact (@keys_law _ _ PersistentStore_laws a s (wi_inv _ _ Hs)). Qed.
Next Obligation. intros limits s Hs. exact (@ca_law _ _ PersistentStore_laws s (wi_inv _ _ Hs)). Qed.
Next Obligation. intros limits s k sub Hs. exact (@slot_law _ _ PersistentStore_laws s k sub (wi_inv _ _ Hs)). Qed.
Next Obligation.
  intros limits a k s r s' Hs Hrun. split; [by eapply within_provision|].
  by apply (persistent_provision a k s r s' (wi_inv _ _ Hs)).
Qed.
Next Obligation. intros limits a s Hs. exact (@environment_law _ _ PersistentStore_laws a s (wi_inv _ _ Hs)). Qed.
Next Obligation.
  intros limits a e s r s' Hs Hrun. split; [by eapply within_set_environment|].
  by apply (persistent_set_environment a e s r s' (wi_inv _ _ Hs)).
Qed.
Next Obligation.
  intros limits sub s r s' Hs Hrun. split; [by eapply within_put|].
  by apply (persistent_put sub s r s' (wi_inv _ _ Hs)).
Qed.
Next Obligation. intros limits ty s Hs. exact (@subscriptions_for_law _ _ PersistentStore_laws ty s (wi_inv _ _ Hs)). Qed.
Next Obligation.
  intros limits sub s r s' Hs Hrun. split; [by eapply within_claim|].
  by apply (persistent_claim sub s r s' (wi_inv _ _ Hs)).
Qed.
Next Obligation.
  intros limits sender session now s r s' Hs Hrun live. split; [by eapply within_check|].
  by apply (persistent_check sender session now s r s' (wi_inv _ _ Hs)).
Qed.

(** No type lists more subscriptions than the store holds. *)
Lemma listing_bounded limits s ty l : within limits s ->
  listing (persistent_view s) ty l -> length l <= lim_subscriptions limits.
Proof.
  intros [[Hb _ _] _ Hc] (Hnd & _ & Hl). set (m := st_subscriptions (ps_state s)) in *.
  pose proof (bucket_listing m ty Hb) as (_ & _ & Hbucket).
  pose proof (count_insert m ty []) as Hcount. cbn [length] in Hcount.
  etrans; [|exact Hc]. etrans; [|instantiate (1 := length (default [] (m !! ty))); lia].
  apply submseteq_length, NoDup_submseteq; [by eapply NoDup_fmap_1|].
  intros sub Hin. apply Hbucket. by apply Hl in Hin.
Qed.

#[export] Instance retain_view_proper k : Proper ((≡) ==> (≡)) (retain_view k).
Proof.
  intros v w (Hk & He & Hs & Hr).
  split_and!; cbn; [done|by rewrite Hk, He| |by rewrite Hk, Hr]. intros x. by rewrite Hk, Hs.
Qed.

(** ** The engine as the link's handler *)

Section service.
Context `{HC : CryptoLaws}.

(** The state of a CA whose store has these limits. *)
Definition service_inv (limits : StoreLimits) (s : CaState) : Prop := within limits s.2.1.

(** A publication is answered with at most a delivery for each stored subscription. *)
#[export] Instance service_laws limits maximum (Hfit : lim_subscriptions limits <= maximum) :
  RequestHandlerLaws CaState (service_inv limits) maximum.
Proof.
  split. intros envelope now [ca [store g]] r s' Hs Hrun. cbn [handle CertificateAuthority_handler] in Hrun.
  cbn [fst snd] in Hrun.
  destruct (process_spec (HL:=within_laws limits) ca now envelope store g Hs)
    as (r0 & frame' & store' & g' & Hproc & Hs' & Hr).
  rewrite Hproc in Hrun. injection Hrun as <- <-. split; [exact Hs'|].
  destruct r0 as [[|ds]|e|]; [done| |done..].
  destruct Hr as (e & pt & _ & Heff). inversion Heff as [| | |ty predicate value env subs frames v' _ _ _ Hl chosen Hall _].
  subst frames. apply Forall2_length in Hall. rewrite <-Hall. etrans; [apply length_filter|].
  etrans; [|exact Hfit]. apply (listing_bounded limits store ty); [exact Hs|].
  destruct Hl as (Hnd & Hsorted & Hl). split; [done|]. split; [done|]. exact Hl.
Qed.

(** It never stops while the disk answers, and its deliveries fit the link and the router. *)
#[export] Instance service_responds limits : ResponsiveHandler CaState (service_inv limits) ca_delivery.
Proof.
  split. intros envelope now [ca [store g]] Hs. cbn [handle CertificateAuthority_handler fst snd].
  destruct (process_spec (HL:=within_laws limits) ca now envelope store g Hs)
    as (r0 & frame' & store' & g' & -> & _ & Hr). cbn [fst].
  destruct r0 as [[|ds]|e|]; [done| |done..].
  destruct Hr as (e & pt & _ & Heff). inversion Heff as [| | |ty predicate value env subs frames v' _ _ _ _ chosen Hall _].
  subst frames. apply Forall_forall. intros d Hd.
  apply list_elem_of_lookup in Hd as [i Hi]. destruct (Forall2_lookup_r _ _ _ _ _ Hall Hi) as (sub & _ & k & g0 & Hk & Hlen & (e' & Hparse & Hsend & Hrec & Htype) & _).
  split; [exact Hlen|]. exists e'. split; [exact Hparse|]. split; [exact Hsend|]. split; [|exact Htype].
  intros Hca. rewrite Hca in Hrec. rewrite <-Hrec in Hk.
  pose proof (ca_law (CaStoreLaws:=within_laws limits) store Hs) as Hnone. cbn in Hnone, Hk. congruence.
Qed.

Context `{Hex}.

Lemma opened_within limits disk v s : ready limits disk v ->
  PersistentStore_open limits disk = Ok s ->
  within limits s /\ durable s /\ persistent_view s ≡ v.
Proof.
  intros [Hre Hruns] Hopen. pose proof (reopened limits disk v s Hre Hopen) as (Hd & Hl & Hv). split; [|done].
  pose proof (durable_ok s Hd) as Hok. rewrite Hl in Hok. constructor; [|done|apply Hok].
  split; [apply Hok|apply Hok|]. apply open_reads in Hopen as (_ & -> & _).
  by apply (faults_next no_stop) in Hruns as [_ ?].
Qed.

(** Reconciliation on a machine that goes on. *)
Lemma reconcile_cases limits agents s r s' : within limits s -> durable s ->
  PersistentStore_reconcile_agents agents s = (r, s') ->
  within limits s' /\ r <> Panic /\
  match r with
  | Ok _ => persistent_view s' ≡ retain_view (list_to_map agents) (persistent_view s)
  | _ => persistent_view s' ≡ persistent_view s
  end.
Proof.
  intros Hs Hd Hrun. destruct (reconcile_shape s agents (durable_ok s Hd)) as [[e Heq]|(next & Hok & Hv & Heq)];
    rewrite Heq in Hrun.
  { injection Hrun as <- <-. done. }
  rewrite (wi_limits _ _ Hs) in Hok.
  pose proof (commit_mutation next s r s' _ (wi_inv _ _ Hs) (sok_buckets _ _ Hok) (sok_ca _ _ Hok) Hv Hrun)
    as (Hs' & Hmut & _).
  split; [by eapply within_commit; [..|apply Hok|]|].
  destruct Hmut as [[-> Hw]|(e & -> & Hw)]; done.
Qed.

Lemma cad_start_Ok config files disk v rng psk c :
  ready (resolve (cfg_limits config)) disk v ->
  cad_start config files disk rng = Ok (psk, c) ->
  lim_subscriptions (resolve (cfg_limits config)) <= cfg_broker_pending_deliveries config /\
  exists ca store agents policy,
    c = cad_init (ca, (store, rng)) (cfg_broker_pending_deliveries config) (cfg_broker_dedup_entries config) /\
    within (resolve (cfg_limits config)) store /\
    configured_agents files (cfg_agent_entries config) = Ok agents /\
    build_policy (cfg_policy config) = Ok policy /\ ca_policy ca = mkDynamic policy /\
    persistent_view store ≡ retain_view (list_to_map agents) v.
Proof.
  intros Hre. unfold cad_start. destruct (Nat.ltb_spec (cfg_broker_pending_deliveries config)
    (lim_subscriptions (resolve (cfg_limits config)))) as [|Hfit]; [done|].
  intros (broker & _ & Hrun)%result_bind_Ok. apply result_bind_Ok in Hrun as (store & Hopen & Hrun).
  apply map_err_Ok in Hopen. destruct (opened_within _ _ _ _ Hre Hopen) as (Hs & Hd & Hv).
  apply result_bind_Ok in Hrun as (agents & Hagents & Hrun).
  destruct (PersistentStore_reconcile_agents agents store) as [r store'] eqn:Hrec.
  apply (reconcile_cases _ _ _ _ _ Hs Hd) in Hrec as (Hs' & _ & Hview).
  apply result_bind_Ok in Hrun as ([] & Hok & Hrun). apply map_err_Ok in Hok as ->.
  apply result_bind_Ok in Hrun as (policy & Hpolicy & Hrun).
  apply result_bind_Ok in Hrun as (ed & _ & Hrun). apply result_bind_Ok in Hrun as (x & _ & Hrun).
  injection Hrun as <- <-. split; [done|]. do 4 eexists. split; [reflexivity|].
  split; [done|]. split; [done|]. split; [done|]. split; [done|]. by rewrite Hview, Hv.
Qed.
(** A reload takes effect, or changes nothing. *)
Lemma cad_reload_cases limits candidate files (s : CaState) : service_inv limits s -> durable s.2.1 ->
  let s' := cad_reload candidate files s in
  service_inv limits s' /\ ca_keys s'.1 = ca_keys s.1 /\ s'.2.2 = s.2.2 /\
  ((s'.1 = s.1 /\ persistent_view s'.2.1 ≡ persistent_view s.2.1) \/
   exists config agents policy, candidate = Ok config /\
     configured_agents files (cfg_agent_entries config) = Ok agents /\
     build_policy (cfg_policy config) = Ok policy /\
     ca_policy s'.1 = mkDynamic policy /\
     persistent_view s'.2.1 ≡ retain_view (list_to_map agents) (persistent_view s.2.1)).
Proof.
  destruct s as [ca [store g]]. intros Hs Hd. cbn [fst snd] in *. unfold cad_reload.
  destruct candidate as [config|e|]; [rewrite bind_Ok|split_and!; auto..].
  destruct (build_policy (cfg_policy config)) as [policy|e|] eqn:Hpolicy; [rewrite bind_Ok|split_and!; auto..].
  destruct (configured_agents files _) as [agents|e|] eqn:Hagents; [rewrite bind_Ok|split_and!; auto..].
  destruct (PersistentStore_reconcile_agents agents store) as [r store'] eqn:Hrec.
  apply (reconcile_cases _ _ _ _ _ Hs Hd) in Hrec as (Hs' & Hnp & Hview).
  destruct r as [[]|e|]; [|split_and!; auto|done].
  split; [exact Hs'|]. split; [done|]. split; [done|]. right. by exists config, agents, policy.
Qed.
End service.

(** ** The properties *)

(** The daemons together. If cad starts, on a disk whose snapshot a store wrote, then
    the queue of pending deliveries covers the limit of subscriptions, so every answer of
    the engine fits it; and whatever then happens on the connections between brokerd, with
    its router, and this cad, which break anywhere, with reloads that keep the store
    within its limits, over a network that gives each end what the other has written: no
    request is processed twice, and every request the broker took is still pending there
    or was processed, with every delivery of its group accepted by the router. *)
Theorem daemons_exactly_once `{HC : CryptoLaws} `{Hex} `{Mpsc Ch, OfflineQueueStore Q} `{HL : LinkCodecLaws St E}
    `{Sha256} config files disk v rng psk c (router : BrokerRouter Ch Q) link
    (steps : list (StreamStep (BrokerRouter Ch Q) CaState St)) :
  let start := stream_init (maintain_ca_link_init router (lc_pending_depth link) (lc_dedup_depth link)) c in
  ready (resolve (cfg_limits config)) disk v ->
  cad_start config files disk rng = Ok (psk, c) ->
  (forall ca, CadReloads ca ∈ steps -> service_inv (resolve (cfg_limits config)) ca) ->
  NoDup (concat (stream_drawn <$> steps)) -> Forall fresh_streams steps ->
  network_run link psk (cad_auth_deadline config) (cad_io_deadline config) steps start ->
  let x := stream_run link psk (cad_auth_deadline config) (cad_io_deadline config) steps start in
  NoDup (processed_ids (ss_log x)) /\
  (forall id request, Taken id request ∈ ss_log x ->
     id ∈ (pending_view (bl_pending (ss_broker x))).*1 \/
     exists ds, Handled id request ds ∈ ss_log x /\ Forall (fun d => Routed d.1 d.2 ∈ ss_log x) ds) /\
  (forall id f, Routed id f ∈ ss_log x -> (id, f) ∈ all_generated (ss_log x)) /\
  (forall id request, Lost id request ∈ ss_log x -> ss_exited x = true).
Proof.
  intros start Hre Hstart Hok Hnd Hfresh Hnet x.
  destruct (cad_start_Ok _ _ _ v _ _ _ Hre Hstart) as (Hfit & ca & store & agents & policy & Hc & Hs & _).
  destruct (stream_run_simulated link psk (cad_auth_deadline config) (cad_io_deadline config) steps _ _
    (stream_init_simulates _ _) Hfresh Hnet) as (steps' & Hd & Hr & Hbroker & _ & Hex & Hlog & _).
  fold start x in Hbroker, Hex, Hlog. rewrite <-Hbroker, <-Hex, <-Hlog, Hc.
  destruct (link_run_facts (HS:=service_laws _ _ Hfit) router (ca, (store, rng))
    (lc_pending_depth link) (lc_dedup_depth link) (cfg_broker_dedup_entries config) steps' Hs)
    as (Hp & _ & Hk & Hro & Hl).
  - apply Forall_forall. intros st Hst. destruct st; try done. by apply Hok, Hr.
  - by eapply sublist_NoDup.
  - done.
Qed.

(** C19: A configuration takes effect as a whole or not at all. When cad starts, its policy
    is the one its file describes and the directory holds exactly the configured agents,
    with the environments, subscriptions and sessions of an agent kept only if its keys
    are unchanged. A reload of a well-formed store either does the same with the new
    file, or, whichever part of it fails, leaves both the policy and what is stored as
    they were; it never changes the keys of the CA or its randomness. *)
Theorem configuration_all_or_nothing `{HC : CryptoLaws} `{Hex} :
  (forall config files disk v rng psk c, ready (resolve (cfg_limits config)) disk v ->
     cad_start config files disk rng = Ok (psk, c) ->
     exists agents policy, configured_agents files (cfg_agent_entries config) = Ok agents /\
       build_policy (cfg_policy config) = Ok policy /\
       ca_policy (cl_ca c).1 = mkDynamic policy /\
       persistent_view (cl_ca c).2.1 ≡ retain_view (list_to_map agents) v) /\
  (forall limits candidate files (s : CaState), service_inv limits s -> durable s.2.1 ->
     let s' := cad_reload candidate files s in
     service_inv limits s' /\ ca_keys s'.1 = ca_keys s.1 /\ s'.2.2 = s.2.2 /\
     ((s'.1 = s.1 /\ persistent_view s'.2.1 ≡ persistent_view s.2.1) \/
      exists config agents policy, candidate = Ok config /\
        configured_agents files (cfg_agent_entries config) = Ok agents /\
        build_policy (cfg_policy config) = Ok policy /\
        ca_policy s'.1 = mkDynamic policy /\
        persistent_view s'.2.1 ≡ retain_view (list_to_map agents) (persistent_view s.2.1))).
Proof.
  split.
  - intros config files disk v rng psk c Hre
      (_ & ca & store & agents & policy & -> & _ & Ha & Hp & Hca & Hv)%(cad_start_Ok _ _ _ v); [|done].
    by exists agents, policy.
  - intros limits candidate files s. apply cad_reload_cases.
Qed.

(** A CA started with two configured agents, whose broker hands over one request that
    is no frame. *)
Module ServiceExample.
#[local] Existing Instance Toy.crypto.

Definition path : Text := [x70].
Definition entry (last : byte) : AgentEntry := mkAgentEntry (ConfigExample.agent_text last) path path.
Definition config : Config := mkConfig path path path 5 10 2 2 4
  (mkConfiguredLimits (Some 3) (Some 3) (Some 2) (Some 3) None) [entry x31; entry x32] ConfigExample.config 2.
Definition reloaded : Config := mkConfig path path path 5 10 2 2 4
  (cfg_limits config) [entry x31] (mkPolicyConfig [] [] [] []) 2.
Definition files (p : Text) : option Text :=
  if bool_decide (p = path) then Some (concat (replicate 32 [x30; x37]) ++ [x0a]) else None.
Definition disk : Disk := mkDisk None None [] [].
Definition router : BrokerRouter ListChannel MemoryOfflineQueueStore :=
  set_ca_channel (mkListChannel [[x2a]] 1 false) (with_offline_store 4 4 1 (mkMemoryOffline 4 ∅)).
Definition id : MessageId := mkMessageId (vreplicate 16 x01).
Definition secret : array 32 := vreplicate 32 x07.
Definition link : CaLinkConfig := mkCaLinkConfig 5 1 30 2 secret 8 8.
Definition started : result ConfigError (array 32 * CaLink CaState) :=
  cad_start (H:=Toy.crypto) config files disk 0%N.

(** A connection that carries a request and its acknowledgement. *)
Definition steps : list (StreamStep (BrokerRouter ListChannel MemoryOfflineQueueStore) CaState LinkStreamsExample.Stream) :=
  [Connection (9, (LinkStreamsExample.cad_greets ++ LinkStreamsExample.ack 1, []))
     (9, (handshake_wire FrameKind.AuthResponse (LinkStreamsExample.id 9)
            (answer (H:=HandshakeExample.sha) secret LinkStreamsExample.challenge)
          ++ handshake_wire FrameKind.Request id [x2a], []))
     (Some (LinkStreamsExample.id 9)) (Some LinkStreamsExample.challenge);
   BrokerDoes (RequestReady (Some id)); CadDoes (BrokerFrameReady 7 []); BrokerDoes CaFrameReady].
Abbreviation start c := (stream_init (St:=LinkStreamsExample.Stream)
  (maintain_ca_link_init router (lc_pending_depth link) (lc_dedup_depth link)) c).
Abbreviation run psk c done :=
  (stream_run (H0:=CertificateAuthority_handler (H:=Toy.crypto)) (E:=Empty_set) (H2:=HandshakeExample.sha) link psk
    (cad_auth_deadline config) (cad_io_deadline config) done (start c)).

Lemma starts : exists psk c, started = Ok (psk, c).
Proof.
  assert (is_ok started = true) as H by (vm_compute; reflexivity).
  destruct started as [[psk c]|e|]; [by exists psk, c|discriminate H..].
Qed.

Lemma started_runs : match started with
  | Ok (psk, c) => forallb (fun k => carries_network (run psk c (take k steps))) (seq 0 (S (length steps))) = true /\
      ss_log (run psk c steps) = [Taken id [x2a]; Handled id [x2a] []]
  | _ => False
  end.
Proof. vm_compute. split; reflexivity. Qed.

Lemma runs psk c : started = Ok (psk, c) ->
  forallb (fun k => carries_network (run psk c (take k steps))) (seq 0 (S (length steps))) = true /\
  ss_log (run psk c steps) = [Taken id [x2a]; Handled id [x2a] []].
Proof. pose proof started_runs as Hruns. intros Hs. rewrite Hs in Hruns. exact Hruns. Qed.
End ServiceExample.

Lemma daemons_exactly_once_witness :
  exists psk c, ServiceExample.started = Ok (psk, c) /\
    let x := ServiceExample.run psk c ServiceExample.steps in
    ss_log x = [Taken ServiceExample.id [x2a]; Handled ServiceExample.id [x2a] []] /\
    NoDup (processed_ids (ss_log x)) /\
    (ServiceExample.id ∈ (pending_view (bl_pending (ss_broker x))).*1 \/
     exists ds, Handled ServiceExample.id [x2a] ds ∈ ss_log x).
Proof.
  destruct ServiceExample.starts as (psk & c & Hstart). exists psk, c. split; [exact Hstart|].
  destruct (ServiceExample.runs _ _ Hstart) as [Hnet Hlog]. cbn zeta.
  split; [exact Hlog|].
  destruct (daemons_exactly_once (HC:=Toy.laws) (HL:=LinkStreamsExample.codec_laws) (H4:=HandshakeExample.sha)
    ServiceExample.config ServiceExample.files ServiceExample.disk
    (state_view (state_empty (resolve (cfg_limits ServiceExample.config)))) 0%N psk c
    ServiceExample.router ServiceExample.link ServiceExample.steps) as (Hnd & Hkept & _).
  - by apply ready_empty.
  - exact Hstart.
  - intros ca Hin. exfalso. unfold ServiceExample.steps in Hin.
    repeat (apply elem_of_cons in Hin as [Hin|Hin]; [discriminate Hin|]). by apply elem_of_nil in Hin.
  - apply (bool_decide_unpack _). vm_compute. reflexivity.
  - repeat (apply Forall_cons; split; [first [exact (conj (conj I eq_refl) (conj I eq_refl))|exact I]|]). by apply Forall_nil.
  - unfold network_run. apply prefixes_carry. exact Hnet.
  - split; [exact Hnd|]. destruct (Hkept ServiceExample.id [x2a]) as [Hp|(ds & Hds & _)].
    + rewrite Hlog. by left.
    + left. exact Hp.
    + right. exists ds. exact Hds.
Defined.

Lemma configuration_all_or_nothing_witness :
  exists psk c, ServiceExample.started = Ok (psk, c) /\
    ca_policy (cl_ca c).1 = mkDynamic ConfigExample.policy /\
    let s' := cad_reload (H:=Toy.crypto) (Ok ServiceExample.reloaded) (fun _ => None) (cl_ca c) in
    persistent_view s'.2.1 ≡ persistent_view (cl_ca c).2.1.
Proof.
  destruct ServiceExample.starts as (psk & c & Hstart).
  exists psk, c. split; [exact Hstart|].
  destruct (configuration_all_or_nothing (HC:=Toy.laws)) as [Hok _].
  destruct (Hok ServiceExample.config ServiceExample.files ServiceExample.disk
    (state_view (state_empty (resolve (cfg_limits ServiceExample.config)))) 0%N psk c)
    as (agents & policy & _ & Hpolicy & Hp & _).
  - by apply ready_empty.
  - exact Hstart.
  - split.
    + rewrite Hp. f_equal. unfold ConfigExample.policy.
      change (build_policy ConfigExample.config = Ok policy) in Hpolicy. by rewrite Hpolicy.
    + destruct (cl_ca c) as [ca [store g]]. reflexivity.
Defined.
