(* ===== verification/ServiceSpec.v ===== *)
(** What cad promises, as an abstract publish/subscribe service: a transition system over
    the abstract store, whose labels are the requests and what they are answered with. The
    engine over the file-backed store implements it, and every state it reaches is one
    that cad starts again from. *)

From S2P Require Export CaService.

(** ** What a computation keeps *)

(** However the computation ends, [I] holds afterwards; a panic ends the process. *)
Definition keeps {S E A} (I : S -> Prop) (m : M S E A) : Prop :=
  forall s r s', I s -> m s = (r, s') -> r <> Panic -> I s'.

Section keeps.
Context {S E : Type} (I : S -> Prop).

Lemma keeps_bind {A B} (m : M S E A) (f : A -> M S E B) :
  keeps I m -> (forall a, keeps I (f a)) -> keeps I (m ≫= f).
Proof.
  intros Hm Hf s r s' Hs Hrun Hr. rewrite M_bind_run in Hrun.
  destruct (m s) as [[a|e|] s1] eqn:Hms; [|injection Hrun as <- <-; by eapply Hm|by injection Hrun as <- <-].
  eapply Hf; [|exact Hrun|exact Hr]. by eapply Hm.
Qed.

Lemma keeps_same {A} (m : M S E A) : (forall s, (m s).2 = s) -> keeps I m.
Proof. intros Hm s r s' Hs Hrun _. specialize (Hm s). rewrite Hrun in Hm. cbn in Hm. by subst. Qed.

Lemma keeps_mret {A} (a : A) : keeps I (mret (M:=M S E) a).
Proof. by apply keeps_same. Qed.
Lemma keeps_lift {A} (r : result E A) : keeps I (lift r).
Proof. by apply keeps_same. Qed.
Lemma keeps_fail {A} (e : E) : keeps (A:=A) I (fail e).
Proof. by apply keeps_same. Qed.
Lemma keeps_gets {A} (f : S -> A) : keeps (E:=E) I (gets f).
Proof. by apply keeps_same. Qed.
End keeps.

Create HintDb keeps.
#[export] Hint Resolve keeps_bind keeps_mret keeps_lift keeps_fail keeps_gets : keeps.

(** ** The engine on a durable store *)

(** What is in memory is what a start would read from the file. *)
Definition durable_at (limits : StoreLimits) (s : PersistentStore) : Prop :=
  durable s /\ ps_limits s = limits.

Section durable.
Context `{HC : CryptoLaws} (limits : StoreLimits).
Implicit Types ca : CertificateAuthority DynamicEnvironmentPolicy.

Abbreviation kept := (keeps (durable_at limits)).
Abbreviation kept_request := (keeps (fun x : list byte * (PersistentStore * Rng) => durable_at limits x.2.1)).

Lemma keeps_call c : valid_call c -> kept (persistent_call c).
Proof. intros Hc s r s' [Hd <-] Hrun Hr. apply call_durable in Hrun as (Hl & _ & Hd' & _); [|done..]. by split; [apply Hd'|]. Qed.

Lemma keeps_claim sub : kept (claim_subscription sub).
Proof.
  intros s r s' Hs Hrun Hr. eapply (keeps_call (StoreMutation (CallClaim sub)) I s (_ ← r; Ok tt)); [exact Hs| |by destruct r].
  cbn [persistent_call]. rewrite M_bind_run, Hrun. by destruct r.
Qed.

Lemma keeps_on_store {A} (m : M PersistentStore Error A) : kept m -> kept_request (on_store m).
Proof.
  intros Hm [f [s g]] r s' Hs Hrun Hr. unfold on_store, on_second, zoom in Hrun. cbn [fst snd] in *.
  destruct (m s) as [r0 s0] eqn:Hms. injection Hrun as <- <-. by eapply Hm.
Qed.

Lemma keeps_on_rng {A} (m : M Rng Error A) : kept_request (on_rng m).
Proof.
  intros [f [s g]] r s' Hs Hrun _. unfold on_rng, on_second, zoom in Hrun. cbn [fst snd] in *.
  destruct (m g) as [r0 g0]. by injection Hrun as <- <-.
Qed.

Lemma keeps_on_output {A} (m : M (list byte) Error A) : kept_request (on_output m).
Proof.
  intros [f [s g]] r s' Hs Hrun _. unfold on_output, zoom in Hrun. cbn [fst snd] in *.
  destruct (m f) as [r0 f0]. by injection Hrun as <- <-.
Qed.

Lemma keeps_keys a : kept (keys a).
Proof. by apply keeps_same. Qed.
Lemma keeps_environment a : kept (environment a).
Proof. by apply keeps_same. Qed.
Lemma keeps_subscriptions_for ty : kept (subscriptions_for ty).
Proof. by apply keeps_same. Qed.
Lemma keeps_set_environment a e : kept (set_environment a e).
Proof. exact (keeps_call (StoreMutation (CallSetEnvironment a e)) I). Qed.
Lemma keeps_put sub : sub_handler sub <> HandlerId_NONE -> kept (put_subscription sub).
Proof. exact (keeps_call (StoreMutation (CallPut sub))). Qed.
Lemma keeps_check sender session now : kept (check_and_mark sender session now).
Proof. exact (keeps_call (StoreMutation (CallMark sender session now)) I). Qed.

#[local] Hint Resolve keeps_claim keeps_on_store keeps_on_rng keeps_on_output keeps_keys keeps_environment
  keeps_subscriptions_for keeps_set_environment keeps_check : keeps.

(** Runs through binds and guards. *)
Ltac keeps_auto := repeat first [progress eauto with keeps nocore | case_match | apply keeps_bind; [|intros ?]].

Lemma keeps_validate_stored ca a : kept_request (validate_stored_environment ca a).
Proof. unfold validate_stored_environment. keeps_auto. Qed.
#[local] Hint Resolve keeps_validate_stored : keeps.

Lemma keeps_subscription ca sender pe ty predicate value sub :
  kept_request (process_subscription ca sender pe ty predicate value sub).
Proof. unfold process_subscription. keeps_auto. Qed.
#[local] Hint Resolve keeps_subscription : keeps.

Lemma keeps_subscriptions ca sender pe ty predicate value subs : forall ds,
  kept_request (process_subscriptions ca sender pe ty predicate value subs ds).
Proof. induction subs; intros ds; cbn [process_subscriptions]; keeps_auto. Qed.
#[local] Hint Resolve keeps_subscriptions : keeps.

Lemma keeps_subscribe ca sender handler ty kind pt : kept_request (process_subscribe ca sender handler ty kind pt).
Proof.
  unfold process_subscribe. case_bool_decide; [by apply keeps_fail|].
  apply keeps_bind; [by auto with keeps|intros _]. apply keeps_bind; [|intros _; apply keeps_mret].
  apply keeps_on_store. by apply keeps_put.
Qed.
#[local] Hint Resolve keeps_subscribe : keeps.

(** Whatever is sent to the CA, its store stays durable. *)
Lemma process_keeps_durable ca now : kept_request (process ca now).
Proof. unfold process, process_operation, process_set_environment, process_publish. keeps_auto. Qed.

Lemma handle_keeps_durable request now (s : CaState) r s' : service_inv limits s -> durable_at limits s.2.1 ->
  handle request now s = (r, s') -> durable_at limits s'.2.1.
Proof.
  destruct s as [ca [store g]]. intros Hs Hd. cbn [handle CertificateAuthority_handler fst snd].
  destruct (process_spec (HL:=within_laws limits) ca now request store g Hs) as (r0 & f' & store' & g' & Hrun & _ & Hr).
  rewrite Hrun. intros [= <- <-]. refine (process_keeps_durable ca now (request, (store, g)) _ _ Hd Hrun _). by intros ->.
Qed.
End durable.

(** ** The service *)

(** The keys and the policy of the CA, and what is stored. *)
Abbreviation Service := (CertificateAuthority DynamicEnvironmentPolicy * StoreView)%type.

Definition deliveries (r : Res ProcessResult) : list frame :=
  match r with Ok (ProcessResult.Deliveries ds) => ds | _ => [] end.

(** What happens to the service: it answers a request, at a time of its clock, with the
    frames sent to subscribers; or a configuration takes effect, that says the keys and
    the policy of the CA and the agents. *)
Inductive ServiceLabel :=
| Answers (request : frame) (now : N) (frames : list frame)
| Configures (ca : CertificateAuthority DynamicEnvironmentPolicy) (agents : list (AgentId * PublicKeys)).

Section service_spec.
Context `{HC : CryptoLaws} (ttl : N).

(** A request is accepted, with its effect, or refused; or a configuration takes effect:
    nothing is lost but what belongs to agents that are gone or have other keys. *)
Inductive service_step : Service -> ServiceLabel -> Service -> Prop :=
| service_accepts ca v now request e pt res v' :
    authenticated ca v now request e pt ->
    CaEngine.request_effect ca (mark now ttl e v) (env_sender e) (env_handler e) pt (env_message_type e) res v' ->
    service_step (ca, v) (Answers request now (deliveries (Ok res))) (ca, v')
| service_refuses ca v now request v' :
    failed_request ca v now ttl request v' ->
    service_step (ca, v) (Answers request now []) (ca, v')
| service_configures ca v ca' agents v' :
    v' ≡ retain_view (list_to_map agents) v ->
    service_step (ca, v) (Configures ca' agents) (ca', v').

Definition service_equiv (s s' : Service) : Prop := s.1 = s'.1 /\ s.2 ≡ s'.2.

(** The steps of these labels, one after the other and no other. *)
Inductive service_run (s : Service) : list ServiceLabel -> Service -> Prop :=
| run_start s' : service_equiv s s' -> service_run s [] s'
| run_more labels s1 label s2 s3 :
    service_run s labels s1 -> service_step s1 label s2 -> service_equiv s2 s3 ->
    service_run s (labels ++ [label]) s3.

Lemma service_equiv_refl s : service_equiv s s.
Proof. done. Qed.
Lemma service_equiv_trans s1 s2 s3 : service_equiv s1 s2 -> service_equiv s2 s3 -> service_equiv s1 s3.
Proof. intros [H12 Hv] [H23 Hw]. split; [congruence|]. by rewrite Hv. Qed.

Lemma service_run_equiv s labels s1 s2 : service_run s labels s1 -> service_equiv s1 s2 ->
  service_run s labels s2.
Proof.
  intros [s' Hs|labels' s1' label s' s3 Hrun Hstep Hs] Heq.
  - constructor. by eapply service_equiv_trans.
  - econstructor; [exact Hrun|exact Hstep|]. by eapply service_equiv_trans.
Qed.

Lemma service_run_step s labels s1 label s2 :
  service_run s labels s1 -> service_step s1 label s2 -> service_run s (labels ++ [label]) s2.
Proof. intros Hrun Hstep. econstructor; [exact Hrun|exact Hstep|apply service_equiv_refl]. Qed.

(** *** What an answer holds *)

Definition recipient_of (f : frame) : option AgentId :=
  match parse_envelope f with Ok e => Some (env_recipient e) | _ => None end.

(** What the service makes of a request for a subscription: the request is authentic and
    fresh and publishes under a valid environment; the subscription is stored, both
    predicates hold and the policy authorises the pair; and the frame is the delivery of
    the published value, addressed to its subscriber. *)
Definition authorized_in (ca : CertificateAuthority DynamicEnvironmentPolicy) (view : StoreView) (lifetime now : N)
    (publisher : AgentId) (request f : frame) (sub : StoredSubscription) : Prop :=
  exists e pt ty predicate value environment,
    authenticated ca view now request e pt /\ env_sender e = publisher /\
    env_message_type e = MessageType.Publish /\
    parse_operation pt = Ok (OperationRef.Publish ty predicate value) /\
    let current := mark now lifetime e view in
    environment_valid ca current publisher environment /\
    sub_type_id sub = ty /\ view_stored view (sub_slot sub) = Some sub /\
    eligible ca current publisher environment ty predicate sub = true /\
    delivers ca current publisher ty value sub f /\ recipient_of f = Some (sub_subscriber sub).

Lemma authorized_sender ca view lifetime now publisher request f sub :
  authorized_in ca view lifetime now publisher request f sub ->
  exists e, parse_envelope request = Ok e /\ env_sender e = publisher.
Proof.
  intros (e & pt & ty & predicate & value & env & (Hchk & _) & Hsend & _).
  apply process_checks_Ok in Hchk as (Hparse & _). by exists e.
Qed.

Lemma effect_authorized ca v lifetime now request e pt ds v' f : authenticated ca v now request e pt ->
  CaEngine.request_effect ca (mark now lifetime e v) (env_sender e) (env_handler e) pt (env_message_type e)
    (ProcessResult.Deliveries ds) v' ->
  f ∈ ds -> exists publisher sub, authorized_in ca v lifetime now publisher request f sub.
Proof.
  intros Hauth Heff Hf. remember (env_message_type e) as mt eqn:Hmt.
  remember (ProcessResult.Deliveries ds) as res eqn:Hres.
  destruct Heff as [| | |ty predicate value env subs frames v' Hh Hp He (_ & _ & Hl) chosen Hall Hv]; [done..|].
  injection Hres as ->. apply list_elem_of_lookup in Hf as [i Hi].
  destruct (Forall2_lookup_r _ _ _ _ _ Hall Hi) as (sub & Hsub & Hd).
  apply list_elem_of_lookup_2, list_elem_of_filter in Hsub as [Hchosen [Hty Hstored]%Hl].
  exists (env_sender e), sub, e, pt, ty, predicate, value, env.
  split; [exact Hauth|]. split; [done|]. split; [done|]. split; [exact Hp|]. split; [exact He|].
  split; [done|]. split; [exact Hstored|]. split; [by apply Is_true_true|]. split; [exact Hd|].
  destruct Hd as (k & g0 & _ & _ & (e' & Hparse & _ & Hrec & _) & _). unfold recipient_of. by rewrite Hparse, Hrec.
Qed.

Lemma step_authorized s request now frames s' f : service_step s (Answers request now frames) s' -> f ∈ frames ->
  exists publisher sub, authorized_in s.1 s.2 ttl now publisher request f sub.
Proof.
  intros Hstep. remember (Answers request now frames) as label eqn:Ha.
  destruct Hstep as [ca v now' request' e pt [|ds] v' Hauth Heff|ca v now' request' v' _|]; [..|done];
    injection Ha as -> -> <-; [by intros ?%elem_of_nil| |by intros ?%elem_of_nil].
  intros Hf. by eapply effect_authorized.
Qed.

(** *** Where the stored subscriptions come from *)

(** Slots hold what is for them. *)
Definition slots_ok (v : StoreView) : Prop := forall k sub, view_stored v k = Some sub -> sub_slot sub = k.

(** The request is signed by the subscriber, with the key it is provisioned with, and asks
    for the subscription. *)
Definition subscribes_in (ca : CertificateAuthority DynamicEnvironmentPolicy) (view : StoreView) (now : N)
    (request : frame) (sub : StoredSubscription) : Prop :=
  exists e, authenticated ca view now request e (sub_encoded sub) /\
    env_sender e = sub_subscriber sub /\ env_handler e = sub_handler sub /\ is_Ok_subscription sub.

Lemma slots_ok_proper v w : v ≡ w -> slots_ok v -> slots_ok w.
Proof. intros (_ & _ & Hs & _) Hv k sub. rewrite <-Hs. apply Hv. Qed.

Lemma step_confined s label s' : slots_ok s.2 -> service_step s label s' ->
  match label with
  | Answers request now frames => exists r, confined s.1 s.2 now request r s'.2 /\ frames = deliveries r
  | Configures ca agents => s'.1 = ca /\ s'.2 ≡ retain_view (list_to_map agents) s.2
  end.
Proof.
  intros Hslots Hstep. revert Hslots.
  destruct Hstep as [ca v now request e pt res v' Hauth Heff|ca v now request v' Hf|ca v ca' agents v' Hv];
    intros Hslots; cbn [fst snd] in *.
  - exists (Ok res). split; [by eapply effect_confined|done].
  - exists (Err Error.Malformed). split; [by eapply failure_confined|done].
  - done.
Qed.

(** What is stored was stored before, or the request that is answered asks for it. *)
Lemma step_stored s label s' k sub : slots_ok s.2 -> service_step s label s' ->
  view_stored s'.2 k = Some sub ->
  view_stored s.2 k = Some sub \/
  sub_slot sub = k /\ exists request now, label = Answers request now [] /\ subscribes_in s.1 s.2 now request sub.
Proof.
  intros Hslots Hstep Hsub. apply step_confined in Hstep; [|done]. destruct label as [request now frames|ca agents].
  - destruct Hstep as (r & Hconf & ->).
    destruct (decide (view_stored s'.2 k = view_stored s.2 k)) as [Heq|Hne]; [left; congruence|].
    destruct (confined_stored _ _ _ _ _ _ Hconf k Hne) as (e & pt & Hauth & [(sub' & pe & -> & Hnew & Hk & Hs & Hh & _ & <- & Hok & _)
      |(sub' & ty & predicate & value & pe & _ & Hnew & _)]); rewrite Hsub in Hnew; [|done].
    injection Hnew as <-. right. split; [done|]. exists request, now. split; [done|]. by exists e.
  - destruct Hstep as (_ & _ & _ & Hs & _). rewrite Hs in Hsub. cbn in Hsub. case_match; [by left|done].
Qed.

Lemma step_slots s label s' : slots_ok s.2 -> service_step s label s' -> slots_ok s'.2.
Proof.
  intros Hs Hstep k sub [Hk|[Hk _]]%(step_stored _ _ _ k sub Hs Hstep); [by apply Hs|done].
Qed.

Lemma run_slots s labels s' : slots_ok s.2 -> service_run s labels s' -> slots_ok s'.2.
Proof.
  intros Hs. induction 1 as [s' [_ Heq]|labels s1 label s2 s3 Hrun IH Hstep [_ Heq]]; [by eapply slots_ok_proper|].
  eapply slots_ok_proper; [exact Heq|]. by eapply step_slots.
Qed.
End service_spec.

(** ** cad implements the service *)

Section cad.
Context `{HC : CryptoLaws} `{Hex}.

Definition service_of (s : CaState) : Service := (s.1, persistent_view s.2.1).

(** The store is within its limits, and what a start would read. *)
Record cad_ok (limits : StoreLimits) (s : CaState) : Prop := mkCadOk {
  cok_inv : service_inv limits s;
  cok_durable : durable_at limits s.2.1;
}.

Lemma handle_service limits request now (s : CaState) r s' : cad_ok limits s -> handle request now s = (r, s') ->
  cad_ok limits s' /\ r <> Panic /\
  service_step (lim_replay_ttl_seconds limits) (service_of s) (Answers request now (deliveries r)) (service_of s').
Proof.
  intros [Hs Hd] Hrun. pose proof (handle_keeps_durable _ _ _ _ _ _ Hs Hd Hrun) as Hd'.
  destruct s as [ca [store g]]. cbn [handle CertificateAuthority_handler fst snd] in *.
  destruct (process_spec (HL:=within_laws limits) ca now request store g Hs) as (r0 & f' & store' & g' & Hp & Hs' & Hr).
  rewrite Hp in Hrun. injection Hrun as <- <-. split; [by constructor|]. split; [by intros ->|].
  assert (store_ttl (CaStoreLaws:=within_laws limits) store = lim_replay_ttl_seconds limits) as Httl.
  { destruct Hd as [Hd <-]. exact (sok_ttl _ _ (durable_ok _ Hd)). }
  rewrite Httl in Hr. destruct r0 as [res|x|]; [| |done].
  - destruct Hr as (e & pt & Hauth & Heff). exact (service_accepts _ _ _ now _ e pt res _ Hauth Heff).
  - exact (service_refuses _ _ _ now _ _ Hr).
Qed.

(** *** What a configuration says *)

Record Configured := mkConfigured {
  cf_ca : CertificateAuthority DynamicEnvironmentPolicy;
  cf_agents : list (AgentId * PublicKeys);
}.

(** The settings that make the service, and the files they name. *)
Definition read_configuration (config : Config) (files : Text -> option Text) : result ConfigError Configured :=
  agents ← configured_agents files (cfg_agent_entries config);
  policy ← build_policy (cfg_policy config);
  ed25519 ← read_hex_file 32 files (cfg_ca_ed25519_secret_file config);
  x25519 ← read_hex_file 32 files (cfg_ca_x25519_secret_file config);
  Ok (mkConfigured (with_policy (CaKeys_from_seeds ed25519 x25519) (mkDynamic policy)) agents).

(** What a reload of these files changes: the policy and the agents, when all of them can
    be read and the store acknowledges the agents; not the keys. *)
Definition reload_label (candidate : result ConfigError Config) (files : Text -> option Text) (s : CaState) :
    option ServiceLabel :=
  match (config ← candidate;
         policy ← build_policy (cfg_policy config);
         agents ← configured_agents files (cfg_agent_entries config);
         Ok (policy, agents)) with
  | Ok (policy, agents) =>
      if is_ok (PersistentStore_reconcile_agents agents s.2.1).1
      then Some (Configures (mkCa (ca_keys s.1) (mkDynamic policy)) agents) else None
  | _ => None
  end.

(** The label happens, if there is one. *)
Definition service_does (ttl : N) (s : Service) (label : option ServiceLabel) (s' : Service) : Prop :=
  match label with
  | Some label => exists s1, service_step ttl s label s1 /\ service_equiv s1 s'
  | None => service_equiv s s'
  end.

Lemma service_run_does ttl start labels s label s' : service_run ttl start labels s -> service_does ttl s label s' ->
  service_run ttl start (labels ++ option_list label) s'.
Proof.
  intros Hrun. destruct label as [label|]; cbn; [intros (s1 & ? & ?); by econstructor|].
  rewrite app_nil_r. by apply service_run_equiv.
Qed.

Lemma reload_service limits candidate files (s : CaState) : cad_ok limits s ->
  let s' := cad_reload candidate files s in
  cad_ok limits s' /\
  service_does (lim_replay_ttl_seconds limits) (service_of s) (reload_label candidate files s) (service_of s').
Proof.
  intros [Hs [Hd Hl]]. unfold cad_reload, reload_label. destruct s as [ca [store g]]. cbn [fst snd] in *.
  assert (cad_ok limits (ca, (store, g))) as Hsame by done.
  destruct (config ← candidate; _) as [[policy agents]|e|]; [|by split..].
  destruct (PersistentStore_reconcile_agents agents store) as [r store'] eqn:Hrec.
  pose proof (reconcile_cases _ _ _ _ _ Hs Hd Hrec) as (Hs' & Hr & Hv).
  assert (durable_at limits store') as Hd' by (by eapply (keeps_call limits (Reconcile agents) I store)).
  destruct r as [[]|e|]; [|split; [by split|]|done].
  - split; [by split|]. eexists. split; [|apply service_equiv_refl]. by constructor.
  - split; cbn; [done|by rewrite Hv].
Qed.

Lemma configuration_agents config files configured : read_configuration config files = Ok configured ->
  configured_agents files (cfg_agent_entries config) = Ok (cf_agents configured).
Proof.
  unfold read_configuration. intros (agents & -> & Hrun)%result_bind_Ok.
  apply result_bind_Ok in Hrun as (policy & _ & Hrun). apply result_bind_Ok in Hrun as (ed & _ & Hrun).
  by apply result_bind_Ok in Hrun as (x & _ & [= <-]).
Qed.

Lemma start_service config files disk v rng psk c : ready (resolve (cfg_limits config)) disk v ->
  cad_start config files disk rng = Ok (psk, c) ->
  cad_ok (resolve (cfg_limits config)) (cl_ca c) /\
  exists configured, read_configuration config files = Ok configured /\
    service_equiv (cf_ca configured, retain_view (list_to_map (cf_agents configured)) v) (service_of (cl_ca c)).
Proof.
  intros Hre. unfold cad_start. case_match; [done|].
  intros (broker & _ & Hrun)%result_bind_Ok. apply result_bind_Ok in Hrun as (store & Hopen & Hrun).
  apply map_err_Ok in Hopen. destruct (opened_within _ _ _ _ Hre Hopen) as (Hs & Hd & Hv).
  apply result_bind_Ok in Hrun as (agents & Hagents & Hrun).
  destruct (PersistentStore_reconcile_agents agents store) as [r store'] eqn:Hrec.
  pose proof (reconcile_cases _ _ _ _ _ Hs Hd Hrec) as (Hs' & _ & Hview).
  apply result_bind_Ok in Hrun as ([] & Hok & Hrun). apply map_err_Ok in Hok as ->.
  apply result_bind_Ok in Hrun as (policy & Hpolicy & Hrun).
  apply result_bind_Ok in Hrun as (ed & Hed & Hrun). apply result_bind_Ok in Hrun as (x & Hx & Hrun).
  injection Hrun as <- <-. split; [split; [exact Hs'|]|].
  - eapply (keeps_call _ (Reconcile agents) I store); [|exact Hrec|done]. split; [done|apply Hs].
  - exists (mkConfigured (with_policy (CaKeys_from_seeds ed x) (mkDynamic policy)) agents). split.
    + unfold read_configuration. by rewrite Hagents, bind_Ok, Hpolicy, bind_Ok, Hed, bind_Ok, Hx.
    + split; [done|]. cbn. by rewrite Hview, Hv.
Qed.

(** *** The life of cad, over restarts *)

(** It processes a request, reloads its configuration, or is killed and started again,
    from then on with these outcomes of the system calls. *)
Inductive CadEvent :=
| Processes (request : frame) (now : N)
| Reloads (candidate : result ConfigError Config) (files : Text -> option Text)
| Restarts (config : Config) (files : Text -> option Text) (faults : list Fault) (rng : Rng).

Definition cad_event (ev : CadEvent) (s : CaState) : result ConfigError CaState :=
  match ev with
  | Processes request now => Ok (handle request now s).2
  | Reloads candidate files => Ok (cad_reload candidate files s)
  | Restarts config files faults rng =>
      started ← cad_start config files (restart ProcessRestarts faults (ps_snapshot s.2.1)) rng;
      Ok (cl_ca started.2)
  end.

(** What the event should be to the service. *)
Definition event_label (ev : CadEvent) (s : CaState) : option ServiceLabel :=
  match ev with
  | Processes request now => Some (Answers request now (deliveries (handle request now s).1))
  | Reloads candidate files => reload_label candidate files s
  | Restarts config files _ _ =>
      match read_configuration config files with
      | Ok configured => Some (Configures (cf_ca configured) (cf_agents configured))
      | _ => None
      end
  end.

(** The events until a start fails. *)
Fixpoint cad_life (events : list CadEvent) (s : CaState) : result ConfigError (list ServiceLabel * CaState) :=
  match events with
  | [] => Ok ([], s)
  | ev :: events' =>
      s' ← cad_event ev s;
      rest ← cad_life events' s';
      Ok (option_list (event_label ev s) ++ rest.1, rest.2)
  end.

(** Restarts keep the limits of the store, and the disk then answers until the next. *)
Definition same_limits (limits : Limits) (ev : CadEvent) : Prop :=
  match ev with Restarts config _ faults _ => cfg_limits config = limits /\ Forall no_stop faults | _ => True end.

Lemma event_service limits ev s s' : same_limits limits ev -> cad_ok (resolve limits) s -> cad_event ev s = Ok s' ->
  cad_ok (resolve limits) s' /\
  service_does (lim_replay_ttl_seconds (resolve limits)) (service_of s) (event_label ev s) (service_of s').
Proof.
  intros Hlim Hs. destruct ev as [request now|candidate files|config files faults rng]; cbn [cad_event event_label].
  - destruct (handle request now s) as [r s1] eqn:Hrun. cbn [fst snd]. intros [= <-].
    destruct (handle_service _ _ _ _ _ _ Hs Hrun) as (Hs' & _ & Hstep). split; [done|]. by eexists.
  - intros [= <-]. by apply reload_service.
  - intros ([psk c] & Hstart & [= <-])%result_bind_Ok. destruct Hlim as [<- Hfaults]. cbn [snd].
    destruct Hs as [_ [Hd Hl]]. pose proof (durable_file _ Hd) as Hre. rewrite Hl in Hre.
    destruct (start_service _ _ _ _ _ _ _ (ready_process _ _ _ _ Hre Hfaults) Hstart)
      as (Hs' & configured & -> & Heq).
    split; [exact Hs'|]. eexists. split; [|exact Heq]. by constructor.
Qed.

Lemma life_service limits events : forall s labels s', Forall (same_limits limits) events ->
  cad_ok (resolve limits) s -> cad_life events s = Ok (labels, s') ->
  cad_ok (resolve limits) s' /\
  forall start before, service_run (lim_replay_ttl_seconds (resolve limits)) start before (service_of s) ->
    service_run (lim_replay_ttl_seconds (resolve limits)) start (before ++ labels) (service_of s').
Proof.
  induction events as [|ev events IH]; intros s labels s' Hok Hs; cbn [cad_life].
  { intros [= <- <-]. split; [done|]. intros start before. by rewrite app_nil_r. }
  apply Forall_cons in Hok as [Hev Hok].
  intros (s1 & Hrun & Hrest)%result_bind_Ok. apply result_bind_Ok in Hrest as ([labels' s2] & Hlife & Hrest).
  injection Hrest as <- <-. cbn [fst snd].
  destruct (event_service _ _ _ _ Hev Hs Hrun) as [Hs1 Hdoes].
  destruct (IH _ _ _ Hok Hs1 Hlife) as [Hs2 Hruns]. split; [done|]. intros start before Hbefore.
  rewrite app_assoc. apply Hruns. by eapply service_run_does.
Qed.
End cad.

(** ** Replay protection over restarts *)

Section replay.
Context `{HC : CryptoLaws} `{Hex}.

(** A configuration that takes effect has the agent, with this key. *)
Definition keeps_agent (a : AgentId) (k : PublicKeys) (ev : CadEvent) : Prop :=
  match ev with
  | Processes _ _ => True
  | Reloads candidate files => forall config agents, candidate = Ok config ->
      configured_agents files (cfg_agent_entries config) = Ok agents -> (list_to_map agents : gmap _ _) !! a = Some k
  | Restarts config files _ _ => forall agents,
      configured_agents files (cfg_agent_entries config) = Ok agents -> (list_to_map agents : gmap _ _) !! a = Some k
  end.

(** It happens before the session expires. *)
Definition happens_before (expires : N) (ev : CadEvent) : Prop :=
  match ev with Processes _ now => (now < expires)%N | _ => True end.

(** The agent is provisioned with the key, and the session is recorded. *)
Definition recorded (a : AgentId) (k : PublicKeys) (session : SessionId) (expires : N) (v : StoreView) : Prop :=
  view_keys v !! a = Some k /\ view_sessions v !! (a, session) = Some expires.

Lemma recorded_proper a k session expires v w : v ≡ w -> recorded a k session expires v -> recorded a k session expires w.
Proof. intros (Hk & _ & _ & Hs). unfold recorded. by rewrite Hk, Hs. Qed.

Lemma recorded_retain a k session expires v (agents : gmap AgentId PublicKeys) : agents !! a = Some k ->
  recorded a k session expires v -> recorded a k session expires (retain_view agents v).
Proof.
  intros Ha [Hk Hs]. split; [exact Ha|]. cbn. apply map_lookup_filter_Some. split; [done|]. cbn.
  unfold unchanged. rewrite Ha, Hk. by rewrite bool_decide_eq_true_2.
Qed.

Lemma event_recorded limits a k session expires ev s s' : same_limits limits ev -> keeps_agent a k ev ->
  happens_before expires ev -> cad_ok (resolve limits) s -> cad_event ev s = Ok s' ->
  recorded a k session expires (service_of s).2 -> recorded a k session expires (service_of s').2.
Proof.
  intros Hlim Hka Hb [Hs [Hd Hl]]. destruct ev as [request now|candidate files|config files faults rng]; cbn [cad_event].
  - destruct s as [ca [store g]]. cbn [handle CertificateAuthority_handler fst snd].
    destruct (process ca now (request, (store, g))) as [r [f' [store' g']]] eqn:Hrun. intros [= <-] [Hk Hr].
    destruct (process_confined_run (HL:=within_laws (resolve limits)) _ _ _ _ _ _ _ _ _ Hs Hrun) as (_ & _ & Hconf).
    split; [by rewrite <-Hk; apply (f_equal (.!! a)), (confined_keys _ _ _ _ _ _ Hconf)|].
    exact (confined_sessions _ _ _ _ _ _ Hconf _ _ Hr Hb).
  - intros [= <-] Hr. destruct (cad_reload_cases _ candidate files s Hs Hd) as (_ & _ & _ & Hcase).
    destruct Hcase as [[_ Hv]|(config & agents & policy & Hc & Ha & _ & _ & Hv)];
      (eapply recorded_proper; [symmetry; exact Hv|]); [done|]. apply recorded_retain; [|done]. by eapply Hka.
  - intros ([psk c] & Hstart & [= <-])%result_bind_Ok Hr. destruct Hlim as [<- Hfaults].
    pose proof (durable_file _ Hd) as Hre. rewrite Hl in Hre.
    destruct (start_service _ _ _ _ _ _ _ (ready_process _ _ _ _ Hre Hfaults) Hstart)
      as (_ & configured & Hconf & [_ Hv]).
    eapply recorded_proper; [exact Hv|]. apply recorded_retain; [|done]. apply Hka. by eapply configuration_agents.
Qed.

Lemma life_recorded limits a k session expires events : forall s labels s',
  Forall (fun ev => same_limits limits ev /\ keeps_agent a k ev /\ happens_before expires ev) events ->
  cad_ok (resolve limits) s -> cad_life events s = Ok (labels, s') ->
  recorded a k session expires (service_of s).2 ->
  cad_ok (resolve limits) s' /\ recorded a k session expires (service_of s').2.
Proof.
  induction events as [|ev events IH]; intros s labels s' Hok Hs; cbn [cad_life]; [by intros [= <- <-]|].
  apply Forall_cons in Hok as [(Hlim & Hka & Hb) Hok].
  intros (s1 & Hrun & Hrest)%result_bind_Ok Hr. apply result_bind_Ok in Hrest as ([labels' s2] & Hlife & [= <- <-]).
  destruct (event_service _ _ _ _ Hlim Hs Hrun) as [Hs1 _].
  eapply (IH s1); [exact Hok|exact Hs1|exact Hlife|].
  exact (event_recorded _ _ _ _ _ _ _ _ Hlim Hka Hb Hs Hrun Hr).
Qed.

(** A request of a session that is recorded and lives is refused, as a replay if nothing
    else is wrong with it, and changes nothing that is stored. *)
Lemma recorded_refused limits a k session expires (s : CaState) request e now : cad_ok limits s ->
  recorded a k session expires (service_of s).2 -> (now < expires)%N ->
  parse_envelope request = Ok e -> env_sender e = a -> env_session_id e = session ->
  exists x s', handle request now s = (Err x, s') /\ cad_ok limits s' /\
    (process_checks (view_keys (service_of s).2) request = Ok e -> x = Error.Replay) /\
    view_keys (service_of s').2 = view_keys (service_of s).2 /\
    view_environments (service_of s').2 = view_environments (service_of s).2 /\
    forall slot, view_stored (service_of s').2 slot = view_stored (service_of s).2 slot.
Proof.
  intros Hs [Hk Hr] Hnow Hparse Ha Hsession. pose proof Hs as [Hin _]. destruct s as [ca [store g]].
  destruct (process_live_session (HL:=within_laws limits) ca now request store g e Hin Hparse)
    as (x & store' & Hrun & Hx & _ & Hkeys & Henv & Hst).
  { exists expires. rewrite Ha, Hsession. by apply map_lookup_filter_Some. }
  assert (handle request now (ca, (store, g)) = (Err x, (ca, (store', g)))) as Hh.
  { cbn [handle CertificateAuthority_handler fst snd]. by rewrite Hrun. }
  exists x, (ca, (store', g)). split; [exact Hh|]. split; [by eapply handle_service|].
  split; [exact Hx|]. split; [exact Hkeys|]. split; [exact Henv|exact Hst].
Qed.

(** An accepted request is recorded, and its signature stays valid. *)
Lemma accepted_recorded limits (s : CaState) request now res s' : cad_ok limits s ->
  handle request now s = (Ok res, s') ->
  exists e k, parse_envelope request = Ok e /\ view_keys (service_of s).2 !! env_sender e = Some k /\
    recorded (env_sender e) k (env_session_id e) (saturating_add now (lim_replay_ttl_seconds limits)) (service_of s').2 /\
    forall v, view_keys v !! env_sender e = Some k -> process_checks (view_keys v) request = Ok e.
Proof.
  intros Hs Hrun. destruct (handle_service _ _ _ _ _ _ Hs Hrun) as (_ & _ & Hstep).
  destruct s as [ca [store g]]. destruct Hs as [Hin [Hd Hl]]. cbn [handle CertificateAuthority_handler fst snd] in Hrun.
  destruct (process_spec (HL:=within_laws limits) ca now request store g Hin) as (r0 & f' & store' & g' & Hp & Hin' & Hr).
  pose proof (process_confined_run (HL:=within_laws limits) _ _ _ _ _ _ _ _ _ Hin Hp) as (_ & _ & Hconf).
  rewrite Hp in Hrun. injection Hrun as -> <-. destruct Hr as (e & pt & (Hchk & _) & Heff).
  assert (store_ttl (CaStoreLaws:=within_laws limits) store = lim_replay_ttl_seconds limits) as Httl.
  { rewrite <-Hl. exact (sok_ttl _ _ (durable_ok _ Hd)). }
  rewrite Httl in Heff.
  apply process_checks_Ok in Hchk as (Hparse & Hrec & Hsend & Hmt & k & Hk & Hvalid & Hsig).
  exists e, k. split; [done|]. split; [exact Hk|]. split.
  - split; [|by eapply authenticated_marked]. rewrite <-Hk.
    apply (f_equal (.!! env_sender e)), (confined_keys _ _ _ _ _ _ Hconf).
  - intros v Hv. apply process_checks_Ok. do 4 (split; [done|]). by exists k.
Qed.
End replay.

(** ** The properties *)

(** C9: cad is a publish/subscribe service whose state survives it. Start cad on a disk
    whose snapshot a store wrote, let it process requests, reload its configuration, and
    be killed and started again between them, in any order. What happens is then exactly
    this run of the abstract service: from the CA and the agents that the configuration
    and its files say, with what the disk held for those agents; a step for every request,
    with what it is answered; a step for every start, to the CA and the agents its
    configuration says, that keeps all that is stored for them; a step for every reload
    that can be read and is acknowledged by the store, to the policy and the agents it
    says; and no other. And the file on the disk is always such that another start resumes
    from exactly the view the service is in: after a kill, and after a stop of the machine
    too if the last sync of the directory has worked. *)
Theorem cad_refines_service `{HC : CryptoLaws} `{Hex} config files disk v rng psk c events labels s' :
  ready (resolve (cfg_limits config)) disk v ->
  cad_start config files disk rng = Ok (psk, c) ->
  Forall (same_limits (cfg_limits config)) events ->
  cad_life events (cl_ca c) = Ok (labels, s') ->
  (exists configured, read_configuration config files = Ok configured /\
     service_run (lim_replay_ttl_seconds (resolve (cfg_limits config)))
       (cf_ca configured, retain_view (list_to_map (cf_agents configured)) v) labels (service_of s')) /\
  forall how faults, how = ProcessRestarts \/ disk_former (ps_snapshot s'.2.1) = [] ->
    reopens (resolve (cfg_limits config)) (restart how faults (ps_snapshot s'.2.1)) (persistent_view s'.2.1).
Proof.
  intros Hre Hstart Hok Hlife.
  destruct (start_service _ _ _ _ _ _ _ Hre Hstart) as (Hs & configured & Hconf & Heq).
  destruct (life_service _ _ _ _ _ Hok Hs Hlife) as [[_ [Hd Hl]] Hrun]. split.
  - exists configured. split; [done|]. apply (Hrun _ []). by constructor.
  - intros how faults Hhow. pose proof (durable_file _ Hd) as Hfile. rewrite Hl in Hfile.
    destruct Hhow as [->|Hnil]; [exact Hfile|].
    destruct (restart_reopens _ _ _ (fun _ => False) how faults Hfile) as (w & Hw & [->|([] & _)]); [|done].
    unfold former_in. rewrite Hnil. constructor.
Qed.

(** C10: A restart opens no window for replays. Once cad has accepted a request, whatever it
    then processes, reloads, and however often it is killed and started again from its
    disk, as long as its restarts keep the configured limits (and so the lifetime of a
    session), the configurations keep the sender with its key, and the session has not
    expired: the same request is refused as a replay, and so is any other of the same
    sender and session; what is stored does not change. A stop of the machine is not
    among these restarts: see the durability of the store. *)
Theorem replays_refused_across_restarts `{HC : CryptoLaws} `{Hex} limits (s : CaState) request e now res s1
    events labels s2 now' :
  cad_ok (resolve limits) s -> handle request now s = (Ok res, s1) -> parse_envelope request = Ok e ->
  let expires := saturating_add now (lim_replay_ttl_seconds (resolve limits)) in
  Forall (fun ev => same_limits limits ev /\ happens_before expires ev /\
    forall k, view_keys (service_of s).2 !! env_sender e = Some k -> keeps_agent (env_sender e) k ev) events ->
  cad_life events s1 = Ok (labels, s2) -> (now' < expires)%N ->
  (exists s3, handle request now' s2 = (Err Error.Replay, s3)) /\
  forall request' e', parse_envelope request' = Ok e' -> env_sender e' = env_sender e ->
    env_session_id e' = env_session_id e ->
    exists x s3, handle request' now' s2 = (Err x, s3) /\
      view_keys (service_of s3).2 = view_keys (service_of s2).2 /\
      view_environments (service_of s3).2 = view_environments (service_of s2).2 /\
      forall slot, view_stored (service_of s3).2 slot = view_stored (service_of s2).2 slot.
Proof.
  intros Hs Hrun Hparse expires Hok Hlife Hnow.
  destruct (handle_service _ _ _ _ _ _ Hs Hrun) as (Hs1 & _ & _).
  destruct (accepted_recorded _ _ _ _ _ _ Hs Hrun) as (e0 & k & Hparse0 & Hold & Hrec & Hchk).
  rewrite Hparse in Hparse0. injection Hparse0 as <-.
  destruct (life_recorded limits (env_sender e) k (env_session_id e) expires events s1 labels s2) as [Hs2 Hrec2];
    [|done..|].
  { eapply Forall_impl; [exact Hok|]. intros ev (? & ? & Hkeep). split; [done|]. split; [by apply Hkeep|done]. }
  split.
  - destruct (recorded_refused _ _ _ _ _ _ _ _ _ Hs2 Hrec2 Hnow Hparse eq_refl eq_refl) as (x & s3 & Hrun3 & _ & Hx & _).
    rewrite Hx in Hrun3 by by apply Hchk, Hrec2. by exists s3.
  - intros request' e' Hparse' Hsend Hsess.
    destruct (recorded_refused _ _ _ _ _ _ _ _ _ Hs2 Hrec2 Hnow Hparse' Hsend Hsess) as (x & s3 & Hrun3 & _ & _ & Hrest).
    by exists x, s3.
Qed.

(** A CA with the configured agents Alice and Bob: they set their environments, Bob
    subscribes, and Alice publishes to him. *)
Module SpecExample.
#[local] Existing Instance Toy.crypto.

Abbreviation alice := PolicyExample.alice.
Abbreviation bob := PolicyExample.bob.
Definition handler := mkHandlerId (vreplicate 16 x0a).
Definition config : Config := mkConfig ServiceExample.path ServiceExample.path ServiceExample.path 5 10 2 2 8
  (mkConfiguredLimits (Some 3) (Some 3) (Some 2) (Some 8) None) [ServiceExample.entry x31; ServiceExample.entry x32]
  ConfigExample.config 2.
Definition secret : array 32 := ServiceExample.secret.
Definition id (n : N) : MessageId := LinkStreamsExample.id n.
Definition started : result ConfigError (array 32 * CaLink CaState) :=
  cad_start (H:=Toy.crypto) config ServiceExample.files ServiceExample.disk 0%N.

(** Everyone holds the keys of [ServiceExample.files]. *)
Definition sealed (mt : MessageType) (a : AgentId) (h : HandlerId) (session : byte) (op : Operation) : frame :=
  Toy.frame x07 x07 mt a AgentId_CA h session (Operation.wire op).
Definition bob_sets := sealed MessageType.SetEnvironment bob HandlerId_NONE x02 (Operation.SetEnvironment PolicyExample.bob_env).
Definition bob_subscribes := sealed MessageType.Subscribe bob handler x03 (Operation.Subscribe PolicyExample.temperature []).
Definition alice_sets := sealed MessageType.SetEnvironment alice HandlerId_NONE x02 (Operation.SetEnvironment PolicyExample.alice_env).
Definition alice_publishes := sealed MessageType.Publish alice HandlerId_NONE x03
  (Operation.Publish PolicyExample.temperature [] [x2a]).

(** The delivery, as a CA that handles the requests makes it. *)
Definition delivery : frame :=
  match started with
  | Ok (_, c) =>
      let after := foldl (fun s request => (handle (RequestHandler:=CertificateAuthority_handler (H:=Toy.crypto)) request 7 s).2)
        (cl_ca c) [bob_sets; bob_subscribes; alice_sets] in
      match (handle (RequestHandler:=CertificateAuthority_handler (H:=Toy.crypto)) alice_publishes 7 after).1 with
      | Ok (ProcessResult.Deliveries (f :: _)) => f
      | _ => []
      end
  | _ => []
  end.

Lemma cad_starts : exists psk c, started = Ok (psk, c).
Proof.
  assert (is_ok started = true) as H by (vm_compute; reflexivity).
  destruct started as [[psk c]|e|]; [by exists psk, c|discriminate H..].
Qed.

(** The CA is killed after Bob's subscription. *)
Definition restarts : CadEvent := Restarts config ServiceExample.files [] 5%N.
Definition events : list CadEvent :=
  [Processes bob_sets 7; Processes bob_subscribes 7; restarts; Processes alice_sets 7; Processes alice_publishes 7].

Abbreviation life := (cad_life (H:=Toy.crypto)).

(** How many frames a request is answered with; a restart is none. *)
Definition told (label : ServiceLabel) : option nat :=
  match label with Answers _ _ frames => Some (length frames) | Configures _ _ => None end.

Lemma started_lives : match started with
  | Ok (_, c) => match life events (cl_ca c) with
                 | Ok (labels, _) => told <$> labels = [Some 0; Some 0; None; Some 0; Some 1]
                 | _ => False
                 end
  | _ => False
  end.
Proof. vm_compute. reflexivity. Qed.

Lemma lives psk c : started = Ok (psk, c) -> exists labels s', life events (cl_ca c) = Ok (labels, s') /\
  told <$> labels = [Some 0; Some 0; None; Some 0; Some 1].
Proof.
  pose proof started_lives as Hlives. intros Hs. rewrite Hs in Hlives.
  destruct (life events (cl_ca c)) as [[labels s']|e|]; [|destruct Hlives..].
  exists labels, s'. split; [reflexivity|exact Hlives].
Qed.

Lemma disk_ready : ready (resolve (cfg_limits config)) ServiceExample.disk (state_view (state_empty (resolve (cfg_limits config)))).
Proof. by apply ready_empty. Qed.

Lemma started_ok psk c : started = Ok (psk, c) -> cad_ok (resolve (cfg_limits config)) (cl_ca c).
Proof. intros Hs. exact (proj1 (start_service _ _ _ _ _ _ _ disk_ready Hs)). Qed.

(** Bob's subscription, a restart, and the subscription again. *)
Lemma started_replays : match started with
  | Ok (_, c) =>
      match handle (RequestHandler:=CertificateAuthority_handler (H:=Toy.crypto)) bob_sets 7 (cl_ca c) with
      | (Ok ProcessResult.Accepted, s1) => is_ok (life [restarts; Processes alice_sets 8] s1)
      | _ => false
      end
  | _ => false
  end = true.
Proof. vm_compute. reflexivity. Qed.

Lemma configured_both agents : configured_agents ServiceExample.files (cfg_agent_entries config) = Ok agents ->
  (list_to_map agents : gmap AgentId PublicKeys) !! bob = Some (mkPublicKeys (vreplicate 32 x07) (vreplicate 32 x07)).
Proof.
  assert (match configured_agents ServiceExample.files (cfg_agent_entries config) with
    | Ok agents => bool_decide ((list_to_map agents : gmap AgentId PublicKeys) !! bob =
        Some (mkPublicKeys (vreplicate 32 x07) (vreplicate 32 x07))) | _ => true end = true) as H
    by (vm_compute; reflexivity).
  intros Ha. rewrite Ha in H. by apply bool_decide_eq_true in H.
Qed.

Lemma bob_key psk c : started = Ok (psk, c) ->
  view_keys (service_of (cl_ca c)).2 !! bob = Some (mkPublicKeys (vreplicate 32 x07) (vreplicate 32 x07)).
Proof.
  intros Hs. destruct (start_service _ _ _ _ _ _ _ disk_ready Hs)
    as (_ & configured & Ha%configuration_agents & [_ (Hk & _)]).
  cbn [snd] in Hk. rewrite <-Hk. by apply configured_both.
Qed.

Lemma bob_parses : exists e, parse_envelope bob_sets = Ok e /\ env_sender e = bob.
Proof.
  assert (match parse_envelope bob_sets with Ok e => bool_decide (env_sender e = bob) | _ => false end = true) as H
    by (vm_compute; reflexivity).
  destruct (parse_envelope bob_sets) as [e|x|]; [|done..]. exists e. by apply bool_decide_eq_true in H.
Qed.
End SpecExample.

Lemma cad_refines_service_witness :
  exists psk c (labels : list ServiceLabel) s', SpecExample.started = Ok (psk, c) /\
    SpecExample.told <$> labels = [Some 0; Some 0; None; Some 0; Some 1] /\
    reopens (resolve (cfg_limits SpecExample.config)) (restart ProcessRestarts [] (ps_snapshot s'.2.1))
      (persistent_view s'.2.1) /\
    exists configured, service_run (H:=Toy.crypto) (lim_replay_ttl_seconds (resolve (cfg_limits SpecExample.config)))
      (cf_ca configured, retain_view (list_to_map (cf_agents configured))
         (state_view (state_empty (resolve (cfg_limits SpecExample.config))))) labels (service_of (H:=Toy.crypto) s').
Proof.
  destruct SpecExample.cad_starts as (psk & c & Hstart).
  destruct (SpecExample.lives _ _ Hstart) as (labels & s' & Hlife & Hl).
  exists psk, c, labels, s'. split; [exact Hstart|]. split; [exact Hl|].
  destruct (cad_refines_service (HC:=Toy.laws) SpecExample.config ServiceExample.files ServiceExample.disk _ 0%N
    psk c SpecExample.events labels s' SpecExample.disk_ready Hstart) as [(configured & _ & Hrun) Hre].
  - repeat (apply Forall_cons; split; [exact I || exact (conj eq_refl (Forall_nil_2 _))|]). by apply Forall_nil.
  - exact Hlife.
  - split; [apply Hre; by left|]. by exists configured.
Defined.

Lemma replays_refused_across_restarts_witness :
  exists psk c (s1 s2 s3 : CertificateAuthority DynamicEnvironmentPolicy * (PersistentStore * Rng (Crypto:=Toy.crypto))),
    SpecExample.started = Ok (psk, c) /\
    handle (RequestHandler:=CertificateAuthority_handler (H:=Toy.crypto)) SpecExample.bob_sets 7 (cl_ca c)
      = (Ok ProcessResult.Accepted, s1) /\
    handle (RequestHandler:=CertificateAuthority_handler (H:=Toy.crypto)) SpecExample.bob_sets 9 s2
      = (Err Error.Replay, s3).
Proof.
  destruct SpecExample.cad_starts as (psk & c & Hstart). pose proof SpecExample.started_replays as Hrun.
  pose proof (SpecExample.bob_key _ _ Hstart) as Hkey. pose proof (SpecExample.started_ok _ _ Hstart) as Hok.
  rewrite Hstart in Hrun. destruct SpecExample.bob_parses as (e & Hparse & Hbob). rewrite <-Hbob in Hkey.
  destruct (handle SpecExample.bob_sets 7%N (cl_ca c)) as [[[|ds]|x|] s1] eqn:Hhandle; [|discriminate Hrun..].
  destruct (SpecExample.life _ s1) as [[labels s2]|x|] eqn:Hlife; [|discriminate Hrun..].
  destruct (replays_refused_across_restarts (HC:=Toy.laws) (cfg_limits SpecExample.config) (cl_ca c)
    SpecExample.bob_sets e 7%N ProcessResult.Accepted s1 [SpecExample.restarts; Processes SpecExample.alice_sets 8]
    labels s2 9%N Hok Hhandle Hparse)
    as [[s3 Hrefused] _]; [|exact Hlife|reflexivity|].
  - repeat (apply Forall_cons; split; [split; [exact I || exact (conj eq_refl (Forall_nil_2 _))|]; split; [exact I || exact eq_refl|]|]);
      [| |by apply Forall_nil]; intros k Hk; [|exact I].
    rewrite Hkey in Hk. injection Hk as <-. intros agents Ha. rewrite Hbob. by apply SpecExample.configured_both.
  - exists psk, c, s1, s2, s3. split; [exact Hstart|]. split; [exact Hhandle|exact Hrefused].
Defined.
