(* ===== verification/Deployment.v ===== *)
(** Both daemons put together: brokerd, whose agent sockets and link to the CA share one
    router, and cad; from a request on the socket of an agent to the deliveries on the
    sockets of others. *)

From stdpp Require Import functions.
From S2P Require Export BrokerDaemon LinkStreams ServiceSpec.
From S2P Require Export Link.

Section deployment.
Context {Ch St E Sl El S : Type} `{Mpsc Ch, TokioFramed St E, RequestHandler S, TokioFramed Sl El, Sha256}.
Context (args : Args) (link : CaLinkConfig) (cad_psk : array 32) (auth_deadline cad_io_deadline : N).

(** The router as the link uses it, within the daemon. *)
#[export] Instance daemon_router : DeliveryRouter (Daemon Ch St) := {
  next_request d :=
    ((mpsc_try_recv (rt_ca_channel (bk_router (dm_broker d)))).1,
     with_broker (broker_step CaTakes (dm_broker d)) d);
  deliver f d :=
    let '(accepted, b) := broker_deliver f (dm_broker d) in (accepted, with_broker b d);
}.

(** It accepts deliveries while every agent has room. *)
#[export] Instance daemon_accepts `{!MpscLaws Ch} :
  AcceptingRouter (Daemon Ch St) ca_delivery (fun n d => broker_room n (bk_router (dm_broker d))).
Proof.
  split; [|intros n d; apply room_less]. intros n f d Hr Hf. cbn [deliver daemon_router].
  destruct (broker_deliver_room n f (dm_broker d) Hr Hf) as [Hok Hr'].
  destruct (broker_deliver f (dm_broker d)) as [ok b]. cbn [fst snd] in *. rewrite Hok. by eexists.
Qed.

(** The daemons, and the requests accepted from agents so far, with the agent of the
    socket. *)
Record Deployment := mkDeployment {
  dp_streams : StreamSystem (Daemon Ch St) S Sl;
  dp_requests : list (AgentId * frame);
}.

Definition dp_daemon (w : Deployment) : Daemon Ch St := bl_router (ss_broker (dp_streams w)).

Inductive DeploymentStep :=
| AgentsDo (st : DaemonStep St)
| LinkDoes (st : StreamStep (Daemon Ch St) S Sl).

(** The request a step of the daemon accepts. *)
Definition accepted_request (st : DaemonStep St) (d : Daemon Ch St) : list (AgentId * frame) :=
  match st with
  | ReadReady id =>
      match s ← dm_sockets d !! id; Some (framed_next (io_deadline args) s) with
      | Some (Ok (Some bytes), _) =>
          if is_ok (route_agent_request id bytes (bk_router (dm_broker d))).1 then [(id, bytes)] else []
      | _ => []
      end
  | _ => []
  end.

Definition link_step_of (st : DeploymentStep) (w : Deployment) : StreamStep (Daemon Ch St) S Sl :=
  match st with
  | AgentsDo st => RouterMoves (daemon_step args st (dp_daemon w))
  | LinkDoes st => st
  end.

Definition deployment_step (st : DeploymentStep) (w : Deployment) : Deployment :=
  mkDeployment
    (stream_step link cad_psk auth_deadline cad_io_deadline (link_step_of st w) (dp_streams w))
    (dp_requests w ++ match st with AgentsDo st => accepted_request st (dp_daemon w) | LinkDoes _ => [] end).

Definition deployment_run (steps : list DeploymentStep) (w : Deployment) : Deployment :=
  foldl (fun w st => deployment_step st w) w steps.

Definition deployment_start (ca : CaLink S) : Deployment :=
  mkDeployment (stream_init (maintain_ca_link_init (brokerd_start args) (lc_pending_depth link) (lc_dedup_depth link)) ca) [].

(** The steps of the agents are those of their sockets; the link takes requests and
    routes deliveries itself. A delivery of the link that is to be stored offline may be
    looked up some steps of the agents earlier. *)
Definition agent_side (st : DaemonStep St) : bool :=
  match st with LinkDelivers _ | LinkTakes => false | _ => true end.
Definition link_side (st : StreamStep (Daemon Ch St) S Sl) : bool :=
  match st with RouterMoves _ => false | _ => true end.

(** The identifiers drawn in a step. *)
Definition deployment_drawn (st : DeploymentStep) : list MessageId :=
  match st with LinkDoes st => stream_drawn st | AgentsDo _ => [] end.

(** A run as one of the link. *)
Fixpoint link_steps (steps : list DeploymentStep) (w : Deployment) : list (StreamStep (Daemon Ch St) S Sl) :=
  match steps with
  | [] => []
  | st :: steps' => link_step_of st w :: link_steps steps' (deployment_step st w)
  end.
End deployment.
Arguments Deployment : clear implicits.
Arguments DeploymentStep : clear implicits.

(** ** What a run tells *)

(** The deliveries routed to an agent, and the requests taken from the queue, in order:
    those sent to the CA and those dropped. *)
Definition routed_to (id : AgentId) (log : list LinkEvent) : list frame :=
  omap (fun e => match e with
    | Routed _ f => if bool_decide (recipient_of f = Some id) then Some f else None
    | _ => None
    end) log.
Definition taken_requests (log : list LinkEvent) : list frame :=
  omap (fun e => match e with Taken _ f | Dropped f => Some f | _ => None end) log.

Lemma routed_to_app id log log' : routed_to id (log ++ log') = routed_to id log ++ routed_to id log'.
Proof. apply omap_app. Qed.
Lemma taken_requests_app log log' : taken_requests (log ++ log') = taken_requests log ++ taken_requests log'.
Proof. apply omap_app. Qed.

(** ** The channel of requests *)

Section channel.
Context {Ch : Type} `{HM : MpscLaws Ch}.
Implicit Types (r : BrokerRouter Ch MemoryOfflineQueueStore) (b : Broker Ch MemoryOfflineQueueStore).

Definition requests_queued b : list frame := mpsc_queue (rt_ca_channel (bk_router b)).

Lemma try_recv_ca reg r : rt_ca_channel (try_recv reg r).2 = rt_ca_channel r.
Proof.
  unfold try_recv, channel_try_recv. destruct (reg_pending reg); [|done].
  destruct (rt_channels r !! reg_receiver reg) as [ch|]; [|done]. by destruct (mpsc_try_recv ch).
Qed.

Lemma drain_ca fuel : forall acc reg r, rt_ca_channel (drain fuel acc reg r).2 = rt_ca_channel r.
Proof.
  induction fuel as [|fuel IH]; intros acc reg r; [done|]. cbn [drain].
  pose proof (try_recv_ca reg r) as Hr. destruct (try_recv reg r) as [[[f|] reg'] r']; [|done].
  cbn in Hr. by rewrite IH.
Qed.

Lemma disconnect_ca reg first r : rt_ca_channel (disconnect_and_requeue reg first r).2 = rt_ca_channel r.
Proof.
  unfold disconnect_and_requeue. destruct (negb _); [done|].
  set (r1 := set_connections _ _). pose proof (drain_ca (drain_fuel reg r1)
    (match first with Some f => [f] | None => [] end) reg r1) as Hd.
  destruct (drain _ _ _ _) as [[unsent reg'] r']. cbn in Hd. by destruct (oq_prepend _ _ _).
Qed.

Lemma close_task_ca id t undelivered b :
  rt_ca_channel (bk_router (close_task id t undelivered b)) = rt_ca_channel (bk_router b).
Proof.
  unfold close_task. pose proof (disconnect_ca (task_registration t) undelivered (bk_router b)) as Hd.
  by destruct (disconnect_and_requeue _ _ _).
Qed.

(** What was accepted for an agent stays so. *)
Definition accepted b (id : AgentId) : list frame := lg_accepted (bk_ledger b id).

Lemma close_task_accepted id t undelivered b id' : accepted (close_task id t undelivered b) id' = accepted b id'.
Proof.
  unfold close_task, accepted. destruct (disconnect_and_requeue _ _ _) as [[]]; cbn; [done|..];
    (destruct (decide (id = id')) as [<-|Hne]; [by rewrite fn_lookup_insert|by rewrite fn_lookup_insert_ne]).
Qed.

(** The events of the agents, but requests. *)
Definition quiet_event (e : Event) : Prop :=
  match e with Hello _ | Take _ | Written _ | Close _ => True | _ => False end.

Lemma quiet_effect e b : quiet_event e -> requests_queued (broker_step e b) = requests_queued b /\
  forall id, accepted (broker_step e b) id = accepted b id.
Proof.
  destruct e as [id|f|k|id|id|id f|id|]; intros []; unfold requests_queued; cbn [broker_step].
  - destruct (register id (bk_router b)) as [res r'] eqn:Hreg. apply register_run in Hreg.
    destruct res as [reg|e|]; [|destruct Hreg as (-> & _); done|done].
    destruct Hreg as (_ & _ & _ & _ & pending & q & _ & _ & ->). done.
  - destruct (bk_tasks b !! id) as [[reg [f|]]|]; [done| |done].
    pose proof (try_recv_ca reg (bk_router b)) as Hr. destruct (try_recv reg (bk_router b)) as [[f reg'] r'].
    cbn in *. by rewrite Hr.
  - by destruct (bk_tasks b !! id) as [[reg [f|]]|].
  - destruct (bk_tasks b !! id) as [t|]; [|done]. rewrite close_task_ca. split; [done|].
    intros id'. apply close_task_accepted.
Qed.

(** Deliveries leave the requests alone. *)
Lemma locked_ca f r : rt_ca_channel (route_ca_delivery_locked f r).2 = rt_ca_channel r.
Proof.
  unfold route_ca_delivery_locked. destruct (parse_envelope f) as [e|x|]; cbn [map_err]; autorewrite with rust;
    [|done..]. case_match; [done|]. autorewrite with rust.
  destruct (rt_connections r !! env_recipient e) as [c|]; [|done].
  autorewrite with rust. destruct (rt_channels r !! conn_sender c) as [ch|]; autorewrite with rust; [|done].
  by destruct (mpsc_try_send f ch) as [[] ch']; autorewrite with rust.
Qed.

Lemma route_queued e b : match e with Deliver _ | Stores _ => True | _ => False end ->
  requests_queued (broker_step e b) = requests_queued b.
Proof.
  destruct e as [id|f|k|id|id|id f|id|]; intros []; unfold requests_queued; cbn [broker_step].
  - pose proof (locked_ca f (bk_router b)) as Hr.
    destruct (route_ca_delivery_locked f (bk_router b)) as [[[]| |] r]; cbn in *; by rewrite Hr.
  - destruct (bk_storing b !! k) as [[id f]|]; [|done]. unfold offline_enqueue, zoom.
    by destruct (oq_enqueue _ _ _) as [[] q].
Qed.

Lemma deliver_queued f b : requests_queued (broker_deliver f b).2 = requests_queued b.
Proof.
  unfold broker_deliver, delivery_events. cbn [snd]. destruct (looked_up f b); [by apply (route_queued (Stores 0))|].
  destruct (route_ca_delivery_locked f (bk_router b)).1 as [[]| |]; cbn [broker_run foldl];
    by rewrite ?(route_queued (Stores _)), ?(route_queued (Deliver f)).
Qed.

Lemma deliver_accepted f b id : broker_inv b -> accepted (broker_deliver f b).2 id =
  accepted b id ++ (if (broker_deliver f b).1 && bool_decide (recipient_of f = Some id) then [f] else []).
Proof.
  intros [_ [_ Hst]]. unfold accepted. rewrite delivery_accepted by done.
  assert (recipient_of f = env_recipient <$> result_ok (parse_envelope f)) as ->; [|done].
  unfold recipient_of. by destruct (parse_envelope f).
Qed.

(** A look-up changes neither. *)
Lemma look_up_effect f b : requests_queued (broker_look_up f b) = requests_queued b /\
  forall id, accepted (broker_look_up f b) id = accepted b id.
Proof.
  unfold broker_look_up. pose proof (route_queued (Deliver f) b I) as Hq.
  destruct (route_ca_delivery_locked f (bk_router b)).1 as [[rest|]| |] eqn:Hrun; [|done..].
  split; [done|]. intros id. unfold accepted. cbn [broker_step].
  destruct (route_ca_delivery_locked f (bk_router b)) as [res r]. cbn in Hrun. by subst res.
Qed.

Lemma takes_queued b :
  requests_queued b = option_list (mpsc_try_recv (rt_ca_channel (bk_router b))).1
    ++ requests_queued (broker_step CaTakes b).
Proof.
  unfold requests_queued. cbn [broker_step bk_router rt_ca_channel set_ca_channel].
  destruct (mpsc_try_recv _) as [res ch] eqn:Hrecv. apply mpsc_try_recv_spec in Hrecv as (_ & _ & Hq).
  cbn [fst snd]. by destruct (mpsc_queue (rt_ca_channel (bk_router b))); injection Hq as -> ->.
Qed.

Lemma request_effect_queued id f reg b : bk_tasks b !! id = Some (mkTask reg None) ->
  let ok := is_ok (route_agent_request id f (bk_router b)).1 in
  requests_queued (broker_step (Request id f) b) = requests_queued b ++ (if ok then [f] else []) /\
  (forall id', accepted (broker_step (Request id f) b) id' = accepted b id') /\
  (ok = true -> exists e, parse_envelope f = Ok e /\ request_ok id e).
Proof.
  intros Ht. cbn [broker_step]. rewrite Ht. unfold requests_queued.
  pose proof (agent_request_routing id f (bk_router b)) as Hroute. cbn zeta in Hroute.
  destruct (route_agent_request id f (bk_router b)) as [res r'].
  destruct Hroute as (Hok & Hq & _ & Hp). destruct res as [[]|x|]; [| |done]; cbn [fst is_ok] in *.
  - split; [done|]. split; [done|]. intros _. destruct Hok as [Hok _].
    destruct (Hok eq_refl) as (e & ? & ? & _). by exists e.
  - rewrite close_task_ca. split; [done|]. split; [|done]. intros id'.
    apply (close_task_accepted id _ None (mkBroker r' (bk_tasks b) (bk_storing b) (bk_ledger b) (bk_written b))).
Qed.
End channel.

(** ** The events of the link *)

Section link_events.
Context {R S : Type} `{DeliveryRouter R, RequestHandler S}.

Lemma broker_request_events id (b : BrokerLink R) x b' : broker_request id b = (x, b') ->
  (bl_router b' = bl_router b /\ events x = []) \/
  bl_router b' = (next_request (bl_router b)).2 /\ (forall i, routed_to i (events x) = []) /\
    taken_requests (events x) = option_list (next_request (bl_router b)).1.
Proof.
  unfold broker_request. destruct (_ && _); [|intros [= <- <-]; by left].
  destruct (next_request (bl_router b)) as [[request|] router]; cbn [fst snd option_list];
    [|intros [= <- <-]; by right].
  intros Hrun. right. revert Hrun.
  destruct id as [id|]; [|by intros [= <- <-]].
  destruct (encode FrameKind.Request id request) as [encoded|e|]; [|by intros [= <- <-]..].
  by destruct (pending_insert id encoded (bl_pending b)) as [[[]|e|] pending]; intros [= <- <-].
Qed.

(** What cad does says nothing of what the broker did. *)
Definition cad_events (log : list LinkEvent) : Prop :=
  (forall id, routed_to id log = []) /\ taken_requests log = [].

Lemma cad_incoming_events bytes now ids (c : CaLink S) : cad_events (events (cad_incoming bytes now ids c).1).
Proof.
  unfold cad_incoming. destruct (decode bytes) as [f|e|]; [|done..]. destruct (link_kind f); [|done| |done..].
  - case_bool_decide; [done|]. destruct (dedup_contains _ _); [cbn; by rewrite acknowledge_events|].
    case_bool_decide; [|done]. unfold cad_request.
    destruct (handle (link_payload f) now (cl_ca c)) as [[[|deliveries]|e|] s]; [by rewrite finish_request_events| |
      by rewrite finish_request_events|done].
    case_match; [done|]. destruct (encode_deliveries _ _ _) as [[[encoded acquired]|e|] pending]; [|done..].
    destruct encoded; [by rewrite finish_request_events|]. by destruct (dedup_insert _ _) as [[[]|e|] ?].
  - destruct (cl_current c); [|done]. destruct (pending_is_empty _); [|done]. cbn. by rewrite acknowledge_events.
Qed.
End link_events.

(** ** Invariant *)

Section invariant.
Context {Ch St E Sl El S : Type} `{HM : MpscLaws Ch} `{HF : TokioFramedLaws St E} `{RequestHandler S}
  `{TokioFramed Sl El} `{Sha256}.
Context (args : Args) (link : CaLinkConfig) (cad_psk : array 32) (auth_deadline cad_io_deadline : N).
Implicit Types (d : Daemon Ch St) (w : Deployment Ch St Sl S) (x : StreamSystem (Daemon Ch St) S Sl).

Abbreviation pending_handshakes := (arg_max_pending_handshakes args).

(** [DuplicateConnection] and the like aside, a step of the agents' side. *)
Lemma agent_step_effect st d : daemon_inv pending_handshakes d -> agent_side st = true ->
  let d' := daemon_step args st d in
  requests_queued (dm_broker d') = requests_queued (dm_broker d) ++ (accepted_request args st d).*2 /\
  (forall id, accepted (dm_broker d') id = accepted (dm_broker d) id) /\
  Forall (fun r => exists e, parse_envelope r.2 = Ok e /\ request_ok r.1 e) (accepted_request args st d).
Proof.
  intros Hd Hst. destruct st as [peer s|peer|id|id|f|f|]; cbn [agent_side] in Hst; [..|done|done];
    cbn [daemon_step accepted_request fmap list_fmap]; rewrite ?app_nil_r.
  - unfold accept_step. by destruct (dm_permits d), (dm_handshakes d !! peer).
  - unfold hello_step. destruct (dm_handshakes d !! peer) as [t|]; [|done].
    destruct (receive_hello t) as [[id|e|] t']; [|done..].
    destruct (quiet_effect (Hello id) (dm_broker d) I) as [Hq Ha]. by case_match.
  - unfold send_step. destruct (dm_sockets d !! id) as [s|]; [|done].
    destruct (quiet_effect (Take id) (dm_broker d) I) as [Hq Ha]. set (b := broker_step (Take id) _) in *.
    destruct (_ ≫= _) as [f|]; [|done].
    destruct (framed_send _ f s) as [[[]|e|] s'].
    1: pose proof (quiet_effect (Written id) b I) as [Hq' Ha'].
    2, 3: pose proof (quiet_effect (Close id) b I) as [Hq' Ha'].
    all: cbn [keep_socket close_socket with_broker dm_broker]; rewrite Hq'; (split; [done|]); (split; [|done]);
      intros i; by rewrite Ha', Ha.
  - unfold read_step. destruct (dm_sockets d !! id) as [s|] eqn:Hs; cbn [mbind option_bind];
      [|by rewrite app_nil_r].
    destruct (socket_task _ _ _ _ Hd Hs) as [reg Ht].
    destruct (framed_next (io_deadline args) s) as [[[bytes|]|e|] s']; cycle 1.
    1-3: destruct (quiet_effect (Close id) (dm_broker d) I) as [Hq Ha]; cbn [close_socket with_broker dm_broker];
      by rewrite app_nil_r.
    destruct (request_effect_queued id bytes reg (dm_broker d) Ht) as (Hq & Ha & Hok). cbn zeta in *.
    destruct (route_agent_request id bytes (bk_router (dm_broker d))).1 as [[]|e|]; cbn [is_ok] in *;
      cbn [close_socket keep_socket with_broker dm_broker fmap list_fmap snd];
      (split; [done|]); (split; [done|]); [|done..]. constructor; [by apply Hok|done].
  - destruct (look_up_effect f (dm_broker d)) as [Hq Ha]. by split_and!.
Qed.

Record deployment_inv w : Prop := mkDeploymentInv {
  dv_daemon : daemon_inv pending_handshakes (dp_daemon w);
  dv_events : exists es, dm_broker (dp_daemon w) = broker_run es (dm_broker (brokerd_start (St:=St) args));
  dv_routed id : accepted (dm_broker (dp_daemon w)) id = routed_to id (ss_log (dp_streams w));
  dv_requests : (dp_requests w).*2 = taken_requests (ss_log (dp_streams w)) ++ requests_queued (dm_broker (dp_daemon w));
  dv_senders : Forall (fun r => exists e, parse_envelope r.2 = Ok e /\ request_ok r.1 e) (dp_requests w);
}.

(** What the link does with the daemon, and what it logs of it. *)
Definition link_effect d more d' : Prop :=
  (d' = d /\ cad_events more) \/
  (d' = with_broker (broker_step CaTakes (dm_broker d)) d /\ (forall id, routed_to id more = []) /\
     taken_requests more = option_list (next_request d).1) \/
  (exists id f, d' = with_broker (broker_deliver f (dm_broker d)).2 d /\
     more = if (broker_deliver f (dm_broker d)).1 then [Routed id f] else []).

Lemma link_effect_inv w streams more : deployment_inv w -> ss_log streams = ss_log (dp_streams w) ++ more ->
  link_effect (dp_daemon w) more (bl_router (ss_broker streams)) ->
  deployment_inv (mkDeployment streams (dp_requests w)).
Proof.
  intros [Hd [es Hes] Hr Hreq Hs] Hlog Heff.
  enough (daemon_inv pending_handshakes (bl_router (ss_broker streams)) /\
    (exists es', dm_broker (bl_router (ss_broker streams)) = broker_run es' (dm_broker (dp_daemon w))) /\
    (forall id, accepted (dm_broker (bl_router (ss_broker streams))) id =
       routed_to id (ss_log (dp_streams w)) ++ routed_to id more) /\
    (dp_requests w).*2 = (taken_requests (ss_log (dp_streams w)) ++ taken_requests more) ++
      requests_queued (dm_broker (bl_router (ss_broker streams)))) as (Hd' & [es' Hes'] & Hr' & Hq').
  { constructor; unfold dp_daemon; cbn [dp_streams dp_requests]; rewrite ?Hlog; try done.
    - exists (es ++ es'). by rewrite Hes', Hes, broker_run_app.
    - intros id. by rewrite routed_to_app.
    - by rewrite taken_requests_app. }
  destruct Heff as [(-> & Hm1 & Hm2)|[(-> & Hm1 & Hm2)|(id & f & -> & ->)]].
  - split; [done|]. split; [by exists []|]. split; [intros id; by rewrite Hm1, app_nil_r|]. by rewrite Hm2, app_nil_r.
  - split; [by apply (daemon_step_inv args _ LinkTakes)|]. split; [by exists [CaTakes]|]. split.
    { intros id. rewrite Hm1, app_nil_r. apply Hr. }
    by rewrite Hreq, (takes_queued (dm_broker _)), Hm2, app_assoc.
  - split; [by apply (daemon_step_inv args _ (LinkDelivers f))|]. split; [by eexists|]. split.
    + intros i. cbn [dm_broker with_broker]. rewrite deliver_accepted, Hr by apply Hd.
      destruct (broker_deliver f (dm_broker (dp_daemon w))).1; cbn [andb]; [|done]. cbn. by case_bool_decide.
    + cbn [dm_broker with_broker]. rewrite deliver_queued, Hreq.
      assert (taken_requests (if (broker_deliver f (dm_broker (dp_daemon w))).1 then [Routed id f] else []) = []) as ->
        by (by destruct (broker_deliver f (dm_broker (dp_daemon w))).1). by rewrite app_nil_r.
Qed.

Lemma settle_state {A} deadline (z : Reaction * A) (s : Sl) p b s' :
  settle_session (E:=El) deadline z s = (p, b, s') -> b = z.2.
Proof. unfold settle_session. destruct (send_link_frames deadline (reply z.1) s) as [[]]; by intros [= _ <- _]. Qed.

Lemma broker_branch_effect branch (b : BrokerLink (Daemon Ch St)) (s : Sl) z s' :
  run_ca_session_branch (E:=El) branch b s = (z, s') ->
  link_effect (bl_router b) (events z.1) (bl_router z.2).
Proof.
  destruct branch as [id| |]; cbn [run_ca_session_branch].
  - destruct (broker_request id b) as [z1 b'] eqn:Hrun. intros [= <- <-]. cbn [fst snd].
    apply broker_request_events in Hrun as [[-> ->]|(-> & Hr & Ht)]; [by left|right; left; done].
  - destruct (framed_next no_deadline s) as [[[bytes|]|e|] s0]; [|by intros [= <- <-]; left..].
    destruct (broker_incoming bytes b) as [z1 b'] eqn:Hrun. intros [= <- <-]. cbn [fst snd].
    apply broker_incoming_events in Hrun as [[-> ->]|(id & f & -> & ->)]; [by left|].
    right; right. exists id, f. cbn [deliver daemon_router]. by destruct (broker_deliver f (dm_broker (bl_router b))).
  - destruct (pending_is_empty _); intros [= <- <-]; by left.
Qed.

Lemma cad_branch_effect branch (c : CaLink S) (s : Sl) z s' :
  cad_session_branch (E:=El) branch c s = (z, s') -> cad_events (events z.1).
Proof.
  destruct branch as [now ids|]; cbn [cad_session_branch].
  - destruct (framed_next no_deadline s) as [[[bytes|]|e|] s0]; [|by intros [= <- <-]..].
    intros [= <- <-]. apply cad_incoming_events.
  - destruct (pending_is_empty _); by intros [= <- <-].
Qed.

Abbreviation link_step := (stream_step (E:=El) link cad_psk auth_deadline cad_io_deadline).

Lemma link_side_effect st x : link_side st = true ->
  exists more, ss_log (link_step st x) = ss_log x ++ more /\
    link_effect (bl_router (ss_broker x)) more (bl_router (ss_broker (link_step st x))).
Proof.
  assert (exists more, ss_log x = ss_log x ++ more /\
    link_effect (bl_router (ss_broker x)) more (bl_router (ss_broker x))) as Hidle.
  { exists []. rewrite app_nil_r. split; [done|by left]. }
  destruct st as [sb sc challenge bytes|branch|branch|router|ca]; intros Hst; [..|done|done]; cbn [stream_step].
  - unfold connection_step. by destruct (_ || _).
  - unfold broker_does. destruct (ss_connection x) as [[b c]|]; [|done]. destruct (le_up b); [|done].
    destruct (run_ca_session_branch branch (ss_broker x) (le_stream b)) as [z s] eqn:Hrun.
    destruct (settle_session _ z s) as [[p broker] s'] eqn:Hset. apply settle_state in Hset as ->.
    exists (events z.1). split; [done|]. by eapply broker_branch_effect.
  - unfold cad_does. destruct (ss_connection x) as [[b c]|]; [|done]. destruct (le_up c); [|done].
    destruct (cad_session_branch branch (ss_ca x) (le_stream c)) as [z s] eqn:Hrun.
    destruct (settle_session _ z s) as [[p ca] s']. exists (events z.1). split; [done|].
    left. split; [done|]. by eapply cad_branch_effect.
Qed.

(** Requests are dropped only as the link says. *)
Lemma stream_drops st x request : broker_ok (ss_log x) (ss_broker x) -> Dropped request ∈ ss_log (link_step st x) ->
  Dropped request ∈ ss_log x \/ st = BrokerDoes (RequestReady None) \/ MAX_FRAME_LEN < length request.
Proof.
  intros Hb. destruct st as [sb sc challenge bytes|branch|branch|router|ca]; cbn [stream_step]; try by left.
  - unfold connection_step. destruct (_ || _); by left.
  - unfold broker_does. destruct (ss_connection x) as [[b c]|]; [|by left]. destruct (le_up b); [|by left].
    destruct (run_ca_session_branch branch (ss_broker x) (le_stream b)) as [z s] eqn:Hrun.
    destruct (settle_session _ z s) as [[p broker] s']. intros [Hin|Hin]%elem_of_app; [by left|right]. revert Hrun Hin.
    destruct branch as [id| |]; cbn [run_ca_session_branch].
    + intros [= <- <-] [->|?]%(broker_request_drops (ss_log x)); [by left|by right|done].
    + destruct (framed_next no_deadline (le_stream b)) as [[[bytes|]|e|] s0]; intros [= <- <-];
        [by intros []%broker_incoming_no_drop|by intros []%elem_of_nil..].
    + destruct (pending_is_empty _); intros [= <- <-]; by intros []%elem_of_nil.
  - unfold cad_does. destruct (ss_connection x) as [[b c]|]; [|by left]. destruct (le_up c); [|by left].
    destruct (cad_session_branch branch (ss_ca x) (le_stream c)) as [z s] eqn:Hrun.
    destruct (settle_session _ z s) as [[p ca] s']. intros [Hin|Hin]%elem_of_app; [by left|right]. revert Hrun Hin.
    destruct branch as [now ids|]; cbn [cad_session_branch].
    + destruct (framed_next no_deadline (le_stream c)) as [[[bytes|]|e|] s0]; intros [= <- <-];
        [by intros []%cad_incoming_no_drop|by intros []%elem_of_nil..].
    + destruct (pending_is_empty _); intros [= <- <-]; by intros []%elem_of_nil.
Qed.

(** The schedules: the link's operations on the router are its own, and streams are fresh. *)
Definition deployment_ok (st : DeploymentStep Ch St Sl S) : Prop :=
  match st with
  | AgentsDo st => agent_side st = true /\ fresh_accept st
  | LinkDoes st => link_side st = true
  end.

Abbreviation step := (deployment_step (El:=El) args link cad_psk auth_deadline cad_io_deadline).
Abbreviation run := (deployment_run (El:=El) args link cad_psk auth_deadline cad_io_deadline).

Lemma deployment_step_inv st w : deployment_inv w -> deployment_ok st -> deployment_inv (step st w).
Proof.
  intros Hw Hst. unfold deployment_step. destruct st as [st|st]; cbn [link_step_of].
  - destruct Hst as [Hside Hfresh]. destruct Hw as [Hd [es Hes] Hr Hreq Hs].
    destruct (agent_step_effect st _ Hd Hside) as (Hq & Ha & Hall). set (d := dp_daemon w) in *.
    constructor; unfold dp_daemon; cbn [stream_step dp_streams dp_requests ss_broker bl_router ss_log].
    + by apply daemon_step_inv.
    + destruct (daemon_step_events args st d) as [es' Hes']. exists (es ++ es').
      change (dm_broker (daemon_step args st d) = broker_run (es ++ es') (dm_broker (brokerd_start (St:=St) args))).
      by rewrite Hes', broker_run_app, <-Hes.
    + intros id. by rewrite Ha, Hr.
    + by rewrite fmap_app, Hreq, Hq, app_assoc.
    + by apply Forall_app.
  - rewrite app_nil_r. destruct (link_side_effect st (dp_streams w) Hst) as (more & Hlog & Heff).
    by eapply link_effect_inv.
Qed.

Lemma deployment_run_inv steps : forall w, deployment_inv w -> Forall deployment_ok steps -> deployment_inv (run steps w).
Proof.
  induction steps as [|st steps IH]; intros w Hw Hok; [done|].
  apply Forall_cons in Hok as [Hst Hok]. apply IH; [by apply deployment_step_inv|done].
Qed.

Lemma deployment_start_inv ca : deployment_inv (deployment_start args link ca).
Proof.
  pose proof (brokerd_start_inv (Ch:=Ch) (HF:=HF) args) as Hd. constructor; [exact Hd|by exists []|by intros id| |done].
  destruct (mpsc_channel_spec (arg_ca_queue_depth args `max` 1)) as (Hq & _); [lia|]. exact (eq_sym Hq).
Qed.

(** *** As a run of the link *)

Lemma link_steps_run steps : forall w,
  dp_streams (run steps w) =
    stream_run link cad_psk auth_deadline cad_io_deadline
      (link_steps (El:=El) args link cad_psk auth_deadline cad_io_deadline steps w) (dp_streams w).
Proof. induction steps as [|st steps IH]; intros w; [done|]. exact (IH (step st w)). Qed.

Lemma link_steps_take steps : forall w n,
  take n (link_steps (El:=El) args link cad_psk auth_deadline cad_io_deadline steps w) =
    link_steps (El:=El) args link cad_psk auth_deadline cad_io_deadline (take n steps) w.
Proof. induction steps as [|st steps IH]; intros w [|n]; [done..|]. cbn. by rewrite IH. Qed.

Lemma link_steps_drawn steps : forall w,
  stream_drawn <$> link_steps (El:=El) args link cad_psk auth_deadline cad_io_deadline steps w =
    deployment_drawn <$> steps.
Proof. induction steps as [|st steps IH]; intros w; [done|]. cbn. rewrite IH. f_equal. by destruct st. Qed.

Lemma link_steps_from steps : forall w st,
  st ∈ link_steps (El:=El) args link cad_psk auth_deadline cad_io_deadline steps w ->
  LinkDoes st ∈ steps \/ exists d, st = RouterMoves d.
Proof.
  induction steps as [|st' steps IH]; intros w st; cbn [link_steps]; [by intros ?%elem_of_nil|].
  intros [->|Hin]%elem_of_cons.
  - destruct st' as [st'|st']; cbn [link_step_of]; [right; by eexists|left; by left].
  - apply IH in Hin as [?|?]; [left; by right|by right].
Qed.
End invariant.

(** ** Runs of the daemons as they are started *)

Section started.
Context `{HC : CryptoLaws} `{Hex} {Ch St E Sl El : Type} `{HM : MpscLaws Ch}
  `{HF : TokioFramedLaws St E} `{HL : LinkCodecLaws Sl El} `{Sha256}.
Context (args : Args) (broker_psk : array 32) (config : Config) (files : Text -> option Text) (disk : Disk)
  (v : StoreView) (rng : Rng) (psk : array 32) (c : CaLink CaState) (steps : list (DeploymentStep Ch St Sl CaState)).

Abbreviation limits := (resolve (cfg_limits config)).

Definition deployed (done : list (DeploymentStep Ch St Sl CaState)) : Deployment Ch St Sl CaState :=
  deployment_run (El:=El) args (ca_link_config args broker_psk) psk (cad_auth_deadline config) (cad_io_deadline config)
    done (deployment_start args (ca_link_config args broker_psk) c).

(** cad starts on a disk whose snapshot a store wrote, the operations of the link are its
    own, streams are new, reloads keep the store within its limits, identifiers are drawn
    once, and the network between the daemons carries what they write. *)
Record started_run : Prop := mkStartedRun {
  sr_disk : ready limits disk v;
  sr_start : cad_start config files disk rng = Ok (psk, c);
  sr_steps : Forall deployment_ok steps;
  sr_link st : LinkDoes st ∈ steps -> fresh_streams st /\ forall ca, st = CadReloads ca -> service_inv limits ca;
  sr_drawn : NoDup (concat (deployment_drawn <$> steps));
  sr_network n : network (dp_streams (deployed (take n steps)));
}.

(** Such a run is a run of the link from its start. *)
Lemma started_run_link : started_run ->
  deployment_inv args (deployed steps) /\
  lim_subscriptions limits <= cfg_broker_pending_deliveries config /\
  exists ca steps', service_inv limits ca /\
    reloads_ok (handler_inv:=service_inv limits) steps' /\ drawn_once steps' /\
    let y := link_run steps' (link_init (brokerd_start args) ca (arg_ca_queue_depth args) (arg_ca_dedup_depth args)
      (cfg_broker_pending_deliveries config) (cfg_broker_dedup_entries config)) in
    sy_broker y = ss_broker (dp_streams (deployed steps)) /\ sy_log y = ss_log (dp_streams (deployed steps)).
Proof.
  intros [Hre Hstart Hok Hlink Hnd Hnet]. set (link := ca_link_config args broker_psk).
  set (start := deployment_start (Ch:=Ch) (St:=St) (Sl:=Sl) args link c).
  destruct (cad_start_Ok _ _ _ v _ _ _ Hre Hstart) as (Hfit & ca & store & agents & policy & Hc & Hs & _).
  split; [|split; [done|]].
  { unfold deployed. apply deployment_run_inv; [|done]. apply deployment_start_inv. }
  pose proof (link_steps_run (El:=El) args link psk (cad_auth_deadline config) (cad_io_deadline config) steps start) as Hrun.
  set (lsteps := link_steps _ _ _ _ _ steps start) in Hrun. fold start link (deployed steps) in Hrun.
  destruct (stream_run_simulated (HC:=HL) link psk (cad_auth_deadline config) (cad_io_deadline config) lsteps
    (dp_streams start) _ (stream_init_simulates (maintain_ca_link_init (brokerd_start args) (lc_pending_depth link)
      (lc_dedup_depth link)) c)) as (steps' & Hdrawn & Hreload & Hb & _ & _ & Hlog & _).
  { apply Forall_forall. intros st [Hin|[d' ->]]%link_steps_from; [by apply Hlink|done]. }
  { intros n. unfold lsteps. rewrite link_steps_take. specialize (Hnet n). unfold deployed in Hnet.
    by rewrite link_steps_run in Hnet. }
  exists (ca, (store, rng)), steps'. split; [exact Hs|]. split; [|split].
  - apply Forall_forall. intros st Hst. destruct st; try done. apply Hreload in Hst.
    apply link_steps_from in Hst as [Hin|[d' [=]]]. by apply Hlink in Hin as [_ Hin]; apply Hin.
  - eapply sublist_NoDup; [|exact Hdrawn]. unfold lsteps. by rewrite link_steps_drawn.
  - rewrite Hc, <-Hrun in Hb, Hlog. done.
Qed.

(** What is processed came in on the socket of its sender. *)
Lemma handled_from_socket rid request ds : started_run ->
  Handled rid request ds ∈ ss_log (dp_streams (deployed steps)) ->
  exists agent e, (agent, request) ∈ dp_requests (deployed steps) /\ parse_envelope request = Ok e /\
    env_sender e = agent.
Proof.
  intros Hrun Hin. destruct (started_run_link Hrun) as
    ([_ _ _ Hreq Hsenders] & Hfit & ca & steps' & Hca & Hreload & Hdrawn & _ & Hlog).
  destruct (link_run_facts (HS:=service_laws _ _ Hfit) (brokerd_start args) ca (arg_ca_queue_depth args)
    (arg_ca_dedup_depth args) (cfg_broker_dedup_entries config) steps' Hca Hreload Hdrawn) as (_ & Hhandled & _).
  rewrite Hlog in Hhandled.
  assert (request ∈ (dp_requests (deployed steps)).*2) as ([agent request'] & -> & Hr)%list_elem_of_fmap.
  { rewrite Hreq. apply elem_of_app. left. apply list_elem_of_omap. exists (Taken rid request). split; [by eapply Hhandled|done]. }
  rewrite Forall_forall in Hsenders. destruct (Hsenders _ Hr) as (e & Hparse & Hsend & _). by exists agent, e.
Qed.

(** What is routed to an agent was made of a request. *)
Lemma routed_handled id f : started_run -> f ∈ routed_to id (ss_log (dp_streams (deployed steps))) ->
  recipient_of f = Some id /\
  exists rid request ds, Handled rid request ds ∈ ss_log (dp_streams (deployed steps)) /\ f ∈ ds.*2.
Proof.
  intros Hrun Hf. destruct (started_run_link Hrun) as
    (_ & Hfit & ca & steps' & Hca & Hreload & Hdrawn & _ & Hlog).
  destruct (link_run_facts (HS:=service_laws _ _ Hfit) (brokerd_start args) ca (arg_ca_queue_depth args)
    (arg_ca_dedup_depth args) (cfg_broker_dedup_entries config) steps' Hca Hreload Hdrawn) as (_ & _ & _ & Hro & _).
  rewrite Hlog in Hro. apply list_elem_of_omap in Hf as (e & He & Hf).
  destruct e as [| |x f'| |]; [done|done| |done..]. case_bool_decide as Hid; [|done]. injection Hf as ->. split; [done|].
  apply Hro, generated_handled in He as (rid & request & ds & Hin & Hds).
  exists rid, request, ds. split; [done|]. apply list_elem_of_fmap. by exists (x, f).
Qed.

End started.

Section prefixes.
Context `{HC : CryptoLaws} `{Hex} {Ch St E Sl El : Type} `{HM : MpscLaws Ch}
  `{HF : TokioFramedLaws St E} `{HL : LinkCodecLaws Sl El} `{Sha256}.
Context (args : Args) (broker_psk : array 32) (config : Config) (files : Text -> option Text) (disk : Disk)
  (v : StoreView) (rng : Rng) (psk : array 32) (c : CaLink CaState).
Implicit Types steps : list (DeploymentStep Ch St Sl CaState).

Abbreviation started := (started_run (El:=El) args broker_psk config files disk v rng psk c).
Abbreviation deployed := (deployed (El:=El) args broker_psk config psk c).

Lemma started_run_prefix steps more : started (steps ++ more) -> started steps.
Proof.
  intros [Hre Hstart Hok Hlink Hnd Hnet]. constructor; [done|done| | | |].
  - by apply Forall_app in Hok as [? _].
  - intros st Hin. apply Hlink, elem_of_app. by left.
  - rewrite fmap_app, concat_app in Hnd. by apply NoDup_app in Hnd as (? & _).
  - intros n. destruct (decide (n <= length steps)) as [Hle|Hgt].
    + specialize (Hnet n). by rewrite take_app_le in Hnet.
    + specialize (Hnet (length steps)). rewrite take_app_length in Hnet. by rewrite take_ge by lia.
Qed.

Lemma deployed_snoc steps st : deployed (steps ++ [st]) =
  deployment_step (El:=El) args (ca_link_config args broker_psk) psk (cad_auth_deadline config) (cad_io_deadline config)
    st (deployed steps).
Proof. unfold Deployment.deployed, deployment_run. by rewrite foldl_app. Qed.

Lemma started_broker_ok steps : started steps ->
  broker_ok (ss_log (dp_streams (deployed steps))) (ss_broker (dp_streams (deployed steps))).
Proof.
  intros Hrun. destruct (started_run_link _ _ _ _ _ _ _ _ _ _ Hrun) as
    (_ & Hfit & ca & steps' & Hca & Hreload & Hdrawn & Hb & Hlog).
  rewrite <-Hb, <-Hlog. eapply li_broker.
  apply (link_run_inv (HS:=service_laws _ _ Hfit) steps' []); [by apply link_init_inv|done|done].
Qed.

(** A request that was accepted from a socket fits the link, so it is dropped only when
    no identifier could be drawn for it. *)
Lemma dropped_unnamed steps request : started steps ->
  Dropped request ∈ ss_log (dp_streams (deployed steps)) -> LinkDoes (BrokerDoes (RequestReady None)) ∈ steps.
Proof.
  induction steps as [|st steps IH] using rev_ind; intros Hrun Hin.
  { unfold Deployment.deployed in Hin. cbn in Hin. by apply elem_of_nil in Hin. }
  assert (length request <= MAX_FRAME_LEN) as Hlen.
  { destruct (started_run_link _ _ _ _ _ _ _ _ _ _ Hrun) as ([_ _ _ Hreq Hsenders] & _).
    assert (request ∈ (dp_requests (deployed (steps ++ [st]))).*2) as ([agent r] & -> & Hr)%list_elem_of_fmap.
    { rewrite Hreq. apply elem_of_app. left. apply list_elem_of_omap. by exists (Dropped request). }
    rewrite Forall_forall in Hsenders. destruct (Hsenders _ Hr) as (e & Hparse & _).
    by apply parse_envelope_length in Hparse as [_ ?]. }
  pose proof (started_run_prefix _ _ Hrun) as Hbefore. pose proof (started_broker_ok steps Hbefore) as Hb.
  rewrite deployed_snoc in Hin. unfold deployment_step in Hin. cbn [dp_streams] in Hin.
  apply stream_drops in Hin as [Hin|[Heq|Hlong]]; [| |lia|done].
  - apply elem_of_app. left. by apply IH.
  - apply elem_of_app. right. destruct st as [st|st]; cbn [link_step_of] in Heq; [done|]. subst st. by left.
Qed.
End prefixes.

(** ** The properties *)

(** C3: From socket to socket. brokerd and cad are started and run, agents connect, send,
    receive and leave, and connections of either kind break, in any order. Then every
    request accepted from a socket names the agent of that socket as its sender and goes
    to the CA; what the link took of them and what still waits are exactly those accepted,
    in their order, and one taken is dropped only if the link could not draw an identifier
    for it; no request taken is processed twice, and each is still pending or was processed
    and all its deliveries routed; every delivery routed was made by the CA for a request
    that was taken. And what was accepted for an agent is exactly what was routed to it,
    in order; for every delivery routed, what the sockets of the agent carry, whole but for
    the end of a stream that failed, and what is still held for it account: each is there
    once, or was dropped when a connection of the agent ended with more left behind than
    the offline queue can hold, and they are in the order of the routing but for those that
    were stored when the agent had connected meanwhile. *)
Theorem deployment_end_to_end `{HC : CryptoLaws} `{Hex} `{HM : MpscLaws Ch} `{HF : TokioFramedLaws St E}
    `{HL : LinkCodecLaws Sl El} `{Sha256} args broker_psk config files disk v rng psk c
    (steps : list (DeploymentStep Ch St Sl CaState)) :
  started_run args broker_psk config files disk v rng psk c steps ->
  let w := deployed args broker_psk config psk c steps in
  let log := ss_log (dp_streams w) in
  let d := dp_daemon w in
  Forall (fun r => exists e, parse_envelope r.2 = Ok e /\ request_ok r.1 e) (dp_requests w) /\
  (dp_requests w).*2 = taken_requests log ++ requests_queued (dm_broker d) /\
  (forall request, Dropped request ∈ log -> LinkDoes (BrokerDoes (RequestReady None)) ∈ steps) /\
  NoDup (processed_ids log) /\
  (forall id request, Taken id request ∈ log ->
     id ∈ (pending_view (bl_pending (ss_broker (dp_streams w)))).*1 \/
     exists ds, Handled id request ds ∈ log /\ Forall (fun delivery => Routed delivery.1 delivery.2 ∈ log) ds) /\
  (forall id f, Routed id f ∈ log ->
     exists rid request ds, Taken rid request ∈ log /\ Handled rid request ds ∈ log /\ (id, f) ∈ ds) /\
  exists es, let start := dm_broker (brokerd_start (Ch:=Ch) (St:=St) args) in
  dm_broker d = broker_run es start /\
  forall id, lg_accepted (bk_ledger (dm_broker d) id) = routed_to id log /\
    exists groups group, accounted start es id (concat groups ++ group ++ unsent (dm_broker d) id) /\
      Forall2 (fun g s => wire g `prefix_of` framed_output s) groups (dm_closed d id) /\
      match dm_sockets d !! id with Some s => framed_output s = wire group | None => group = [] end.
Proof.
  intros Hrun w log d. destruct (started_run_link _ _ _ _ _ _ _ _ _ _ Hrun) as
    ([Hd [es Hes] Hr Hq Hsenders] & Hfit & ca & steps' & Hca & Hreload & Hdrawn & Hb & Hlog).
  fold w d in Hd, Hes, Hr, Hq, Hsenders. fold log in Hr, Hq. do 2 (split; [done|]).
  split; [intros request; by eapply dropped_unnamed|].
  destruct (link_run_facts (HS:=service_laws _ _ Hfit) (brokerd_start args) ca (arg_ca_queue_depth args)
    (arg_ca_dedup_depth args) (cfg_broker_dedup_entries config) steps' Hca Hreload Hdrawn)
    as (Hp & Hhandled & Hk & Hro & _).
  rewrite Hlog in Hp, Hhandled, Hk, Hro. rewrite Hb in Hk. split; [exact Hp|]. split; [exact Hk|]. split.
  - intros id f (rid & request & ds & Hin & Hf)%Hro%generated_handled. exists rid, request, ds.
    split; [by eapply Hhandled|done].
  - exists es. split; [exact Hes|]. intros id. split; [apply Hr|].
    destruct (di_streams _ _ Hd id) as (groups & group & Hw & Hall & Hsock).
    exists groups, group. split; [|split; [done|by destruct (dm_sockets d !! id); [destruct Hsock|]]].
    pose proof (accounted_run _ es id (di_broker _ _ (brokerd_start_inv (Ch:=Ch) (HF:=HF) args)) eq_refl) as Hacc.
    cbv zeta in Hacc. rewrite <-Hes, Hw, <-app_assoc in Hacc. exact Hacc.
Qed.

(** Bob and Alice connect and set their environments, Bob subscribes, and Alice publishes
    to him: the link takes the four requests one after the other, and the last brings
    Bob a delivery. *)
Module DeploymentExample.
#[local] Existing Instance Toy.crypto.

Abbreviation alice := SpecExample.alice.
Abbreviation bob := SpecExample.bob.
Abbreviation config := SpecExample.config.
Abbreviation secret := SpecExample.secret.
Abbreviation id := SpecExample.id.
Abbreviation started := SpecExample.started.
Abbreviation sealed := SpecExample.sealed.
Abbreviation bob_sets := SpecExample.bob_sets.
Abbreviation bob_subscribes := SpecExample.bob_subscribes.
Abbreviation alice_sets := SpecExample.alice_sets.
Abbreviation alice_publishes := SpecExample.alice_publishes.
Abbreviation delivery := SpecExample.delivery.

Definition socket (a : AgentId) (requests : list frame) : DaemonExample.Stream :=
  (5, (frame_wire (vec_to_list (agent_bytes a)) ++ concat (frame_wire <$> requests), [])).
Definition ack (n : N) : list byte := LinkStreamsExample.ack n.
Definition broker_reads : list byte := LinkStreamsExample.cad_greets ++ ack 1 ++ ack 2 ++ ack 3 ++
  handshake_wire FrameKind.Delivery (id 5) delivery ++ ack 4.
Definition cad_reads : list byte :=
  handshake_wire FrameKind.AuthResponse (LinkStreamsExample.id 9)
    (answer (H:=HandshakeExample.sha) secret LinkStreamsExample.challenge) ++
  handshake_wire FrameKind.Request (id 1) bob_sets ++ handshake_wire FrameKind.Request (id 2) bob_subscribes ++
  handshake_wire FrameKind.Request (id 3) alice_sets ++ handshake_wire FrameKind.Request (id 4) alice_publishes ++
  ack 5.

Definition args : Args := DaemonExample.args.
Abbreviation Step := (DeploymentStep ListChannel DaemonExample.Stream LinkStreamsExample.Stream CaState).
Definition request_answered (n : N) : list Step :=
  [LinkDoes (BrokerDoes (RequestReady (Some (id n)))); LinkDoes (CadDoes (BrokerFrameReady 7 []));
   LinkDoes (BrokerDoes CaFrameReady)].
Definition steps : list Step :=
  [AgentsDo (Accepted 0 (socket bob [bob_sets; bob_subscribes])); AgentsDo (HelloReady 0);
   AgentsDo (Accepted 1 (socket alice [alice_sets; alice_publishes])); AgentsDo (HelloReady 1);
   AgentsDo (ReadReady bob); AgentsDo (ReadReady bob); AgentsDo (ReadReady alice); AgentsDo (ReadReady alice);
   LinkDoes (Connection (9, (broker_reads, [])) (9, (cad_reads, []))
     (Some (LinkStreamsExample.id 9)) (Some LinkStreamsExample.challenge))]
  ++ request_answered 1 ++ request_answered 2 ++ request_answered 3 ++
  [LinkDoes (BrokerDoes (RequestReady (Some (id 4)))); LinkDoes (CadDoes (BrokerFrameReady 7 [id 5]));
   LinkDoes (BrokerDoes CaFrameReady); LinkDoes (CadDoes (BrokerFrameReady 7 []));
   LinkDoes (BrokerDoes CaFrameReady); AgentsDo (SendReady bob)].

Abbreviation run psk c done := (deployed (H2:=DaemonExample.stream) (H3:=LinkStreamsExample.stream) (Sl:=LinkStreamsExample.Stream)
  (Ch:=ListChannel) (H:=Toy.crypto) (H4:=HandshakeExample.sha) args secret config psk c done).
Definition bob_carries (w : Deployment ListChannel DaemonExample.Stream LinkStreamsExample.Stream CaState) : list byte :=
  match dm_sockets (dp_daemon w) !! bob with Some s => s.2.2 | None => [] end.

Abbreviation view := (state_view (state_empty (resolve (cfg_limits config)))).
Abbreviation run_ok psk c := (started_run (H0:=ConfigExample.hex) (H2:=DaemonExample.stream)
  (H3:=LinkStreamsExample.stream) (Sl:=LinkStreamsExample.Stream) (Ch:=ListChannel) (H:=Toy.crypto)
  (H4:=HandshakeExample.sha) args secret config ServiceExample.files ServiceExample.disk view 0%N psk c steps).

Lemma steps_ok : Forall (fun st : Step => deployment_ok st /\ match st with
  | LinkDoes (CadReloads _) => False
  | LinkDoes st => fresh_streams st
  | AgentsDo _ => True
  end) steps.
Proof.
  repeat (apply Forall_cons; split;
    [first [exact (conj (conj eq_refl (conj I eq_refl)) I)|exact (conj (conj eq_refl I) I)
           |exact (conj eq_refl (conj (conj I eq_refl) (conj I eq_refl)))|exact (conj eq_refl I)]|]).
  by apply Forall_nil.
Qed.

Lemma started_deploys : match started with
  | Ok (psk, c) =>
      forallb (fun k => carries_network (dp_streams (run psk c (take k steps)))) (seq 0 (S (length steps))) = true /\
      dp_requests (run psk c steps) = [(bob, bob_sets); (bob, bob_subscribes); (alice, alice_sets); (alice, alice_publishes)] /\
      routed_to bob (ss_log (dp_streams (run psk c steps))) = [delivery] /\
      bob_carries (run psk c steps) = frame_wire delivery
  | _ => False
  end.
Proof. vm_compute. split_and!; reflexivity. Qed.

Lemma deploys psk c : started = Ok (psk, c) ->
  run_ok psk c /\
  dp_requests (run psk c steps) = [(bob, bob_sets); (bob, bob_subscribes); (alice, alice_sets); (alice, alice_publishes)] /\
  routed_to bob (ss_log (dp_streams (run psk c steps))) = [delivery].
Proof.
  pose proof started_deploys as Hruns. intros Hs. rewrite Hs in Hruns. destruct Hruns as (Hall & Hreq & Hro & _).
  pose proof steps_ok as Hok. split; [|exact (conj Hreq Hro)]. constructor.
  - exact SpecExample.disk_ready.
  - exact Hs.
  - eapply Forall_impl; [exact Hok|]. by intros st [].
  - intros st Hin. rewrite Forall_forall in Hok. destruct (Hok _ Hin) as [_ Hst].
    split; [by destruct st|]. intros ca ->. destruct Hst.
  - apply (bool_decide_unpack _). vm_compute. reflexivity.
  - exact (prefixes_carry (fun l => dp_streams (run psk c l)) steps Hall).
Qed.
End DeploymentExample.

Lemma deployment_end_to_end_witness :
  exists psk c, DeploymentExample.started = Ok (psk, c) /\
    let w := DeploymentExample.run psk c DeploymentExample.steps in
    let log := ss_log (dp_streams w) in
    dp_requests w = [(DeploymentExample.bob, DeploymentExample.bob_sets);
      (DeploymentExample.bob, DeploymentExample.bob_subscribes);
      (DeploymentExample.alice, DeploymentExample.alice_sets);
      (DeploymentExample.alice, DeploymentExample.alice_publishes)] /\
    Forall (fun r => exists e, parse_envelope r.2 = Ok e /\ request_ok r.1 e) (dp_requests w) /\
    NoDup (processed_ids log) /\
    forall id f, Routed id f ∈ log ->
      exists rid request ds, Taken rid request ∈ log /\ Handled rid request ds ∈ log /\ (id, f) ∈ ds.
Proof.
  destruct SpecExample.cad_starts as (psk & c & Hstart). exists psk, c. split; [exact Hstart|].
  destruct (DeploymentExample.deploys _ _ Hstart) as (Hrun & Hreq & _).
  pose proof (deployment_end_to_end (HC:=Toy.laws) (HF:=DaemonExample.stream_laws) (HL:=LinkStreamsExample.codec_laws)
    (H4:=HandshakeExample.sha) DeploymentExample.args DeploymentExample.secret DeploymentExample.config
    ServiceExample.files ServiceExample.disk DeploymentExample.view 0%N psk c DeploymentExample.steps) as Hall.
  destruct (Hall Hrun) as (Hsenders & _ & _ & Hnd & _ & Hro & _). clear Hall.
  exact (conj Hreq (conj Hsenders (conj Hnd Hro))).
Defined.
