(* ===== verification/DeploymentService.v ===== *)
(** The deployment of [Deployment] as the abstract service of [ServiceSpec]: what the CA
    makes of the requests that come in on the sockets, in terms of what is stored. *)

From S2P Require Export Deployment.

(** ** What the log of the link tells of the CA *)

(** The requests the CA processed. *)
Definition processed_events (log : list LinkEvent) : list LinkEvent :=
  omap (fun e => match e with Handled _ _ _ | Lost _ _ => Some e | _ => None end) log.

(** What an event at that time is to the service; of an answer with frames that were lost,
    because cad ends, the frames are not told. *)
Definition tells (now : N) (e : LinkEvent) (label : ServiceLabel) : Prop :=
  match e with
  | Handled _ request ds => label = Answers request now (ds.*2)
  | Lost _ request => exists frames, label = Answers request now frames /\ frames <> []
  | _ => False
  end.

Lemma processed_events_app log log' : processed_events (log ++ log') = processed_events log ++ processed_events log'.
Proof. apply omap_app. Qed.

Lemma processed_handled rid request ds log : Handled rid request ds ∈ log ->
  Handled rid request ds ∈ processed_events log.
Proof. intros Hin. apply list_elem_of_omap. by exists (Handled rid request ds). Qed.

(** The broker's side processes nothing. *)
Section broker.
Context {R St E : Type} `{DeliveryRouter R, TokioFramed St E}.

Lemma broker_request_unprocessed id (b : BrokerLink R) : processed_events (events (broker_request id b).1) = [].
Proof.
  unfold broker_request. destruct (_ && _); [|done]. destruct (next_request _) as [[request|] router]; [|done].
  destruct id as [id|]; [|done]. destruct (encode FrameKind.Request id request) as [encoded|e|]; [|done..].
  by destruct (pending_insert id encoded (bl_pending b)) as [[[]|e|] pending].
Qed.

Lemma broker_branch_unprocessed branch (b : BrokerLink R) (s : St) z s' :
  run_ca_session_branch branch b s = (z, s') -> processed_events (events z.1) = [].
Proof.
  destruct branch as [id| |]; cbn [run_ca_session_branch].
  - pose proof (broker_request_unprocessed id b) as Hnone. destruct (broker_request id b). by intros [= <- _].
  - destruct (framed_next no_deadline s) as [[[bytes|]|e|] s0]; [|by intros [= <- _]..].
    destruct (broker_incoming bytes b) as [z1 b'] eqn:Hrun. intros [= <- _]. cbn [fst].
    apply broker_incoming_events in Hrun as [[_ ->]|(id & f & _ & ->)]; [done|].
    by destruct (deliver f (bl_router b)).1.
  - destruct (pending_is_empty _); by intros [= <- _].
Qed.
End broker.

(** ** cad over the link *)

Section cad.
Context `{HC : CryptoLaws} {St E : Type} `{TokioFramed St E} (limits : StoreLimits).
Implicit Types c : CaLink CaState.

Abbreviation ttl := (lim_replay_ttl_seconds limits).
Abbreviation serving c := (service_of (cl_ca c)).

(** A reaction of cad is a step of the service, as its event tells, or leaves it be. *)
Definition reacts now c (log : list LinkEvent) c' : Prop :=
  cad_ok limits (cl_ca c') /\
  exists label, Forall2 (tells now) (processed_events log) (option_list label) /\
    service_does ttl (serving c) label (serving c').

Lemma reacts_idle now c (log : list LinkEvent) c' : cad_ok limits (cl_ca c) -> cl_ca c' = cl_ca c ->
  processed_events log = [] -> reacts now c log c'.
Proof. intros Hc Hca Hlog. split; [by rewrite Hca|]. exists None. by rewrite Hlog, Hca. Qed.

Lemma reacts_handled r now request c ca (log : list LinkEvent) c' ev : cad_ok limits (cl_ca c) ->
  handle request now (cl_ca c) = (r, ca) -> cl_ca c' = ca -> processed_events log = [ev] ->
  tells now ev (Answers request now (deliveries r)) -> reacts now c log c'.
Proof.
  intros Hc Hrun Hc' Hlog Ht. destruct (handle_service limits _ _ _ _ _ Hc Hrun) as (Hca & _ & Hstep).
  split; [by rewrite Hc'|]. exists (Some (Answers request now (deliveries r))). rewrite Hlog, Hc'.
  split; [by repeat constructor|]. by eexists.
Qed.

Lemma finish_request_ca id log c : cl_ca (finish_request id log c).2 = cl_ca c.
Proof. unfold finish_request. by destruct (dedup_insert id (cl_acquired c)) as [[]]. Qed.

Lemma cad_incoming_reacts bytes now ids c : cad_ok limits (cl_ca c) ->
  reacts now c (events (cad_incoming bytes now ids c).1) (cad_incoming bytes now ids c).2.
Proof.
  intros Hc. unfold cad_incoming. destruct (decode bytes) as [f|e|]; [|by apply reacts_idle..].
  destruct (link_kind f); try by apply reacts_idle.
  - case_bool_decide; [by apply reacts_idle|].
    destruct (dedup_contains _ _); [apply reacts_idle; cbn; rewrite ?acknowledge_events; done|].
    case_bool_decide; [|by apply reacts_idle]. unfold cad_request.
    destruct (handle (link_payload f) now (cl_ca c)) as [r ca] eqn:Hrun.
    destruct (handle_service limits _ _ _ _ _ Hc Hrun) as (_ & Hr & _).
    pose proof (reacts_handled r now (link_payload f) c ca) as Hreacts.
    assert (forall c' acquired, cl_ca c' = ca -> acquired.*2 = deliveries r ->
      let log := [Handled (link_id f) (link_payload f) acquired] in
      reacts now c (events (finish_request (link_id f) log c').1) (finish_request (link_id f) log c').2) as Hfinish.
    { intros c' acquired Hc' Hds log. eapply (Hreacts _ _ (Handled (link_id f) (link_payload f) acquired));
        rewrite ?finish_request_ca, ?finish_request_events; try done. cbn. by rewrite Hds. }
    destruct r as [[|ds]|e|]; [by apply Hfinish| |by apply Hfinish|done].
    assert (ds <> [] -> forall c', cl_ca c' = ca -> forall p,
      reacts now c (events (mkReaction [] p [Lost (link_id f) (link_payload f)])) c') as Hlost.
    { intros Hds c' Hc' p. apply (Hreacts _ _ (Lost (link_id f) (link_payload f))); [done..|]. by eexists. }
    case_match eqn:Hfull; [apply Hlost; [by destruct ds|done]|].
    destruct (encode_deliveries _ _ _) as [[[encoded acquired]|e|] pending] eqn:Henc;
      [|apply Hlost; [by destruct ds|done]..].
    apply encode_deliveries_payloads in Henc as Hds. destruct encoded; [by apply Hfinish|].
    destruct (dedup_insert _ _) as [[]];
      apply (Hreacts _ _ (Handled (link_id f) (link_payload f) acquired)); cbn; by rewrite ?Hds.
  - destruct (cl_current c); [|by apply reacts_idle].
    destruct (pending_is_empty _); apply reacts_idle; cbn; rewrite ?acknowledge_events; done.
Qed.

(** Only what it reads makes cad process a request. *)
Lemma cad_branch_reacts branch c (s : St) z s' : cad_ok limits (cl_ca c) ->
  cad_session_branch branch c s = (z, s') ->
  match branch with
  | BrokerFrameReady now _ => reacts now c (events z.1) z.2
  | _ => cl_ca z.2 = cl_ca c /\ processed_events (events z.1) = []
  end.
Proof.
  intros Hc. destruct branch as [now ids|]; cbn [cad_session_branch].
  - destruct (framed_next no_deadline s) as [[[bytes|]|e|] s0]; [|intros [= <- <-]; by apply reacts_idle..].
    intros [= <- <-]. by apply cad_incoming_reacts.
  - by destruct (pending_is_empty _); intros [= <- <-].
Qed.
End cad.

(** ** The deployment *)

Section deployment.
Context `{HC : CryptoLaws} `{Hex} {Ch St E Sl El : Type} `{HM : MpscLaws Ch}
  `{HF : TokioFramedLaws St E} `{HL : LinkCodecLaws Sl El} `{Sha256}.
Context (args : Args) (broker_psk : array 32) (config : Config) (files : Text -> option Text) (disk : Disk)
  (v : StoreView) (rng : Rng) (psk : array 32) (c : CaLink CaState).
Implicit Types (steps : list (DeploymentStep Ch St Sl CaState)) (x : StreamSystem (Daemon Ch St) CaState Sl).

Abbreviation limits := (resolve (cfg_limits config)).
Abbreviation ttl := (lim_replay_ttl_seconds limits).
Abbreviation run := (deployed (El:=El) args broker_psk config psk c).

(** Before the [n]-th step: the daemons, and what cad stands for; and what the step adds
    to the log. *)
Definition streams_at steps (n : nat) : StreamSystem (Daemon Ch St) CaState Sl := dp_streams (run (take n steps)).
Definition service_at steps (n : nat) : Service := service_of (cl_ca (ss_ca (streams_at steps n))).
Definition happened steps (n : nat) : list LinkEvent :=
  drop (length (ss_log (streams_at steps n))) (ss_log (streams_at steps (S n))).

(** Every reload in the run is what cad makes of some file, such as [K] allows. *)
Definition reloads_of (K : CadEvent -> Prop) steps : Prop := forall n ca, steps !! n = Some (LinkDoes (CadReloads ca)) ->
  exists candidate found, ca = cad_reload candidate found (cl_ca (ss_ca (streams_at steps n))) /\
    K (Reloads candidate found).
Definition own_reloads : list (DeploymentStep Ch St Sl CaState) -> Prop := reloads_of (fun _ => True).

(** What a step of the link is to the service: cad answers the request it reads, at the
    time of the step; it reloads its configuration; and the others are nothing. *)
Definition step_label (st : StreamStep (Daemon Ch St) CaState Sl) x (more : list LinkEvent) (label : option ServiceLabel) : Prop :=
  match st with
  | CadDoes (BrokerFrameReady now _) => Forall2 (tells now) (processed_events more) (option_list label)
  | CadReloads ca => processed_events more = [] /\
      exists candidate found, ca = cad_reload candidate found (cl_ca (ss_ca x)) /\
        label = reload_label candidate found (cl_ca (ss_ca x))
  | _ => processed_events more = [] /\ label = None
  end.

(** The label of the [n]-th step. *)
Definition labelled steps (n : nat) (label : option ServiceLabel) : Prop :=
  exists st, steps !! n = Some st /\
    step_label (link_step_of args st (run (take n steps))) (streams_at steps n) (happened steps n) label.

(** The CA processed the request in the [n]-th step, at this time. *)
Definition handled_at steps (n : nat) (now : N) (request : frame) (ds : list (MessageId * frame)) : Prop :=
  (exists ids, steps !! n = Some (LinkDoes (CadDoes (BrokerFrameReady now ids)))) /\
  exists rid, Handled rid request ds ∈ happened steps n.

Abbreviation step := (stream_step (E:=El) (ca_link_config args broker_psk) psk (cad_auth_deadline config)
  (cad_io_deadline config)).
Abbreviation serving x := (service_of (cl_ca (ss_ca x))).

Definition reloads_own (K : CadEvent -> Prop) (st : StreamStep (Daemon Ch St) CaState Sl) x : Prop :=
  forall ca, st = CadReloads ca ->
    exists candidate found, ca = cad_reload candidate found (cl_ca (ss_ca x)) /\ K (Reloads candidate found).

(** A step does to the service what its label says. *)
Lemma step_serves st x : cad_ok limits (cl_ca (ss_ca x)) -> reloads_own (fun _ => True) st x ->
  cad_ok limits (cl_ca (ss_ca (step st x))) /\
  exists more label, ss_log (step st x) = ss_log x ++ more /\ step_label st x more label /\
    service_does ttl (serving x) label (serving (step st x)).
Proof.
  intros Hok Hreload.
  assert (forall x' more, ss_ca x' = ss_ca x -> ss_log x' = ss_log x ++ more -> processed_events more = [] ->
    match st with CadDoes (BrokerFrameReady _ _) | CadReloads _ => False | _ => True end ->
    cad_ok limits (cl_ca (ss_ca x')) /\ exists more label, ss_log x' = ss_log x ++ more /\
      step_label st x more label /\ service_does ttl (serving x) label (serving x')) as Hidle.
  { intros x' more Hca Hlog Hmore Hst. rewrite Hca. split; [done|]. exists more, None. split; [done|]. split; [|done].
    by destruct st as [| |[]| |]. }
  assert (match st with CadDoes (BrokerFrameReady _ _) => True | _ => False end -> forall x', x' = x ->
    cad_ok limits (cl_ca (ss_ca x')) /\ exists more label, ss_log x' = ss_log x ++ more /\
      step_label st x more label /\ service_does ttl (serving x) label (serving x')) as Hdown.
  { intros Hst x' ->. split; [done|]. exists [], None. rewrite app_nil_r. split; [done|]. split; [|done].
    by destruct st as [| |[]| |]; try done; constructor. }
  destruct st as [sb sc challenge bytes|branch|branch|router|ca]; cbn [stream_step].
  - apply (Hidle _ []); rewrite ?app_nil_r; unfold connection_step; try case_match; done.
  - unfold broker_does. destruct (ss_connection x) as [[b e]|]; [|by apply (Hidle _ []); rewrite ?app_nil_r].
    destruct (le_up b); [|by apply (Hidle _ []); rewrite ?app_nil_r].
    destruct (run_ca_session_branch branch (ss_broker x) (le_stream b)) as [z s] eqn:Hrun.
    destruct (settle_session _ z s) as [[p broker] s'].
    apply (Hidle _ (events z.1)); [done..| |done]. by eapply broker_branch_unprocessed.
  - unfold cad_does. destruct (ss_connection x) as [[b e]|];
      [|by destruct branch; [apply Hdown|apply (Hidle _ []); rewrite ?app_nil_r]].
    destruct (le_up e); [|by destruct branch; [apply Hdown|apply (Hidle _ []); rewrite ?app_nil_r]].
    destruct (cad_session_branch branch (ss_ca x) (le_stream e)) as [z s] eqn:Hrun.
    destruct (settle_session _ z s) as [[p ca] s'] eqn:Hset. apply settle_state in Hset as ->.
    apply (cad_branch_reacts limits) in Hrun; [|done]. cbn [ss_ca ss_log]. destruct branch as [now ids|].
    + destruct Hrun as (Hok' & label & Hlabel & Hdoes). split; [done|]. by exists (events z.1), label.
    + destruct Hrun as (Hca & Hmore). split; [by rewrite Hca|]. exists (events z.1), None. split; [done|].
      split; [done|]. by rewrite Hca.
  - by apply (Hidle _ []); rewrite ?app_nil_r.
  - destruct (Hreload _ eq_refl) as (candidate & found & -> & _).
    destruct (reload_service limits candidate found _ Hok) as [Hok' Hdoes]. split; [done|].
    exists [], (reload_label candidate found (cl_ca (ss_ca x))). rewrite app_nil_r. split; [done|].
    split; [|done]. split; [done|]. by exists candidate, found.
Qed.

(** *** Along a run *)

Lemma streams_next steps n st : steps !! n = Some st ->
  streams_at steps (S n) = step (link_step_of args st (run (take n steps))) (streams_at steps n).
Proof. intros Hn. unfold streams_at. by rewrite (take_S_r _ _ _ Hn), deployed_snoc. Qed.

Lemma reloads_at K steps n st : reloads_of K steps -> steps !! n = Some st ->
  reloads_own K (link_step_of args st (run (take n steps))) (streams_at steps n).
Proof.
  intros Hown Hn ca Hst. destruct st as [st|st]; cbn [link_step_of] in Hst; [discriminate Hst|]. subst st. by apply Hown.
Qed.

Lemma reloads_of_own K steps : reloads_of K steps -> own_reloads steps.
Proof. intros HK n ca Hn. destruct (HK n ca Hn) as (candidate & found & ? & _). by exists candidate, found. Qed.

Lemma cad_ok_at steps n : own_reloads steps -> cad_ok limits (cl_ca c) ->
  cad_ok limits (cl_ca (ss_ca (streams_at steps n))).
Proof.
  intros Hown Hc. induction n as [|n IH]; [done|]. destruct (steps !! n) as [st|] eqn:Hn.
  - rewrite (streams_next _ _ _ Hn). apply step_serves; [done|]. by apply reloads_at.
  - unfold streams_at in *. apply lookup_ge_None in Hn. rewrite take_ge in IH |- * by lia. done.
Qed.

Lemma serves_at steps n : own_reloads steps -> cad_ok limits (cl_ca c) -> n < length steps ->
  ss_log (streams_at steps (S n)) = ss_log (streams_at steps n) ++ happened steps n /\
  exists label, labelled steps n label /\ service_does ttl (service_at steps n) label (service_at steps (S n)).
Proof.
  intros Hown Hc [st Hn]%lookup_lt_is_Some. pose proof (reloads_at _ _ _ _ Hown Hn) as Hreload.
  destruct (step_serves _ _ (cad_ok_at _ n Hown Hc) Hreload) as (_ & more & label & Hlog & Hlabel & Hdoes).
  rewrite <-(streams_next _ _ _ Hn) in Hlog, Hdoes. assert (happened steps n = more) as Hmore.
  { unfold happened. by rewrite Hlog, drop_app_length. }
  rewrite Hmore. split; [done|]. exists label. split; [|done]. exists st. by rewrite Hmore.
Qed.

(** What is in the log happened in some step. *)
Lemma logged_at steps n ev : own_reloads steps -> cad_ok limits (cl_ca c) -> n <= length steps ->
  ev ∈ ss_log (streams_at steps n) -> exists m, m < n /\ ev ∈ happened steps m.
Proof.
  intros Hown Hc. induction n as [|n IH]; intros Hn; [by intros ?%elem_of_nil|].
  destruct (serves_at steps n Hown Hc Hn) as [-> _]. intros [Hin|Hin]%elem_of_app.
  - destruct (IH ltac:(lia) Hin) as (m & ? & ?). exists m. split; [lia|done].
  - exists n. split; [lia|done].
Qed.

(** A step with a processed event, and with an answer. *)
Lemma labelled_handled steps n label rid request ds : labelled steps n label ->
  Handled rid request ds ∈ happened steps n ->
  exists now, handled_at steps n now request ds /\ label = Some (Answers request now (ds.*2)).
Proof.
  intros (st & Hn & Hlabel) Hin. pose proof (processed_handled _ _ _ _ Hin) as Hp.
  assert (processed_events (happened steps n) <> []) as Hne by (intros Hnil; rewrite Hnil in Hp; by apply elem_of_nil in Hp).
  destruct st as [st|st]; cbn [link_step_of step_label] in Hlabel; [by destruct Hlabel|].
  destruct st as [| |[now ids|]| |]; cbn [step_label] in Hlabel; [by destruct Hlabel| by destruct Hlabel| | by destruct Hlabel..].
  exists now. split; [split; [by exists ids|by exists rid]|].
  apply list_elem_of_lookup in Hp as [i Hi]. destruct (Forall2_lookup_l _ _ _ _ _ Hlabel Hi) as (l & Hl & Ht).
  destruct label as [label|]; [|done]. apply list_elem_of_lookup_2, list_elem_of_singleton in Hl as ->. by rewrite Ht.
Qed.

Lemma labelled_unanswered steps n request now : labelled steps n (Some (Answers request now [])) ->
  exists ds, handled_at steps n now request ds.
Proof.
  intros (st & Hn & Hlabel). destruct st as [st|st]; cbn [link_step_of step_label] in Hlabel; [by destruct Hlabel|].
  destruct st as [| |[now' ids|]| |ca]; cbn [step_label option_list] in Hlabel; [by destruct Hlabel|by destruct Hlabel| |
    by destruct Hlabel|by destruct Hlabel|].
  - destruct (processed_events (happened steps n)) as [|ev l] eqn:Hp; [by apply Forall2_nil_inv_l in Hlabel|].
    apply Forall2_cons in Hlabel as [Ht _].
    assert (ev ∈ happened steps n) as Hin.
    { assert (ev ∈ processed_events (happened steps n)) as (ev' & Hin & Hev)%list_elem_of_omap by (rewrite Hp; by left).
      destruct ev'; try done; by injection Hev as <-. }
    destruct ev as [| | |rid request' ds|rid request']; try done.
    + injection Ht as <- <- _. exists ds. split; [by exists ids|by exists rid].
    + by destruct Ht as (frames & [= _ _ <-] & []).
  - destruct Hlabel as (_ & candidate & found & _ & Hl). unfold reload_label in Hl. by repeat case_match.
Qed.

(** The labels of a run. *)
Lemma run_labels steps : own_reloads steps -> cad_ok limits (cl_ca c) ->
  exists labels, length labels = length steps /\ forall n label, labels !! n = Some label ->
    labelled steps n label /\ service_does ttl (service_at steps n) label (service_at steps (S n)).
Proof.
  intros Hown Hc. apply list_choice. intros n Hn. by apply serves_at.
Qed.

Lemma run_serves steps labels start : service_equiv start (service_of (cl_ca c)) -> length labels = length steps ->
  (forall n label, labels !! n = Some label -> service_does ttl (service_at steps n) label (service_at steps (S n))) ->
  forall n, n <= length steps -> service_run ttl start (omap id (take n labels)) (service_at steps n).
Proof.
  intros Hstart Hlen Hdoes n. induction n as [|n IH]; intros Hn; [by constructor|].
  destruct (lookup_lt_is_Some_2 labels n) as [label Hl]; [lia|]. rewrite (take_S_r _ _ _ Hl), omap_app.
  assert (omap id [label] = option_list label) as -> by (by destruct label).
  eapply service_run_does; [apply IH; lia|by apply Hdoes].
Qed.

(** *** Where the stored subscriptions come from *)

Lemma slots_at steps n : own_reloads steps -> cad_ok limits (cl_ca c) -> slots_ok (service_at steps n).2.
Proof.
  intros Hown Hc k sub. exact (slot_law (CaStoreLaws:=within_laws limits) _ k sub (cok_inv _ _ (cad_ok_at steps n Hown Hc))).
Qed.

(** The agent asked for the subscription, before the [n]-th step: a request that came in on
    its socket is authentic in the state in which cad processed it. *)
Definition asked_for steps (n : nat) (id : AgentId) (sub : StoredSubscription) : Prop :=
  exists m now request ds, m < n /\ handled_at steps m now request ds /\
    (id, request) ∈ dp_requests (run steps) /\
    subscribes_in (service_at steps m).1 (service_at steps m).2 now request sub.

Lemma stored_at steps n sub : own_reloads steps -> cad_ok limits (cl_ca c) -> n <= length steps ->
  view_stored (service_at steps n).2 (sub_slot sub) = Some sub ->
  view_stored (service_at steps 0).2 (sub_slot sub) = Some sub \/
  exists m now request ds, m < n /\ handled_at steps m now request ds /\
    subscribes_in (service_at steps m).1 (service_at steps m).2 now request sub.
Proof.
  intros Hown Hc. induction n as [|n IH]; intros Hn Hsub; [by left|].
  assert (view_stored (service_at steps n).2 (sub_slot sub) = Some sub \/
    exists now request ds, handled_at steps n now request ds /\
      subscribes_in (service_at steps n).1 (service_at steps n).2 now request sub) as [Hold|Hnew].
  { destruct (serves_at steps n Hown Hc Hn) as (_ & label & Hlabel & Hdoes). destruct label as [label|].
    - destruct Hdoes as (s1 & Hstep & _ & _ & _ & Hs & _). rewrite <-Hs in Hsub.
      destruct (step_stored _ _ _ _ _ _ (slots_at steps n Hown Hc) Hstep Hsub)
        as [?|(_ & request & now & -> & Hasks)]; [by left|right].
      destruct (labelled_unanswered _ _ _ _ Hlabel) as [ds Hat]. by exists now, request, ds.
    - destruct Hdoes as (_ & _ & _ & Hs & _). left. by rewrite Hs. }
  - destruct (IH ltac:(lia) Hold) as [?|(m & now & request & ds & ? & ?)]; [by left|right].
    exists m, now, request, ds. split; [lia|done].
  - right. destruct Hnew as (now & request & ds & ?). exists n, now, request, ds. split; [lia|done].
Qed.

(** *** The keys of an agent *)

Definition provisioned_key (id : AgentId) (k : PublicKeys) (s : Service) : Prop := view_keys s.2 !! id = Some k.

(** Only reloads configure. *)
Lemma labelled_configures steps n ca agents : labelled steps n (Some (Configures ca agents)) ->
  exists ca', steps !! n = Some (LinkDoes (CadReloads ca')).
Proof.
  intros (st & Hst & Hlabel). destruct st as [st|st]; cbn [link_step_of step_label] in Hlabel; [by destruct Hlabel|].
  destruct st as [| |[now' ids|]| |ca']; cbn [step_label option_list] in Hlabel; try (by destruct Hlabel); [|by exists ca'].
  destruct (processed_events (happened steps n)) as [|ev l]; [by apply Forall2_nil_inv_l in Hlabel|].
  apply Forall2_cons in Hlabel as [Ht _]. destruct ev; try done. by destruct Ht as (? & ? & _).
Qed.

Lemma key_at id k steps n : reloads_of (keeps_agent id k) steps -> cad_ok limits (cl_ca c) ->
  provisioned_key id k (service_of (cl_ca c)) -> provisioned_key id k (service_at steps n).
Proof.
  intros Hkeep Hc Hk. pose proof (reloads_of_own _ _ Hkeep) as Hown.
  induction n as [|n IH]; [done|]. destruct (decide (n < length steps)) as [Hn|Hge]; cycle 1.
  { unfold service_at, streams_at in *. rewrite take_ge in IH |- * by lia. done. }
  destruct (serves_at steps n Hown Hc Hn) as (_ & label & Hlabel & Hdoes).
  unfold provisioned_key in *. destruct label as [[request now frames|ca agents]|].
  - destruct Hdoes as (s1 & Hstep & _ & Heq & _). rewrite <-Heq.
    apply step_confined in Hstep as (r & Hconf & _); [|by apply slots_at].
    by rewrite (confined_keys _ _ _ _ _ _ Hconf).
  - apply labelled_configures in Hlabel as [ca' Hst]. destruct (Hkeep n ca' Hst) as (candidate & found & Hca & HK).
    unfold service_at. rewrite (streams_next _ _ _ Hst). cbn [link_step_of stream_step ss_ca cl_ca service_of snd].
    rewrite Hca. destruct (cad_ok_at steps n Hown Hc) as [Hs [Hd _]].
    destruct (cad_reload_cases _ candidate found _ Hs Hd) as (_ & _ & _ & Hcase).
    destruct Hcase as [[_ (Hv & _)]|(config' & found' & policy & Hcand & Ha & _ & _ & (Hv & _))];
      rewrite Hv; [done|]. by eapply HK.
  - destruct Hdoes as (_ & Heq & _). by rewrite <-Heq.
Qed.

(** *** What is routed *)

(** Why a delivery was made for an agent: in the [n]-th step, at this time, cad processed
    a request that came in on the socket of its publisher, and the CA and the store, as
    they stood then, authorise it for a subscription of the agent; which was on the disk,
    or the agent asked for it. *)
Record authorised_at steps (n : nat) (now : N) (id publisher : AgentId) (request f : frame)
    (sub : StoredSubscription) : Prop := mkAuthorisedAt {
  aa_handled : exists ds, handled_at steps n now request ds /\ f ∈ ds.*2;
  aa_socket : (publisher, request) ∈ dp_requests (run steps);
  aa_authorized : authorized_in (service_at steps n).1 (service_at steps n).2 ttl now publisher request f sub;
  aa_subscriber : sub_subscriber sub = id;
  aa_asked : view_stored v (sub_slot sub) = Some sub \/ asked_for steps n id sub;
}.

(** The requests of the run are processed by its CA. *)
Lemma handled_socket steps n now request ds : started_run (El:=El) args broker_psk config files disk v rng psk c steps ->
  own_reloads steps -> cad_ok limits (cl_ca c) -> n < length steps -> handled_at steps n now request ds ->
  exists agent e, (agent, request) ∈ dp_requests (run steps) /\ parse_envelope request = Ok e /\ env_sender e = agent.
Proof.
  intros Hstarted Hown Hc Hn (_ & rid & Hin). eapply handled_from_socket; [exact Hstarted|].
  assert (forall m, n < m -> m <= length steps -> Handled rid request ds ∈ ss_log (streams_at steps m)) as Hlog.
  { induction m as [|m IH]; intros Hlt Hm; [lia|]. destruct (serves_at steps m Hown Hc Hm) as [-> _].
    apply elem_of_app. destruct (decide (n = m)) as [->|Hne]; [by right|left]. apply IH; lia. }
  specialize (Hlog (length steps) Hn (le_n _)). unfold streams_at in Hlog. rewrite firstn_all in Hlog. exact Hlog.
Qed.

Lemma routed_authorised steps id f : started_run (El:=El) args broker_psk config files disk v rng psk c steps ->
  own_reloads steps -> f ∈ routed_to id (ss_log (dp_streams (run steps))) ->
  exists n now publisher request sub, n < length steps /\ authorised_at steps n now id publisher request f sub.
Proof.
  intros Hstarted Hown Hf.
  destruct (routed_handled _ _ _ _ _ _ _ _ _ _ _ _ Hstarted Hf) as (Hid & rid & request & ds & Hin & Hds).
  destruct (start_service _ _ _ _ _ _ _ (sr_disk _ _ _ _ _ _ _ _ _ _ Hstarted) (sr_start _ _ _ _ _ _ _ _ _ _ Hstarted))
    as (Hc & configured & _ & _ & _ & _ & Hs & _).
  destruct (logged_at steps (length steps) (Handled rid request ds) Hown Hc) as (n & Hn & Hat);
    [done|by unfold streams_at; rewrite firstn_all|].
  destruct (serves_at steps n Hown Hc Hn) as (_ & label & Hlabel & Hdoes).
  destruct (labelled_handled _ _ _ _ _ _ Hlabel Hat) as (now & Hhandled & ->). destruct Hdoes as (s1 & Hstep & _).
  destruct (step_authorized _ _ _ _ _ _ _ Hstep Hds) as (publisher & sub & Hauth).
  exists n, now, publisher, request, sub. split; [done|].
  destruct (handled_socket _ _ _ _ _ Hstarted Hown Hc Hn Hhandled) as (agent & e & Hreq & Hparse & Hagent).
  destruct (authorized_sender _ _ _ _ _ _ _ _ Hauth) as (e' & Hparse' & <-).
  rewrite Hparse in Hparse'. injection Hparse' as <-.
  pose proof Hauth as (? & ? & ? & ? & ? & ? & _ & _ & _ & _ & _ & _ & Hstored & _ & _ & Hrec).
  assert (sub_subscriber sub = id) as Hsub by congruence. constructor; [by exists ds|by rewrite Hagent|done..|].
  destruct (stored_at steps n sub Hown Hc ltac:(lia) Hstored) as [Hold|(m & now' & request' & ds' & Hm & Hat' & Hasks)].
  - left. change (view_stored (service_of (cl_ca c)).2 (sub_slot sub) = Some sub) in Hold. rewrite <-Hs in Hold.
    cbn in Hold. by case_match.
  - right. exists m, now', request', ds'. do 2 (split; [done|]). split; [|done].
    destruct (handled_socket _ m _ _ _ Hstarted Hown Hc ltac:(lia) Hat') as (agent' & e2 & Hreq' & Hparse2 & Hagent').
    destruct Hasks as (e3 & (Hchk & _) & Hsender & _).
    apply process_checks_Ok in Hchk as (Hparse3 & _). rewrite Hparse2 in Hparse3. injection Hparse3 as <-.
    by rewrite <-Hsub, <-Hsender, Hagent'.
Qed.
End deployment.

(** ** The properties *)

(** C4: The deployment is the publish/subscribe service. In every run of brokerd and cad,
    where connections break and agents come and go at any moment and reloads are those of
    cad, each step is labelled: a step in which cad processes a request with this request,
    its time and its answer, a reload that takes effect with what the file says, and every
    other step, in which nothing is processed, with nothing. And before each step cad
    stands where the abstract service stands after the labels so far: from the CA and the
    agents that the configuration and its files say, with what the disk held for those
    agents, and by no other steps. What is on the disk is what cad stands for, too. *)
Theorem deployment_refines_service `{HC : CryptoLaws} `{Hex} `{HM : MpscLaws Ch} `{HF : TokioFramedLaws St E}
    `{HL : LinkCodecLaws Sl El} `{Sha256} args broker_psk config files disk v rng psk c
    (steps : list (DeploymentStep Ch St Sl CaState)) :
  ready (resolve (cfg_limits config)) disk v -> cad_start config files disk rng = Ok (psk, c) ->
  own_reloads args broker_psk config psk c steps ->
  (exists configured labels, read_configuration config files = Ok configured /\
     length labels = length steps /\
     (forall n label, labels !! n = Some label -> labelled args broker_psk config psk c steps n label) /\
     forall n, n <= length steps ->
       service_run (lim_replay_ttl_seconds (resolve (cfg_limits config)))
         (cf_ca configured, retain_view (list_to_map (cf_agents configured)) v) (omap id (take n labels))
         (service_at args broker_psk config psk c steps n)) /\
  let s := cl_ca (ss_ca (dp_streams (deployed args broker_psk config psk c steps))) in
  reopens (resolve (cfg_limits config)) (ps_snapshot s.2.1) (persistent_view s.2.1).
Proof.
  intros Hre Hstart Hown. destruct (start_service _ _ _ _ _ _ _ Hre Hstart) as (Hc & configured & Hconf & Heq). split.
  - destruct (run_labels _ _ _ _ _ steps Hown Hc) as (labels & Hlen & Hall). exists configured, labels.
    do 2 (split; [done|]). split; [intros n label Hn; by apply Hall|].
    apply run_serves; [done..|]. intros n label Hn. by apply Hall.
  - pose proof (cad_ok_at _ _ _ _ _ steps (length steps) Hown Hc) as [_ [Hd Hl]].
    unfold streams_at in Hd, Hl. rewrite firstn_all in Hd, Hl. pose proof (durable_file _ Hd) as Hfile.
    by rewrite Hl in Hfile.
Qed.

(** C6: Nobody receives what they did not ask for, or should not get. In every run of the
    daemons as they are started, each delivery routed to an agent, and so each frame on
    its sockets, was made in a step in which cad processed a request that came in on the
    socket of its publisher. By the keys, the policy and the store of cad before this very
    step, and at its time, the request is authentic, fresh, and publishes under an
    environment the policy accepts; and the delivery is for a subscription of that agent
    that is stored there, where both predicates hold and the policy authorises the pair,
    under the handler the agent gave. The subscription was on the disk when cad started,
    or cad processed in an earlier step a request of the agent that asks for it: signed
    with the key the agent was then provisioned with, and read from its own socket. *)
Theorem deliveries_were_subscribed `{HC : CryptoLaws} `{Hex} `{HM : MpscLaws Ch} `{HF : TokioFramedLaws St E}
    `{HL : LinkCodecLaws Sl El} `{Sha256} args broker_psk config files disk v rng psk c
    (steps : list (DeploymentStep Ch St Sl CaState)) :
  started_run args broker_psk config files disk v rng psk c steps ->
  own_reloads args broker_psk config psk c steps ->
  forall id f, f ∈ routed_to id (ss_log (dp_streams (deployed args broker_psk config psk c steps))) ->
    exists n now publisher request sub, n < length steps /\
      authorised_at args broker_psk config v psk c steps n now id publisher request f sub.
Proof. intros Hstarted Hown id f Hf. by eapply routed_authorised. Qed.

Lemma example_reloads K psk c : reloads_of (H:=Toy.crypto) (H0:=ConfigExample.hex) (H2:=DaemonExample.stream)
  (H3:=LinkStreamsExample.stream) (Sl:=LinkStreamsExample.Stream) (Ch:=ListChannel) (H4:=HandshakeExample.sha)
  DeploymentExample.args SpecExample.secret SpecExample.config psk c K DeploymentExample.steps.
Proof.
  intros n ca Hn%list_elem_of_lookup_2. pose proof DeploymentExample.steps_ok as Hok. rewrite Forall_forall in Hok.
  destruct (Hok _ Hn) as [_ []].
Qed.

Abbreviation example_service psk c := (service_at (H:=Toy.crypto) (H2:=DaemonExample.stream)
  (H3:=LinkStreamsExample.stream) (Sl:=LinkStreamsExample.Stream) (Ch:=ListChannel) (H4:=HandshakeExample.sha)
  DeploymentExample.args SpecExample.secret SpecExample.config psk c DeploymentExample.steps).
Abbreviation example_authorised psk c := (authorised_at (H:=Toy.crypto) (H2:=DaemonExample.stream)
  (H3:=LinkStreamsExample.stream) (Sl:=LinkStreamsExample.Stream) (Ch:=ListChannel) (H4:=HandshakeExample.sha)
  DeploymentExample.args SpecExample.secret SpecExample.config DeploymentExample.view psk c DeploymentExample.steps).

Lemma deployment_refines_service_witness :
  exists psk c, SpecExample.started = Ok (psk, c) /\
    exists configured (labels : list (option ServiceLabel)),
      read_configuration SpecExample.config ServiceExample.files = Ok configured /\
      length labels = length DeploymentExample.steps /\
      service_run (H:=Toy.crypto) (lim_replay_ttl_seconds (resolve (cfg_limits SpecExample.config)))
        (cf_ca configured, retain_view (list_to_map (cf_agents configured)) DeploymentExample.view)
        (omap Datatypes.id (take (length DeploymentExample.steps) labels))
        (example_service psk c (length DeploymentExample.steps)).
Proof.
  destruct SpecExample.cad_starts as (psk & c & Hstart). exists psk, c. split; [exact Hstart|].
  pose proof (deployment_refines_service (HC:=Toy.laws) (HF:=DaemonExample.stream_laws)
    (HL:=LinkStreamsExample.codec_laws) (H4:=HandshakeExample.sha) DeploymentExample.args SpecExample.secret
    SpecExample.config ServiceExample.files ServiceExample.disk DeploymentExample.view 0%N psk c DeploymentExample.steps
    SpecExample.disk_ready Hstart (example_reloads (fun _ => True) psk c)) as [Hrefines _].
  destruct Hrefines as (configured & labels & Hconf & Hlen & _ & Hrun).
  exists configured, labels. exact (conj Hconf (conj Hlen (Hrun _ (le_n _)))).
Defined.

Lemma deliveries_were_subscribed_witness :
  exists psk c, SpecExample.started = Ok (psk, c) /\
    exists n now publisher request sub, n < length DeploymentExample.steps /\
      example_authorised psk c n now SpecExample.bob publisher request SpecExample.delivery sub.
Proof.
  destruct SpecExample.cad_starts as (psk & c & Hstart). exists psk, c. split; [exact Hstart|].
  destruct (DeploymentExample.deploys _ _ Hstart) as (Hrun & _ & Hro).
  pose proof (deliveries_were_subscribed (HC:=Toy.laws) (HF:=DaemonExample.stream_laws)
    (HL:=LinkStreamsExample.codec_laws) (H4:=HandshakeExample.sha) DeploymentExample.args SpecExample.secret
    SpecExample.config ServiceExample.files ServiceExample.disk DeploymentExample.view 0%N psk c DeploymentExample.steps)
    as Hauth.
  specialize (Hauth Hrun (example_reloads (fun _ => True) psk c) SpecExample.bob SpecExample.delivery).
  rewrite Hro in Hauth. apply Hauth. by left.
Defined.
