(* ===== verification/SubscriberEnd.v ===== *)
(** From the sockets of brokerd to what the bundled agents report: the programs of
    [AgentRuns] at the other end of the connections of [Deployment]. *)

From stdpp Require Import functions.
From S2P Require Export DeploymentService AgentRuns.

(** ** The codec at both ends

    [LengthDelimitedCodec] yields the frames of what it read and nothing else, and puts
    frames on the stream in order, of which a write that fails may leave a part. *)
Class FrameCodecLaws (St E : Type) `{HF : TokioFramedLaws St E} := {
  codec_send d frame s r s' : framed_inv s -> framed_send d frame s = (r, s') ->
    exists part, part `prefix_of` frame_wire frame /\ framed_output s' = framed_output s ++ part;
  codec_next d s frame s' : framed_inv s -> framed_next d s = (Ok (Some frame), s') ->
    framed_input s = frame_wire frame ++ framed_input s';
}.

(** A stream that carries frames with [P] and nothing else; it may end within one. *)
Definition fed (P : frame -> Prop) (bytes : list byte) : Prop :=
  exists g, Forall P g /\ bytes `prefix_of` wire g.

Lemma fed_nil P : fed P [].
Proof. exists []. by split; [constructor|]. Qed.

Lemma fed_mono P Q bytes : (forall f, P f -> Q f) -> fed P bytes -> fed Q bytes.
Proof. intros HPQ (g & Hg & Hp). exists g. split; [|done]. by eapply Forall_impl. Qed.

Lemma fed_prefix P bytes bytes' : bytes `prefix_of` bytes' -> fed P bytes' -> fed P bytes.
Proof. intros Hp (g & Hg & Hp'). exists g. split; [done|]. by etrans. Qed.

Lemma fed_wire P g part f : Forall P g -> P f -> part `prefix_of` frame_wire f -> fed P (wire g ++ part).
Proof.
  intros Hg Hf Hp. exists (g ++ [f]). split; [by apply Forall_app; rewrite Forall_singleton|].
  rewrite wire_app. apply prefix_app. unfold wire. cbn. by rewrite app_nil_r.
Qed.

(** The first frame that is read is the first of those. *)
Lemma fed_next P f rest : (forall f, P f -> length f <= MAX_FRAME_LEN) -> length f <= MAX_FRAME_LEN ->
  fed P (frame_wire f ++ rest) -> P f /\ fed P rest.
Proof.
  intros HP Hf (g & Hg & [more Hmore]). rewrite <-app_assoc in Hmore. destruct g as [|f' g].
  - symmetry in Hmore. by apply frame_wire_nonempty in Hmore.
  - apply Forall_cons in Hg as [Hf' Hg]. unfold wire in Hmore. cbn [fmap list_fmap concat] in Hmore.
    apply frame_wire_inj in Hmore as [-> Hrest]; [|by apply HP|done]. split; [done|].
    exists g. split; [done|]. by exists more.
Qed.

(** ** The agents *)

Section agents.
Context `{Crypto, Hex} {St E C : Type} `{HC : FrameCodecLaws St E} `{Clock C}.
Context (common : AgentConfig) (agent : Agent) (P : frame -> Prop).
Context (HP : forall f, P f -> length f <= MAX_FRAME_LEN).
Implicit Types (p : Platform St E C) (t : FramedTransport St) (d : Dialer St E).

Definition feeds t : Prop := framed_inv (ft_framed t) /\ fed P (framed_input (ft_framed t)).

(** Connections to come are fed, too. *)
Definition attempt_feeds (a : Attempt St E) : Prop :=
  match at_connected a with Some (inl s) => framed_inv s /\ fed P (framed_input s) | _ => True end.
Definition dialer_feeds d : Prop := Forall attempt_feeds (dl_attempts d).

Lemma tokio_send_feeds f t r t' : feeds t -> tokio_send f t = (r, t') -> feeds t'.
Proof.
  intros [Hi Hf]. unfold tokio_send. destruct (_ <? _); [by intros [= _ <-]|].
  destruct (framed_send _ _ _) as [r0 s] eqn:Hs. apply framed_send_law in Hs as (Hi' & Hin & _); [|done].
  intros [= _ <-]. split; [done|]. cbn [ft_framed]. by rewrite Hin.
Qed.

Lemma tokio_receive_feeds t f t' : feeds t -> tokio_receive t = (Ok f, t') -> P f /\ feeds t'.
Proof.
  intros [Hi Hf]. unfold tokio_receive. destruct (framed_next _ _) as [r s] eqn:Hn.
  destruct r as [[bytes|]|e|]; [|done..]. destruct (Nat.leb_spec (length bytes) MAX_FRAME_LEN) as [Hlen|]; [|done].
  intros [= -> <-]. pose proof Hn as [Hi' _]%framed_next_output; [|done]. apply codec_next in Hn as Hin; [|done].
  rewrite Hin in Hf. apply fed_next in Hf as [? ?]; done.
Qed.

Lemma connect_loop_feeds attempts : forall deadline maximum backoff slept dropped r d,
  Forall attempt_feeds attempts ->
  connect_loop attempts (agent_id agent) deadline maximum backoff slept dropped = (r, d) ->
  dialer_feeds d /\ forall t, r = Some t -> feeds t.
Proof.
  induction attempts as [|a attempts IH]; intros deadline maximum backoff slept dropped r d Hall;
    cbn [connect_loop]; [by intros [= <- <-]|].
  apply Forall_cons in Hall as [Ha Hall]. unfold tokio_connect, attempt_feeds in *.
  destruct (at_connected a) as [[s|e]|]; [|by apply IH..].
  destruct (at_nodelay a); [by apply IH|].
  destruct (tokio_send_hello _ _) as [[[]|e|] t'] eqn:Hs; [|by apply IH..].
  apply tokio_send_feeds in Hs; [|done]. intros [= <- <-]. split; [done|]. by intros t [= <-].
Qed.

Lemma connect_agent_feeds d r d' : dialer_feeds d -> connect_agent common (agent_id agent) d = (r, d') ->
  dialer_feeds d' /\ forall t, r = Some t -> feeds t.
Proof. apply connect_loop_feeds. Qed.

Lemma send_loop_feeds f fuel : forall t d r d', feeds t -> dialer_feeds d ->
  send_loop fuel common (agent_id agent) f t d = (r, d') -> dialer_feeds d' /\ forall t', r = Some t' -> feeds t'.
Proof.
  induction fuel as [|fuel IH]; intros t d r d' Ht Hd; cbn [send_loop];
    destruct (tokio_send f t) as [r1 t1] eqn:Hs; apply tokio_send_feeds in Hs; try done;
    destruct (connect_agent common (agent_id agent) d) as [rc d1] eqn:Hc;
    apply connect_agent_feeds in Hc as [Hd1 Ht1]; try done;
    (destruct r1 as [[]|e|]; [by intros [= <- <-]; split; [done|]; intros ? [= <-]|..]);
    (destruct rc as [t2|]; [|by intros [= <- <-]]); try (by intros [= <- <-]);
    (apply IH; [by apply Ht1|exact Hd1]).
Qed.

(** *** The loops *)

Definition platform_feeds p : Prop := dialer_feeds (pf_dialer p).
Definition connection_feeds (x : result Stopped (FramedTransport St) * Platform St E C) : Prop :=
  platform_feeds x.2 /\ forall t, x.1 = Ok t -> feeds t.

(** What a report tells of a frame. *)
Definition report_fed (o : Output E) : Prop := match o with Received f _ _ => P f | BrokerDisconnected _ => True end.

Lemma drawing_feeds {A} (m : M Rng AppError A) p : platform_feeds p -> platform_feeds (drawing m p).2.
Proof. intros Hp. unfold drawing. by destruct (m (pf_rng p)). Qed.

Lemma connected_feeds (f : Dialer St E -> option (FramedTransport St) * Dialer St E) p :
  (forall r d, f (pf_dialer p) = (r, d) -> dialer_feeds d /\ forall t, r = Some t -> feeds t) ->
  connection_feeds (connected f p).
Proof.
  unfold connected. destruct (f (pf_dialer p)) as [r d]. intros Hf. destruct (Hf _ _ eq_refl) as [Hd Ht].
  split; [exact Hd|]. destruct r as [t|]; [|done]. intros t' [= <-]. by apply Ht.
Qed.

Lemma connecting_feeds p : platform_feeds p ->
  connection_feeds (connected (connect_agent common (agent_id agent)) p).
Proof. intros Hp. apply connected_feeds. intros r d. by apply connect_agent_feeds. Qed.

Lemma sending_feeds f t p : feeds t -> platform_feeds p ->
  connection_feeds (connected (send_agent_frame common (agent_id agent) f t) p).
Proof. intros Ht Hp. apply connected_feeds. intros r d. by apply send_loop_feeds. Qed.

(** Something is drawn, and a frame sent. *)
Lemma drawn_send_feeds (m : M Rng AppError (list byte)) t p : feeds t -> platform_feeds p ->
  connection_feeds ((f ← drawing m; connected (send_agent_frame common (agent_id agent) f t)) p).
Proof.
  intros Ht Hp. rewrite M_bind_run. pose proof (drawing_feeds m p Hp) as Hp'.
  destruct (drawing m p) as [[f|e|] p']; [by apply sending_feeds|done..].
Qed.

Lemma bind_feeds (m : M (Platform St E C) Stopped (FramedTransport St)) k p :
  connection_feeds (m p) -> (forall t p', feeds t -> platform_feeds p' -> connection_feeds (k t p')) ->
  connection_feeds ((m ≫= k) p).
Proof.
  intros [Hp' Ht] Hk. rewrite M_bind_run. destruct (m p) as [[t|e|] p']; [|done..]. by apply Hk; [apply Ht|].
Qed.

Lemma declare_feeds environment p : platform_feeds p -> connection_feeds (declare_environment common agent environment p).
Proof.
  intros Hp. apply bind_feeds; [by apply connecting_feeds|]. intros t p' Ht Hp'. by apply drawn_send_feeds.
Qed.

Lemma start_feeds environment request p : platform_feeds p ->
  connection_feeds (subscriber_start common agent environment request p).
Proof.
  intros Hp. apply bind_feeds; [by apply connecting_feeds|]. intros t p1 Ht Hp1. rewrite M_bind_run.
  pose proof (drawing_feeds (map_errM AppError.Protocol (Agent.set_environment agent environment)) p1 Hp1) as Hp2.
  destruct (drawing _ p1) as [[f|e|] p2]; [|done..].
  apply bind_feeds; [by apply sending_feeds|]. intros t2 p3 Ht2 Hp3. by apply drawn_send_feeds.
Qed.

Lemma consume_step_feeds handler t rp p o t' rp' p' : feeds t -> platform_feeds p ->
  consume_step common agent handler t rp p = (Ok (o, (t', rp')), p') ->
  report_fed o /\ feeds t' /\ platform_feeds p'.
Proof.
  intros Ht Hp. unfold consume_step. destruct (tokio_receive t) as [[f|e|] t1] eqn:Hr; [| |done].
  - apply tokio_receive_feeds in Hr as [Hf Ht1]; [|done].
    destruct (now_seconds _) as [now clock], (receive agent handler now (f, rp)) as [r [f' rp1]].
    by intros [= <- <- _ <-].
  - destruct (connect_agent _ _ _) as [[t2|] d] eqn:Hc; [|done]. apply connect_agent_feeds in Hc as [Hd Ht2]; [|done].
    intros [= <- <- _ <-]. split; [done|]. split; [by apply Ht2|exact Hd].
Qed.

Lemma consume_loop_feeds fuel : forall handler t rp p, feeds t -> platform_feeds p ->
  Forall report_fed (consume_loop common agent fuel handler t rp p).
Proof.
  induction fuel as [|fuel IH]; intros handler t rp p Ht Hp; cbn [consume_loop]; [constructor|].
  destruct (consume_step _ _ _ _ _ _) as [[[o [t' rp']]|e|] p'] eqn:Hs; [|constructor..].
  apply consume_step_feeds in Hs as (Ho & Ht' & Hp'); [|done..]. constructor; [done|]. by apply IH.
Qed.

Lemma await_delivery_feeds fuel : forall handler t rp p os r, feeds t -> platform_feeds p ->
  await_delivery common agent fuel handler t rp p = (os, r) ->
  Forall report_fed os /\ forall t' rp' p', r = Some (t', rp', p') -> feeds t' /\ platform_feeds p'.
Proof.
  induction fuel as [|fuel IH]; intros handler t rp p os r Ht Hp; cbn [await_delivery]; [by intros [= <- <-]|].
  destruct (consume_step _ _ _ _ _ _) as [[[o [t1 rp1]]|e|] p1] eqn:Hs; [|by intros [= <- <-]..].
  apply consume_step_feeds in Hs as (Ho & Ht1 & Hp1); [|done..].
  destruct (await_delivery common agent fuel handler t1 rp1 p1) as [os' r'] eqn:Hrun.
  apply IH in Hrun as [Hos Hr]; [|done..].
  assert ((o :: os', r') = (os, r) -> Forall report_fed os /\
    forall t' rp' p', r = Some (t', rp', p') -> feeds t' /\ platform_feeds p') as Hmore.
  { intros [= <- <-]. split; [by constructor|done]. }
  destruct o as [f now [d|e|]|e]; try exact Hmore.
  intros [= <- <-]. split; [by constructor|]. by intros t' rp' p' [= <- _ <-].
Qed.

Lemma respond_loop_feeds rounds fuel handler request : forall t rp p, feeds t -> platform_feeds p ->
  Forall report_fed (respond_loop common agent rounds fuel handler request t rp p).
Proof.
  induction rounds as [|rounds IH]; intros t rp p Ht Hp; cbn [respond_loop]; [constructor|].
  pose proof (drawn_send_feeds request t p Ht Hp) as [Hp1 Ht1].
  match goal with |- context [(?m ≫= ?f) p] => destruct ((m ≫= f) p) as [[t1|e|] p1] end; [|constructor..].
  destruct (await_delivery _ _ _ _ _ _ _) as [os r] eqn:Hrun.
  apply await_delivery_feeds in Hrun as [Hos Hr]; [|by apply Ht1|done].
  destruct r as [[[t2 rp2] p2]|]; [|done]. destruct (Hr _ _ _ eq_refl). apply Forall_app. split; [done|]. by apply IH.
Qed.

Lemma select_step_feeds handler line_frame branch s p os s' p' : feeds (se_transport s) -> platform_feeds p ->
  select_step common agent handler line_frame branch s p = (Ok (os, s'), p') ->
  Forall report_fed (reports os) /\ feeds (se_transport s') /\ platform_feeds p'.
Proof.
  intros Ht Hp. destruct branch as [|line]; cbn [select_step].
  - rewrite M_bind_run. destruct (consume_step _ _ _ _ _ _) as [[[o [t rp]]|e|] p1] eqn:Hc; [|done..].
    apply consume_step_feeds in Hc as (Ho & Ht1 & Hp1); [|done..]. intros [= <- <- <-].
    split; [by repeat constructor|done].
  - destruct (se_stdin_open s); [|by intros [= <- <- <-]; split; [constructor|]].
    destruct line as [line|]; [|by intros [= <- <- <-]; split; [constructor|]].
    rewrite M_bind_run. pose proof (drawing_feeds (line_frame line) p Hp) as Hp1.
    destruct (drawing _ p) as [[f|e|] p1]; [|done..]. rewrite M_bind_run.
    pose proof (sending_feeds f _ p1 Ht Hp1) as Hc. destruct (connected _ p1) as [[t|e|] p2]; [|done..].
    destruct Hc as [Hp2 Ht2]. intros [= <- <- <-]. split; [constructor|]. by split; [apply Ht2|].
Qed.

Lemma select_loop_feeds handler line_frame branches : forall s p, feeds (se_transport s) -> platform_feeds p ->
  Forall report_fed (reports (select_loop common agent handler line_frame branches s p).1.1).
Proof.
  induction branches as [|branch branches IH]; intros s p Ht Hp; cbn [select_loop]; [constructor|].
  destruct (select_step _ _ _ _ _ _ _) as [[[os s1]|e|] p1] eqn:Hstep; [|constructor..].
  apply select_step_feeds in Hstep as (Hos & Ht1 & Hp1); [|done..]. specialize (IH s1 p1 Ht1 Hp1).
  destruct (select_loop _ _ _ _ _ _ _) as [[os' r'] p2]. cbn [fst] in *. unfold reports in *.
  rewrite omap_app. by apply Forall_app.
Qed.

(** Whatever program it is, what it reports as received was on its connections. *)
Lemma program_feeds handler p outputs : platform_feeds p -> program_outputs common agent handler p outputs ->
  Forall report_fed outputs.
Proof.
  intros Hp [fuel environment request|rounds fuel environment request|environment request line_frame branches].
  - unfold run_subscriber. destruct (start_feeds environment request p Hp) as [Hp' Ht].
    destruct (subscriber_start _ _ _ _ _) as [[t|e|] p']; [|constructor..]. by apply consume_loop_feeds; [apply Ht|].
  - unfold run_responder. destruct (declare_feeds environment p Hp) as [Hp' Ht].
    destruct (declare_environment _ _ _ _) as [[t|e|] p']; [|constructor..]. by apply respond_loop_feeds; [apply Ht|].
  - unfold run_select. assert (connection_feeds ((t ← declare_environment common agent environment;
      f ← drawing request; connected (send_agent_frame common (agent_id agent) f t)) p)) as [Hp' Ht].
    { apply bind_feeds; [by apply declare_feeds|]. intros t p' Ht Hp'. by apply drawn_send_feeds. }
    match goal with |- context [(?m ≫= ?f) p] => destruct ((m ≫= f) p) as [[t|e|] p'] end; [|constructor..].
    by apply select_loop_feeds; [apply Ht|].
Qed.
End agents.

(** ** What brokerd leaves on the sockets of an agent *)

Section sockets.
Context {Ch St E Sl El S : Type} `{HM : MpscLaws Ch} `{HC : FrameCodecLaws St E} `{RequestHandler S}
  `{TokioFramed Sl El} `{Sha256}.
Context (args : Args) (link : CaLinkConfig) (cad_psk : array 32) (auth_deadline cad_io_deadline : N).
Implicit Types (d : Daemon Ch St) (w : Deployment Ch St Sl S).

Abbreviation pending_handshakes := (arg_max_pending_handshakes args).

(** The sockets the agent had, and the one it has. *)
Definition socket_of (id : AgentId) d (s : St) : Prop := s ∈ dm_closed d id \/ dm_sockets d !! id = Some s.

Lemma written_accepted d id f : daemon_inv pending_handshakes d -> f ∈ bk_written (dm_broker d) id ->
  f ∈ accepted (dm_broker d) id.
Proof.
  intros Hd Hf. destruct (di_broker _ _ Hd) as [_ [Hh _]]. eapply ledger_accepts; [exact (Hh id)|].
  apply elem_of_app. left. apply elem_of_app. by left.
Qed.

(** The open socket carries deliveries accepted for the agent. *)
Lemma open_group d id s : daemon_inv pending_handshakes d -> dm_sockets d !! id = Some s ->
  framed_inv s /\ exists g, Forall (.∈ accepted (dm_broker d) id) g /\ framed_output s = wire g.
Proof.
  intros Hd Hs. destruct (di_streams _ _ Hd id) as (groups & g & Hw & _ & Hsock). rewrite Hs in Hsock.
  destruct Hsock as [Hi Ho]. split; [done|]. exists g. split; [|done]. apply Forall_forall. intros f Hf.
  apply written_accepted; [done|]. rewrite Hw. apply elem_of_app. by right.
Qed.

(** A delivery that is taken was accepted. *)
Lemma taken_accepted d id t f : daemon_inv pending_handshakes d ->
  bk_tasks (broker_step (Take id) (dm_broker d)) !! id = Some t -> task_undelivered t = Some f ->
  f ∈ accepted (dm_broker d) id.
Proof.
  intros Hd Ht Hf. pose proof (broker_step_inv (Take id) _ (di_broker _ _ Hd)) as [_ [Hh _]].
  destruct (quiet_effect (Take id) (dm_broker d) I) as [_ Ha]. rewrite <-Ha. eapply ledger_accepts; [exact (Hh id)|].
  apply elem_of_app. left. apply elem_of_app. right. unfold held, task_frames. rewrite Ht, Hf. by left.
Qed.

Lemma daemon_closed st d id s : daemon_inv pending_handshakes d -> s ∈ dm_closed (daemon_step args st d) id ->
  s ∈ dm_closed d id \/ fed (.∈ accepted (dm_broker d) id) (framed_output s).
Proof.
  intros Hd. assert (forall id' s' b, s ∈ dm_closed (close_socket id' s' (with_broker b d)) id ->
    s ∈ dm_closed d id \/ id = id' /\ s = s') as Hclose.
  { intros id' s' b. unfold close_socket. cbn [dm_closed with_broker]. destruct (decide (id = id')) as [<-|Hne].
    - rewrite fn_lookup_insert. intros [?|?%list_elem_of_singleton]%elem_of_app; [by left|by right].
    - rewrite fn_lookup_insert_ne by done. by left. }
  destruct st as [peer s0|peer|id'|id'|f|f|]; cbn [daemon_step]; try by left.
  - unfold accept_step. case_match; [by left|]. case_match; by left.
  - unfold hello_step. case_match; [|by left]. destruct (receive_hello _) as [[i|e|] t']; [|by left..].
    case_match; by left.
  - unfold send_step. destruct (dm_sockets d !! id') as [s0|] eqn:Hs0; [|by left].
    destruct (_ ≫= _) as [f|] eqn:Hf; [|by left]. apply bind_Some in Hf as (t & Ht & Hf).
    pose proof (taken_accepted _ _ _ _ Hd Ht Hf) as Hacc. destruct (open_group _ _ _ Hd Hs0) as (Hi & g & Hg & Ho).
    destruct (framed_send _ f s0) as [r s'] eqn:Hsend. apply codec_send in Hsend as (part & Hpart & Ho'); [|done].
    assert (fed (.∈ accepted (dm_broker d) id') (framed_output s')) as Hfed.
    { rewrite Ho', Ho. by eapply fed_wire. }
    destruct r as [[]|e|]; [by left|..]; intros [?|[-> ->]]%Hclose; by auto.
  - unfold read_step. destruct (dm_sockets d !! id') as [s0|] eqn:Hs0; [|by left].
    destruct (open_group _ _ _ Hd Hs0) as (Hi & g & Hg & Ho).
    destruct (framed_next _ s0) as [r s'] eqn:Hnext. apply framed_next_output in Hnext as [_ Ho']; [|done].
    assert (fed (.∈ accepted (dm_broker d) id') (framed_output s')) as Hfed.
    { rewrite Ho', Ho. by exists g. }
    destruct r as [[bytes|]|e|]; cycle 1; [intros [?|[-> ->]]%Hclose; by auto..|].
    case_match; [by left|..]; intros [?|[-> ->]]%Hclose; by auto.
Qed.

Definition closed_fed w : Prop := forall id s, s ∈ dm_closed (dp_daemon w) id ->
  fed (.∈ routed_to id (ss_log (dp_streams w))) (framed_output s).

Abbreviation step := (deployment_step (El:=El) args link cad_psk auth_deadline cad_io_deadline).
Abbreviation run := (deployment_run (El:=El) args link cad_psk auth_deadline cad_io_deadline).

Lemma accepted_routed w id f : deployment_inv args w -> f ∈ accepted (dm_broker (dp_daemon w)) id ->
  f ∈ routed_to id (ss_log (dp_streams w)).
Proof. intros Hw. by rewrite (dv_routed _ _ Hw). Qed.

Lemma closed_fed_step st w : deployment_inv args w -> deployment_ok st -> closed_fed w -> closed_fed (step st w).
Proof.
  intros Hw Hst Hfed id s. unfold deployment_step, dp_daemon. cbn [dp_streams]. destruct st as [st|st]; cbn [link_step_of].
  - cbn [stream_step ss_broker bl_router ss_log]. intros [Hs|Hs]%daemon_closed; [by apply Hfed| |by eapply dv_daemon].
    eapply fed_mono; [|exact Hs]. intros f. by apply accepted_routed.
  - destruct (link_side_effect link cad_psk auth_deadline cad_io_deadline st (dp_streams w) Hst) as (more & -> & Heff).
    intros Hs. eapply (fed_mono (.∈ routed_to id (ss_log (dp_streams w)))).
    { intros f Hf. rewrite routed_to_app. apply elem_of_app. by left. }
    apply Hfed. by destruct Heff as [[Heq _]|[[Heq _]|(id' & f & Heq & _)]]; rewrite Heq in Hs.
Qed.

Lemma closed_fed_run steps : forall w, deployment_inv args w -> Forall deployment_ok steps -> closed_fed w ->
  closed_fed (run steps w).
Proof.
  induction steps as [|st steps IH]; intros w Hw Hok Hfed; [done|]. apply Forall_cons in Hok as [Hst Hok].
  apply IH; [by apply deployment_step_inv|done|by apply closed_fed_step].
Qed.

(** All that brokerd wrote to the sockets of an agent is deliveries routed to it. *)
Lemma sockets_fed w id s : deployment_inv args w -> closed_fed w -> socket_of id (dp_daemon w) s ->
  fed (.∈ routed_to id (ss_log (dp_streams w))) (framed_output s).
Proof.
  intros Hw Hfed [Hs|Hs]; [by apply Hfed|]. destruct (open_group _ _ _ (dv_daemon _ _ Hw) Hs) as (_ & g & Hg & ->).
  exists g. split; [|done]. eapply Forall_impl; [exact Hg|]. intros f. by apply accepted_routed.
Qed.
End sockets.

(** ** What is received was published *)

(** To this CA, with this store and at this time, the request is signed by the publisher of
    the delivery, and publishes what it holds. *)
Definition published `{Crypto} (ca : CertificateAuthority DynamicEnvironmentPolicy) (view : StoreView) (now : N)
    (request : frame) (d : Delivery) : Prop :=
  exists e pt predicate,
    authenticated ca view now request e pt /\ env_sender e = delivery_publisher d /\
    env_message_type e = MessageType.Publish /\
    parse_operation pt = Ok (OperationRef.Publish (delivery_type_id d) predicate (delivery_value d)).

(** An attempt of the agent leads to a stream that brings what brokerd writes to a socket
    of the agent, up to some byte. *)
Definition reaches {Ch St E Sa Ea} `{HF : TokioFramedLaws St E, HA : TokioFramedLaws Sa Ea} (id : AgentId)
    (d : Daemon Ch St) (a : Attempt Sa Ea) : Prop :=
  match at_connected a with
  | Some (inl s) => framed_inv s /\
      (framed_input s = [] \/ exists b, socket_of id d b /\ framed_input s `prefix_of` framed_output b)
  | _ => True
  end.

Section received.
Context `{HC : CryptoLaws}.

Lemma parse_wire op : Operation.wf op -> parse_operation (Operation.wire op) = Ok (Operation.view op).
Proof. intros Hop. apply parse_operation_iff. by exists op. Qed.

(** An authorized delivery, opened with the key it is for. *)
Lemma received_published a h now rp f d x (s : Service) lifetime now' publisher request sub :
  receive (R:=FixedReplayCache) a h now (f, rp) = (Ok d, x) ->
  authorized_in s.1 s.2 lifetime now' publisher request f sub -> sub_subscriber sub = agent_id a ->
  provisioned s.2 a ->
  delivery_publisher d = publisher /\ published s.1 s.2 now' request d /\ sub_handler sub = h /\ sub_type_id sub = delivery_type_id d.
Proof.
  intros Hrun (e & pt & ty & predicate & value & env & Hauth & Hsend & Hmt & Hop & _ & Hty & _ & _ & Hdel & _)
    Hsub Hk.
  destruct Hdel as (k & g & Hk' & _ & _ & Hseal). change (view_keys s.2 !! sub_subscriber sub = Some k) in Hk'.
  unfold provisioned in Hk. rewrite Hsub, Hk in Hk'. injection Hk' as <-.
  destruct (sealed_open_result _ _ _ _ _ _ _ _ _ (Hseal _ eq_refl)) as (e' & Hparse & _ & _ & _ & Hhandler & _ & Hopen).
  pose proof (receive_run a h now f rp) as Hr. destruct (receive_checks a h f) as [e2|y|] eqn:Hchk; [|by rewrite Hrun in Hr..].
  destruct (check_and_mark _ _ now rp) as [[[]|y|] rp1]; [|by rewrite Hrun in Hr..]. destruct Hr as [f' Hr].
  rewrite Hrun in Hr. injection Hr as Hr _. symmetry in Hr.
  apply receive_checks_Ok in Hchk as (_ & (Hparse2 & _)%open_checks_Ok & Hh & _).
  rewrite Hparse in Hparse2. injection Hparse2 as <-. apply receive_payload_Ok in Hr as (_ & Hwf & Hopen2).
  rewrite Hopen in Hopen2.
  apply (f_equal (fun r => match r with Ok w => parse_operation w | _ => Panic end)) in Hopen2.
  assert (Operation.wf (Operation.PublicationResponse ty publisher value)) as Hwf'.
  { apply parse_operation_iff in Hop as (op & Hop & _ & Hview). destruct op; cbn in Hview; simplify_eq.
    destruct Hop as (? & _ & ?). by split. }
  cbv beta iota in Hopen2. rewrite !parse_wire in Hopen2 by done. cbn [Operation.view] in Hopen2.
  injection Hopen2 as -> -> ->.
  split; [done|]. split; [|split; [congruence|done]].
  by exists e, pt, predicate.
Qed.
End received.

(** ** Runs of the daemons as they are started *)

Lemma routed_length id log f : f ∈ routed_to id log -> length f <= MAX_FRAME_LEN.
Proof.
  intros (e & _ & He)%list_elem_of_omap. destruct e as [| |i f'| |]; [done|done| |done..].
  case_bool_decide as Hid; [|done]. injection He as ->. unfold recipient_of in Hid.
  destruct (parse_envelope f) as [e|x|] eqn:Hparse; [|done..]. by apply parse_envelope_length in Hparse as [_ ?].
Qed.

Section started.
Context `{HC : CryptoLaws} `{Hex} {Ch St E Sl El : Type} `{HM : MpscLaws Ch} `{HF : FrameCodecLaws St E}
  `{HL : LinkCodecLaws Sl El} `{Sha256}.
Context (args : Args) (broker_psk : array 32) (config : Config) (files : Text -> option Text) (disk : Disk)
  (v : StoreView) (rng : Rng) (psk : array 32) (c : CaLink CaState) (steps : list (DeploymentStep Ch St Sl CaState)).

Abbreviation run := (deployed (El:=El) args broker_psk config psk c).

Lemma started_closed_fed : started_run (El:=El) args broker_psk config files disk v rng psk c steps ->
  closed_fed (run steps).
Proof.
  intros Hstarted. apply (closed_fed_run args); [apply deployment_start_inv|by eapply sr_steps|].
  intros id s Hs. by apply elem_of_nil in Hs.
Qed.

(** The agent stays provisioned throughout the run. *)
Lemma started_provisioned agent : started_run (El:=El) args broker_psk config files disk v rng psk c steps ->
  provisioned (service_of (cl_ca c)).2 agent ->
  reloads_of (El:=El) args broker_psk config psk c (keeps_agent (agent_id agent)
    (mkPublicKeys (AgentKeys_verifying_key (agent_keys agent)) (AgentKeys_x25519_public (agent_keys agent)))) steps ->
  forall n, provisioned (service_at (El:=El) args broker_psk config psk c steps n).2 agent.
Proof.
  intros Hstarted Hprov Hkeep n. eapply key_at; [exact Hkeep| |exact Hprov].
  exact (proj1 (start_service _ _ _ _ _ _ _ (sr_disk _ _ _ _ _ _ _ _ _ _ Hstarted)
    (sr_start _ _ _ _ _ _ _ _ _ _ Hstarted))).
Qed.
End started.
