(* ===== verification/PublisherEnd.v ===== *)
(** From what the bundled publishers read to the requests brokerd accepts: their programs
    at the other end of the connections of [Deployment]. *)

From S2P Require Export AgentStreams SubscriberEnd.

(** ** What a publisher puts on its connections *)

Section publisher.
Context `{Crypto} {St E C : Type} `{HC : FrameCodecLaws St E}.
Context (common : AgentConfig) (agent : Agent) (P : frame -> Prop).
Implicit Types (p : Platform St E C) (t : FramedTransport St) (d : Dialer St E).

Abbreviation identity := (agent_id agent).
Definition sendable (f : frame) : Prop := P f /\ length f <= MAX_FRAME_LEN.

(** After the hello, frames with [P] and nothing else, but that the last may be cut off. *)
Definition said (output : list byte) : Prop :=
  exists g, Forall sendable g /\ output `prefix_of` wire (hello identity :: g).
Definition saying t : Prop := exists g, Forall sendable g /\ opened identity g t.

(** Of all connections of a dialer. *)
Definition dialer_says d : Prop :=
  Forall Reconnect.fresh (dl_attempts d) /\ Forall (fun t => said (framed_output (ft_framed t))) (dl_dropped d).

Lemma said_part g f part : Forall sendable g -> sendable f -> part `prefix_of` frame_wire f ->
  said (wire (hello identity :: g) ++ part).
Proof.
  intros Hg Hf Hp. exists (g ++ [f]). split; [by apply Forall_app; rewrite Forall_singleton|].
  rewrite app_comm_cons, wire_app. apply prefix_app. unfold wire. cbn. by rewrite app_nil_r.
Qed.

Lemma saying_said t : saying t -> said (framed_output (ft_framed t)).
Proof. intros (g & Hg & _ & Ho). exists g. split; [done|]. by rewrite Ho. Qed.

Lemma send_said f t r t' : saying t -> P f -> tokio_send f t = (r, t') ->
  said (framed_output (ft_framed t')) /\ (r = Ok tt -> saying t').
Proof.
  intros (g & Hg & Ht) Hf Hrun. pose proof Ht as [Hi Ho]. destruct (decide (length f <= MAX_FRAME_LEN)) as [Hlen|Hlen].
  - split.
    + unfold tokio_send in Hrun. rewrite (proj2 (Nat.ltb_ge _ _)) in Hrun by done.
      destruct (framed_send _ _ _) as [r0 s] eqn:Hs. apply codec_send in Hs as (part & Hp & Ho'); [|done].
      injection Hrun as _ <-. cbn [ft_framed]. rewrite Ho', Ho. by apply (said_part g f).
    + intros ->. exists (g ++ [f]). split; [by apply Forall_app; rewrite Forall_singleton|]. by eapply opened_send.
  - unfold tokio_send in Hrun. rewrite (proj2 (Nat.ltb_lt _ _)) in Hrun by lia. injection Hrun as <- <-.
    split; [|done]. apply saying_said. by exists g.
Qed.

Lemma connect_loop_said attempts deadline maximum : forall backoff slept dropped r d,
  dialer_says (mkDialer attempts slept dropped) ->
  connect_loop attempts identity deadline maximum backoff slept dropped = (r, d) ->
  dialer_says d /\ forall t, r = Some t -> saying t.
Proof.
  induction attempts as [|a attempts IH]; intros backoff slept dropped r d [Hall Hdrop];
    cbn [connect_loop dl_attempts dl_dropped] in *; [by intros [= <- <-]|].
  apply Forall_cons in Hall as [Ha Hall]. unfold tokio_connect, Reconnect.fresh in *.
  destruct (at_connected a) as [[s|e]|]; [|by apply IH..]. destruct (at_nodelay a); [by apply IH|].
  destruct Ha as [Hi Ho]. destruct (tokio_send_hello _ _) as [r1 t1] eqn:Hs.
  assert (said (framed_output (ft_framed t1))) as Hsaid.
  { exists []. split; [constructor|]. unfold tokio_send_hello, tokio_send in Hs. cbn [ft_framed ft_deadline] in Hs.
    destruct (_ <? _); [injection Hs as _ <-; cbn [ft_framed]; rewrite Ho; apply prefix_nil|].
    destruct (framed_send _ _ _) as [r0 s1] eqn:Hrun. apply codec_send in Hrun as (part & Hp & Ho'); [|done].
    injection Hs as _ <-. cbn [ft_framed]. rewrite Ho', Ho. unfold wire. cbn. by rewrite app_nil_r. }
  assert (dialer_says (mkDialer attempts (slept ++ [backoff]) (dropped ++ [t1]))) as Hretry.
  { split; [done|]. apply Forall_app. by rewrite Forall_singleton. }
  destruct r1 as [[]|e|]; [|by apply IH..]. intros [= <- <-]. split; [done|]. intros t [= <-].
  exists []. split; [constructor|]. apply tokio_send_spec in Hs as (Hi' & _ & _ & Ho'); [|done]. split; [done|].
  cbn [ft_framed] in Ho'. rewrite Ho', Ho. cbn. by rewrite app_nil_r.
Qed.

Lemma connect_agent_said d r d' : dialer_says d -> connect_agent common identity d = (r, d') ->
  dialer_says d' /\ forall t, r = Some t -> saying t.
Proof. destruct d. apply connect_loop_said. Qed.

Lemma dropping_says t d : said (framed_output (ft_framed t)) -> dialer_says d -> dialer_says (dropping t d).
Proof. intros Ht [Hall Hd]. split; [done|]. apply Forall_app. by rewrite Forall_singleton. Qed.

Lemma send_loop_said f fuel : P f -> forall t d r d', saying t -> dialer_says d ->
  send_loop fuel common identity f t d = (r, d') -> dialer_says d' /\ forall t', r = Some t' -> saying t'.
Proof.
  intros Hf. induction fuel as [|fuel IH]; intros t d r d' Ht Hd; cbn [send_loop];
    destruct (tokio_send f t) as [r1 t1] eqn:Hs; apply send_said in Hs as [Ht1 Hok]; try done;
    destruct (connect_agent common identity d) as [rc d1] eqn:Hc;
    apply connect_agent_said in Hc as [Hd1 Ht2]; try done;
    (destruct r1 as [[]|e|]; [by intros [= <- <-]; split; [done|]; intros ? [= <-]; apply Hok|..]);
    (destruct rc as [t2|]; [|by intros [= <- <-]]); try (by intros [= <- <-]);
    (apply IH; [by apply Ht2|by apply dropping_says]).
Qed.

Lemma send_frames_said frames : Forall P frames -> forall t d r d', saying t -> dialer_says d ->
  send_frames common identity frames t d = (r, d') -> dialer_says d' /\ forall t', r = Some t' -> saying t'.
Proof.
  induction 1 as [|f frames Hf Hall IH]; intros t d r d' Ht Hd; cbn [send_frames].
  { intros [= <- <-]. split; [done|]. by intros t' [= <-]. }
  unfold send_agent_frame. destruct (send_loop _ _ _ _ _ _) as [r1 d1] eqn:Hs.
  apply send_loop_said in Hs as [Hd1 Ht1]; [|done..]. destruct r1 as [t1|]; [|by intros [= <- <-]].
  apply IH; [by apply Ht1|done].
Qed.

Lemma on_demand_said frames d finished d' : Forall P frames -> dialer_says d ->
  send_on_demand_frames common identity frames d = (finished, d') -> dialer_says d'.
Proof.
  intros Hall Hd. unfold send_on_demand_frames.
  destruct (connect_agent _ _ _) as [[t|] d1] eqn:Hc; apply connect_agent_said in Hc as [Hd1 Ht]; try done;
    [|by intros [= _ <-]].
  destruct (send_frames _ _ _ _ _) as [r d2] eqn:Hs. apply send_frames_said in Hs as [Hd2 Ht2]; [|done|by apply Ht|done].
  destruct r as [t2|]; [|by intros [= _ <-]]. intros [= _ <-]. apply dropping_says; [|done].
  by apply saying_said, Ht2.
Qed.

(** A publisher whose lines make frames with [P]. *)
Lemma publish_lines_said line_frames lines : forall p r p', dialer_says (pf_dialer p) ->
  Forall P (concat (draws line_frames lines (pf_rng p)).1.1) ->
  publish_lines common agent line_frames lines p = (r, p') -> dialer_says (pf_dialer p').
Proof.
  induction lines as [|line lines IH]; intros p r p' Hp; cbn [publish_lines draws]; [by intros _ [= _ <-]|].
  intros Hall. rewrite M_bind_run. unfold drawing. revert Hall.
  destruct (line_frames line (pf_rng p)) as [[frames|e|] g]; cbn [map_err]; [|by intros _ [= _ <-]..].
  destruct (draws line_frames lines g) as [[made stop] g'] eqn:Hdraws. cbn [fst concat].
  intros [Hf Hall]%Forall_app. rewrite M_bind_run. unfold submit. cbn [pf_dialer pf_rng pf_clock].
  destruct (send_on_demand_frames _ _ _ _) as [finished d1] eqn:Hsend. apply on_demand_said in Hsend; [|done..].
  destruct finished; [|by intros [= _ <-]]. apply IH; [done|]. cbn [pf_rng]. by rewrite Hdraws.
Qed.
End publisher.

(** ** What brokerd reads from the sockets of an agent *)

Section requests.
Context {Ch St E Sl El S : Type} `{HM : MpscLaws Ch} `{HC : FrameCodecLaws St E} `{RequestHandler S}
  `{TokioFramed Sl El} `{Sha256}.
Context (args : Args) (link : CaLinkConfig) (cad_psk : array 32) (auth_deadline cad_io_deadline : N).
Context (id : AgentId) (P : frame -> Prop) (HP : forall f, P f -> length f <= MAX_FRAME_LEN).
Implicit Types (d : Daemon Ch St) (w : Deployment Ch St Sl S) (s : St).

Lemma hello_len : 16 <= MAX_FRAME_LEN.
Proof. apply Nat.leb_le. vm_compute. reflexivity. Qed.

(** The hello on the stream is that of the agent. *)
Definition names s : Prop := exists deadline t, receive_hello (mkFramedTransport s deadline) = (Ok id, t).

(** If the hello is that of the agent, then frames with [P] follow. *)
Definition heard s : Prop := framed_inv s /\
  (names s -> exists g, Forall P g /\ framed_input s `prefix_of` wire (hello id :: g)).

Record daemon_hears d : Prop := mkDaemonHears {
  dh_handshakes peer t : dm_handshakes d !! peer = Some t -> heard (ft_framed t);
  dh_socket s : dm_sockets d !! id = Some s -> framed_inv s /\ fed P (framed_input s);
}.

Lemma receive_hello_heard t t' : heard (ft_framed t) -> receive_hello t = (Ok id, t') ->
  framed_inv (ft_framed t') /\ fed P (framed_input (ft_framed t')).
Proof.
  intros [Hi Hn] Hrun. assert (names (ft_framed t)) as (g & Hg & [more Hmore])%Hn
    by (exists (ft_deadline t), t'; by destruct t). clear Hn.
  unfold receive_hello in Hrun. rewrite M_bind_run in Hrun. unfold tokio_receive in Hrun.
  destruct (framed_next _ _) as [[[bytes|]|e|] s] eqn:Hnext; [|done..].
  destruct (Nat.leb_spec (length bytes) MAX_FRAME_LEN) as [Hlen|]; [|done].
  pose proof Hnext as [Hi' _]%framed_next_output; [|done]. apply codec_next in Hnext; [|done].
  unfold lift in Hrun. destruct (to_array 16 bytes) as [a|] eqn:Ha; [|done]. injection Hrun as Hid <-.
  apply to_array_Some in Ha. cbn [ft_framed]. split; [done|]. rewrite Hnext, <-app_assoc in Hmore.
  unfold wire in Hmore. cbn [fmap list_fmap concat] in Hmore. symmetry in Hmore.
  apply frame_wire_inj in Hmore as [_ Hrest]; [|done|unfold hello; rewrite length_vec_to_list; apply hello_len].
  exists g. split; [done|]. by exists more.
Qed.

Lemma keep_hears d b id' s : daemon_hears d -> (id' = id -> framed_inv s /\ fed P (framed_input s)) ->
  daemon_hears (keep_socket id' s (with_broker b d)).
Proof.
  intros [Hh Hs] Hnew. constructor; [exact Hh|]. intros s'. cbn [keep_socket dm_sockets with_broker].
  intros [[-> ->]|[_ ?]]%lookup_insert_Some; auto.
Qed.

Lemma close_hears d b id' s : daemon_hears d -> daemon_hears (close_socket id' s (with_broker b d)).
Proof.
  intros [Hh Hs]. constructor; [exact Hh|]. intros s'. cbn [close_socket dm_sockets with_broker].
  intros [_ ?]%lookup_delete_Some. auto.
Qed.

(** A frame that is read from a socket. *)
Lemma read_heard d deadline s bytes s' : daemon_hears d -> dm_sockets d !! id = Some s ->
  framed_next deadline s = (Ok (Some bytes), s') -> length bytes <= MAX_FRAME_LEN ->
  P bytes /\ framed_inv s' /\ fed P (framed_input s').
Proof.
  intros [_ Hs] Hsock Hnext Hlen. destruct (Hs _ Hsock) as [Hi Hf].
  pose proof Hnext as [Hi' _]%framed_next_output; [|done]. apply codec_next in Hnext; [|done].
  rewrite Hnext in Hf. apply fed_next in Hf as [? ?]; done.
Qed.

Lemma accepted_length id' bytes d : is_ok (route_agent_request id' bytes (bk_router (dm_broker d))).1 = true ->
  length bytes <= MAX_FRAME_LEN.
Proof.
  intros Hok. pose proof (agent_request_routing id' bytes (bk_router (dm_broker d))) as Hroute. cbn zeta in Hroute.
  destruct (route_agent_request id' bytes (bk_router (dm_broker d))) as [[[]|e|] r]; [|done..].
  destruct Hroute as ([Hroute _] & _). destruct (Hroute eq_refl) as (e & Hparse & _).
  by apply parse_envelope_length in Hparse as [_ ?].
Qed.

Definition accepts_heard (st : DaemonStep St) : Prop := match st with Accepted _ s => heard s | _ => True end.

Lemma daemon_hears_step st d : daemon_hears d -> accepts_heard st ->
  daemon_hears (daemon_step args st d) /\ forall f, (id, f) ∈ accepted_request args st d -> P f.
Proof.
  intros Hd Hst. destruct st as [peer s|peer|id'|id'|f|f|]; cbn [daemon_step accepted_request accepts_heard] in *;
    try (split; [|by intros ? ?%elem_of_nil]); [..|by destruct Hd; constructor|by destruct Hd; constructor|by destruct Hd; constructor].
  - unfold accept_step. destruct (dm_permits d); [done|]. destruct (dm_handshakes d !! peer) eqn:Hp; [done|].
    destruct Hd as [Hh Hs]. constructor; [|exact Hs]. cbn [dm_handshakes]. intros peer' t.
    intros [[_ <-]|[_ ?]]%lookup_insert_Some; [done|]. by eapply Hh.
  - unfold hello_step. destruct (dm_handshakes d !! peer) as [t|] eqn:Ht; [|done].
    pose proof (dh_handshakes _ Hd _ _ Ht) as Hheard.
    set (d0 := mkDaemon _ _ _ _ _). assert (daemon_hears d0) as Hd0.
    { destruct Hd as [Hh Hs]. constructor; [|exact Hs]. intros peer' t'. cbn [d0 dm_handshakes].
      intros [_ ?]%lookup_delete_Some. by eapply Hh. }
    destruct (receive_hello t) as [[i|e|] t'] eqn:Hrun; [|done..].
    assert (daemon_hears (with_broker (broker_step (Hello i) (dm_broker d)) d0)) by by destruct Hd0; constructor.
    case_match; [|done..]. apply (keep_hears d0); [done|]. intros ->. by eapply receive_hello_heard.
  - unfold send_step. destruct (dm_sockets d !! id') as [s|] eqn:Hs; [|done].
    destruct (_ ≫= _) as [f|]; [|by destruct Hd; constructor].
    destruct (framed_send _ f s) as [[[]|e|] s'] eqn:Hsend; [|by apply close_hears..].
    apply keep_hears; [done|]. intros ->. destruct (dh_socket _ Hd _ Hs) as [Hi Hf].
    apply framed_send_law in Hsend as (Hi' & Hin & _); [|done]. split; [done|]. by rewrite Hin.
  - unfold read_step. destruct (dm_sockets d !! id') as [s|] eqn:Hs; cbn [mbind option_bind];
      [|by split; [|intros ? ?%elem_of_nil]].
    destruct (framed_next (io_deadline args) s) as [[[bytes|]|e|] s'] eqn:Hnext; cycle 1;
      [by split; [apply close_hears|intros ? ?%elem_of_nil]..|].
    pose proof (accepted_length id' bytes d) as Hlen.
    destruct (route_agent_request id' bytes (bk_router (dm_broker d))).1 as [[]|e|]; cbn [is_ok] in *; cycle 1;
      [by split; [apply close_hears|intros ? ?%elem_of_nil]..|]. split.
    + apply keep_hears; [done|]. intros ->. by eapply read_heard; [| | |apply Hlen].
    + intros f Hf%list_elem_of_singleton. injection Hf as <- ->. by eapply read_heard; [| | |apply Hlen].
Qed.

Abbreviation step := (deployment_step (El:=El) args link cad_psk auth_deadline cad_io_deadline).
Abbreviation run := (deployment_run (El:=El) args link cad_psk auth_deadline cad_io_deadline).

Definition deployment_hears w : Prop :=
  daemon_hears (dp_daemon w) /\ forall f, (id, f) ∈ dp_requests w -> P f.

Lemma deployment_hears_step st w : deployment_hears w -> deployment_ok st ->
  (forall peer s, st = AgentsDo (Accepted peer s) -> heard s) -> deployment_hears (step st w).
Proof.
  intros [Hd Hreq] Hok Hst. unfold deployment_step, deployment_hears, dp_daemon. cbn [dp_streams dp_requests].
  destruct st as [st|st]; cbn [link_step_of].
  - cbn [stream_step ss_broker bl_router]. destruct (daemon_hears_step st (dp_daemon w) Hd) as [Hd' Hreq'].
    { destruct st; try done. by eapply Hst. }
    split; [done|]. intros f [?|?]%elem_of_app; auto.
  - rewrite app_nil_r. split; [|done].
    destruct (link_side_effect link cad_psk auth_deadline cad_io_deadline st (dp_streams w) Hok) as (more & _ & Heff).
    destruct Hd. by destruct Heff as [[-> _]|[[-> _]|(id' & f & -> & _)]]; constructor.
Qed.

(** Every request accepted from a socket of the agent was on a connection of the agent. *)
Lemma deployment_hears_run steps : forall w, deployment_hears w -> Forall deployment_ok steps ->
  (forall peer s, AgentsDo (Accepted peer s) ∈ steps -> heard s) -> deployment_hears (run steps w).
Proof.
  induction steps as [|st steps IH]; intros w Hw Hok Hst; [done|]. apply Forall_cons in Hok as [Hok1 Hok].
  apply IH; [apply deployment_hears_step; [done..|]|done|].
  - intros peer s ->. eapply Hst. left.
  - intros peer s Hin. eapply Hst. by right.
Qed.

Lemma deployment_start_hears ca : deployment_hears (deployment_start args link ca).
Proof. split; [|by intros f ?%elem_of_nil]. by constructor. Qed.
End requests.

(** ** Both together *)

(** What brokerd accepts with the hello of the publisher are connections of its program,
    up to some byte each. *)
Definition connections_of {Ch St E Sl S Sp Ep} `{HF : TokioFramedLaws St E, HP : TokioFramedLaws Sp Ep}
    (id : AgentId) (dropped : list (FramedTransport Sp)) (steps : list (DeploymentStep Ch St Sl S)) : Prop :=
  forall peer s, AgentsDo (Accepted peer s) ∈ steps -> names id s ->
    exists t, t ∈ dropped /\ framed_input s `prefix_of` framed_output (ft_framed t).

Section publications.
Context `{HC : CryptoLaws} `{Hex} {Ch St E Sl El Sp Ep C : Type} `{HM : MpscLaws Ch} `{HF : FrameCodecLaws St E}
  `{HL : LinkCodecLaws Sl El} `{Sha256} `{HP : FrameCodecLaws Sp Ep}.
Context (args : Args) (broker_psk : array 32) (config : Config) (psk : array 32) (c : CaLink CaState)
  (steps : list (DeploymentStep Ch St Sl CaState)).

Lemma requests_from_lines common agent line_frames lines (p : Platform Sp Ep C) r p' request :
  Forall deployment_ok steps ->
  Forall Reconnect.fresh (dl_attempts (pf_dialer p)) -> dl_dropped (pf_dialer p) = [] ->
  publish_lines common agent line_frames lines p = (r, p') ->
  connections_of (agent_id agent) (dl_dropped (pf_dialer p')) steps ->
  (agent_id agent, request) ∈ dp_requests (deployed (El:=El) args broker_psk config psk c steps) ->
  request ∈ concat (draws line_frames lines (pf_rng p)).1.1.
Proof.
  intros Hok Hfresh Hnone Hrun Hconn Hreq. set (made := concat (draws line_frames lines (pf_rng p)).1.1).
  assert (dialer_says agent (.∈ made) (pf_dialer p')) as [_ Hsaid].
  { eapply publish_lines_said; [|by apply Forall_forall|exact Hrun]. split; [done|]. by rewrite Hnone. }
  assert (deployment_hears (agent_id agent) (sendable (.∈ made))
    (deployed (El:=El) args broker_psk config psk c steps)) as [_ Hall].
  { apply (deployment_hears_run args); [by intros f []|apply deployment_start_hears|done|]. intros peer s Hin.
    split.
    - rewrite Forall_forall in Hok. by destruct (Hok _ Hin) as [_ [? _]].
    - intros (t & Ht & Hpre)%(Hconn _ _ Hin). rewrite Forall_forall in Hsaid. destruct (Hsaid _ Ht) as (g & Hg & Hp).
      exists g. split; [done|]. by etrans. }
  exact (proj1 (Hall _ Hreq)).
Qed.
End publications.
