(* ===== verification/Ends.v ===== *)
(** The bundled agents at both ends of the deployment: from the lines a publisher reads to
    what a subscriber reports. *)

From S2P Require Export PublisherEnd.

(** ** The property *)

(** C5: What an agent's program reports as received is what was published, and for it. Run
    the daemons as they are started, and at the other end of the sockets of an agent one
    of the bundled programs that receive, over connections that come and go and bring, up
    to some byte each, what brokerd wrote. Each frame it reports was routed to the agent.
    Each delivery it accepts was made in a step in which cad processed a request that the
    publisher it names sent on its own socket. By the keys, the policy and the store of cad
    before this very step, and at its time, the request is authentic and fresh, publishes
    exactly the type and the value that the agent reports, under an environment the policy
    accepts; and the CA authorises it for a subscription of this agent to the type, with
    this handler, which was on the disk when cad started, or which the agent itself asked
    for, in a request that cad processed in an earlier step. This holds if the agent is
    provisioned with its key when cad starts, and reloads keep it. And if the publisher is
    one of the bundled programs that publish, and nobody else greets brokerd with its name,
    then the request is one that the program made of the lines it was given. *)
Theorem received_was_published `{HC : CryptoLaws} `{Hex} `{HM : MpscLaws Ch} `{HF : FrameCodecLaws St E}
    `{HL : LinkCodecLaws Sl El} `{Sha256} `{HA : FrameCodecLaws Sa Ea} `{HP : FrameCodecLaws Sp Ep} `{Clock C}
    args broker_psk config files disk v rng psk c (steps : list (DeploymentStep Ch St Sl CaState))
    common agent handler (p : Platform Sa Ea C) outputs :
  started_run args broker_psk config files disk v rng psk c steps ->
  provisioned (service_of (cl_ca c)).2 agent ->
  reloads_of args broker_psk config psk c (keeps_agent (agent_id agent)
    (mkPublicKeys (AgentKeys_verifying_key (agent_keys agent)) (AgentKeys_x25519_public (agent_keys agent)))) steps ->
  let w := deployed args broker_psk config psk c steps in
  Forall (reaches (agent_id agent) (dp_daemon w)) (dl_attempts (pf_dialer p)) ->
  program_outputs common agent handler p outputs ->
  (forall f now r, Received f now r ∈ outputs -> f ∈ routed_to (agent_id agent) (ss_log (dp_streams w))) /\
  forall f now d, Received f now (Ok d) ∈ outputs ->
    exists n time request sub, n < length steps /\
      let s := service_at args broker_psk config psk c steps n in
      authorised_at args broker_psk config v psk c steps n time (agent_id agent) (delivery_publisher d) request f sub /\
      published s.1 s.2 time request d /\ sub_handler sub = handler /\ sub_type_id sub = delivery_type_id d /\
      forall common' publisher line_frames lines (q : Platform Sp Ep C) r q',
        agent_id publisher = delivery_publisher d -> Forall Reconnect.fresh (dl_attempts (pf_dialer q)) ->
        dl_dropped (pf_dialer q) = [] -> publish_lines common' publisher line_frames lines q = (r, q') ->
        connections_of (agent_id publisher) (dl_dropped (pf_dialer q')) steps ->
        request ∈ concat (draws line_frames lines (pf_rng q)).1.1.
Proof.
  intros Hstarted Hprov Hkeep w Hreach Hout.
  assert (forall f now r, Received f now r ∈ outputs -> f ∈ routed_to (agent_id agent) (ss_log (dp_streams w))) as Hrouted.
  { destruct (started_run_link _ _ _ _ _ _ _ _ _ _ Hstarted) as (Hw & _).
    assert (closed_fed w) as Hfed by by eapply started_closed_fed.
    assert (platform_feeds (.∈ routed_to (agent_id agent) (ss_log (dp_streams w))) p) as Hp.
    { eapply Forall_impl; [exact Hreach|]. intros a Ha. unfold reaches, attempt_feeds in *.
      destruct (at_connected a) as [[s|]|]; [|done..]. destruct Ha as [Hi [->|(b & Hb & Hpre)]]; (split; [done|]);
        [apply fed_nil|]. eapply fed_prefix; [exact Hpre|]. by eapply sockets_fed. }
    pose proof (program_feeds common agent _ (routed_length _ _) handler p outputs Hp Hout) as Hall.
    intros f now r Hin. rewrite Forall_forall in Hall. exact (Hall _ Hin). }
  split; [exact Hrouted|]. intros f now d Hin.
  destruct (routed_authorised _ _ _ _ _ _ _ _ _ _ _ _ Hstarted (reloads_of_own _ _ _ _ _ _ _ Hkeep) (Hrouted _ _ _ Hin))
    as (n & time & publisher & request & sub & Hn & Haa). pose proof Haa as [_ Hreq Hauth Hsub _].
  destruct (program_history _ _ _ _ _ Hout) as [rp' Hh].
  destruct (history_received _ _ _ _ _ _ _ _ Hh Hin) as (rp & f' & rp2 & Hrun).
  destruct (received_published _ _ _ _ _ _ _ _ _ _ _ _ _ Hrun Hauth Hsub
    (started_provisioned _ _ _ _ _ _ _ _ _ _ _ Hstarted Hprov Hkeep n)) as (Hpub & Hpublished & Hhandler & Hty).
  rewrite <-Hpub in Haa, Hreq. exists n, time, request, sub. split; [done|]. do 4 (split; [done|]).
  intros common' pub line_frames lines q r q' Hname Hfresh Hnone Hlines Hconn. rewrite <-Hname in Hreq.
  exact (requests_from_lines _ _ _ _ _ _ _ _ _ _ _ _ _ _ (sr_steps _ _ _ _ _ _ _ _ _ _ Hstarted)
    Hfresh Hnone Hlines Hconn Hreq).
Qed.

(** Bob's consumer at the other end of the socket of [DeploymentExample]. *)
Module EndExample.
#[export, program] Instance buffer_codec : FrameCodecLaws (HF:=TransportExample.tokio_laws) (list byte * list byte) Empty_set.
Next Obligation. intros d frame s r s' _ [= <- <-]. by exists (frame_wire frame). Qed.
Next Obligation.
  intros d [i o] frame s' _ Hrun. cbn [framed_next TransportExample.tokio fst snd] in Hrun.
  destruct (Nat.ltb_spec (length i) (4 + N.to_nat (from_be (take 4 i)))) as [|Hlen]; [done|].
  injection Hrun as <- <-. cbn [framed_input TransportExample.tokio_laws fst]. set (n := N.to_nat _) in *.
  unfold frame_wire, length_prefix. rewrite length_take, length_drop, Nat.min_l by lia.
  assert (to_be 4 (N.of_nat n) = take 4 i) as ->.
  { unfold n. rewrite N2Nat.id. assert (length (take 4 i) = 4) as Hfour by (rewrite length_take; lia).
    rewrite <-Hfour at 1. apply to_be_from_be. }
  assert (drop n (drop 4 i) = drop (4 + n) i) as Hdrop by by rewrite drop_drop.
  change (i = (take 4 i ++ take n (drop 4 i)) ++ drop (4 + n) i). by rewrite <-Hdrop, <-app_assoc, !take_drop.
Qed.
#[export, program] Instance stream_codec : FrameCodecLaws (HF:=DaemonExample.stream_laws) DaemonExample.Stream Empty_set.
Next Obligation.
  intros d frame [[|n] s] r s' _ Hrun; cbn [framed_send DaemonExample.stream TransportExample.tokio fst snd] in Hrun;
    injection Hrun as <- <-.
  - exists []. split; [apply prefix_nil|by rewrite app_nil_r].
  - by exists (frame_wire frame).
Qed.
Next Obligation.
  intros d [n s] frame s' _ Hrun. cbn [framed_next DaemonExample.stream fst snd] in Hrun.
  destruct (framed_next d s) as [r0 s0] eqn:Hnext. injection Hrun as -> <-.
  by eapply (codec_next (FrameCodecLaws:=buffer_codec)) in Hnext.
Qed.

#[local] Existing Instance Toy.crypto.
Abbreviation bob := SpecExample.bob.
Abbreviation delivery := SpecExample.delivery.

(** The keys of [ServiceExample.files]. *)
Definition agent : Agent := mkAgent bob (mkAgentKeys (vreplicate 32 x07) (vreplicate 32 x07))
  (mkCaPublicKeys (vreplicate 32 x07) (vreplicate 32 x07)).
Definition platform : Platform (list byte * list byte) Empty_set N :=
  mkPlatform 3%N (mkDialer [mkAttempt (Some (inl (frame_wire delivery, []))) None] [] []) 5%N.
Definition outputs : list (Output Empty_set) :=
  run_subscriber RunsExample.common agent 1 SpecExample.handler [] RunsExample.request platform.

Lemma reported : match outputs with
  | [Received f _ (Ok d)] => f = delivery /\ delivery_publisher d = SpecExample.alice /\ delivery_value d = [x2a]
  | _ => False
  end.
Proof. vm_compute. split_and!; reflexivity. Qed.

Lemma carried w f : DeploymentExample.bob_carries w = frame_wire f ->
  exists s, dm_sockets (dp_daemon w) !! bob = Some s /\
    framed_output (TokioFramedLaws:=DaemonExample.stream_laws) s = frame_wire f.
Proof.
  unfold DeploymentExample.bob_carries. destruct (_ !! _) as [s|]; [by exists s|]. intros Hnil. symmetry in Hnil.
  rewrite <-(app_nil_r (frame_wire f)) in Hnil. by apply frame_wire_nonempty in Hnil.
Qed.

Lemma bob_socket psk c : SpecExample.started = Ok (psk, c) ->
  exists s, dm_sockets (dp_daemon (DeploymentExample.run psk c DeploymentExample.steps)) !! bob = Some s /\
    framed_output (TokioFramedLaws:=DaemonExample.stream_laws) s = frame_wire delivery.
Proof.
  pose proof DeploymentExample.started_deploys as Hruns. intros Hs. rewrite Hs in Hruns.
  destruct Hruns as (_ & _ & _ & Hbob). exact (carried _ _ Hbob).
Qed.

Lemma attempts_reach psk c : SpecExample.started = Ok (psk, c) ->
  Forall (reaches (HF:=DaemonExample.stream_laws) (HA:=TransportExample.tokio_laws) bob
    (dp_daemon (DeploymentExample.run psk c DeploymentExample.steps))) (dl_attempts (pf_dialer platform)).
Proof.
  intros (s & Hs & Ho)%bob_socket. apply Forall_cons. split; [|by apply Forall_nil]. split; [exact I|]. right.
  exists s. split; [by right|]. by rewrite Ho.
Qed.

(** Alice's program, at the other end of hers. *)
Abbreviation alice := SpecExample.alice.
Abbreviation alice_sends := ([SpecExample.alice_sets; SpecExample.alice_publishes]).
Definition publisher : Agent := mkAgent alice (mkAgentKeys (vreplicate 32 x07) (vreplicate 32 x07))
  (mkCaPublicKeys (vreplicate 32 x07) (vreplicate 32 x07)).
Definition line_frames (line : Text) : M Rng AppError (list (list byte)) := mret alice_sends.
Definition publishing : Platform (list byte * list byte) Empty_set N :=
  mkPlatform 3%N (mkDialer [mkAttempt (Some (inl ([], []))) None] [] []) 5%N.
Definition published_lines := publish_lines RunsExample.common publisher line_frames [[x01]] publishing.

Lemma alice_connection : exists deadline, dl_dropped (pf_dialer published_lines.2) =
  [mkFramedTransport ([], (DeploymentExample.socket alice alice_sends).2.1) deadline].
Proof. eexists. vm_compute. reflexivity. Qed.

Lemma accepted_sockets peer s : AgentsDo (Accepted peer s) ∈ DeploymentExample.steps ->
  s = DeploymentExample.socket bob [SpecExample.bob_sets; SpecExample.bob_subscribes] \/
  s = DeploymentExample.socket alice alice_sends.
Proof.
  intros Hin. pose proof (proj1 (Forall_forall (fun st : DeploymentExample.Step => match st with
    | AgentsDo (Accepted _ s) => s = DeploymentExample.socket bob [SpecExample.bob_sets; SpecExample.bob_subscribes] \/
        s = DeploymentExample.socket alice alice_sends
    | _ => True end) DeploymentExample.steps)) as Hall. refine (Hall _ _ Hin). clear Hall Hin.
  apply Forall_cons. split; [left; reflexivity|]. apply Forall_cons. split; [exact I|].
  apply Forall_cons. split; [right; reflexivity|]. repeat (apply Forall_cons; split; [exact I|]). by apply Forall_nil.
Qed.

Lemma bob_hello deadline : (@receive_hello _ _ DaemonExample.stream (mkFramedTransport (DeploymentExample.socket bob
  [SpecExample.bob_sets; SpecExample.bob_subscribes]) deadline)).1 = Ok bob.
Proof. vm_compute. reflexivity. Qed.

Lemma alice_connections : connections_of (HF:=DaemonExample.stream_laws) (HP:=TransportExample.tokio_laws) alice
  (dl_dropped (pf_dialer published_lines.2)) DeploymentExample.steps.
Proof.
  destruct alice_connection as [deadline ->]. intros peer s [->| ->]%accepted_sockets (dl & t & Hrun).
  - apply (f_equal fst) in Hrun. rewrite bob_hello in Hrun. discriminate Hrun.
  - eexists. split; [by left|]. reflexivity.
Qed.
End EndExample.

Lemma received_was_published_witness :
  exists psk c f now d, SpecExample.started = Ok (psk, c) /\ EndExample.outputs = [Received f now (Ok d)] /\
    delivery_publisher d = SpecExample.alice /\ delivery_value d = [x2a] /\
    exists n time request sub, n < length DeploymentExample.steps /\
      example_authorised psk c n time SpecExample.bob SpecExample.alice request f sub /\
      published (H:=Toy.crypto) (example_service psk c n).1 (example_service psk c n).2 time request d /\
      request ∈ EndExample.alice_sends /\ sub_handler sub = SpecExample.handler.
Proof.
  destruct SpecExample.cad_starts as (psk & c & Hstart). exists psk, c.
  destruct (DeploymentExample.deploys _ _ Hstart) as (Hrun & _ & _).
  pose proof EndExample.reported as Hout.
  destruct EndExample.outputs as [|[f now [d|e|]|e] [|o os]] eqn:Heq; try contradiction Hout.
  destruct Hout as (_ & Hp & Hv). exists f, now, d. do 4 (split; [assumption || reflexivity|]).
  destruct (received_was_published (HC:=Toy.laws) (HF:=EndExample.stream_codec) (HL:=LinkStreamsExample.codec_laws)
    (H4:=HandshakeExample.sha) (HA:=EndExample.buffer_codec)
    (HP:=EndExample.buffer_codec) DeploymentExample.args SpecExample.secret
    SpecExample.config ServiceExample.files ServiceExample.disk DeploymentExample.view 0%N psk c DeploymentExample.steps
    RunsExample.common EndExample.agent SpecExample.handler EndExample.platform EndExample.outputs
    Hrun (SpecExample.bob_key _ _ Hstart) (example_reloads _ psk c) (EndExample.attempts_reach _ _ Hstart))
    as [_ Hreceived].
  - apply subscriber_outputs.
  - destruct (Hreceived f now d) as (n & time & request & sub & Hn & Haa & Hpub & Hh & _ & Hlines).
    { rewrite Heq. left. }
    specialize (Hlines RunsExample.common EndExample.publisher EndExample.line_frames [[x01]] EndExample.publishing
      EndExample.published_lines.1 EndExample.published_lines.2 (eq_sym Hp)).
    rewrite Hp in Haa. exists n, time, request, sub. split; [exact Hn|]. split; [exact Haa|]. split; [exact Hpub|].
    split; [|exact Hh]. apply Hlines; [|reflexivity|apply surjective_pairing|exact EndExample.alice_connections].
    apply Forall_cons. split; [exact (conj I eq_refl)|apply Forall_nil; exact I].
Defined.
